(* ===== verification/_CoqProject ===== *)
-Q . S2P
Prelude.v
GoStrings.v
Errors.v
Json.v
Variables.v
Data.v
Strconv.v
Flags.v
Http.v
Requests.v
TaskRunners.v
TaskRunnersFacts.v
TaskRunnersAtomic.v
Constraints.v
Forest.v
Stacks.v
InMemoryStorage.v
CassandraStorage.v
StateStorage.v
Sha1.v
UserStorage.v
MesosState.v
MesosRunner.v
Application.v
Templates.v
Goroutine.v
StorageConcurrency.v
StorageConcurrencyFacts.v
UserConcurrency.v
RunOnce.v
RunOnceFacts.v
RunOnceHistory.v
ApplicationRun.v
Deployment.v
StackRun.v
StackRunFacts.v
StackExecution.v
FrameworkStorage.v
Scheduler.v
SchedulerFacts.v
SchedulerRuns.v
Server.v
ServerFacts.v
ServerRuns.v
Client.v
Commands.v
ClientFacts.v
CommandsFacts.v
ServerStart.v
EndToEnd.v
