(* ===== verification/Prelude.v ===== *)
(** * stack-deploy

    A development about stack-deploy, a server that runs stacks of applications
    on Marathon and Mesos, and its command line client. Sources are named by
    their paths in the repository; a Definition has the name of the Go function
    it translates, with its module or file when several share the name.

    ** The program and its files

    A _stack_ is a named map of applications, with a parent it inherits from.
    The client sends requests to the HTTP API; the server keeps stacks, their
    run-time states and its users in Cassandra (or, in development mode, in
    memory), and running a stack deploys its applications in the order of their
    dependencies. A _Mesos_ application is launched by the server's own
    scheduler; any other is created in Marathon and, when its type has a _task
    runner_, the framework it is gets requests for each of its tasks.

    - [Prelude], [GoStrings], [Strconv], [Flags], [Json]: what is shared. A
      call is [M S E A := S → outcome E A * S]: it returns, reports an error or
      panics, and leaves a state in every case. The order in which Go visits a
      map is a parameter, the class [MapOrder], of which only a permutation of
      the entries is known. Strings are byte strings, floats are the binary64 of
      the Standard Library, a Go integer that can overflow is a [Z] wrapped where
      the code adds. [Flags] and [Strconv] are what the program uses of Go's
      [flag] and [strconv]; [Json] has JSON at the level of values.
    - [Errors] ([framework/errors.go]), [Data] (the structs of
      [framework/application.go], [stack.go], [docker.go], [requests.go] and the
      helpers of [util.go]), [Variables] ([framework/variables.go]).
    - [Constraints] ([constraints/constraints.go]): parsing and matching.
    - [Stacks] ([framework/stack.go] up to [Merge], [framework/layer.go]),
      [Forest], [InMemoryStorage], [CassandraStorage] ([framework/storage.go]);
      [StorageConcurrency], [StorageConcurrencyFacts]: the same operations on
      Cassandra as trees of their statements, and calls that are served at the
      same time, under the lock that only the writers take.
    - [StateStorage], [UserStorage] with [Sha1]: [framework/state_storage.go]
      and [user_storage.go], two instances each of one interface;
      [UserConcurrency]: requests about users that are served at the same time,
      which nothing keeps apart.
    - [Application], [Templates] ([framework/application.go] up to [Run], and
      [docker.go]), [ApplicationRun] (its [Run]), [MesosState].
    - [Goroutine]: code of which each action may be followed by actions of
      others, as a tree of actions, with rules to reason about it by what it
      relies on and what it guarantees. [ApplicationRun] is written so.
    - [Http], [TaskRunners], [TaskRunnersFacts]: [runners/], one module per
      file, and the tables of [main.go]; [TaskRunnersAtomic]: their work can be
      seen as one action; [Deployment] puts them into [ApplicationRun].
    - [StackRun], [StackRunFacts]: [Stack.Run], its loop and its goroutines
      reduced to the error they end with; [StackExecution]: the loop and the
      [ApplicationRun]s of all applications together, action by action.
    - [MesosRunner], [RunOnce], [RunOnceFacts], [RunOnceHistory]:
      [mesosrunners/], against the interface of [framework/task_runner.go];
      [FrameworkStorage], [Scheduler], [SchedulerFacts]:
      [framework/framework_storage.go], [scheduler.go]; [SchedulerRuns]: the
      scheduler, the run-once runner and the entries of the cron service as one
      system of events.
    - [Requests], [Server], [ServerFacts]: [framework/requests.go], [server.go];
      [ServerRuns]: the runs of several requests at the same time;
      [ServerStart]: [command/server.go].
    - [Client], [ClientFacts], [Commands], [CommandsFacts]:
      [framework/client.go], [command/] and the commands of [main.go].
    - [EndToEnd]: all of it together, from a command line to the single actions
      of the applications' runs; its example runs the whole program.

    ** How the parts meet

    A component is proved against what it promises, and the promise is proved
    of the implementations: [StateStorage.StateStorage] and
    [UserStorage.UserStorage] with their laws (two instances each; the server
    uses nothing else), [MesosTaskRunner] (its instance is [RunOnce]), [Storage]
    and [StackRunner] for the server, [Outside] for an application's run (the
    environment: Marathon, the shell, the task runners). What other
    applications do to the shared variables in between is an oracle in
    [ApplicationRun.exec], where one run is looked at, and the other goroutines
    themselves in [StackExecution], which refines [StackRun]: an invariant of
    one goroutine carries over when the others guarantee what it relies on.
    Where code runs beside other code, the shape is always the same: a step
    relation over what everyone shares and what each one has still to do, an
    invariant per participant, and a frame for what the others may write
    ([StackExecution], [StorageConcurrency], [UserConcurrency], [ServerRuns],
    [SchedulerRuns]).
    [ServerFacts] and [CommandsFacts] go from a command line to the state
    storage through [Client], [Server], [StackRun] and [StateStorage], and
    [EndToEnd] on to the executions.

    Services are classes of operations, with laws that state what a working
    service does when a theorem needs it: the tables of Cassandra, the cron
    service, the Mesos driver, the network of the task runners. The oracles see
    the log of what has been done so far, so a service may fail at any call and
    answer the same call differently later. Each hypothesis on a service has a
    concrete instance in the witness of the theorem that uses it.

    ** What is shown

    - Running ([StackRunFacts], [StackExecution], [ApplicationRun],
      [TaskRunnersFacts], [TaskRunnersAtomic], [Deployment], [ServerFacts],
      [CommandsFacts], [EndToEnd]): under every interleaving no
      application starts twice or before its dependencies run, nothing is sent
      on a closed channel, runs with satisfiable dependencies end, and a success
      - reported by [Stack.Run], by the server, or by the exit status of the
      command - means that every application is saved as running; the phases of
      one application, which are all over before a dependant is started; which
      requests a task runner sends and what its answer means; that the address
      it publishes is that of the task Marathon lists, that it leaves the
      variables of other applications alone, and that a stack run that succeeds
      saves the addresses of all of them; and runs of several stacks at the
      same time ([ServerRuns]) do not see each other.
    - Stacks ([Stacks], [InMemoryStorage], [CassandraStorage]): [Merge] refines
      the merge of values; what is inherited; both storages on every branch,
      with termination; the layers of a zone. With several calls at the same
      time ([StorageConcurrencyFacts]) the writers take turns, the table is well
      stored after each statement, no call waits for ever, and a reader finds
      the stack as it was at its call unless a removal of one of its ancestors
      overlaps.
    - Placement ([Constraints], [Application], [RunOnceFacts],
      [RunOnceHistory], [SchedulerFacts]): the placements accepted by
      constraints, the number of instances, the life of a run-once application
      and what the status its run waits for means, offers answered once; over
      all events ([SchedulerRuns]), never more tasks than instances that were
      asked for, and nothing staged after its removal from the schedule.
    - Access ([UserStorage], [ServerFacts], [ClientFacts]): keys, roles, which
      request needs which; and, whatever is asked for at the same time
      ([UserConcurrency]), no user is lost and none is promoted.
    - Text ([Templates], [StateStorage], [ClientFacts], [SchedulerFacts]):
      substitution of variables and its types, round trips through requests,
      the tables of states, and the document of the framework, which a restarted
      server ([ServerStart]) introduces itself with.
    - What goes wrong: several theorems state a defect - runs that wait forever,
      development mode and bootstrapping that never succeed, a user whose
      creation is reported as a failure, cron entries that survive their removal,
      a run that is forgotten when another one stages the same ID, a stack
      that is read while an ancestor is replaced, the same stack run twice in
      one zone, one user created twice, servers that crash on a task without ports.

    ** Fuel

    Recursion over inheritance takes a call depth: a removal returns within the
    number of stored stacks plus one, and the theorems say so; on a cycle every
    depth is exhausted, which stands for Go's stack overflow. Loops that wait
    for a service ([AwaitZookeeperRunning], [AwaitRunning]) take fuel and say
    [Waiting] when it is used up; their theorems say which answers end the wait,
    and that no fuel is enough otherwise; in a deployment a runner that waits
    for ever never gives its goroutine back, which is written as a panic.
    [Stack.Run] is a relation, and its termination is a bound on the number of
    steps; with the actions of its goroutines the bound depends on the answers,
    and termination is well-foundedness, as it is with concurrent calls of the
    storage. Every other loop is structural.

    ** Conventions

    The text of an error made by Go's library is abbreviated to its constant
    part; an error of the program's own has its full text. When a JSON object
    has a key twice the last one counts. Mutexes make an operation atomic, which
    is how it is modelled - [StorageConcurrencyFacts] proves it of the storage
    in Cassandra, whose statements others may come between; so are reading all
    variables and printing them, which take no lock, so that Go may stop a
    process that sets one meanwhile; [Application.Run], which takes none, meets
    other applications between its actions. One substitution of variables is one
    action, as is one call of a task runner. [Server] serves one request
    at a time; what requests that are served at the same time do to each other
    is in [StorageConcurrency] for the stacks in Cassandra, in [UserConcurrency]
    for the users and in [ServerRuns] for the states of the stacks that run. Log messages are left out.

    ** Not modelled

    [main], which hands its arguments to a package that picks the command;
    [framework/run_context.go], a record whose fields are passed one by one; the
    texts of YAML and JSON documents (readers and printers are parameters);
    connecting to ZooKeeper; callbacks of the scheduler that only log; the lines
    a log gets. Time passes only where the program asks for it: pauses are actions, and timers are asked whether they
    have fired. *)
From stdpp Require Export base gmap sets list strings pretty.
From stdpp Require Export ssreflect.
#[export] Set Warnings "-rewrite-rw".


(** ** Outcomes of Go functions

    A Go function that returns an [error] beside its result either returns a
    result ([Ret]), returns a non-nil error ([Err]) or panics ([Panic]). *)

Inductive outcome (E A : Type) : Type :=
| Ret (a : A)
| Err (e : E)
| Panic (msg : string).
Arguments Ret {E A} a.
Arguments Err {E A} e.
Arguments Panic {E A} msg.

#[export] Instance outcome_mret E : MRet (outcome E) := λ A a, Ret a.
#[export] Instance outcome_mbind E : MBind (outcome E) := λ A B f m,
  match m with
  | Ret a => f a
  | Err e => Err e
  | Panic s => Panic s
  end.
#[export] Instance outcome_fmap E : FMap (outcome E) := λ A B f m,
  match m with
  | Ret a => Ret (f a)
  | Err e => Err e
  | Panic s => Panic s
  end.

(** [is_ret o]: the call returned a nil error. *)
Definition is_ret {E A} (o : outcome E A) : bool :=
  match o with Ret _ => true | _ => false end.

(** Code that threads a mutable state [S] and may fail or panic; whatever was
    written before the failure stays written. *)
Definition M (S E A : Type) : Type := S → outcome E A * S.

#[export] Instance M_mret S E : MRet (M S E) := λ A a s, (Ret a, s).
#[export] Instance M_mbind S E : MBind (M S E) := λ A B f m s,
  match m s with
  | (Ret a, s') => f a s'
  | (Err e, s') => (Err e, s')
  | (Panic p, s') => (Panic p, s')
  end.

Definition get_state {S E} : M S E S := λ s, (Ret s, s).
Definition put_state {S E} (s : S) : M S E unit := λ _, (Ret tt, s).
Definition fail {S E A} (e : E) : M S E A := λ s, (Err e, s).
Definition panic {S E A} (p : string) : M S E A := λ s, (Panic p, s).
Definition lift {S E A} (o : outcome E A) : M S E A := λ s, (o, s).
(** [catch m]: run [m] and look at its result instead of propagating it, for
    code of the form [_ = f()] and [if err == nil]. A panic still unwinds. *)
Definition catch {S E A} (m : M S E A) : M S E (E + A) := λ s,
  match m s with
  | (Ret a, s') => (Ret (inr a), s')
  | (Err e, s') => (Ret (inl e), s')
  | (Panic p, s') => (Panic p, s')
  end.

(** [for_each f l]: a Go loop over [l] that stops at the first error. *)
Fixpoint for_each {S E A} (f : A → M S E unit) (l : list A) : M S E unit :=
  match l with
  | [] => mret tt
  | a :: l' => f a ;; for_each f l'
  end.

(** [collect f l]: the results of a loop over [l]. *)
Fixpoint collect {S E A B} (f : A → M S E B) (l : list A) : M S E (list B) :=
  match l with
  | [] => mret []
  | a :: l' => b ← f a; bs ← collect f l'; mret (b :: bs)
  end.

Section monad_laws.
Context {S E : Type}.

Lemma M_bind_ret {A B} (a : A) (f : A → M S E B) s :
  (mret a ≫= f) s = f a s.
Proof. reflexivity. Qed.

Lemma M_bind_ret_inv {A B} (m : M S E A) (f : A → M S E B) s b s' :
  (m ≫= f) s = (Ret b, s') →
  ∃ a s1, m s = (Ret a, s1) ∧ f a s1 = (Ret b, s').
Proof.
  rewrite /mbind /M_mbind. destruct (m s) as [[a|e|p] s1]; naive_solver.
Qed.

Lemma M_bind_fail_inv {A B} (m : M S E A) (f : A → M S E B) s e s' :
  (m ≫= f) s = (Err e, s') →
  m s = (Err e, s') ∨ ∃ a s1, m s = (Ret a, s1) ∧ f a s1 = (Err e, s').
Proof.
  rewrite /mbind /M_mbind. destruct (m s) as [[a|e'|p] s1]; naive_solver.
Qed.

(** An invariant of the state kept by every step of a loop is kept by the
    loop. *)
Lemma for_each_inv {A} (P : S → Prop) (f : A → M S E unit) l s :
  (∀ a s, a ∈ l → P s → P (f a s).2) → P s → P (for_each f l s).2.
Proof.
  revert s. induction l as [|a l IH]; intros s Hf HP; simpl; [done|].
  rewrite /mbind /M_mbind.
  pose proof (Hf a s (list_elem_of_here _ _) HP) as HP'.
  destruct (f a s) as [[[]|e|p] s1]; simpl in *; [|done..].
  apply IH; [|done]. intros b s2 Hb. apply Hf. by apply list_elem_of_further.
Qed.

Lemma catch_ret_inv {A} (m : M S E A) s x s' :
  catch m s = (Ret (inr x), s') → m s = (Ret x, s').
Proof. rewrite /catch. destruct (m s) as [[a|e|p] s1]; [|done..]. by intros [= <- <-]. Qed.
End monad_laws.

(** ** What code leaves alone

    [keeps look m]: whatever [m] does, it leaves what [look] sees of the state
    as it is. *)
Section keeps.
Context {S E X : Type} (look : S → X).

Definition keeps {A} (m : M S E A) : Prop := ∀ s, look (m s).2 = look s.

Lemma keeps_bind {A B} (m : M S E A) (f : A → M S E B) :
  keeps m → (∀ x, keeps (f x)) → keeps (m ≫= f).
Proof.
  intros Hm Hf s. specialize (Hm s). rewrite /mbind /M_mbind.
  destruct (m s) as [[x|e|p] s1]; simpl in *; [|done..]. by rewrite (Hf x s1).
Qed.
Lemma keeps_bind_post {A B} (Q : A → Prop) (m : M S E A) (f : A → M S E B) :
  keeps m → (∀ s x, (m s).1 = Ret x → Q x) → (∀ x, Q x → keeps (f x)) → keeps (m ≫= f).
Proof.
  intros Hm HQ Hf s. specialize (Hm s). specialize (HQ s). rewrite /mbind /M_mbind.
  destruct (m s) as [[x|e|p] s1]; simpl in *; [|done..]. by rewrite (Hf x (HQ x eq_refl) s1).
Qed.
Lemma keeps_ret {A} (x : A) : keeps (mret x).
Proof. done. Qed.
Lemma keeps_lift {A} (o : outcome E A) : keeps (lift o).
Proof. done. Qed.
Lemma keeps_fail {A} (e : E) : keeps (fail (A := A) e).
Proof. done. Qed.
Lemma keeps_panic {A} p : keeps (panic (A := A) p).
Proof. done. Qed.
Lemma keeps_catch {A} (m : M S E A) : keeps m → keeps (catch m).
Proof.
  intros Hm s. specialize (Hm s). rewrite /catch. by destruct (m s) as [[x|e|p] s1].
Qed.
Lemma keeps_for_each {A} (f : A → M S E unit) l : (∀ x, keeps (f x)) → keeps (for_each f l).
Proof. intros Hf. induction l as [|x l IH]; [done|]. by apply keeps_bind. Qed.
Lemma keeps_collect {A B} (f : A → M S E B) l : (∀ x, keeps (f x)) → keeps (collect f l).
Proof.
  intros Hf. induction l as [|x l IH]; [done|]. apply keeps_bind; [done|]. intros b.
  by apply keeps_bind.
Qed.
End keeps.

(** ** Iteration over Go maps

    Go leaves the order of [for k, v := range m] unspecified. The order is an
    oracle: [range d m] is the sequence in which the [d]-th range statement of
    a function visits [m]. Every theorem is proved for all oracles. *)

Class MapOrder := {
  range : nat → ∀ {A : Type}, gmap string A → list (string * A);
  range_perm : ∀ d A (m : gmap string A), range d m ≡ₚ map_to_list m
}.

(** The oracle that visits the keys in the order of the underlying trie. *)
Definition canonical_order : MapOrder :=
  {| range := λ _ A m, map_to_list m; range_perm := λ _ A m, reflexivity _ |}.
(** The same trie visited backwards, to exhibit order-dependent behaviour. *)
Program Definition reversed_order : MapOrder :=
  {| range := λ _ A m, reverse (map_to_list m) |}.
Next Obligation. intros d A m. apply reverse_Permutation. Qed.

Section ranges.
Context `{ord : MapOrder}.

Lemma elem_of_range {A} d (m : gmap string A) k x :
  (k, x) ∈ range d m ↔ m !! k = Some x.
Proof. by rewrite range_perm elem_of_map_to_list. Qed.

Lemma range_nil {A} d (m : gmap string A) : range d m = [] ↔ m = ∅.
Proof.
  rewrite -map_to_list_empty_iff -!Permutation_nil_r.
  by rewrite range_perm.
Qed.

Lemma NoDup_range_keys {A} d (m : gmap string A) : NoDup (range d m).*1.
Proof. rewrite range_perm. apply NoDup_fst_map_to_list. Qed.

Lemma length_range {A} d (m : gmap string A) : length (range d m) = size m.
Proof. rewrite range_perm. apply length_map_to_list. Qed.

(** Setting every entry of a range in an empty map copies the map. *)
Lemma list_to_map_range {A} d (m : gmap string A) :
  list_to_map (range d m) = m.
Proof.
  rewrite -{2}(list_to_map_to_list m).
  apply list_to_map_proper; [apply NoDup_range_keys|apply range_perm].
Qed.
End ranges.

(** [insert_all l m]: the loop [for k, v := range l { m[k] = v }]. *)
Definition insert_all {A} (l : list (string * A)) (m : gmap string A) :
    gmap string A :=
  foldl (λ m '(k, v), <[k := v]> m) m l.

Lemma insert_all_lookup {A} (l : list (string * A)) m k :
  NoDup l.*1 →
  insert_all l m !! k =
    match (list_to_map l : gmap string A) !! k with
    | Some v => Some v
    | None => m !! k
    end.
Proof.
  revert m. induction l as [|[k' v] l IH]; intros m Hnd; simpl.
  { by rewrite lookup_empty. }
  apply NoDup_cons in Hnd as [Hk' Hnd].
  rewrite /insert_all /= -/(insert_all l _) IH //.
  destruct (decide (k = k')) as [->|Hne].
  - rewrite lookup_insert_eq (not_elem_of_list_to_map_1 _ _ Hk').
    by rewrite lookup_insert_eq.
  - by rewrite !lookup_insert_ne.
Qed.

(** The same loop over a range of a map is a left-biased union. *)
Lemma insert_all_range `{ord : MapOrder} {A} d (m m0 : gmap string A) :
  insert_all (range d m) m0 = m ∪ m0.
Proof.
  apply map_eq. intros k. rewrite insert_all_lookup; [|apply NoDup_range_keys].
  rewrite list_to_map_range lookup_union. by destruct (m !! k), (m0 !! k).
Qed.

Lemma union_empty_r {A} (m : gmap string A) : m ∪ ∅ = m.
Proof. apply (right_id_L ∅ (∪)). Qed.
Lemma union_empty_l {A} (m : gmap string A) : ∅ ∪ m = m.
Proof. apply (left_id_L ∅ (∪)). Qed.

(** An insertion on the right of a union is hidden by an entry on the left. *)
Lemma union_insert_hidden {A} (m1 m2 : gmap string A) k x :
  is_Some (m1 !! k) → m1 ∪ <[k := x]> m2 = m1 ∪ m2.
Proof.
  intros [y Hy]. apply map_eq. intros j. rewrite !lookup_union.
  destruct (decide (k = j)) as [<-|]; [|by rewrite lookup_insert_ne].
  rewrite Hy. by destruct (m2 !! k), (<[k := x]> m2 !! k).
Qed.

(** ** Automation *)

Create HintDb godb.
Create Rewrite HintDb gorw.
#[export] Hint Rewrite @insert_all_range @list_to_map_range
  @union_empty_r @union_empty_l @length_range : gorw.
#[export] Hint Resolve NoDup_range_keys length_range list_elem_of_here list_elem_of_further : godb.

Create HintDb keepdb.
#[export] Hint Resolve keeps_ret keeps_lift keeps_fail keeps_panic keeps_catch : keepdb.
(** Prove [keeps look m] along the structure of [m], with the hints for the
    calls it makes. *)
Ltac keep :=
  intros; cbv beta zeta;
  lazymatch goal with
  | |- keeps _ (_ ≫= _) => apply keeps_bind; [keep|keep]
  | |- keeps _ (for_each _ _) => apply keeps_for_each; keep
  | |- keeps _ (collect _ _) => apply keeps_collect; keep
  | |- keeps _ (match ?x with _ => _ end) => destruct x; keep
  | |- _ => eauto with keepdb
  end.

(** Split the first [match] or [if] of the goal. *)
Ltac split_match :=
  match goal with
  | |- context [match ?x with _ => _ end] => destruct x eqn:?
  end.
(** Run the monadic code of the goal one step at a time. *)
Ltac run_m :=
  repeat (rewrite /mbind /M_mbind /mret /M_mret /fail /panic /lift /catch
            /get_state /put_state /=).
Ltac run_m_in H :=
  rewrite /mbind /M_mbind /mret /M_mret /fail /panic /lift /catch
          /get_state /put_state /= in H.
