(* ===== verification/GoStrings.v ===== *)
(** The parts of Go's [strings], [strconv], [fmt] and [regexp] packages that
    the program uses, on byte strings, and what the other files need to know
    about them. *)
From S2P Require Import Prelude.
From Stdlib Require Import ZArith Ascii Lia.
Open Scope string_scope.
Open Scope list_scope.

(** [strings.HasPrefix(s, p)]. *)
Definition HasPrefix (s p : string) : bool := String.prefix p s.

(** The bytes of [s] from position [n] on, [s[n:]]. *)
Fixpoint drop_str (n : nat) (s : string) : string :=
  match n, s with
  | O, _ => s
  | S n', String _ s' => drop_str n' s'
  | S _, EmptyString => EmptyString
  end.

(** The first [n] bytes of [s], [s[:n]]. *)
Fixpoint take_str (n : nat) (s : string) : string :=
  match n, s with
  | O, _ => EmptyString
  | S n', String c s' => String c (take_str n' s')
  | S _, EmptyString => EmptyString
  end.

(** [strings.HasSuffix(s, p)]. *)
Definition HasSuffix (s p : string) : bool :=
  (String.length p <=? String.length s)%nat &&
  String.eqb (drop_str (String.length s - String.length p) s) p.

(** [strings.Index(s, sep)], with [None] for Go's [-1]. *)
Fixpoint Index (s sep : string) : option nat :=
  if String.prefix sep s then Some O
  else match s with
       | EmptyString => None
       | String _ s' => S <$> Index s' sep
       end.

(** [strings.Contains(s, sep)]. *)
Definition Contains (s sep : string) : bool :=
  match Index s sep with Some _ => true | None => false end.

(** [strings.SplitN(s, sep, 2)] for a non-empty [sep]. *)
Definition SplitN2 (s sep : string) : list string :=
  match Index s sep with
  | None => [s]
  | Some i => [take_str i s; drop_str (i + String.length sep) s]
  end.

(** [strings.Join(l, sep)]. *)
Definition Join (l : list string) (sep : string) : string := String.concat sep l.

(** [strings.Replace(s, old, new, -1)] for a non-empty [old]: the leftmost
    non-overlapping occurrences. [skip] counts the bytes of an occurrence that
    are still to be dropped. *)
Fixpoint replace_from (old new : string) (skip : nat) (s : string) : string :=
  match s with
  | EmptyString => EmptyString
  | String c s' =>
      match skip with
      | S k => replace_from old new k s'
      | O =>
          if String.prefix old s
          then new +:+ replace_from old new (String.length old - 1) s'
          else String c (replace_from old new O s')
      end
  end.
Definition Replace (s old new : string) : string := replace_from old new O s.

(** ** Decimal integers *)

(** [fmt.Sprint(n)] and the verb [%d] for an [int]. *)
Definition Itoa (n : Z) : string := pretty n.

Definition digit_value (c : ascii) : option Z :=
  let n := Z.of_nat (Ascii.nat_of_ascii c) in
  if (48 <=? n)%Z && (n <=? 57)%Z then Some (n - 48)%Z else None.

(** The digits of an unsigned decimal literal, most significant first. *)
Fixpoint parse_digits (s : string) (acc : Z) : option Z :=
  match s with
  | EmptyString => Some acc
  | String c s' =>
      d ← digit_value c;
      parse_digits s' (acc * 10 + d)%Z
  end.

Definition min_int64 : Z := (- 2 ^ 63)%Z.
Definition max_int64 : Z := (2 ^ 63 - 1)%Z.
Definition in_int64 (n : Z) : bool := (min_int64 <=? n)%Z && (n <=? max_int64)%Z.

(** The result of [int] arithmetic. *)
Definition wrap_int64 (n : Z) : Z := ((n + 2 ^ 63) mod 2 ^ 64 - 2 ^ 63)%Z.

(** [strconv.Atoi]: an optional sign, at least one decimal digit and nothing
    else, within the range of a 64-bit [int]; [None] for a syntax or range
    error. *)
Definition Atoi (s : string) : option Z :=
  let unsigned (s : string) :=
    match s with EmptyString => None | _ => parse_digits s 0 end in
  n ← match s with
      | String "-"%char s' => Z.opp <$> unsigned s'
      | String "+"%char s' => unsigned s'
      | _ => unsigned s
      end;
  if in_int64 n then Some n else None.

(** ** The variable pattern

    [regexp.MustCompile("\$\{.*\}").FindString]: the leftmost ["${"] that has a
    closing brace on the same line, up to the last closing brace of that
    line. *)

Definition newline : ascii := Ascii.ascii_of_nat 10.

(** The longest prefix of the current line that ends with a closing brace. *)
Fixpoint upto_last_brace (s : string) : option string :=
  match s with
  | EmptyString => None
  | String c s' =>
      if Ascii.eqb c newline then None
      else match upto_last_brace s' with
           | Some r => Some (String c r)
           | None => if Ascii.eqb c "}" then Some "}" else None
           end
  end.

Fixpoint find_variable (s : string) : string :=
  match s with
  | String c s' =>
      match (if Ascii.eqb c "$" then
               match s' with
               | String "{"%char s'' => upto_last_brace s''
               | _ => None
               end
             else None) with
      | Some r => "${" +:+ r
      | None => find_variable s'
      end
  | EmptyString => EmptyString
  end.

Lemma str_app_assoc (s t u : string) : s +:+ (t +:+ u) = (s +:+ t) +:+ u.
Proof. induction s as [|c s IH]; [done|]. exact (f_equal (String c) IH). Qed.
Lemma str_app_nil_r (s : string) : s +:+ "" = s.
Proof. induction s as [|c s IH]; [done|]. exact (f_equal (String c) IH). Qed.

Lemma str_length_app (s t : string) :
  String.length (s +:+ t) = (String.length s + String.length t)%nat.
Proof. induction s as [|c s IH]; [done|]. exact (f_equal S IH). Qed.
Lemma take_str_app s t : take_str (String.length s) (s +:+ t) = s.
Proof. induction s as [|c s IH]; [by destruct t|]. exact (f_equal (String c) IH). Qed.
Lemma drop_str_app s t : drop_str (String.length s) (s +:+ t) = t.
Proof. induction s as [|c s IH]; [by destruct t|]. exact IH. Qed.

Lemma str_app_inv (s t u : string) : s +:+ t = s +:+ u → t = u.
Proof. induction s as [|c s IH]; [done|]. intros [= Hs]. by apply IH. Qed.
Lemma Itoa_inj i j : Itoa i = Itoa j → i = j.
Proof. apply (inj pretty). Qed.

(** Suffixes of the same length. *)
Lemma str_app_inv_suffix (s t u v : string) :
  s +:+ t = u +:+ v → String.length t = String.length v → s = u ∧ t = v.
Proof.
  intros Heq Hlen. assert (String.length s = String.length u) as Hl.
  { apply (f_equal String.length) in Heq. rewrite !str_length_app in Heq. lia. }
  revert u Heq Hl. induction s as [|c s IH]; intros [|d u] Heq Hl; [done|done|done|].
  injection Heq as -> Heq. injection Hl as Hl. by destruct (IH u Heq Hl) as [-> ->].
Qed.

Lemma str_prefix_cons a p b s :
  String.prefix (String a p) (String b s) = Ascii.eqb a b && String.prefix p s.
Proof.
  cbn [String.prefix]. destruct (ascii_dec a b) as [->|Hne]; [by rewrite Ascii.eqb_refl|].
  destruct (Ascii.eqb_spec a b); [done|done].
Qed.

Lemma str_prefix_app p s : String.prefix p (p +:+ s) = true.
Proof.
  induction p as [|c p IH]; [by destruct s|].
  change (String c p +:+ s) with (String c (p +:+ s)). by rewrite str_prefix_cons Ascii.eqb_refl.
Qed.
Lemma str_prefix_inv p s : String.prefix p s = true → ∃ t, s = p +:+ t.
Proof.
  revert s. induction p as [|c p IH]; intros s; [by exists s|].
  destruct s as [|b s]; [done|]. rewrite str_prefix_cons.
  intros [->%Ascii.eqb_eq [t ->]%IH]%andb_true_iff. by exists t.
Qed.

(** ** [Atoi] reads back what [Itoa] prints *)
Lemma digit_char (n : N) : (n < 10)%N → digit_value (pretty_N_char n) = Some (Z.of_N n).
Proof.
  intros Hn. destruct n as [|p]; [done|].
  do 4 (destruct p as [p|p|]; try done); lia.
Qed.

Lemma parse_pretty (x : N) s :
  parse_digits (pretty_N_go x s) 0 = parse_digits s (Z.of_N x).
Proof.
  revert s. induction (N.lt_wf_0 x) as [x _ IH]. intros s.
  destruct (decide (x = 0)%N) as [->|Hx]; [by rewrite pretty_N_go_0|].
  rewrite pretty_N_go_step; [|lia]. rewrite IH; [|apply N.div_lt; lia].
  cbn [parse_digits]. rewrite digit_char; [|apply N.mod_lt; lia]. simpl. f_equal.
  pose proof (N.div_mod x 10). lia.
Qed.

Lemma pretty_unsigned (x : N) :
  parse_digits (pretty x) 0 = Some (Z.of_N x) ∧ pretty x ≠ "" ∧
  (∀ s, pretty x ≠ String "-" s) ∧ (∀ s, pretty x ≠ String "+" s).
Proof.
  assert (parse_digits (pretty x) 0 = Some (Z.of_N x)) as Hp.
  { rewrite /pretty /pretty_N. case_decide as Hx; [by rewrite Hx|]. apply parse_pretty. }
  split_and!; [done| |by intros s Hs; rewrite Hs in Hp..].
  intros Hs. destruct (decide (x = 0)%N) as [->|Hx]; [done|]. rewrite Hs /= in Hp. injection Hp. lia.
Qed.

(** Every [int] survives being printed and parsed. *)
Lemma Atoi_Itoa n : in_int64 n = true → Atoi (Itoa n) = Some n.
Proof.
  intros Hn. rewrite /Atoi /Itoa. destruct n as [|p|p].
  - done.
  - destruct (pretty_unsigned (Npos p)) as (Hp & Hne & Hm & Hplus). change (pretty (Zpos p)) with (pretty (Npos p)).
    destruct (pretty (Npos p)) as [|c s] eqn:E; [done|].
    assert (c ≠ "-"%char) as Hc1 by (intros ->; by apply (Hm s)).
    assert (c ≠ "+"%char) as Hc2 by (intros ->; by apply (Hplus s)).
    assert (match String c s with
            | String "-"%char s' => Z.opp <$> match s' with EmptyString => None | _ => parse_digits s' 0 end
            | String "+"%char s' => match s' with EmptyString => None | _ => parse_digits s' 0 end
            | _ => match String c s with EmptyString => None | _ => parse_digits (String c s) 0 end
            end = Some (Zpos p)) as ->; [|by rewrite /= Hn].
    rewrite Hp. destruct c as [[] [] [] [] [] [] [] []]; done.
  - destruct (pretty_unsigned (Npos p)) as (Hp & Hne & _).
    change (pretty (Zneg p)) with (String "-" (pretty (Npos p))). simpl.
    destruct (pretty (Npos p)) as [|c s] eqn:E; [done|]. rewrite Hp /=. by rewrite Hn.
Qed.

Example Replace_ex : Replace "a${x}b${x}" "${x}" "1" = "a1b1".
Proof. reflexivity. Qed.
Example Atoi_ex :
  (Atoi "34", Atoi "-1", Atoi "+7", Atoi "", Atoi "bar", Atoi "9223372036854775808")
  = (Some 34, Some (-1), Some 7, None, None, None)%Z.
Proof. vm_compute. reflexivity. Qed.
Example find_variable_ex :
  (find_variable "./s --p ${foo} x", find_variable "${a} ${b} c", find_variable "${a")
  = ("${foo}", "${a} ${b}", "").
Proof. reflexivity. Qed.
Example SplitN2_ex : SplitN2 "zk:a:b" ":" = ["zk"; "a:b"].
Proof. reflexivity. Qed.
Example HasSuffix_ex : (HasSuffix "ab/" "/", HasSuffix "ab" "/") = (true, false).
Proof. reflexivity. Qed.
