(* ===== verification/Errors.v ===== *)
(** The error values of [framework/errors.go], as data: a sentinel is compared
    by identity in Go, so each one is a constructor; every error built with
    [fmt.Errorf] or [errors.New] at its use is [Errorf] of its text. *)
From S2P Require Import Prelude GoStrings.
Open Scope string_scope.
Open Scope list_scope.

Inductive error : Type :=
| ErrApplicationNoType
| ErrApplicationNoTaskRunner
| ErrApplicationNoID
| ErrApplicationInvalidCPU
| ErrApplicationInvalidMem
| ErrApplicationInvalidInstances
| ErrApplicationDoesNotExist
| ErrTaskNotRunning
| ErrHealthcheckNotPassing
| ErrStackStateExists
| ErrStackStateDoesNotExist
| Errorf (msg : string).

#[export] Instance error_eq_dec : EqDecision error.
Proof. solve_decision. Defined.

(** The method [Error() string]. *)
Definition Error (e : error) : string :=
  match e with
  | ErrApplicationNoType => "No application type"
  | ErrApplicationNoTaskRunner => "No task runner available for application"
  | ErrApplicationNoID => "No application ID"
  | ErrApplicationInvalidCPU => "Invalid application CPU"
  | ErrApplicationInvalidMem => "Invalid application Mem"
  | ErrApplicationInvalidInstances =>
      "Invalid number of application instances: supported are numbers greater than zero and 'all'"
  | ErrApplicationDoesNotExist => "Application does not exist"
  | ErrTaskNotRunning => "Task is not running"
  | ErrHealthcheckNotPassing => "Task healthcheck is not passing"
  | ErrStackStateExists => "Stack state already exists"
  | ErrStackStateDoesNotExist => "Stack state does not exist"
  | Errorf msg => msg
  end.

Abbreviation result := (outcome error).

(** An answer of the outside: an error or a value. *)
Definition from_sum {A} (r : error + A) : result A :=
  match r with inl e => Err e | inr a => Ret a end.

(** The message of a run-time panic on a nil pointer. *)
Definition nil_dereference : string :=
  "runtime error: invalid memory address or nil pointer dereference".
(** The message of a run-time panic on an index out of range. *)
Definition index_out_of_range : string := "runtime error: index out of range".

(** The refusal of [remove] in both stack storages. *)
Definition dependants (name : string) (children : list string) : error :=
  Errorf ("There are stacks depending on " +:+ name +:+
          ". Either remove them first or force deletion. Dependant stacks:" +:+
          String newline (Join children (String newline ""))).
(** The error of [GetLayer] in both. *)
Definition no_layer (name : string) (level : Z) : error :=
  Errorf ("Can't create layer " +:+ name +:+ " with level " +:+ Itoa level).
(** What a goroutine whose recursion does not end dies of. *)
Definition overflow : string := "stack overflow".
