(* ===== verification/Json.v ===== *)
(** JSON documents at the level of [encoding/json]'s values: the text of a
    document is not modelled, only the value it denotes. [None] where the code
    reads a document stands for bytes that are not JSON. *)
From S2P Require Import Prelude GoStrings Errors.
Open Scope string_scope.
Open Scope list_scope.

Inductive json : Type :=
| JNull
| JBool (b : bool)
| JNum (literal : string)
| JStr (s : string)
| JArr (l : list json)
| JObj (fields : list (string * json)).

(** A JSON object as Go decodes it into a map: the last of two equal keys
    wins. *)
Definition fields_map (fields : list (string * json)) : gmap string json :=
  insert_all fields ∅.

(** The member [k] of a decoded object, JSON [null] for an absent one. *)
Definition field (k : string) (m : gmap string json) : json :=
  default JNull (m !! k).

(** [json.Unmarshal] into [map[string]interface{}]. *)
Definition decode_object (doc : option json) : result (gmap string json) :=
  match doc with
  | Some (JObj fs) => Ret (fields_map fs)
  | Some JNull => Ret ∅
  | Some _ => Err (Errorf "json: cannot unmarshal into Go value")
  | None => Err (Errorf "invalid character")
  end.

(** [json.Unmarshal] of a member into a [string]: [null] leaves the zero
    value. *)
Definition decode_string (j : json) : result string :=
  match j with
  | JStr s => Ret s
  | JNull => Ret ""
  | _ => Err (Errorf "json: cannot unmarshal into Go value of type string")
  end.

(** [json.Unmarshal] of a member into an [int]. *)
Definition decode_int (j : json) : result Z :=
  match j with
  | JNum s => match Atoi s with
              | Some n => Ret n
              | None => Err (Errorf "json: cannot unmarshal into Go value of type int")
              end
  | JNull => Ret 0%Z
  | _ => Err (Errorf "json: cannot unmarshal into Go value of type int")
  end.

Definition decode_bool (j : json) : result bool :=
  match j with
  | JBool b => Ret b
  | JNull => Ret false
  | _ => Err (Errorf "json: cannot unmarshal into Go value of type bool")
  end.

(** [json.Unmarshal] of an object member by member. *)
Fixpoint decode_fields {A} (dec : json → result A) (l : list (string * json)) :
    result (list (string * A)) :=
  match l with
  | [] => Ret []
  | (k, j) :: l' =>
      a ← dec j;
      r ← decode_fields dec l';
      Ret ((k, a) :: r)
  end.

(** [json.Unmarshal] into a [map[string]T]; [null] gives the empty map. *)
Definition decode_map {A} (dec : json → result A) (j : json) :
    result (gmap string A) :=
  match j with
  | JObj fs => l ← decode_fields dec fs; Ret (insert_all l ∅)
  | JNull => Ret ∅
  | _ => Err (Errorf "json: cannot unmarshal into Go value of type map")
  end.

(** [json.Marshal] of a [map[string]T]. Go writes the keys sorted; the order
    has no bearing on the value denoted, so it is left to the map. *)
Definition encode_map {A} (enc : A → json) (m : gmap string A) : json :=
  JObj (prod_map id enc <$> map_to_list m).

Lemma decode_fields_encode {A} (enc : A → json) (dec : json → result A) l :
  (∀ a, dec (enc a) = Ret a) →
  decode_fields dec (prod_map id enc <$> l) = Ret l.
Proof.
  intros H. induction l as [|[k a] l IH]; simpl; [done|].
  by rewrite H /= IH.
Qed.

Lemma insert_all_map_to_list {A} (m : gmap string A) :
  insert_all (map_to_list m) ∅ = m.
Proof.
  apply map_eq. intros k. rewrite insert_all_lookup.
  - rewrite list_to_map_to_list lookup_empty. by destruct (m !! k).
  - apply NoDup_fst_map_to_list.
Qed.

(** Decoding an encoded map gives the map back. *)
Lemma decode_encode_map {A} (enc : A → json) (dec : json → result A) m :
  (∀ a, dec (enc a) = Ret a) → decode_map dec (encode_map enc m) = Ret m.
Proof.
  intros H. rewrite /decode_map /encode_map (decode_fields_encode _ _ _ H) /=.
  by rewrite insert_all_map_to_list.
Qed.
