(* ===== verification/Variables.v ===== *)
(** The stack context, [framework/variables.go]: three maps of variables with
    a precedence, and their JSON form. The mutex of the Go struct only makes
    each operation atomic; here every operation is one function of the value. *)
From S2P Require Import Prelude GoStrings Errors Json.
Open Scope string_scope.
Open Scope list_scope.

Record Variables : Type := MkVariables {
  stackVariables : gmap string string;
  arbitraryVariables : gmap string string;
  globalVariables : gmap string string
}.

Definition NewVariables : Variables := MkVariables ∅ ∅ ∅.

Definition SetStackVariable (key value : string) (v : Variables) : Variables :=
  MkVariables (<[key := value]> (stackVariables v))
    (arbitraryVariables v) (globalVariables v).

Definition SetArbitraryVariable (key value : string) (v : Variables) : Variables :=
  MkVariables (stackVariables v)
    (<[key := value]> (arbitraryVariables v)) (globalVariables v).

Definition SetGlobalVariable (key value : string) (v : Variables) : Variables :=
  MkVariables (stackVariables v) (arbitraryVariables v)
    (<[key := value]> (globalVariables v)).

Definition Get (key : string) (v : Variables) : result string :=
  match stackVariables v !! key with
  | Some value => Ret value
  | None =>
      match arbitraryVariables v !! key with
      | Some value => Ret value
      | None =>
          match globalVariables v !! key with
          | Some value => Ret value
          | None => Err (Errorf ("Key " +:+ key +:+ " is not present"))
          end
      end
  end.

Definition MustGet (key : string) (v : Variables) : result string :=
  match Get key v with
  | Ret value => Ret value
  | Err e => Panic (Error e)
  | Panic p => Panic p
  end.

Section all.
Context `{ord : MapOrder}.

(** [All]: three ranges that write into one map, the later ones over the
    earlier. *)
Definition All (v : Variables) : gmap string string :=
  let allVariables := insert_all (range 0 (globalVariables v)) ∅ in
  let allVariables := insert_all (range 1 (arbitraryVariables v)) allVariables in
  insert_all (range 2 (stackVariables v)) allVariables.

(** The three loops of [UnmarshalJSON] and of the request handlers. *)
Definition set_all (set : string → string → Variables → Variables)
    (l : list (string * string)) (v : Variables) : Variables :=
  foldl (λ v '(key, value), set key value v) v l.

Definition encode_string_map (m : gmap string string) : json :=
  encode_map JStr m.

Definition MarshalJSON (v : Variables) : json :=
  encode_map encode_string_map
    (<["StackVariables" := stackVariables v]>
       (<["ArbitraryVariables" := arbitraryVariables v]>
          {["GlobalVariables" := globalVariables v]})).

Definition UnmarshalJSON (data : option json) (v : Variables) : result Variables :=
  match data with
  | None => Err (Errorf "invalid character")
  | Some j =>
      ctx ← decode_map (decode_map decode_string) j;
      let at_key k := default ∅ (ctx !! k) in
      let v := set_all SetStackVariable (range 0 (at_key "StackVariables")) v in
      let v := set_all SetArbitraryVariable (range 1 (at_key "ArbitraryVariables")) v in
      Ret (set_all SetGlobalVariable (range 2 (at_key "GlobalVariables")) v)
  end.
End all.

(** ** Facts *)

Section facts.
Context `{ord : MapOrder}.

(** The three maps, the stack variables over the arbitrary ones over the
    global ones. *)
Lemma All_union v :
  All v = stackVariables v ∪ (arbitraryVariables v ∪ globalVariables v).
Proof. rewrite /All. by autorewrite with gorw. Qed.

Lemma lookup_All k v :
  All v !! k =
    match stackVariables v !! k with
    | Some x => Some x
    | None => match arbitraryVariables v !! k with
              | Some x => Some x
              | None => globalVariables v !! k
              end
    end.
Proof.
  rewrite All_union !lookup_union.
  by destruct (stackVariables v !! k), (arbitraryVariables v !! k),
    (globalVariables v !! k).
Qed.

Lemma set_all_stack l v :
  set_all SetStackVariable l v =
    MkVariables (insert_all l (stackVariables v))
      (arbitraryVariables v) (globalVariables v).
Proof.
  revert v. induction l as [|[k x] l IH]; intros [s a g]; [done|].
  rewrite /set_all /= -/(set_all _ l _) IH. done.
Qed.
Lemma set_all_arbitrary l v :
  set_all SetArbitraryVariable l v =
    MkVariables (stackVariables v)
      (insert_all l (arbitraryVariables v)) (globalVariables v).
Proof.
  revert v. induction l as [|[k x] l IH]; intros [s a g]; [done|].
  rewrite /set_all /= -/(set_all _ l _) IH. done.
Qed.
Lemma set_all_global l v :
  set_all SetGlobalVariable l v =
    MkVariables (stackVariables v) (arbitraryVariables v)
      (insert_all l (globalVariables v)).
Proof.
  revert v. induction l as [|[k x] l IH]; intros [s a g]; [done|].
  rewrite /set_all /= -/(set_all _ l _) IH. done.
Qed.

Lemma decode_encode_string_map m :
  decode_map decode_string (encode_string_map m) = Ret m.
Proof. by apply decode_encode_map. Qed.

(** [Get] and [All] agree on the precedence of the three kinds of
    variables: looking a key up is looking it up in the merged map, and an
    absent key is the error naming it. *)
Theorem Get_is_lookup_All k v :
  Get k v =
    match All v !! k with
    | Some x => Ret x
    | None => Err (Errorf ("Key " +:+ k +:+ " is not present"))
    end.
Proof.
  rewrite lookup_All /Get.
  by destruct (stackVariables v !! k), (arbitraryVariables v !! k).
Qed.

(** Reading the JSON form of a context into an empty one gives the
    context back; this is what a restart of the server relies on. *)
Lemma Unmarshal_Marshal v :
  UnmarshalJSON (Some (MarshalJSON v)) NewVariables = Ret v.
Proof.
  rewrite /UnmarshalJSON /MarshalJSON decode_encode_map;
    [|apply decode_encode_string_map].
  cbn [mbind outcome_mbind]. cbv zeta. simplify_map_eq.
  rewrite set_all_stack set_all_arbitrary set_all_global /=.
  autorewrite with gorw. by destruct v.
Qed.
End facts.
