(* ===== verification/Data.v ===== *)
(** The data the components share: scalars of a stack file, the [Application]
    and [Stack] structs with their merging helpers ([framework/util.go]), the
    request bodies ([framework/requests.go]) and 64-bit floats. *)
From S2P Require Import Prelude GoStrings Errors.
From Stdlib Require Export SpecFloat.
Open Scope string_scope.
Open Scope list_scope.

(** ** float64

    IEEE 754 double precision numbers; only comparisons and sums are used. *)
Abbreviation float64 := spec_float.
Definition float_zero : float64 := S754_zero false.
(** [m * 2^e] rounded to a double. *)
Definition float_of (m e : Z) : float64 := binary_normalize 53 1024 m e false.
Definition float_le (x y : float64) : bool := SFleb x y.
Definition float_gt (x y : float64) : bool := SFltb y x.
Definition float_neq (x y : float64) : bool := negb (SFeqb x y).
Definition float_add (x y : float64) : float64 := SFadd 53 1024 x y.
Definition float_mul (x y : float64) : float64 := SFmul 53 1024 x y.
Definition float_div (x y : float64) : float64 := SFdiv 53 1024 x y.
(** [int(f)], [int64(f)]; what Go leaves to the implementation is the value
    the processor gives, [min_int64]. *)
Definition float_to_int (f : float64) : Z :=
  match f with
  | S754_zero _ => 0
  | S754_finite s m e =>
      let n := if (0 <=? e)%Z then Z.shiftl (Zpos m) e else Z.shiftr (Zpos m) (- e) in
      let n := if s then Z.opp n else n in
      if in_int64 n then n else min_int64
  | _ => min_int64
  end.

(** ** Values of a stack file

    What [yaml.Unmarshal] puts in an [interface{}] when mappings are decoded
    as [yaml.MapSlice]. A floating-point scalar is kept as the text that
    [fmt.Sprint] prints for it. *)
Inductive yaml_value : Type :=
| YNil
| YBool (b : bool)
| YInt (n : Z)
| YFloat (printed : string)
| YString (s : string)
| YSeq (l : list yaml_value)
| YMap (items : list (yaml_value * yaml_value)).

#[export] Instance yaml_value_eq_dec : EqDecision yaml_value.
Proof.
  refine (fix go x y : Decision (x = y) :=
    match x, y with
    | YNil, YNil => left _
    | YBool b, YBool c => cast_if (decide (b = c))
    | YInt n, YInt m => cast_if (decide (n = m))
    | YFloat s, YFloat t => cast_if (decide (s = t))
    | YString s, YString t => cast_if (decide (s = t))
    | YSeq l, YSeq k => cast_if (@decide (l = k) (@list_eq_dec _ go l k))
    | YMap l, YMap k =>
        cast_if (@decide (l = k)
          (@list_eq_dec _ (λ p q : yaml_value * yaml_value,
             match p, q with
             | (a, b), (c, d) => cast_if_and (go a c) (go b d)
             end) l k))
    | _, _ => right _
    end); abstract (clear go; congruence).
Defined.

Abbreviation MapSlice := (list (yaml_value * yaml_value)).

(** [fmt.Sprint] of such a value. *)
Fixpoint Sprint (y : yaml_value) : string :=
  match y with
  | YNil => "<nil>"
  | YBool b => if b then "true" else "false"
  | YInt n => Itoa n
  | YFloat s => s
  | YString s => s
  | YSeq l => "[" +:+ Join (Sprint <$> l) " " +:+ "]"
  | YMap items =>
      "[" +:+ Join ((λ '(k, v), "{" +:+ Sprint k +:+ " " +:+ Sprint v +:+ "}")
                      <$> items) " " +:+ "]"
  end.

(** [MapSliceToMap] of [framework/util.go]. *)
Definition MapSliceToMap (slice : MapSlice) : gmap string string :=
  foldl (λ m '(k, v), <[Sprint k := Sprint v]> m) ∅ slice.

(** ** Merging helpers of [framework/util.go]

    [set* from to] is the value of [*to] after the Go call. *)
Definition setStringSlice (from to : list string) : list string :=
  if (0 <? length from)%nat then from else to.
Definition setIntSlice (from to : list Z) : list Z :=
  if (0 <? length from)%nat then from else to.
Definition setString (from to : string) : string :=
  if String.eqb from "" then to else from.
Definition setFloat (from to : float64) : float64 :=
  if float_neq from float_zero then from else to.

(** ** Docker section of an application ([framework/docker.go]) *)
Record DockerPortMapping : Type := {
  dpm_ContainerPort : Z; dpm_HostPort : Z; dpm_ServicePort : Z; dpm_Protocol : string }.
Record DockerVolume : Type := {
  dv_ContainerPath : string; dv_HostPath : string; dv_Mode : string }.
Record Docker : Type := {
  d_ForcePullImage : bool;
  d_Image : string;
  d_Network : string;
  d_Parameters : gmap string string;
  d_PortMappings : list DockerPortMapping;
  d_Privileged : bool;
  d_Volumes : list DockerVolume }.

#[export] Instance float_eq_dec : EqDecision float64.
Proof. solve_decision. Defined.
#[export] Instance DockerPortMapping_eq_dec : EqDecision DockerPortMapping.
Proof. solve_decision. Defined.
#[export] Instance DockerVolume_eq_dec : EqDecision DockerVolume.
Proof. solve_decision. Defined.
#[export] Instance Docker_eq_dec : EqDecision Docker.
Proof. solve_decision. Defined.

(** ** Applications ([framework/application.go]) *)
Inductive ApplicationStatus : Type :=
| ApplicationStatusStaging
| ApplicationStatusRunning
| ApplicationStatusFailed.
#[export] Instance ApplicationStatus_eq_dec : EqDecision ApplicationStatus.
Proof. solve_decision. Defined.

(** The numbers stored for the constants ([iota]). *)
Definition ApplicationStatus_code (s : ApplicationStatus) : Z :=
  match s with
  | ApplicationStatusStaging => 0
  | ApplicationStatusRunning => 1
  | ApplicationStatusFailed => 2
  end.
Definition ApplicationStatuses (s : ApplicationStatus) : string :=
  match s with
  | ApplicationStatusStaging => "STAGING"
  | ApplicationStatusRunning => "RUNNING"
  | ApplicationStatusFailed => "FAILED"
  end.

Module App.
(** Slices and maps of the struct are held by value: a nil and an empty one
    behave alike in every use the code makes of them. *)
Record Application : Type := MkApplication {
  Typ : string;
  ID : string;
  Version : string;
  Cpu : float64;
  Mem : float64;
  Ports : list Z;
  Instances : string;
  Constraints : list (list string);
  User : string;
  Healthcheck : string;
  LaunchCommand : string;
  Args : list string;
  Env : gmap string string;
  ArtifactURLs : list string;
  AdditionalArtifacts : list string;
  Scheduler : gmap string string;
  Tasks : MapSlice;
  Dependencies : list string;
  DockerSpec : option Docker;
  StartTime : string;
  TimeSchedule : string;
  BeforeScheduler : list string;
  AfterScheduler : list string;
  BeforeTask : list string;
  AfterTask : list string;
  AfterTasks : list string
}.

(** [new(Application)]: every field its zero value. *)
Definition zero : Application :=
  MkApplication "" "" "" float_zero float_zero [] "" [] "" "" "" [] ∅ [] [] ∅
    [] [] None "" "" [] [] [] [] [].
End App.
Abbreviation Application := App.Application.
#[export] Instance Application_eq_dec : EqDecision Application.
Proof. solve_decision. Defined.

(** ** Stacks ([framework/stack.go]) *)
Inductive StackStatus : Type :=
| StackStatusStaging
| StackStatusRunning
| StackStatusFailed.
#[export] Instance StackStatus_eq_dec : EqDecision StackStatus.
Proof. solve_decision. Defined.
Definition StackStatus_code (s : StackStatus) : Z :=
  match s with
  | StackStatusStaging => 0
  | StackStatusRunning => 1
  | StackStatusFailed => 2
  end.

Module Stk.
(** [P] is how an entry of the [Applications] map is held: a location of a
    store where pointers are shared, an application where they are not.
    The map itself is nil ([None]) or not: writing to a nil map panics. *)
Record Stack (P : Type) : Type := MkStack {
  Namespace : string;
  Name : string;
  From : string;
  Applications : option (gmap string P);
  Layer : Z
}.
Arguments MkStack {P}.
Arguments Namespace {P}.
Arguments Name {P}.
Arguments From {P}.
Arguments Applications {P}.
Arguments Layer {P}.

(** Reading a nil map gives no entry. *)
Definition apps {P} (s : Stack P) : gmap string P := default ∅ (Applications s).

(** The method [ID] of a stack. *)
Definition ID {P} (s : Stack P) : string := Namespace s +:+ "." +:+ Name s.

Definition map_apps {P Q} (f : P → Q) (s : Stack P) : Stack Q :=
  MkStack (Namespace s) (Name s) (From s)
    ((λ m : gmap string P, f <$> m) <$> Applications s) (Layer s).
End Stk.
Abbreviation Stack := (Stk.Stack Application).

Definition LayerZone : Z := 0.
Definition LayerCluster : Z := 1.
Definition LayerDataCenter : Z := 2.
Definition LayerStack : Z := 3.

(** ** Requests ([framework/requests.go]) *)
Record GetStackRequest : Type := { gs_Name : string }.
Record CreateStackRequest : Type := { cs_Stackfile : string }.
Record RemoveStackRequest : Type := { rs_Name : string; rs_Force : bool }.
Record RunRequest : Type := {
  rr_Name : string;
  rr_Zone : string;
  rr_MaxWait : Z;
  rr_Variables : gmap string string;
  rr_SkipApplications : list string }.
Record CreateLayerRequest : Type := {
  cl_Stackfile : string; cl_Layer : string; cl_Parent : string }.
Record CreateUserRequest : Type := { cu_Name : string; cu_Role : string }.
Record RefreshTokenRequest : Type := { rt_Name : string }.
Record RemoveScheduledRequest : Type := { rsr_ID : Z }.
