(* ===== verification/Strconv.v ===== *)
(** [strconv.ParseFloat(s, 64)] and [strconv.ParseBool(s)], and the decoding of
    JSON values into typed Go data: what the task runners use of [strconv] and
    [encoding/json]. *)
From S2P Require Import Prelude GoStrings Errors Json Data.
From Stdlib Require Import Ascii Lia.
Open Scope string_scope.
Open Scope list_scope.

(** ** Characters *)
Definition lower (c : ascii) : ascii :=
  let n := nat_of_ascii c in
  if (65 <=? n)%nat && (n <=? 90)%nat then ascii_of_nat (n + 32) else c.
Fixpoint ToLower (s : string) : string :=
  match s with EmptyString => EmptyString | String c s' => String (lower c) (ToLower s') end.
(** Equal up to the case of ASCII letters. *)
Definition equalIgnoreCase (s t : string) : bool := String.eqb (ToLower s) (ToLower t).

(** ** float64 *)

(** [m * 10^e] rounded to the nearest double, ties to even. A number that is
    clearly too large or too small (below [2 ^ -1100]) is not computed. *)
Definition float_of_decimal (negative : bool) (m e : Z) : float64 :=
  match m with
  | Zpos p =>
      if (400 <? e)%Z then S754_infinity negative
      else if (Z.log2 m + 1 + 3 * e <? -1100)%Z then S754_zero negative
      else if (0 <=? e)%Z then
        match (Zpos p * 10 ^ e)%Z with
        | Zpos q => binary_round 53 1024 negative q 0
        | _ => S754_zero negative
        end
      else
        match (10 ^ (- e))%Z with
        | Zpos d =>
            let '(q, e', l) := SFdiv_core_binary 53 1024 (Zpos p) 0 (Zpos d) 0 in
            binary_round_aux 53 1024 negative q e' l
        | _ => S754_nan
        end
  | _ => S754_zero negative
  end.

(** The mantissa of a decimal literal: its digits, whether there was one, and
    how many followed the point; and what comes after it. *)
Fixpoint scan_mantissa (s : string) (m : Z) (point : bool) (digits : bool) (scale : Z) :
    Z * bool * Z * string :=
  match s with
  | String c s' =>
      match digit_value c with
      | Some d => scan_mantissa s' (m * 10 + d) point true (if point then scale + 1 else scale)%Z
      | None =>
          if Ascii.eqb c "." && negb point then scan_mantissa s' m true digits scale
          else (m, digits, scale, s)
      end
  | EmptyString => (m, digits, scale, s)
  end.

(** The digits of an exponent, which stops growing at ten thousand. *)
Fixpoint scan_exponent (s : string) (e : Z) : option Z :=
  match s with
  | EmptyString => Some e
  | String c s' =>
      d ← digit_value c;
      scan_exponent s' (if (e <? 10000)%Z then e * 10 + d else e)%Z
  end.

Definition split_sign (s : string) : bool * string :=
  match s with
  | String c s' => if Ascii.eqb c "-" then (true, s') else if Ascii.eqb c "+" then (false, s')
                   else (false, s)
  | EmptyString => (false, s)
  end.

Definition exponent_of (s : string) : option Z :=
  match s with
  | EmptyString => Some 0%Z
  | String c s' =>
      if Ascii.eqb (lower c) "e" then
        let '(negative, digits) := split_sign s' in
        match digits with
        | EmptyString => None
        | _ => (λ e, if negative then Z.opp e else e) <$> scan_exponent digits 0
        end
      else None
  end.

Definition is_finite (f : float64) : bool :=
  match f with S754_zero _ | S754_finite _ _ _ => true | _ => false end.

(** [None] for a syntax error and for a number out of range. *)
Definition ParseFloat (s : string) : option float64 :=
  let '(negative, s') := split_sign s in
  if equalIgnoreCase s' "inf" || equalIgnoreCase s' "infinity" then Some (S754_infinity negative)
  else if equalIgnoreCase s "nan" then Some S754_nan
  else
    match scan_mantissa s' 0 false false 0 with
    | (_, false, _, _) => None
    | (m, true, scale, rest) =>
        e ← exponent_of rest;
        let f := float_of_decimal negative m (e - scale) in
        if is_finite f then Some f else None
    end.

Definition ParseBool (s : string) : option bool :=
  if bool_decide (s ∈ ["1"; "t"; "T"; "TRUE"; "true"; "True"]) then Some true
  else if bool_decide (s ∈ ["0"; "f"; "F"; "FALSE"; "false"; "False"]) then Some false
  else None.

Example ParseFloat_ex :
  (ParseFloat "0.5", ParseFloat "-1e3", ParseFloat ".1", ParseFloat "1.", ParseFloat "1e400",
   ParseFloat "", ParseFloat "1x", ParseFloat "1e", ParseFloat "+Inf", ParseFloat "+nan",
   ParseFloat "1e99999999999")
  = (Some (float_of 1 (-1)), Some (float_of (-1000) 0), Some (S754_finite false 7205759403792794 (-56)),
     Some (float_of 1 0), None, None, None, None, Some (S754_infinity false), None, None).
Proof. vm_compute. reflexivity. Qed.
Example ParseFloat_small :
  (ParseFloat "4.9e-324", ParseFloat "2e-324", ParseFloat "1.7976931348623157e308",
   ParseFloat "9007199254740993")
  = (Some (S754_finite false 1 (-1074)), Some (S754_zero false),
     Some (S754_finite false 9007199254740991 971), Some (float_of 9007199254740992 0)).
Proof. vm_compute. reflexivity. Qed.

(** ** Decoding into typed data

    [json.Unmarshal] matches the members of an object with the fields of a
    struct by name, without regard to case; of members that repeat the last
    counts. [null] leaves the zero value. *)
Definition member (name : string) (fields : list (string * json)) : option json :=
  snd <$> last (filter (λ p, equalIgnoreCase p.1 name) fields).
Definition member_or_null (name : string) (fields : list (string * json)) : json :=
  default JNull (member name fields).

Definition decode_list {A} (dec : json → result A) (j : json) : result (list A) :=
  match j with
  | JArr l => mapM dec l
  | JNull => Ret []
  | _ => Err (Errorf "json: cannot unmarshal into Go value of type slice")
  end.
(** A pointer to a struct. *)
Definition decode_pointer {A} (dec : list (string * json) → result A) (j : json) :
    result (option A) :=
  match j with
  | JNull => Ret None
  | JObj fields => Some <$> dec fields
  | _ => Err (Errorf "json: cannot unmarshal into Go value of type struct")
  end.
Definition decode_float (j : json) : result float64 :=
  match j with
  | JNum s => match ParseFloat s with
              | Some f => Ret f
              | None => Err (Errorf "json: cannot unmarshal into Go value of type float64")
              end
  | JNull => Ret float_zero
  | _ => Err (Errorf "json: cannot unmarshal into Go value of type float64")
  end.

(** Assertions on an [interface{}], with a comma and [ok]. *)
Definition as_string (j : option json) : option string :=
  match j with Some (JStr s) => Some s | _ => None end.
Definition as_bool (j : option json) : option bool :=
  match j with Some (JBool b) => Some b | _ => None end.
Definition as_map (j : option json) : option (gmap string json) :=
  match j with Some (JObj fields) => Some (fields_map fields) | _ => None end.
Definition as_slice (j : option json) : option (list json) :=
  match j with Some (JArr l) => Some l | _ => None end.
(** [v, ok := x.(T); if !ok { return errors.New(msg) }]. *)
Definition or_error {A} (o : option A) (msg : string) : result A :=
  match o with Some a => Ret a | None => Err (Errorf msg) end.
(** [errors.New(x.(string))], which panics on anything but a string. *)
Definition as_error (j : option json) : result unit :=
  match j with
  | Some (JStr s) => Err (Errorf s)
  | _ => Panic "interface conversion: interface is not string"
  end.
