(* ===== verification/Flags.v ===== *)
(** Command line flags as Go's [flag] package parses them with [ExitOnError]:
    what the commands of [command/] use of it. *)
From S2P Require Import Prelude GoStrings Errors Data Strconv.
From Stdlib Require Import Ascii Lia.
Open Scope string_scope.
Open Scope list_scope.

(** ** [strconv.ParseInt(s, 0, 64)] *)
Definition hex_value (c : ascii) : option Z :=
  match digit_value c with
  | Some d => Some d
  | None =>
      let n := Z.of_nat (nat_of_ascii (lower c)) in
      if (97 <=? n)%Z && (n <=? 102)%Z then Some (n - 87)%Z else None
  end.
Fixpoint parse_base (base : Z) (s : string) (acc : Z) : option Z :=
  match s with
  | EmptyString => Some acc
  | String c s' =>
      d ← hex_value c;
      if (d <? base)%Z then parse_base base s' (acc * base + d)%Z else None
  end.
(** The base is given by a prefix: [0x], [0] or none. *)
Definition parse_unsigned (s : string) : option Z :=
  match s with
  | EmptyString => None
  | String c s' =>
      if Ascii.eqb c "0" then
        match s' with
        | String x digits =>
            if Ascii.eqb (lower x) "x" then
              match digits with EmptyString => None | _ => parse_base 16 digits 0 end
            else parse_base 8 s' 0
        | EmptyString => Some 0%Z
        end
      else parse_base 10 s 0
  end.
Definition ParseInt0 (s : string) : option Z :=
  let '(negative, digits) := split_sign s in
  n ← parse_unsigned digits;
  let n := if negative then Z.opp n else n in
  if in_int64 n then Some n else None.

Example ParseInt0_ex :
  (ParseInt0 "600", ParseInt0 "-1", ParseInt0 "0x1F", ParseInt0 "017", ParseInt0 "09", ParseInt0 "0",
   ParseInt0 "0x", ParseInt0 "9223372036854775808")
  = (Some 600, Some (-1), Some 31, Some 15, None, Some 0, None, None)%Z.
Proof. reflexivity. Qed.

(** ** [time.ParseDuration(s)]

    In nanoseconds: numbers with a fraction, each with its unit. *)
Definition duration_units : list (string * Z) :=
  let micro := String (ascii_of_nat 194) (String (ascii_of_nat 181) "s") in
  let mu := String (ascii_of_nat 206) (String (ascii_of_nat 188) "s") in
  [("ns", 1); ("us", 10 ^ 3); (micro, 10 ^ 3); (mu, 10 ^ 3); ("ms", 10 ^ 6); ("s", 10 ^ 9);
   ("m", 60 * 10 ^ 9); ("h", 3600 * 10 ^ 9)]%Z.
(** The digits [s] starts with: their value, which must not overflow, their
    number and the rest. *)
Fixpoint leadingInt (s : string) (x : Z) (n : nat) : option (Z * nat * string) :=
  match s with
  | String c s' =>
      match digit_value c with
      | Some d =>
          if ((2 ^ 63 - 10) / 10 <? x)%Z then None else leadingInt s' (x * 10 + d)%Z (S n)
      | None => Some (x, n, s)
      end
  | EmptyString => Some (x, n, s)
  end.
(** Up to the next digit or point. *)
Fixpoint unit_name (s : string) : string * string :=
  match s with
  | String c s' =>
      if Ascii.eqb c "." || bool_decide (is_Some (digit_value c)) then ("", s)
      else let '(u, rest) := unit_name s' in (String c u, rest)
  | EmptyString => ("", "")
  end.
(** One number with its unit; [f / scale] is the fraction. *)
Definition duration_term (s : string) : option (Z * string) :=
  '(v, pre, s) ← leadingInt s 0 0;
  '(f, post, s) ← match s with
                  | String c s' => if Ascii.eqb c "." then leadingInt s' 0 0 else Some (0%Z, 0, s)
                  | EmptyString => Some (0%Z, 0, s)
                  end;
  let scale := Nat.iter post (λ x, float_mul x (float_of 10 0)) (float_of 1 0) in
  let '(u, rest) := unit_name s in
  unit ← (list_to_map duration_units : gmap string Z) !! u;
  if Nat.eqb (pre + post) 0 || (max_int64 / unit <? v)%Z then None
  else
    let v := (v * unit +
      if (0 <? f)%Z then float_to_int (float_mul (float_of f 0) (float_div (float_of unit 0) scale))
      else 0)%Z in
    if (max_int64 <? v)%Z then None else Some (v, rest).
(** [fuel]: a term is not empty, so the length of [s] is enough. *)
Fixpoint duration_terms (fuel : nat) (s : string) (d : Z) : option Z :=
  match s, fuel with
  | EmptyString, _ => Some d
  | _, O => None
  | _, S fuel' =>
      '(v, rest) ← duration_term s;
      if (max_int64 <? d + v)%Z then None else duration_terms fuel' rest (d + v)%Z
  end.
Definition ParseDuration (s : string) : option Z :=
  let '(negative, s) := split_sign s in
  match s with
  | EmptyString => None
  | _ =>
      if String.eqb s "0" then Some 0%Z
      else
        d ← duration_terms (String.length s) s 0;
        Some (if negative then Z.opp d else d)
  end.

Example ParseDuration_ex :
  (ParseDuration "168h", ParseDuration "1h15m30.918s", ParseDuration "-1.5s", ParseDuration ".5ms",
   ParseDuration "10", ParseDuration ".s", ParseDuration "0", ParseDuration "3000000h")
  = (Some 604800000000000, Some 4530918000000, Some (-1500000000), Some 500000, None, None, Some 0,
     None)%Z.
Proof. vm_compute. reflexivity. Qed.

(** ** Flag sets

    A flag changes a record [F] of parsed values. A boolean flag stands for
    [true] when it has no value; any other flag takes the next argument. *)
Inductive flag (F : Type) : Type :=
| BoolFlag (set : bool → F → F)
| ValueFlag (set : string → F → option F).
Arguments BoolFlag {F}.
Arguments ValueFlag {F}.
Abbreviation flag_set F := (list (string * flag F)).

Definition StringFlag {F} (set : string → F → F) : flag F := ValueFlag (λ v f, Some (set v f)).
Definition IntFlag {F} (set : Z → F → F) : flag F :=
  ValueFlag (λ v f, (λ n, set n f) <$> ParseInt0 v).
Definition DurationFlag {F} (set : Z → F → F) : flag F :=
  ValueFlag (λ v f, (λ n, set n f) <$> ParseDuration v).

Fixpoint lookup_flag {F} (name : string) (flags : flag_set F) : option (flag F) :=
  match flags with
  | [] => None
  | (n, f) :: flags' => if String.eqb n name then Some f else lookup_flag name flags'
  end.

(** The name and the value of an argument that is a flag: one or two dashes,
    and what follows the first equals sign after the first character of the
    name. *)
Inductive argument : Type :=
| Stop
| Terminator
| BadSyntax
| Flag (name : string) (value : option string).
Definition read_argument (s : string) : argument :=
  match s with
  | String a (String b rest) =>
      if Ascii.eqb a "-" then
        let name := if Ascii.eqb b "-" then rest else String b rest in
        match name with
        | EmptyString => Terminator
        | String c tail =>
            if Ascii.eqb c "-" || Ascii.eqb c "=" then BadSyntax
            else match Index tail "=" with
                 | Some i => Flag (String c (take_str i tail)) (Some (drop_str (i + 1) tail))
                 | None => Flag name None
                 end
        end
      else Stop
  | _ => Stop
  end.

(** [flags.Parse(args)]; [None]: the process exits, with status 2. *)
Fixpoint Parse {F} (flags : flag_set F) (args : list string) (f : F) : option F :=
  match args with
  | [] => Some f
  | s :: args' =>
      match read_argument s with
      | Stop | Terminator => Some f
      | BadSyntax => None
      | Flag name value =>
          match lookup_flag name flags with
          | None => None
          | Some (BoolFlag set) =>
              match value with
              | None => Parse flags args' (set true f)
              | Some v => b ← ParseBool v; Parse flags args' (set b f)
              end
          | Some (ValueFlag set) =>
              match value, args' with
              | Some v, _ => f' ← set v f; Parse flags args' f'
              | None, v :: args'' => f' ← set v f; Parse flags args'' f'
              | None, [] => None
              end
          end
      end
  end.
