(* ===== verification/Http.v ===== *)
(** What the task runners of [runners/] do to the outside: HTTP requests to the
    schedulers of other frameworks, pauses, and variables of the stack context,
    which the runners of other applications set at the same time. *)
From S2P Require Import Prelude GoStrings Errors Json Variables Data Strconv.
Open Scope string_scope.
Open Scope list_scope.

(** [url.Values] with one value per key, as every caller builds them; what
    [Encode] writes after the question mark is determined by the map. *)
Abbreviation Values := (gmap string string).

(** A value of the [map[string]interface{}] a request is marshalled from. *)
Inductive post_value : Type :=
| VFloat (f : float64)
| VBool (b : bool)
| VString (s : string).

Inductive call : Type :=
| HttpGet (url : string) (query : option Values)
| HttpPost (url : string) (body : gmap string post_value)
| Pause.

(** A response, and the bytes of its body or the error of reading them. *)
Record response : Type := MkResponse {
  StatusCode : Z;
  Body : error + option json
}.

(** The world of one task runner: everything it did so far, and the context. *)
Record session : Type := MkSession { calls : list call; context : Variables }.

Class Network := {
  answer : list call → error + response;
  (** a timer of the runner has fired *)
  expired : list call → bool;
  (** what others did to the context while a call was made *)
  others : list call → Variables → Variables
}.

Section network.
Context `{Network}.

Definition call_out (c : call) : M session error (list call) := λ s,
  let t := calls s ++ [c] in (Ret t, MkSession t (others t (context s))).
Definition http_get (url : string) (query : option Values) : M session error response :=
  t ← call_out (HttpGet url query); lift (from_sum (answer t)).
Definition http_post (url : string) (body : gmap string post_value) : M session error response :=
  t ← call_out (HttpPost url body); lift (from_sum (answer t)).
Definition sleep : M session error unit := call_out Pause ;; mret tt.
Definition timer_fired : M session error bool := λ s, (Ret (expired (calls s)), s).

Definition set_stack_variable (key value : string) : M session error unit := λ s,
  (Ret tt, MkSession (calls s) (SetStackVariable key value (context s))).
Definition must_get (key : string) : M session error string := λ s,
  (MustGet key (context s), s).
(** [ioutil.ReadAll] of a body. *)
Definition read_all (r : response) : M session error (option json) := lift (from_sum (Body r)).
End network.
