(* ===== verification/Requests.v ===== *)
(** The JSON form of the request bodies of [framework/requests.go]: what the
    client sends and what the handlers of the server decode, bodies with
    mistakes included - several handlers ignore the error of decoding and go on
    with what was decoded. *)
From S2P Require Import Prelude GoStrings Errors Json Variables Data Strconv.
From Stdlib Require Import Lia.
Open Scope string_scope.
Open Scope list_scope.

(** ** [json.Marshal] *)
Definition encode_get (r : GetStackRequest) : json := JObj [("name", JStr (gs_Name r))].
Definition encode_create (r : CreateStackRequest) : json :=
  JObj [("stackfile", JStr (cs_Stackfile r))].
Definition encode_remove (r : RemoveStackRequest) : json :=
  JObj [("name", JStr (rs_Name r)); ("force", JBool (rs_Force r))].
Definition encode_run (r : RunRequest) : json :=
  JObj [("name", JStr (rr_Name r)); ("zone", JStr (rr_Zone r)); ("maxwait", JNum (Itoa (rr_MaxWait r)));
        ("variables", encode_string_map (rr_Variables r));
        ("skip", JArr (JStr <$> rr_SkipApplications r))].
Definition encode_layer (r : CreateLayerRequest) : json :=
  JObj [("stackfile", JStr (cl_Stackfile r)); ("layer", JStr (cl_Layer r));
        ("parent", JStr (cl_Parent r))].
Definition encode_create_user (r : CreateUserRequest) : json :=
  JObj [("name", JStr (cu_Name r)); ("role", JStr (cu_Role r))].
Definition encode_refresh (r : RefreshTokenRequest) : json := JObj [("name", JStr (rt_Name r))].
Definition encode_remove_scheduled (r : RemoveScheduledRequest) : json :=
  JObj [("id", JNum (Itoa (rsr_ID r)))].
(** [make(map[string]interface{})] *)
Definition encode_nothing : json := JObj [].

(** ** [json.Decoder.Decode]

    A value of the wrong type leaves the zero value in its place; decoding goes
    on, and the first such error is returned in the end. *)
Definition decoded (A : Type) : Type := A * option error.
Definition mismatch : option error := Some (Errorf "json: cannot unmarshal into Go value").
Definition first_error (e e' : option error) : option error :=
  match e with Some _ => e | None => e' end.

(** A strict decoder of the package, made lenient. *)
Definition leniently {A} (zero : A) (r : result A) : decoded A :=
  match r with Ret a => (a, None) | _ => (zero, mismatch) end.
Definition lenient_string (j : json) : decoded string := leniently "" (decode_string j).
Definition lenient_bool (j : json) : decoded bool := leniently false (decode_bool j).
Definition lenient_int (j : json) : decoded Z := leniently 0%Z (decode_int j).
Fixpoint lenient_elements {A} (dec : json → decoded A) (l : list json) : decoded (list A) :=
  match l with
  | [] => ([], None)
  | j :: l' =>
      let '(a, e) := dec j in
      let '(r, e') := lenient_elements dec l' in
      (a :: r, first_error e e')
  end.
Definition lenient_list {A} (dec : json → decoded A) (j : json) : decoded (list A) :=
  match j with
  | JArr l => lenient_elements dec l
  | JNull => ([], None)
  | _ => ([], mismatch)
  end.
Definition lenient_map {A} (dec : json → decoded A) (j : json) : decoded (gmap string A) :=
  match j with
  | JObj fs =>
      let '(values, e) := lenient_elements dec fs.*2 in
      (insert_all (zip fs.*1 values) ∅, e)
  | JNull => (∅, None)
  | _ => (∅, mismatch)
  end.

(** Decoding into a pointer to a fresh struct: bytes that are not JSON leave it
    as it is, [null] makes the pointer nil. *)
Definition decode_body {A} (zero : A) (dec : list (string * json) → decoded A)
    (doc : option json) : option A * option error :=
  match doc with
  | None => (Some zero, Some (Errorf "invalid character"))
  | Some JNull => (None, None)
  | Some (JObj fs) => let '(a, e) := dec fs in (Some a, e)
  | Some _ => (Some zero, mismatch)
  end.

Definition decode_get_request : option json → option GetStackRequest * option error :=
  decode_body {| gs_Name := "" |} (λ fs,
    let '(name, e) := lenient_string (member_or_null "name" fs) in ({| gs_Name := name |}, e)).
Definition decode_create_request : option json → option CreateStackRequest * option error :=
  decode_body {| cs_Stackfile := "" |} (λ fs,
    let '(stackfile, e) := lenient_string (member_or_null "stackfile" fs) in
    ({| cs_Stackfile := stackfile |}, e)).
Definition decode_remove_request : option json → option RemoveStackRequest * option error :=
  decode_body {| rs_Name := ""; rs_Force := false |} (λ fs,
    let '(name, e) := lenient_string (member_or_null "name" fs) in
    let '(force, e') := lenient_bool (member_or_null "force" fs) in
    ({| rs_Name := name; rs_Force := force |}, first_error e e')).
Definition decode_run_request : option json → option RunRequest * option error :=
  decode_body {| rr_Name := ""; rr_Zone := ""; rr_MaxWait := 0; rr_Variables := ∅;
                 rr_SkipApplications := [] |} (λ fs,
    let '(name, e1) := lenient_string (member_or_null "name" fs) in
    let '(zone, e2) := lenient_string (member_or_null "zone" fs) in
    let '(maxWait, e3) := lenient_int (member_or_null "maxwait" fs) in
    let '(variables, e4) := lenient_map lenient_string (member_or_null "variables" fs) in
    let '(skip, e5) := lenient_list lenient_string (member_or_null "skip" fs) in
    ({| rr_Name := name; rr_Zone := zone; rr_MaxWait := maxWait; rr_Variables := variables;
        rr_SkipApplications := skip |},
     first_error e1 (first_error e2 (first_error e3 (first_error e4 e5))))).
Definition decode_layer_request : option json → option CreateLayerRequest * option error :=
  decode_body {| cl_Stackfile := ""; cl_Layer := ""; cl_Parent := "" |} (λ fs,
    let '(stackfile, e1) := lenient_string (member_or_null "stackfile" fs) in
    let '(layer, e2) := lenient_string (member_or_null "layer" fs) in
    let '(parent, e3) := lenient_string (member_or_null "parent" fs) in
    ({| cl_Stackfile := stackfile; cl_Layer := layer; cl_Parent := parent |},
     first_error e1 (first_error e2 e3))).
(** Into a struct that is not behind a pointer: [null] leaves it. *)
Definition decode_scheduled_request (doc : option json) : RemoveScheduledRequest * option error :=
  let '(r, e) := decode_body {| rsr_ID := 0 |} (λ fs,
    let '(id, e) := lenient_int (member_or_null "id" fs) in ({| rsr_ID := id |}, e)) doc in
  (default {| rsr_ID := 0 |} r, e).

(** ** What was sent is what is decoded *)
Section round_trips.
Lemma lenient_elements_ok {A} (enc : A → json) (dec : json → decoded A) l :
  (∀ a, dec (enc a) = (a, None)) → lenient_elements dec (enc <$> l) = (l, None).
Proof.
  intros Hd. induction l as [|a l IH]; [done|]. cbn [fmap list_fmap lenient_elements].
  by rewrite Hd IH.
Qed.

Lemma lenient_string_map m : lenient_map lenient_string (encode_string_map m) = (m, None).
Proof.
  rewrite /lenient_map /encode_string_map /encode_map.
  rewrite -!list_fmap_compose (list_fmap_ext _ (JStr ∘ snd)) //.
  rewrite (list_fmap_ext (fst ∘ prod_map id JStr) fst) //.
  rewrite (list_fmap_compose snd JStr) (lenient_elements_ok JStr) //.
  by rewrite zip_fst_snd insert_all_map_to_list.
Qed.

Lemma lenient_int_ok n : in_int64 n = true → lenient_int (JNum (Itoa n)) = (n, None).
Proof. intros Hn. by rewrite /lenient_int /decode_int Atoi_Itoa. Qed.

Lemma decode_encode_get r : decode_get_request (Some (encode_get r)) = (Some r, None).
Proof. by destruct r. Qed.
Lemma decode_encode_create r : decode_create_request (Some (encode_create r)) = (Some r, None).
Proof. by destruct r. Qed.
Lemma decode_encode_remove r : decode_remove_request (Some (encode_remove r)) = (Some r, None).
Proof. by destruct r. Qed.
Lemma decode_encode_layer r : decode_layer_request (Some (encode_layer r)) = (Some r, None).
Proof. by destruct r. Qed.
Lemma decode_encode_run r :
  in_int64 (rr_MaxWait r) = true → decode_run_request (Some (encode_run r)) = (Some r, None).
Proof.
  intros Hm. destruct r as [name zone maxWait variables skip]. simpl in Hm.
  cbn [encode_run decode_run_request decode_body rr_Name rr_Zone rr_MaxWait rr_Variables rr_SkipApplications].
  set (fs := [_; _; _; _; _]).
  assert (member_or_null "name" fs = JStr name) as -> by done.
  assert (member_or_null "zone" fs = JStr zone) as -> by done.
  assert (member_or_null "maxwait" fs = JNum (Itoa maxWait)) as -> by done.
  assert (member_or_null "variables" fs = encode_string_map variables) as -> by done.
  assert (member_or_null "skip" fs = JArr (JStr <$> skip)) as -> by done.
  rewrite (lenient_int_ok _ Hm) lenient_string_map /lenient_list (lenient_elements_ok JStr) //.
Qed.
Lemma decode_encode_remove_scheduled r :
  in_int64 (rsr_ID r) = true →
  decode_scheduled_request (Some (encode_remove_scheduled r)) = (r, None).
Proof.
  intros Hr. destruct r as [id]. simpl in Hr. rewrite /decode_scheduled_request /=.
  rewrite /member_or_null /=. by rewrite (lenient_int_ok _ Hr).
Qed.
End round_trips.
