(* ===== verification/TaskRunners.v ===== *)
(** The task runners of [runners/], one module per file: what they put in the
    context once the scheduler of a framework is up, and the requests they
    send to it for each task of an application; and the table of task runners
    of [main.go]. *)
From S2P Require Import Prelude GoStrings Errors Json Variables Data Strconv Http.
Open Scope string_scope.
Open Scope list_scope.

(** The fields of Marathon's description of a task that are read. *)
Record marathon_task : Type := MkTask { Host : string; Ports : list Z }.

(** A call returns, or waits for something that does not come. *)
Inductive progress : Type := Returned | Waiting.

(** ** What the runners share *)
Section shared.
Context `{ord : MapOrder} `{Network}.

(** The loop over [task.Ports]. *)
Fixpoint set_ports (id : string) (idx : nat) (ports : list Z) : M session error unit :=
  match ports with
  | [] => mret tt
  | port :: ports' =>
      set_stack_variable (id +:+ ".port" +:+ Itoa (Z.of_nat idx)) (Itoa port) ;;
      set_ports id (S idx) ports'
  end.
Definition api_url (task : marathon_task) (port : Z) : string :=
  "http://" +:+ Host task +:+ ":" +:+ Itoa port.
(** The body of [FillContext]; the result is the address of the API. *)
Definition fill_context (id : string) (task : marathon_task) : M session error string :=
  set_stack_variable (id +:+ ".host") (Host task) ;;
  set_ports id 0 (Ports task) ;;
  match Ports task with
  | [] => panic index_out_of_range
  | port :: _ =>
      set_stack_variable (id +:+ ".api") (api_url task port) ;;
      mret (api_url task port)
  end.

(** The loop over the parameters that keeps those [keep] accepts. *)
Definition select_params (keep : string → bool) (params : gmap string string) : Values :=
  foldl (λ values '(k, v), if keep k then <[k := v]> values else values) ∅ (range 0 params).

(** The shape of the answers of four of the frameworks: a [Success] field that
    must be a boolean, and a [Message]. *)
Definition check_Success (name : string) (raw : response) : M session error unit :=
  body ← read_all raw;
  response ← lift (decode_object body);
  match response !! "Success" with
  | None => fail (Errorf ("Invalid " +:+ name +:+ " response"))
  | Some rawSuccess =>
      match rawSuccess with
      | JBool true => mret tt
      | JBool false => lift (as_error (response !! "Message"))
      | _ => fail (Errorf ("Invalid " +:+ name +:+ " Success field type"))
      end
  end.
(** The other shape: [success] and [message], and the document is returned. *)
Definition check_success (raw : response) : M session error (gmap string json) :=
  body ← read_all raw;
  response ← lift (decode_object body);
  match as_bool (response !! "success") with
  | Some true => mret response
  | _ =>
      match as_string (response !! "message") with
      | Some message => fail (Errorf message)
      | None => fail (Errorf "Request failed for unknown reason")
      end
  end.
(** A response refused unless its status is 200. *)
Definition check_status (raw : response) : M session error unit :=
  if (StatusCode raw =? 200)%Z then mret tt
  else fail (Errorf ("Response returned with status code " +:+ Itoa (StatusCode raw))).

Fixpoint set_indexed (prefix : string) (idx : nat) (hosts : list string) : M session error unit :=
  match hosts with
  | [] => mret tt
  | host :: hosts' =>
      set_stack_variable (prefix +:+ Itoa (Z.of_nat idx)) host ;;
      set_indexed prefix (S idx) hosts'
  end.
End shared.

(** ** [kafka_task_runner.go] *)
Module Kafka.
Section kafka.
Context `{ord : MapOrder} `{Network}.

Definition FillContext (id : string) (task : marathon_task) : M session error unit :=
  fill_context id task ;; mret tt.

Definition add_values (params : gmap string string) : Values :=
  foldl (λ values '(k, v),
           if String.eqb k "timeout" then values
           else if String.eqb k "id" then <["broker" := v]> values
           else <[k := v]> values) ∅ (range 0 params).
Definition start_values (params : gmap string string) : Values :=
  foldl (λ values '(k, v),
           let values := if String.eqb k "id" then <["broker" := v]> values else values in
           if String.eqb k "timeout" then <["timeout" := v]> values else values)
        ∅ (range 0 params).

Definition checkResponse (raw : response) : M session error unit :=
  check_status raw ;;
  body ← read_all raw;
  response ← lift (decode_object body);
  match response !! "error" with
  | Some errorMsg => lift (as_error (Some errorMsg))
  | None => mret tt
  end.
Definition Add (api : string) (params : gmap string string) : M session error unit :=
  raw ← http_get (api +:+ "/api/broker/add") (Some (add_values params));
  checkResponse raw.
Definition Start (api : string) (params : gmap string string) : M session error unit :=
  raw ← http_get (api +:+ "/api/broker/start") (Some (start_values params));
  checkResponse raw.

Definition RunTask (id : string) (task : gmap string string) : M session error unit :=
  api ← must_get (id +:+ ".api");
  Add api task ;;
  Start api task.
End kafka.
End Kafka.

(** ** [statsd_task_runner.go] *)
Module Statsd.
Section statsd.
Context `{ord : MapOrder} `{Network}.

Definition FillContext (id : string) (task : marathon_task) : M session error unit :=
  fill_context id task ;; mret tt.

Definition checkResponse (raw : response) : M session error unit :=
  check_status raw ;; check_Success "statsd-mesos" raw.
Definition Update (api : string) (params : gmap string string) : M session error unit :=
  raw ← http_get (api +:+ "/api/update") (Some (select_params (λ _, true) params));
  checkResponse raw.
Definition Start (api : string) (params : gmap string string) : M session error unit :=
  raw ← http_get (api +:+ "/api/start") None;
  checkResponse raw.

Definition RunTask (id : string) (task : gmap string string) : M session error unit :=
  api ← must_get (id +:+ ".api");
  Update api task ;;
  Start api task.
End statsd.
End Statsd.

(** ** [syslog_task_runner.go] *)
Module Syslog.
Section syslog.
Context `{ord : MapOrder} `{Network}.

Definition FillContext (id : string) (task : marathon_task) : M session error unit :=
  fill_context id task ;; mret tt.

Definition checkResponse (raw : response) : M session error unit :=
  check_status raw ;; check_Success "syslog-mesos" raw.
Definition Update (api : string) (params : gmap string string) : M session error unit :=
  raw ← http_get (api +:+ "/api/update") (Some (select_params (λ _, true) params));
  checkResponse raw.
Definition Start (api : string) (params : gmap string string) : M session error unit :=
  raw ← http_get (api +:+ "/api/start") None;
  checkResponse raw.

Definition RunTask (id : string) (task : gmap string string) : M session error unit :=
  api ← must_get (id +:+ ".api");
  Update api task ;;
  Start api task.
End syslog.
End Syslog.

(** ** [go_kafka_client_task_runner.go] *)
Module GoKafkaClient.
Section go_kafka_client.
Context `{ord : MapOrder} `{Network}.

Definition FillContext (id : string) (task : marathon_task) : M session error unit :=
  fill_context id task ;; mret tt.

Definition checkResponse (raw : response) : M session error unit :=
  check_Success "go-kafka-client-mesos" raw.
Definition Add (api : string) (params : gmap string string) : M session error unit :=
  raw ← http_get (api +:+ "/api/add")
    (Some (select_params (λ k, bool_decide (k ∈ ["id"; "type"; "cpu"; "mem"; "executor"])) params));
  checkResponse raw.
Definition Update (api : string) (params : gmap string string) : M session error unit :=
  raw ← http_get (api +:+ "/api/update")
    (Some (select_params
             (λ k, negb (bool_decide (k ∈ ["type"; "cpu"; "mem"; "executor"; "timeout"]))) params));
  checkResponse raw.
Definition Start (api : string) (params : gmap string string) : M session error unit :=
  raw ← http_get (api +:+ "/api/start")
    (Some (select_params (λ k, bool_decide (k ∈ ["id"; "timeout"])) params));
  checkResponse raw.

Definition RunTask (id : string) (task : gmap string string) : M session error unit :=
  api ← must_get (id +:+ ".api");
  Add api task ;;
  Update api task ;;
  Start api task.
End go_kafka_client.
End GoKafkaClient.

(** ** [zipkin_task_runner.go] *)
Module Zipkin.
Section zipkin.
Context `{ord : MapOrder} `{Network}.

Definition FillContext (id : string) (task : marathon_task) : M session error unit :=
  fill_context id task ;; mret tt.

(** The endpoint of one element of the [value] of a response: its id and
    address. *)
Definition endpoint (value : json) : result (string * string) :=
  value ← or_error (as_map (Some value)) "Wrong value interface field";
  id ← or_error (as_string (value !! "id")) "Wrong id field";
  config ← or_error (as_map (value !! "config")) "Wrong config field";
  hostname ← or_error (as_string (config !! "hostname")) "Wrong hostname field";
  env ← or_error (as_map (config !! "env")) "Wrong env field";
  queryPort ← or_error (as_string (env !! "QUERY_PORT")) "Wrong QUERY_PORT env";
  Ret (id, hostname +:+ ":" +:+ queryPort).
Definition fillTaskContext (application : string) (response : gmap string json) :
    M session error unit :=
  valueArr ← lift (or_error (as_slice (response !! "value")) "Wrong value field");
  for_each (λ value,
    p ← lift (endpoint value);
    set_stack_variable (application +:+ ".query-" +:+ p.1 +:+ ".endpoint") p.2) valueArr.

Definition checkResponse (raw : response) : M session error (gmap string json) := check_success raw.
Definition taskType (params : gmap string string) : string := default "" (params !! "type").
Definition add_keys : list string :=
  ["id"; "cpu"; "mem"; "flags"; "env"; "port"; "adminPort"; "configFile"; "constraints"].
Definition Add (api : string) (params : gmap string string) : M session error (gmap string json) :=
  raw ← http_get (api +:+ "/api/" +:+ taskType params +:+ "/add")
    (Some (select_params (λ k, bool_decide (k ∈ add_keys)) params));
  checkResponse raw.
Definition Start (api : string) (params : gmap string string) : M session error (gmap string json) :=
  raw ← http_get (api +:+ "/api/" +:+ taskType params +:+ "/start")
    (Some (select_params (λ k, bool_decide (k ∈ ["id"; "timeout"])) params));
  checkResponse raw.

Definition RunTask (id : string) (task : gmap string string) : M session error unit :=
  api ← must_get (id +:+ ".api");
  match task !! "id" with
  | None => fail (Errorf "Missing task id")
  | Some taskId =>
      match task !! "type" with
      | None => fail (Errorf ("Missing task type for id " +:+ taskId))
      | Some taskType =>
          Add api task ;;
          response ← Start api task;
          if String.eqb taskType "query" then fillTaskContext id response else mret tt
      end
  end.
End zipkin.
End Zipkin.

(** ** [dse_task_runner.go] *)
Module DSE.
Section dse.
Context `{ord : MapOrder} `{Network}.

Definition FillContext (id : string) (task : marathon_task) : M session error unit :=
  fill_context id task ;; mret tt.

Definition hostname_of (cluster : json) : result string :=
  cluster ← or_error (as_map (Some cluster)) "Wrong cluster field";
  _ ← or_error (as_string (cluster !! "id")) "Wrong id field";
  runtime ← or_error (as_map (cluster !! "runtime")) "Wrong runtime field";
  or_error (as_string (runtime !! "hostname")) "Wrong hostname field".
Definition servers_of (response : gmap string json) : result (list string) :=
  value ← or_error (as_map (response !! "value")) "Wrong value field";
  clusterArr ← or_error (as_slice (value !! "cluster")) "Wrong cluster field";
  mapM hostname_of clusterArr.
Definition fillTaskContext (application : string) (response : gmap string json) :
    M session error unit :=
  servers ← lift (servers_of response);
  set_indexed (application +:+ ".cassandra-node-") 0 servers ;;
  set_stack_variable (application +:+ ".cassandraConnect") (Join servers ",").

Definition checkResponse (raw : response) : M session error (gmap string json) := check_success raw.
(** The parameters of a task as JSON values. *)
Definition post_param (k v : string) : result post_value :=
  if bool_decide (k ∈ ["cpu"; "mem"]) then
    VFloat <$> or_error (ParseFloat v) "strconv.ParseFloat: parsing failed"
  else if String.eqb k "seed" then
    VBool <$> or_error (ParseBool v) "strconv.ParseBool: parsing failed"
  else Ret (VString v).
Fixpoint post_params (l : list (string * string)) (postParams : gmap string post_value) :
    result (gmap string post_value) :=
  match l with
  | [] => Ret postParams
  | (k, v) :: l' => p ← post_param k v; post_params l' (<[k := p]> postParams)
  end.
(** [json.Marshal] fails on infinities and on what is not a number. *)
Definition marshals (p : string * post_value) : bool :=
  match p.2 with VFloat f => is_finite f | _ => true end.
Definition doPost (url : string) (params : gmap string string) : M session error (gmap string json) :=
  postParams ← lift (post_params (range 0 params) ∅);
  if negb (forallb marshals (map_to_list postParams)) then fail (Errorf "json: unsupported value")
  else raw ← http_post url postParams; checkResponse raw.
Definition Add (api : string) (params : gmap string string) : M session error (gmap string json) :=
  doPost (api +:+ "/api/add") params.
Definition Start (api : string) (params : gmap string string) : M session error (gmap string json) :=
  doPost (api +:+ "/api/start") params.

Definition RunTask (id : string) (task : gmap string string) : M session error unit :=
  api ← must_get (id +:+ ".api");
  Add api task ;;
  response ← Start api task;
  fillTaskContext id response.
End dse.
End DSE.

(** ** [dse_02x_task_runner.go] *)
Module DSE02x.
Section dse02x.
Context `{ord : MapOrder} `{Network}.

(** The structs of a start response. [Mem] and [Cpu] of a node carry the same
    tag, so [encoding/json] reads neither. *)
Record DSEMesos02xNodeReservation : Type := MkReservation {
  Cpus : float64; rMem : Z; rPorts : gmap string Z }.
Record DSEMesos02xNodeRuntime : Type := MkRuntime {
  Hostname : string; SlaveID : string; ExecutorID : string;
  Attributes : gmap string string;
  Reservation : option DSEMesos02xNodeReservation;
  Seeds : list string; Address : string; TaskID : string }.
Record DSEMesos02xNode : Type := MkNode {
  Seed : bool; State : string; DC : string; ID : string; Rack : string;
  Runtime : option DSEMesos02xNodeRuntime }.
Record DSEMesos02xStartResponse : Type := MkStartResponse {
  Status : string; Nodes : list (option DSEMesos02xNode) }.

Definition decode_reservation (fs : list (string * json)) : result DSEMesos02xNodeReservation :=
  cpus ← decode_float (member_or_null "cpus" fs);
  mem ← decode_int (member_or_null "mem" fs);
  ports ← decode_map decode_int (member_or_null "ports" fs);
  Ret (MkReservation cpus mem ports).
Definition decode_runtime (fs : list (string * json)) : result DSEMesos02xNodeRuntime :=
  hostname ← decode_string (member_or_null "hostname" fs);
  slaveID ← decode_string (member_or_null "slaveId" fs);
  executorID ← decode_string (member_or_null "executorId" fs);
  attributes ← decode_map decode_string (member_or_null "attributes" fs);
  reservation ← decode_pointer decode_reservation (member_or_null "reservation" fs);
  seeds ← decode_list decode_string (member_or_null "seeds" fs);
  address ← decode_string (member_or_null "address" fs);
  taskID ← decode_string (member_or_null "taskId" fs);
  Ret (MkRuntime hostname slaveID executorID attributes reservation seeds address taskID).
Definition decode_node (fs : list (string * json)) : result DSEMesos02xNode :=
  seed ← decode_bool (member_or_null "seed" fs);
  state ← decode_string (member_or_null "state" fs);
  dc ← decode_string (member_or_null "dc" fs);
  id ← decode_string (member_or_null "id" fs);
  rack ← decode_string (member_or_null "rack" fs);
  runtime ← decode_pointer decode_runtime (member_or_null "runtime" fs);
  Ret (MkNode seed state dc id rack runtime).
Definition decode_start (fs : list (string * json)) : result DSEMesos02xStartResponse :=
  status ← decode_string (member_or_null "status" fs);
  nodes ← decode_list (decode_pointer decode_node) (member_or_null "nodes" fs);
  Ret (MkStartResponse status nodes).

Definition FillContext (id : string) (task : marathon_task) : M session error unit :=
  fill_context id task ;; mret tt.

(** The address and the ports of a node; a pointer on the way that is nil
    panics. *)
Definition node_runtime (node : option DSEMesos02xNode) :
    result (string * string * gmap string Z) :=
  match node with
  | None => Panic nil_dereference
  | Some n =>
      match Runtime n with
      | None => Panic nil_dereference
      | Some r =>
          match Reservation r with
          | None => Panic nil_dereference
          | Some reservation => Ret (ID n, Address r, rPorts reservation)
          end
      end
  end.
Definition node_endpoint (address : string) (ports : gmap string Z) : string :=
  address +:+ ":" +:+ Itoa (default 0%Z (ports !! "cql")).
(** One turn of the loop over the nodes; the result is the endpoint. *)
Definition fill_node (application : string) (node : option DSEMesos02xNode) :
    M session error string :=
  '(id, address, ports) ← lift (node_runtime node);
  let prefix := application +:+ ".cassandra-" +:+ id in
  set_stack_variable prefix (node_endpoint address ports) ;;
  set_stack_variable (prefix +:+ ".host") address ;;
  for_each (λ '(name, port), set_stack_variable (prefix +:+ "." +:+ name +:+ "Port") (Itoa port))
    (range 0 ports) ;;
  mret (node_endpoint address ports).
Definition fillTaskContext (application : string) (response : option json) :
    M session error unit :=
  start ← lift (match response with
                | None => Err (Errorf "invalid character")
                | Some j => decode_pointer decode_start j
                end);
  match start with
  | None => panic nil_dereference
  | Some startResponse =>
      if String.eqb (Status startResponse) "timeout" then fail (Errorf "Timed out")
      else
        servers ← collect (fill_node application) (Nodes startResponse);
        set_stack_variable (application +:+ ".cassandraConnect") (Join servers ",")
  end.

(** Anything but a JSON object with an error that is not about a duplicate
    cluster is accepted. *)
Definition checkResponse (raw : response) : M session error (option json) :=
  body ← read_all raw;
  match decode_object body with
  | Ret errorResponse =>
      match as_string (errorResponse !! "error") with
      | Some errorMessage =>
          if negb (Contains errorMessage "duplicate cluster") then fail (Errorf errorMessage)
          else mret body
      | None => mret body
      end
  | _ => mret body
  end.
Definition doGet (url : string) (params : gmap string string) : M session error (option json) :=
  raw ← http_get url (Some (select_params (λ _, true) params));
  checkResponse raw.
Definition AddCluster (api : string) (params : gmap string string) : M session error (option json) :=
  doGet (api +:+ "/api/cluster/add") params.
Definition Add (api : string) (params : gmap string string) : M session error (option json) :=
  doGet (api +:+ "/api/node/add") params.
Definition Start (api : string) (params : gmap string string) : M session error (option json) :=
  doGet (api +:+ "/api/node/start") params.

Definition RunTask (id : string) (task : gmap string string) : M session error unit :=
  api ← must_get (id +:+ ".api");
  AddCluster api task ;;
  Add api task ;;
  response ← Start api task;
  fillTaskContext id response.
End dse02x.
End DSE02x.

(** ** [exhibitor_task_runner.go] *)
Module Exhibitor.

Record exhibitorServerConfig : Type := MkConfig {
  ExhibitorConfig : gmap string string; SharedConfigOverride : gmap string string;
  config_Id : string; Hostname : string; Cpu : float64; Mem : float64; config_Ports : string }.
Record exhibitorServer : Type := MkServer {
  server_Id : string; State : string; Config : option exhibitorServerConfig }.
Record exhibitorCluster : Type := MkCluster {
  Frameworkid : string; Cluster : list (option exhibitorServer) }.
Record zookeeperStatus : Type := MkZookeeper {
  zk_Hostname : string; IsLeader : bool; Description : string; Code : Z }.
Record exhibitorStatus : Type := MkStatus {
  Server : option exhibitorServer; ExhibitorClusterView : list (option zookeeperStatus) }.
Record exhibitorClusterStatus : Type := MkClusterStatus {
  ServerStatuses : list (option exhibitorStatus) }.

Definition decode_config (fs : list (string * json)) : result exhibitorServerConfig :=
  exhibitorConfig ← decode_map decode_string (member_or_null "ExhibitorConfig" fs);
  override ← decode_map decode_string (member_or_null "SharedConfigOverride" fs);
  id ← decode_string (member_or_null "Id" fs);
  hostname ← decode_string (member_or_null "Hostname" fs);
  cpu ← decode_float (member_or_null "Cpu" fs);
  mem ← decode_float (member_or_null "Mem" fs);
  ports ← decode_string (member_or_null "Ports" fs);
  Ret (MkConfig exhibitorConfig override id hostname cpu mem ports).
Definition decode_server (fs : list (string * json)) : result exhibitorServer :=
  id ← decode_string (member_or_null "Id" fs);
  state ← decode_string (member_or_null "State" fs);
  config ← decode_pointer decode_config (member_or_null "Config" fs);
  Ret (MkServer id state config).
Definition decode_cluster (fs : list (string * json)) : result exhibitorCluster :=
  frameworkid ← decode_string (member_or_null "Frameworkid" fs);
  cluster ← decode_list (decode_pointer decode_server) (member_or_null "Cluster" fs);
  Ret (MkCluster frameworkid cluster).
Definition decode_zookeeper (fs : list (string * json)) : result zookeeperStatus :=
  hostname ← decode_string (member_or_null "Hostname" fs);
  isLeader ← decode_bool (member_or_null "IsLeader" fs);
  description ← decode_string (member_or_null "Description" fs);
  code ← decode_int (member_or_null "Code" fs);
  Ret (MkZookeeper hostname isLeader description code).
Definition decode_status (fs : list (string * json)) : result exhibitorStatus :=
  server ← decode_pointer decode_server (member_or_null "Server" fs);
  view ← decode_list (decode_pointer decode_zookeeper) (member_or_null "ExhibitorClusterView" fs);
  Ret (MkStatus server view).
Definition decode_cluster_status (fs : list (string * json)) : result exhibitorClusterStatus :=
  statuses ← decode_list (decode_pointer decode_status) (member_or_null "ServerStatuses" fs);
  Ret (MkClusterStatus statuses).

Section exhibitor.
Context `{ord : MapOrder} `{Network}.

Definition FillContext (id : string) (task : marathon_task) : M session error unit :=
  fill_context id task ;; mret tt.

Definition getClientPort (config : exhibitorServerConfig) : string :=
  match SharedConfigOverride config !! "client-port" with
  | Some port => port
  | None => "2181"
  end.
(** The address of a server; [serversMap], where the code also keeps it by the
    id of the server, is never read. *)
Definition hostname_of (server : option exhibitorServer) : result string :=
  match server with
  | Some s =>
      match Config s with
      | Some config => Ret (Hostname config +:+ ":" +:+ getClientPort config)
      | None => Panic nil_dereference
      end
  | None => Panic nil_dereference
  end.
Definition fillTaskContext (application : string) (response : option exhibitorCluster) :
    M session error unit :=
  match response with
  | None => panic nil_dereference
  | Some cluster =>
      servers ← lift (mapM hostname_of (Cluster cluster));
      set_indexed (application +:+ ".exhibitor-") 0 servers ;;
      set_stack_variable (application +:+ ".zkConnect") (Join servers ",")
  end.

(** [unmarshalInto] points to a pointer to an empty struct, [zero]: it stays
    there without a [Value], and [null] makes the pointer nil. *)
Definition checkResponse {A} (zero : A) (dec : list (string * json) → result A) (raw : response) :
    M session error (option A) :=
  body ← read_all raw;
  match body with
  | None => fail (Errorf "invalid character")
  | Some JNull => panic nil_dereference
  | Some (JObj fs) =>
      success ← lift (decode_bool (member_or_null "Success" fs));
      message ← lift (decode_string (member_or_null "Message" fs));
      value ← lift (match member "Value" fs with
                    | None => Ret (Some zero)
                    | Some j => decode_pointer dec j
                    end);
      if (success : bool) then mret value else fail (Errorf message)
  | Some _ => fail (Errorf "json: cannot unmarshal into Go value of type struct")
  end.
Definition cluster_call (url : string) (keep : string → bool) (params : gmap string string) :
    M session error (option exhibitorCluster) :=
  raw ← http_get url (Some (select_params keep params));
  checkResponse (MkCluster "" []) decode_cluster raw.

Definition add_keys : list string :=
  ["id"; "cpu"; "mem"; "constraints"; "configchangebackoff"; "port"; "docker"].
Definition not_config_keys : list string :=
  ["cpu"; "mem"; "constraints"; "configchangebackoff"; "port"; "docker"; "timeout"].
Definition Add (api : string) (params : gmap string string) :=
  cluster_call (api +:+ "/api/add") (λ k, bool_decide (k ∈ add_keys)) params.
Definition Update (api : string) (params : gmap string string) :=
  cluster_call (api +:+ "/api/config") (λ k, negb (bool_decide (k ∈ not_config_keys))) params.
Definition Start (api : string) (params : gmap string string) :=
  cluster_call (api +:+ "/api/start") (λ k, bool_decide (k ∈ ["id"; "timeout"])) params.
Definition Status (api : string) : M session error (option exhibitorClusterStatus) :=
  raw ← http_get (api +:+ "/api/status") None;
  checkResponse (MkClusterStatus []) decode_cluster_status raw.

(** How many servers a server sees serving. *)
Fixpoint count_serving (view : list (option zookeeperStatus)) : result nat :=
  match view with
  | [] => Ret O
  | None :: _ => Panic nil_dereference
  | Some zkStatus :: view' =>
      n ← count_serving view';
      Ret (if String.eqb (Description zkStatus) "serving" then S n else n)
  end.
(** Every server sees [targetRunning] servers that serve. *)
Fixpoint all_running (targetRunning : nat) (statuses : list (option exhibitorStatus)) :
    result bool :=
  match statuses with
  | [] => Ret true
  | None :: _ => Panic nil_dereference
  | Some serverStatus :: statuses' =>
      actualRunning ← count_serving (ExhibitorClusterView serverStatus);
      if (targetRunning =? actualRunning)%nat then all_running targetRunning statuses'
      else Ret false
  end.
(** One turn of the loop: [true] when it is over. *)
Definition poll (api : string) : M session error bool :=
  sleep ;;
  status ← Status api;
  match status with
  | None => panic nil_dereference
  | Some st => lift (all_running (length (ServerStatuses st)) (ServerStatuses st))
  end.
(** The loop has no bound; [fuel] counts its turns. *)
Fixpoint AwaitZookeeperRunning (fuel : nat) (api : string) : M session error progress :=
  match fuel with
  | O => mret Waiting
  | S fuel' =>
      running ← poll api;
      if (running : bool) then mret Returned else AwaitZookeeperRunning fuel' api
  end.

Definition RunTask (fuel : nat) (id : string) (task : gmap string string) :
    M session error progress :=
  api ← must_get (id +:+ ".api");
  Add api task ;;
  Update api task ;;
  response ← Start api task;
  fillTaskContext id response ;;
  AwaitZookeeperRunning fuel api.
End exhibitor.
End Exhibitor.

(** ** [elasticsearch_task_runner.go] *)
Module Elasticsearch.

Record ElasticsearchTask : Type := MkElasticsearchTask {
  ID : string; State : string; Name : string; Version : string; StartedAt : string;
  HttpAddress : string; TransportAddress : string; Hostname : string }.
Definition decode_task (fs : list (string * json)) : result ElasticsearchTask :=
  id ← decode_string (member_or_null "id" fs);
  state ← decode_string (member_or_null "state" fs);
  name ← decode_string (member_or_null "name" fs);
  version ← decode_string (member_or_null "version" fs);
  startedAt ← decode_string (member_or_null "started_at" fs);
  httpAddress ← decode_string (member_or_null "http_address" fs);
  transportAddress ← decode_string (member_or_null "transport_address" fs);
  hostname ← decode_string (member_or_null "hostname" fs);
  Ret (MkElasticsearchTask id state name version startedAt httpAddress transportAddress hostname).

Section elasticsearch.
Context `{ord : MapOrder} `{Network}.

(** The runner's [awaitTimeout] as it is printed. *)
Context (awaitTimeout : string).

Definition GetTasks (api : string) : M session error (list (option ElasticsearchTask)) :=
  raw ← http_get (api +:+ "/v1/tasks") None;
  body ← read_all raw;
  lift (match body with
        | None => Err (Errorf "invalid character")
        | Some j => decode_list (decode_pointer decode_task) j
        end).

(** The loop over the tasks: all of them run. *)
Fixpoint all_running (tasks : list (option ElasticsearchTask)) : result bool :=
  match tasks with
  | [] => Ret true
  | None :: _ => Panic nil_dereference
  | Some task :: tasks' =>
      if String.eqb (State task) "TASK_RUNNING" then all_running tasks' else Ret false
  end.
(** What is not an answer with tasks that all run is followed by a pause. *)
Definition poll (api : string) : M session error bool :=
  r ← catch (GetTasks api);
  running ← match r with
            | inl _ => mret false
            | inr [] => mret false
            | inr tasks => lift (all_running tasks)
            end;
  (if (running : bool) then mret tt else sleep) ;;
  mret running.
Fixpoint AwaitRunning (fuel : nat) (api : string) : M session error progress :=
  match fuel with
  | O => mret Waiting
  | S fuel' =>
      fired ← timer_fired;
      if (fired : bool) then
        fail (Errorf ("Failed to await for running Elasticsearch tasks after " +:+ awaitTimeout))
      else
        running ← poll api;
        if (running : bool) then mret Returned else AwaitRunning fuel' api
  end.

Fixpoint set_addresses (id : string) (idx : nat) (tasks : list (option ElasticsearchTask)) :
    M session error unit :=
  match tasks with
  | [] => mret tt
  | None :: _ => panic nil_dereference
  | Some task :: tasks' =>
      let prefix := id +:+ "." +:+ Itoa (Z.of_nat idx) in
      set_stack_variable (prefix +:+ ".httpAddress") (HttpAddress task) ;;
      set_stack_variable (prefix +:+ ".transportAddress") (TransportAddress task) ;;
      set_addresses id (S idx) tasks'
  end.
Definition FillContext (fuel : nat) (id : string) (task : marathon_task) :
    M session error progress :=
  api ← fill_context id task;
  r ← AwaitRunning fuel api;
  match r with
  | Waiting => mret Waiting
  | Returned =>
      tasks ← GetTasks api;
      set_addresses id 0 tasks ;;
      mret Returned
  end.

Definition RunTask (id : string) (task : gmap string string) : M session error unit :=
  fail (Errorf "Elasticsearch task runner does not support running tasks.").
End elasticsearch.
End Elasticsearch.

(** ** The interface [TaskRunner] and the table of [main.go] *)
Inductive runner : Type :=
| KafkaTaskRunner | ExhibitorTaskRunner | DSETaskRunner | DSE02xTaskRunner
| StatsdTaskRunner | SyslogTaskRunner | ZipkinTaskRunner | GoKafkaClientTaskRunner
| ElasticsearchTaskRunner (awaitTimeout : string).

Definition taskRunners : gmap string runner := list_to_map
  [("kafka-mesos-0.9.x", KafkaTaskRunner);
   ("exhibitor-mesos-0.1.x", ExhibitorTaskRunner);
   ("dse-mesos-0.1.x", DSETaskRunner);
   ("dse-mesos-0.2.x", DSE02xTaskRunner);
   ("statsd-mesos-0.1.x", StatsdTaskRunner);
   ("syslog-mesos-0.1.x", SyslogTaskRunner);
   ("zipkin-mesos-0.1.x", ZipkinTaskRunner);
   ("go-kafka-client-mesos-0.3.x", GoKafkaClientTaskRunner);
   ("elasticsearch", ElasticsearchTaskRunner "5m0s")].
Definition mesosTaskRunners : gset string := {["run-once"]}.

Section task_runner.
Context `{ord : MapOrder} `{Network}.

Definition returned (m : M session error unit) : M session error progress :=
  m ;; mret Returned.
(** [fuel] bounds the polls of the runners that wait. *)
Definition FillContext (r : runner) (fuel : nat) (id : string) (task : marathon_task) :
    M session error progress :=
  match r with
  | KafkaTaskRunner => returned (Kafka.FillContext id task)
  | ExhibitorTaskRunner => returned (Exhibitor.FillContext id task)
  | DSETaskRunner => returned (DSE.FillContext id task)
  | DSE02xTaskRunner => returned (DSE02x.FillContext id task)
  | StatsdTaskRunner => returned (Statsd.FillContext id task)
  | SyslogTaskRunner => returned (Syslog.FillContext id task)
  | ZipkinTaskRunner => returned (Zipkin.FillContext id task)
  | GoKafkaClientTaskRunner => returned (GoKafkaClient.FillContext id task)
  | ElasticsearchTaskRunner awaitTimeout => Elasticsearch.FillContext awaitTimeout fuel id task
  end.
Definition RunTask (r : runner) (fuel : nat) (id : string) (task : gmap string string) :
    M session error progress :=
  match r with
  | KafkaTaskRunner => returned (Kafka.RunTask id task)
  | ExhibitorTaskRunner => Exhibitor.RunTask fuel id task
  | DSETaskRunner => returned (DSE.RunTask id task)
  | DSE02xTaskRunner => returned (DSE02x.RunTask id task)
  | StatsdTaskRunner => returned (Statsd.RunTask id task)
  | SyslogTaskRunner => returned (Syslog.RunTask id task)
  | ZipkinTaskRunner => returned (Zipkin.RunTask id task)
  | GoKafkaClientTaskRunner => returned (GoKafkaClient.RunTask id task)
  | ElasticsearchTaskRunner _ => returned (Elasticsearch.RunTask id task)
  end.
End task_runner.
