(* ===== verification/TaskRunnersFacts.v ===== *)
(** What the task runners guarantee: the requests they send for a task and what
    a nil error says about the answers, the variables they set, and how long
    they wait. *)
From S2P Require Import Prelude GoStrings Errors Json Variables Data Strconv Http TaskRunners.
From Stdlib Require Import Ascii Lia.
Open Scope string_scope.
Open Scope list_scope.
Open Scope nat_scope.

(** ** Parameters of requests *)
Section params.
Context `{ord : MapOrder}.

(** The parameters [keep] accepts. *)
Definition kept (keep : string → bool) (params : gmap string string) : Values :=
  filter (λ '(k, _), keep k = true) params.

Lemma lookup_kept keep params k :
  kept keep params !! k = if keep k then params !! k else None.
Proof.
  rewrite /kept map_lookup_filter. destruct (params !! k) as [v|]; simpl; [|by destruct (keep k)].
  destruct (keep k) eqn:E; [by rewrite option_guard_True|by rewrite option_guard_False ?E].
Qed.

(** A loop that drops keys and renames the others through [f], one to one on
    the keys it keeps. *)
Lemma foldl_renamed {A B} (f : string → A → option (string * B)) (l : list (string * A)) (m0 : gmap string B) k x :
  (∀ i v j w k' x' y', (i, v) ∈ l → (j, w) ∈ l → f i v = Some (k', x') → f j w = Some (k', y') → i = j) →
  NoDup l.*1 →
  foldl (λ m '(i, v), match f i v with Some (k', x') => <[k' := x']> m | None => m end) m0 l !! k
    = Some x ↔
  (∃ i v, (i, v) ∈ l ∧ f i v = Some (k, x)) ∨
  ((∀ i v x', (i, v) ∈ l → f i v ≠ Some (k, x')) ∧ m0 !! k = Some x).
Proof.
  revert m0. induction l as [|[i v] l IH]; intros m0 Hinj Hnd; simpl.
  { split; [by intros H; right; split; [set_solver|]|]. intros [(? & ? & ? & _)|[_ ?]]; set_solver. }
  apply NoDup_cons in Hnd as [Hi Hnd].
  assert (∀ w, (i, w) ∉ l) as Hi'. { intros w Hw. apply Hi. by apply (list_elem_of_fmap_2' fst _ (i, w)). }
  rewrite IH //; [|intros; eapply Hinj; [by right|by right|done|done]]. split.
  - intros [(j & w & Hj & Hf)|[Hno Hm]]; [left; exists j, w; split; [by right|done]|].
    destruct (f i v) as [[k' x']|] eqn:E.
    + destruct (decide (k' = k)) as [->|Hne].
      * rewrite lookup_insert_eq in Hm. injection Hm as ->. left. exists i, v. split; [by left|done].
      * rewrite lookup_insert_ne // in Hm. right. split; [|done].
        intros j w y [[= -> ->]|Hj]%elem_of_cons; [congruence|by apply Hno].
    + right. split; [|done]. intros j w y [[= -> ->]|Hj]%elem_of_cons; [congruence|by apply Hno].
  - intros [(j & w & [[= -> ->]|Hj]%elem_of_cons & Hf)|[Hno Hm]].
    + rewrite Hf lookup_insert_eq. right. split; [|done].
      intros j w y Hj Hf'. assert (i = j) as -> by (eapply Hinj; [by left|by right|done|done]).
      by apply (Hi' w).
    + left. by exists j, w.
    + right. split; [intros j w y Hj; apply Hno; by right|].
      destruct (f i v) as [[k' x']|] eqn:E; [|done].
      rewrite lookup_insert_ne //. intros ->. apply (Hno i v x'); [by left|done].
Qed.

Lemma loop_ext {A B} (f g : A → B → A) l : (∀ a b, f a b = g a b) → ∀ a, foldl f a l = foldl g a l.
Proof. intros Hfg. induction l as [|b l IH]; intros a; simpl; [done|]. by rewrite Hfg. Qed.

Lemma select_params_kept keep params : select_params keep params = kept keep params.
Proof.
  apply map_eq. intros k. apply option_eq. intros x. rewrite lookup_kept.
  pose proof (foldl_renamed (λ i v, if keep i then Some (i, v) else None) (range 0 params) ∅ k x) as Hf.
  rewrite /select_params.
  rewrite (loop_ext _ (λ (m : Values) '(i, v), match (if keep i then Some (i, v) else None) with
                                  | Some (k', x') => <[k' := x']> m | None => m end));
    [|by intros m [i v]; destruct (keep i)].
  rewrite Hf; [|intros i v j w k' x' y' _ _; destruct (keep i), (keep j); naive_solver|apply NoDup_range_keys].
  setoid_rewrite elem_of_range. rewrite lookup_empty. split.
  - intros [(i & v & Hi & Hk)|[_ ?]]; [|done]. destruct (keep i) eqn:E; [|done].
    injection Hk as -> ->. by rewrite E.
  - intros Hx. left. exists k, x. destruct (keep k); [|done]. done.
Qed.

(** What the broker is added with: [id] is sent as [broker], and everything
    but the timeout is passed on. *)
Definition broker_values (params : gmap string string) : Values :=
  let rest := delete "id" (delete "timeout" params) in
  match params !! "id" with
  | Some v => <["broker" := v]> rest
  | None => rest
  end.

Lemma add_values_spec params :
  params !! "id" = None ∨ params !! "broker" = None →
  Kafka.add_values params = broker_values params.
Proof.
  intros Hb. apply map_eq. intros k. apply option_eq. intros x.
  rewrite /Kafka.add_values.
  rewrite (loop_ext _ (λ (m : Values) '(i, v),
    match (if String.eqb i "timeout" then None
           else if String.eqb i "id" then Some ("broker", v) else Some (i, v)) with
    | Some (k', x') => <[k' := x']> m | None => m end));
    [|by intros m [i v]; destruct (String.eqb i "timeout"), (String.eqb i "id")].
  rewrite (foldl_renamed (λ i v, if String.eqb i "timeout" then None
           else if String.eqb i "id" then Some ("broker", v) else Some (i, v)));
    [|intros i v j w k' x' y'|apply NoDup_range_keys].
  - setoid_rewrite elem_of_range. rewrite lookup_empty /broker_values. split.
    + intros [(i & v & Hi & Hf)|[_ ?]]; [|done].
      destruct (String.eqb_spec i "timeout"); [done|].
      destruct (String.eqb_spec i "id") as [->|]; injection Hf as <- ->.
      * by rewrite Hi lookup_insert_eq.
      * assert (i ≠ "broker" ∨ params !! "id" = None) as Hne by (destruct Hb; [by right|left; congruence]).
        destruct (params !! "id") eqn:E; [destruct Hne as [Hne|]; [|done]; rewrite lookup_insert_ne //|];
          by rewrite !lookup_delete_ne.
    + intros Hx. left. destruct (params !! "id") as [v|] eqn:E.
      * destruct (decide (k = "broker")) as [->|Hne].
        -- rewrite lookup_insert_eq in Hx. injection Hx as ->. by exists "id", x.
        -- rewrite lookup_insert_ne // in Hx.
           apply lookup_delete_Some in Hx as [? [? Hx]%lookup_delete_Some].
           exists k, x. split; [done|]. by rewrite !(proj2 (String.eqb_neq _ _)).
      * apply lookup_delete_Some in Hx as [? [? Hx]%lookup_delete_Some].
        exists k, x. split; [done|]. by rewrite !(proj2 (String.eqb_neq _ _)).
  - rewrite !elem_of_range. intros Hi Hj.
    destruct (String.eqb_spec i "timeout"), (String.eqb_spec j "timeout"); [done..|].
    destruct (String.eqb_spec i "id") as [->|], (String.eqb_spec j "id") as [->|]; naive_solver.
Qed.

(** What the broker is started with. *)
Definition broker_start (params : gmap string string) : Values :=
  let timeout : Values := filter (λ '(k, _), k = "timeout") params in
  match params !! "id" with
  | Some v => <["broker" := v]> timeout
  | None => timeout
  end.

Lemma start_values_spec params : Kafka.start_values params = broker_start params.
Proof.
  apply map_eq. intros k. apply option_eq. intros x. rewrite /Kafka.start_values.
  rewrite (loop_ext _ (λ (m : Values) '(i, v),
    match (if String.eqb i "id" then Some ("broker", v)
           else if String.eqb i "timeout" then Some ("timeout", v) else None) with
    | Some (k', x') => <[k' := x']> m | None => m end)).
  2:{ intros m [i v]. destruct (String.eqb_spec i "id") as [->|]; [done|].
      by destruct (String.eqb_spec i "timeout"). }
  rewrite (foldl_renamed (λ i v, if String.eqb i "id" then Some ("broker", v)
           else if String.eqb i "timeout" then Some ("timeout", v) else None));
    [|intros i v j w k' x' y' _ _|apply NoDup_range_keys].
  - setoid_rewrite elem_of_range. rewrite lookup_empty /broker_start. split.
    + intros [(i & v & Hi & Hf)|[_ ?]]; [|done].
      destruct (String.eqb_spec i "id") as [->|]; [injection Hf as <- ->; by rewrite Hi lookup_insert_eq|].
      destruct (String.eqb_spec i "timeout") as [->|]; [|done]. injection Hf as <- ->.
      destruct (params !! "id"); [rewrite lookup_insert_ne //|]; by apply map_lookup_filter_Some.
    + intros Hx. left. destruct (decide (k = "broker")) as [->|Hne].
      * destruct (params !! "id") as [v|] eqn:E.
        -- rewrite lookup_insert_eq in Hx. injection Hx as ->. by exists "id", x.
        -- by apply map_lookup_filter_Some in Hx as [_ ?].
      * assert (filter (λ '(k, _), k = "timeout") params !! k = Some x) as [Hk ->]%map_lookup_filter_Some.
        { destruct (params !! "id"); [by rewrite lookup_insert_ne in Hx|done]. }
        by exists "timeout", x.
  - destruct (String.eqb_spec i "id"), (String.eqb_spec j "id"); [congruence| | |];
      destruct (String.eqb_spec i "timeout"), (String.eqb_spec j "timeout"); congruence.
Qed.

(** The parameters of a task as JSON values, where they all are values. *)
Definition post_values (params : gmap string string) : gmap string post_value :=
  map_imap (λ k v, match DSE.post_param k v with Ret p => Some p | _ => None end) params.

Lemma post_params_spec l m m' :
  NoDup l.*1 → DSE.post_params l m = Ret m' → ∀ k,
  m' !! k = match (list_to_map l : gmap string string) !! k with
            | Some v => match DSE.post_param k v with Ret p => Some p | _ => None end
            | None => m !! k
            end.
Proof.
  revert m. induction l as [|[i v] l IH]; intros m Hnd; simpl; [by intros [= ->]|].
  apply NoDup_cons in Hnd as [Hi Hnd]. destruct (DSE.post_param i v) as [p|e|p] eqn:E; [|done..].
  intros Hl k. rewrite (IH _ Hnd Hl k). destruct (decide (k = i)) as [->|Hne].
  - by rewrite (not_elem_of_list_to_map_1 _ _ Hi) !lookup_insert_eq E.
  - by rewrite !lookup_insert_ne.
Qed.

Lemma post_params_range params m :
  DSE.post_params (range 0 params) ∅ = Ret m → m = post_values params.
Proof.
  intros Hp. apply map_eq. intros k. rewrite (post_params_spec _ _ _ (NoDup_range_keys _ _) Hp).
  rewrite list_to_map_range /post_values map_lookup_imap lookup_empty.
  by destruct (params !! k).
Qed.
End params.

(** ** Requests *)

(** A response that counts as a success for the framework of a runner. *)
Definition document (raw : response) : option (gmap string json) :=
  match Body raw with
  | inr body => match decode_object body with Ret doc => Some doc | _ => None end
  | inl _ => None
  end.
Definition has_field (key : string) (j : json) (raw : response) : Prop :=
  ∃ doc, document raw = Some doc ∧ doc !! key = Some j.
Definition reports_success (r : runner) (raw : response) : Prop :=
  match r with
  | KafkaTaskRunner =>
      StatusCode raw = 200%Z ∧ ∃ doc, document raw = Some doc ∧ doc !! "error" = None
  | StatsdTaskRunner | SyslogTaskRunner =>
      StatusCode raw = 200%Z ∧ has_field "Success" (JBool true) raw
  | GoKafkaClientTaskRunner => has_field "Success" (JBool true) raw
  | ZipkinTaskRunner | DSETaskRunner => has_field "success" (JBool true) raw
  | DSE02xTaskRunner =>
      ∀ e, has_field "error" (JStr e) raw → Contains e "duplicate cluster" = true
  | ExhibitorTaskRunner =>
      ∃ fields, Body raw = inr (Some (JObj fields)) ∧ member "Success" fields = Some (JBool true)
  | ElasticsearchTaskRunner _ => False
  end.

(** The requests for a task, in their order. *)
Definition plan (r : runner) (api : string) (task : gmap string string) : list call :=
  let get path query := HttpGet (api +:+ path) query in
  let only keys := Some (kept (λ k, bool_decide (k ∈ keys)) task) in
  let all_but keys := Some (kept (λ k, negb (bool_decide (k ∈ keys))) task) in
  match r with
  | KafkaTaskRunner =>
      [get "/api/broker/add" (Some (broker_values task));
       get "/api/broker/start" (Some (broker_start task))]
  | StatsdTaskRunner | SyslogTaskRunner =>
      [get "/api/update" (Some task); get "/api/start" None]
  | GoKafkaClientTaskRunner =>
      [get "/api/add" (only ["id"; "type"; "cpu"; "mem"; "executor"]);
       get "/api/update" (all_but ["type"; "cpu"; "mem"; "executor"; "timeout"]);
       get "/api/start" (only ["id"; "timeout"])]
  | ZipkinTaskRunner =>
      let path := "/api/" +:+ default "" (task !! "type") in
      [get (path +:+ "/add")
         (only ["id"; "cpu"; "mem"; "flags"; "env"; "port"; "adminPort"; "configFile"; "constraints"]);
       get (path +:+ "/start") (only ["id"; "timeout"])]
  | DSETaskRunner =>
      [HttpPost (api +:+ "/api/add") (post_values task);
       HttpPost (api +:+ "/api/start") (post_values task)]
  | DSE02xTaskRunner =>
      [get "/api/cluster/add" (Some task); get "/api/node/add" (Some task);
       get "/api/node/start" (Some task)]
  | ExhibitorTaskRunner =>
      [get "/api/add" (only ["id"; "cpu"; "mem"; "constraints"; "configchangebackoff"; "port"; "docker"]);
       get "/api/config"
         (all_but ["cpu"; "mem"; "constraints"; "configchangebackoff"; "port"; "docker"; "timeout"]);
       get "/api/start" (only ["id"; "timeout"])]
  | ElasticsearchTaskRunner _ => []
  end.
(** The polls that follow, [n] of them: only Exhibitor's runner waits. *)
Definition polls (r : runner) (api : string) (n : nat) : list call :=
  match r with
  | ExhibitorTaskRunner => mjoin (replicate n [Pause; HttpGet (api +:+ "/api/status") None])
  | _ => []
  end.

Section requests.
Context `{ord : MapOrder} `{Network}.

(** Every request of [t], made after [t0], was answered with a response in
    [ok]. *)
Definition answered (ok : response → Prop) (t0 t : list call) : Prop :=
  ∀ i c, t !! i = Some c → c ≠ Pause →
    ∃ raw, answer (t0 ++ take (S i) t) = inr raw ∧ ok raw.

Lemma answered_app ok t0 t1 t2 :
  answered ok t0 t1 → answered ok (t0 ++ t1) t2 → answered ok t0 (t1 ++ t2).
Proof.
  intros H1 H2 i c Hi Hc. destruct (decide (i < length t1)) as [Hlt|Hge].
  - rewrite lookup_app_l // in Hi. rewrite take_app_le; [|lia]. by eapply H1.
  - rewrite lookup_app_r in Hi; [|lia]. destruct (H2 _ _ Hi Hc) as (raw & Ha & Hok).
    exists raw. split; [|done]. rewrite -Ha -app_assoc take_app_ge; [|lia].
    by replace (S i - length t1) with (S (i - length t1)) by lia.
Qed.

(** [sends ok m L Q]: [m] sends a prefix of [L], and if it returns a result it
    sent all of [L], every answer was in [ok], and the result is in [Q]. *)
Definition sends (ok : response → Prop) {A} (m : M session error A) (L : list call)
    (Q : A → Prop) : Prop :=
  ∀ s, let '(r, s') := m s in ∃ t, calls s' = calls s ++ t ∧ t `prefix_of` L ∧
    ∀ x, r = Ret x → t = L ∧ answered ok (calls s) t ∧ Q x.

Lemma sends_bind {A B} ok (m : M session error A) (f : A → M session error B) L1 L2 Q Q' :
  sends ok m L1 Q → (∀ x, Q x → sends ok (f x) L2 Q') → sends ok (m ≫= f) (L1 ++ L2) Q'.
Proof.
  intros Hm Hf s. specialize (Hm s). rewrite /mbind /M_mbind.
  destruct (m s) as [[x|e|p] s1]; destruct Hm as (t1 & Ht1 & Hp1 & Hx1).
  - destruct (Hx1 x eq_refl) as (-> & Ha1 & Hx). specialize (Hf x Hx s1).
    destruct (f x s1) as [r s2]. destruct Hf as (t2 & Ht2 & Hp2 & Hx2).
    exists (L1 ++ t2). rewrite Ht2 Ht1 app_assoc. split_and!; [done|by apply prefix_app|].
    intros y Hy. destruct (Hx2 y Hy) as (-> & Ha2 & Hy'). split_and!; [done| |done].
    apply answered_app; [done|]. by rewrite -Ht1.
  - exists t1. split_and!; [done|by apply prefix_app_r|done].
  - exists t1. split_and!; [done|by apply prefix_app_r|done].
Qed.

(** A step without requests. *)
Lemma sends_silent {A} ok (m : M session error A) L (Q : A → Prop) :
  (∀ s, calls (m s).2 = calls s) → (L = [] ∨ ∀ s x, (m s).1 ≠ Ret x) →
  (∀ s x, (m s).1 = Ret x → Q x) → sends ok m L Q.
Proof.
  intros Hm HL HQ s. specialize (Hm s). specialize (HQ s).
  destruct (m s) as [r s'] eqn:E. simpl in *. exists []. rewrite app_nil_r.
  split_and!; [done|apply prefix_nil|]. intros x ->. destruct HL as [->|HL].
  - split_and!; [done| |by apply HQ]. intros i c Hi. done.
  - specialize (HL s x). by rewrite E in HL.
Qed.
Lemma sends_bind_silent {A B} ok (m : M session error A) (f : A → M session error B) L Q Q' :
  sends ok m [] Q → (∀ x, Q x → sends ok (f x) L Q') → sends ok (m ≫= f) L Q'.
Proof. apply (sends_bind ok m f [] L). Qed.
Lemma sends_ret {A} ok (x : A) (Q : A → Prop) : Q x → sends ok (mret x) [] Q.
Proof. intros Hx. apply sends_silent; [done|by left|]. by intros s y [= <-]. Qed.
Lemma sends_lift {A} ok (r : result A) (Q : A → Prop) :
  (∀ x, r = Ret x → Q x) → sends ok (lift r) [] Q.
Proof. intros Hr. apply sends_silent; [done|by left|]. intros s x Hx. by apply Hr. Qed.
Lemma sends_weaken {A} ok (m : M session error A) L (Q Q' : A → Prop) :
  (∀ x, Q x → Q' x) → sends ok m L Q → sends ok m L Q'.
Proof.
  intros HQ Hm s. specialize (Hm s). destruct (m s) as [r s'].
  destruct Hm as (t & ? & ? & Hx). exists t. split_and!; [done..|]. naive_solver.
Qed.

(** A check of a response: it sends nothing and passes the responses in [ok]. *)
Definition checks (ok : response → Prop) {A} (check : response → M session error A) : Prop :=
  ∀ raw s, (check raw s).2 = s ∧ ∀ x, (check raw s).1 = Ret x → ok raw.

Lemma sends_call {A} ok (c : call) (check : response → M session error A) :
  checks ok check →
  sends ok (t ← call_out c; raw ← lift (from_sum (answer t)); check raw) [c] (λ _, True).
Proof.
  intros Hc s. rewrite /call_out. run_m.
  destruct (answer (calls s ++ [c])) as [e|raw] eqn:Ha; simpl.
  { exists [c]. split_and!; [done|done|done]. }
  destruct (Hc raw (MkSession (calls s ++ [c]) (others (calls s ++ [c]) (context s)))) as [Hs Hok].
  destruct (check raw _) as [r s'] eqn:E. simpl in *. subst s'. exists [c].
  split_and!; [done|done|]. intros x ->. split_and!; [done| |done].
  intros [|i] c' Hi Hp; [|done]. simpl. exists raw. split; [done|by eapply Hok].
Qed.
Lemma sends_get {A} ok url query (check : response → M session error A) :
  checks ok check →
  sends ok (raw ← http_get url query; check raw) [HttpGet url query] (λ _, True).
Proof. apply (sends_call ok (HttpGet url query)). Qed.
Lemma sends_post {A} ok url body (check : response → M session error A) :
  checks ok check →
  sends ok (raw ← http_post url body; check raw) [HttpPost url body] (λ _, True).
Proof. apply (sends_call ok (HttpPost url body)). Qed.

(** ** The checks of responses *)
Lemma check_bind {A B} (c : response → M session error A) (f : response → A → M session error B)
    (ok ok' : response → Prop) :
  checks ok c → (∀ x, checks ok' (λ raw, f raw x)) →
  checks (λ raw, ok raw ∧ ok' raw) (λ raw, x ← c raw; f raw x).
Proof.
  intros Hc Hf raw s. destruct (Hc raw s) as [Hs Hx]. rewrite /mbind /M_mbind.
  destruct (c raw s) as [[x|e|p] s']; simpl in *; subst s'; [|done..].
  destruct (Hf x raw s) as [Hs' Hx']. split; [done|]. intros y Hy. split; [by eapply Hx|by eapply Hx'].
Qed.

Lemma check_status_ok : checks (λ raw, StatusCode raw = 200%Z) check_status.
Proof.
  intros raw s. rewrite /check_status. destruct (StatusCode raw =? 200)%Z eqn:E; [|done].
  split; [done|]. intros _ _. by apply Z.eqb_eq.
Qed.

(** Reading a document out of a response and looking at it. *)
Lemma check_document {A} (look : gmap string json → result A) (ok : gmap string json → Prop) :
  (∀ doc x, look doc = Ret x → ok doc) →
  checks (λ raw, ∃ doc, document raw = Some doc ∧ ok doc)
    (λ raw, body ← read_all raw; response ← lift (decode_object body); lift (look response)).
Proof.
  intros Hl raw s. rewrite /read_all /document. run_m. destruct (Body raw) as [e|body]; [done|]. simpl.
  destruct (decode_object body) as [doc|e|p]; [|done..]. simpl.
  destruct (look doc) as [x|e|p] eqn:E; simpl; [|done..].
  split; [done|]. intros _ _. exists doc. split; [done|by eapply Hl].
Qed.

Lemma checks_ext {A} (ok ok' : response → Prop) (c c' : response → M session error A) :
  (∀ raw, ok raw → ok' raw) → (∀ raw s, c' raw s = c raw s) → checks ok c → checks ok' c'.
Proof. intros Hok Hc Hck raw s. rewrite Hc. destruct (Hck raw s). naive_solver. Qed.

Lemma check_Success_ok name : checks (has_field "Success" (JBool true)) (check_Success name).
Proof.
  eapply (checks_ext _ _ _ _ (λ raw, id)); [|apply (check_document (λ doc,
    match doc !! "Success" with
    | None => Err (Errorf ("Invalid " +:+ name +:+ " response"))
    | Some (JBool true) => Ret tt
    | Some (JBool false) => as_error (doc !! "Message")
    | Some _ => Err (Errorf ("Invalid " +:+ name +:+ " Success field type"))
    end) (λ doc, doc !! "Success" = Some (JBool true)))].
  - intros raw s. rewrite /check_Success /read_all. run_m. destruct (Body raw) as [e|body]; [done|].
    simpl. destruct (decode_object body) as [doc|e|p]; [|done..].
    by destruct (doc !! "Success") as [[|[]| | | |]|].
  - intros doc x. destruct (doc !! "Success") as [[|[]| | | |]|]; [done..| |done|done|done|done|done].
    intros Hx. exfalso. rewrite /as_error in Hx. by destruct (doc !! "Message") as [[]|].
Qed.

Lemma check_success_ok : checks (has_field "success" (JBool true)) check_success.
Proof.
  eapply (checks_ext _ _ _ _ (λ raw, id)); [|apply (check_document (λ doc,
    match as_bool (doc !! "success") with
    | Some true => Ret doc
    | _ => match as_string (doc !! "message") with
           | Some message => Err (Errorf message)
           | None => Err (Errorf "Request failed for unknown reason")
           end
    end) (λ doc, doc !! "success" = Some (JBool true)))].
  - intros raw s. rewrite /check_success /read_all. run_m. destruct (Body raw) as [e|body]; [done|].
    simpl. destruct (decode_object body) as [doc|e|p]; [|done..]. simpl.
    destruct (as_bool (doc !! "success")) as [[]|]; [done| |];
      by destruct (as_string (doc !! "message")).
  - intros doc x. rewrite /as_bool /as_string. destruct (doc !! "success") as [[|[]| | | |]|];
      try done; by destruct (doc !! "message") as [[]|].
Qed.

Lemma check_kafka : checks (reports_success KafkaTaskRunner) Kafka.checkResponse.
Proof.
  refine (checks_ext _ _ _ _ (λ raw, id) _ (check_bind check_status
    (λ raw _, body ← read_all raw; response ← lift (decode_object body);
              lift (match response !! "error" with
                    | Some msg => as_error (Some msg) | None => Ret tt end)) _ _
    check_status_ok (λ _, check_document _ (λ doc, doc !! "error" = None) _))).
  - intros raw s. rewrite /Kafka.checkResponse /read_all. run_m.
    destruct (check_status raw s) as [[[]|e|p] s']; [|done..].
    destruct (Body raw) as [e|body]; [done|]. simpl.
    destruct (decode_object body) as [doc|e|p]; [|done..]. simpl. by destruct (doc !! "error").
  - intros doc x. destruct (doc !! "error") as [j|]; [|done]. by destruct j.
Qed.

Lemma check_dse02x : checks (reports_success DSE02xTaskRunner) DSE02x.checkResponse.
Proof.
  intros raw s. rewrite /DSE02x.checkResponse /read_all /reports_success /has_field /document. run_m.
  destruct (Body raw) as [e|body]; [done|]. simpl.
  destruct (decode_object body) as [doc|e|p]; simpl; [|naive_solver..].
  destruct (as_string (doc !! "error")) as [msg|] eqn:E.
  - destruct (Contains msg "duplicate cluster") eqn:Ec; simpl; [|done]. split; [done|].
    intros x _ e (doc' & [= <-] & He). rewrite He in E. by injection E as ->.
  - split; [done|]. intros x _ e (doc' & [= <-] & He). by rewrite He in E.
Qed.

Lemma check_exhibitor {A} (zero : A) dec :
  checks (reports_success ExhibitorTaskRunner) (Exhibitor.checkResponse zero dec).
Proof.
  intros raw s. rewrite /Exhibitor.checkResponse /read_all /reports_success. run_m.
  destruct (Body raw) as [e|[[]|]]; [done..| |done]. simpl.
  rewrite /member_or_null. destruct (member "Success" fields) as [j|] eqn:E; simpl;
    [destruct j; simpl; try done; try destruct b|].
  all: destruct (decode_string _) as [message|e|p]; simpl; [|done..].
  all: destruct (match member "Value" fields with Some _ => _ | None => _ end); simpl; [|done..].
  all: split; [done|]; naive_solver.
Qed.
End requests.

(** ** Steps that only write variables *)
Section quiet.
Context `{ord : MapOrder} `{Network}.

Abbreviation quiet := (keeps (E := error) calls).

Lemma quiet_set k v : quiet (set_stack_variable k v).
Proof. done. Qed.
#[local] Hint Resolve quiet_set : keepdb.

Lemma quiet_set_indexed prefix idx hosts : quiet (set_indexed prefix idx hosts).
Proof. revert idx. induction hosts as [|h l IH]; intros idx; cbn [set_indexed]; keep. Qed.
#[local] Hint Resolve quiet_set_indexed : keepdb.

Lemma quiet_fill_zipkin id response : quiet (Zipkin.fillTaskContext id response).
Proof. rewrite /Zipkin.fillTaskContext. keep. Qed.
Lemma quiet_fill_dse id response : quiet (DSE.fillTaskContext id response).
Proof. rewrite /DSE.fillTaskContext. keep. Qed.
Lemma quiet_fill_exhibitor id response : quiet (Exhibitor.fillTaskContext id response).
Proof. rewrite /Exhibitor.fillTaskContext. keep. Qed.
Lemma quiet_fill_dse02x id response : quiet (DSE02x.fillTaskContext id response).
Proof. rewrite /DSE02x.fillTaskContext /DSE02x.fill_node. keep. Qed.

Lemma sends_quiet {A} ok (m : M session error A) : quiet m → sends ok m [] (λ _, True).
Proof. intros Hm. apply sends_silent; [done|by left|done]. Qed.

(** A request, its check, and what follows. *)
Lemma sends_cons {A B} ok c (m : M session error A) (f : A → M session error B) L Q :
  sends ok m [c] (λ _, True) → (∀ x, sends ok (f x) L Q) → sends ok (m ≫= f) (c :: L) Q.
Proof. intros Hm Hf. apply (sends_bind ok m f [c] L _ _ Hm). intros x _. apply Hf. Qed.

Lemma sends_returned ok (m : M session error unit) L :
  sends ok m L (λ _, True) → sends ok (returned m) L (λ p, p = Returned).
Proof.
  intros Hm. rewrite -(app_nil_r L). eapply sends_bind; [done|]. intros _ _. by apply sends_ret.
Qed.
End quiet.

(** The parameters of a broker are named unambiguously. *)
Definition one_broker (r : runner) (task : gmap string string) : Prop :=
  r = KafkaTaskRunner → task !! "id" = None ∨ task !! "broker" = None.

Section tasks.
Context `{ord : MapOrder} `{Network}.

(** What [RunTask] does once it has the address of the API. *)
Definition task_body (r : runner) (id api : string) (task : gmap string string) :
    M session error unit :=
  match r with
  | KafkaTaskRunner => Kafka.Add api task ;; Kafka.Start api task
  | StatsdTaskRunner => Statsd.Update api task ;; Statsd.Start api task
  | SyslogTaskRunner => Syslog.Update api task ;; Syslog.Start api task
  | GoKafkaClientTaskRunner =>
      GoKafkaClient.Add api task ;; GoKafkaClient.Update api task ;; GoKafkaClient.Start api task
  | ZipkinTaskRunner =>
      match task !! "id" with
      | None => fail (Errorf "Missing task id")
      | Some taskId =>
          match task !! "type" with
          | None => fail (Errorf ("Missing task type for id " +:+ taskId))
          | Some taskType =>
              Zipkin.Add api task ;;
              response ← Zipkin.Start api task;
              if String.eqb taskType "query" then Zipkin.fillTaskContext id response else mret tt
          end
      end
  | DSETaskRunner => DSE.Add api task ;; response ← DSE.Start api task; DSE.fillTaskContext id response
  | DSE02xTaskRunner =>
      DSE02x.AddCluster api task ;; DSE02x.Add api task ;;
      response ← DSE02x.Start api task; DSE02x.fillTaskContext id response
  | ExhibitorTaskRunner =>
      Exhibitor.Add api task ;; Exhibitor.Update api task ;;
      response ← Exhibitor.Start api task; Exhibitor.fillTaskContext id response
  | ElasticsearchTaskRunner _ => fail (Errorf "Elasticsearch task runner does not support running tasks.")
  end.

Lemma kept_all params : kept (λ _, true) params = params.
Proof. apply map_eq. intros k. by rewrite lookup_kept. Qed.

Lemma sends_doPost url task :
  sends (reports_success DSETaskRunner) (DSE.doPost url task) [HttpPost url (post_values task)]
    (λ _, True).
Proof.
  rewrite /DSE.doPost. apply (sends_bind_silent _ _ _ _ (λ m, m = post_values task)).
  { apply sends_lift. apply post_params_range. }
  intros m ->. destruct (forallb _ _); simpl; [|apply sends_silent; [done|by right|done]].
  apply sends_post, check_success_ok.
Qed.

Lemma sends_only keys url task {A} ok (check : response → M session error A) :
  checks ok check →
  sends ok (raw ← http_get url (Some (select_params keys task)); check raw)
    [HttpGet url (Some (kept keys task))] (λ _, True).
Proof. intros Hc. rewrite -select_params_kept. by apply sends_get. Qed.
Lemma sends_all url task {A} ok (check : response → M session error A) :
  checks ok check →
  sends ok (raw ← http_get url (Some (select_params (λ _, true) task)); check raw)
    [HttpGet url (Some task)] (λ _, True).
Proof. rewrite -{2}(kept_all task). apply sends_only. Qed.

Lemma check_statsd name :
  checks (λ raw, StatusCode raw = 200%Z ∧ has_field "Success" (JBool true) raw)
    (λ raw, check_status raw ;; check_Success name raw).
Proof.
  apply (check_bind check_status (λ raw _, check_Success name raw));
    [apply check_status_ok|intros _; apply check_Success_ok].
Qed.

Lemma sends_task_body r id api task :
  one_broker r task → sends (reports_success r) (task_body r id api task) (plan r api task) (λ _, True).
Proof.
  intros Hb. destruct r; simpl.
  - rewrite -(add_values_spec task (Hb eq_refl)) -start_values_spec.
    apply sends_cons; [apply sends_get, check_kafka|]. intros _. apply sends_get, check_kafka.
  - do 3 (apply sends_cons; [apply sends_only, check_exhibitor|]; intro).
    apply sends_quiet, quiet_fill_exhibitor.
  - do 2 (apply sends_cons; [apply sends_doPost|]; intro). apply sends_quiet, quiet_fill_dse.
  - do 3 (apply sends_cons; [apply sends_all, check_dse02x|]; intro).
    apply sends_quiet, quiet_fill_dse02x.
  - apply sends_cons; [apply sends_all, check_statsd|]. intro. apply sends_get, check_statsd.
  - apply sends_cons; [apply sends_all, check_statsd|]. intro. apply sends_get, check_statsd.
  - destruct (task !! "id") as [taskId|]; [|by apply sends_silent; [done|by right|done]].
    destruct (task !! "type") as [taskType|] eqn:Ht; [|by apply sends_silent; [done|by right|done]].
    rewrite /= /Zipkin.Add /Zipkin.Start /Zipkin.taskType Ht /=.
    do 2 (apply sends_cons; [apply sends_only, check_success_ok|]; intro).
    destruct (String.eqb taskType "query"); [apply sends_quiet, quiet_fill_zipkin|by apply sends_ret].
  - do 2 (apply sends_cons; [apply sends_only, check_Success_ok|]; intro).
    apply sends_only, check_Success_ok.
  - by apply sends_silent; [done|by right|done].
Qed.

(** ** Waiting for ZooKeeper *)
Definition poll_calls (api : string) : list call :=
  [Pause; HttpGet (api +:+ "/api/status") None].

Lemma sends_poll api :
  sends (reports_success ExhibitorTaskRunner) (Exhibitor.poll api) (poll_calls api) (λ _, True).
Proof.
  apply (sends_cons _ Pause).
  { intros s. exists [Pause]. split_and!; [done|done|]. intros [] _. split_and!; [done| |done].
    by intros [|i] c [= <-] Hc. }
  intros _. apply (sends_bind _ _ _ [_] []  (λ _, True)); [apply sends_get, check_exhibitor|].
  intros [st|] _; [by apply sends_lift|by apply sends_silent; [done|by left|done]].
Qed.

Lemma await_sends fuel api : ∀ s,
  let '(o, s') := Exhibitor.AwaitZookeeperRunning fuel api s in
  ∃ t n, calls s' = calls s ++ t ∧ t `prefix_of` polls ExhibitorTaskRunner api n ∧
    (o = Ret Returned → t = polls ExhibitorTaskRunner api n ∧
       answered (reports_success ExhibitorTaskRunner) (calls s) t).
Proof.
  induction fuel as [|fuel IH]; intros s; cbn [Exhibitor.AwaitZookeeperRunning].
  { exists [], 0. by rewrite app_nil_r. }
  rewrite /mbind /M_mbind. pose proof (sends_poll api s) as Hp.
  destruct (Exhibitor.poll api s) as [[[]|e|p] s1]; destruct Hp as (t1 & Ht1 & Hp1 & Hx1).
  - destruct (Hx1 true eq_refl) as (-> & Ha & _). exists (poll_calls api), 1.
    by split_and!.
  - destruct (Hx1 false eq_refl) as (-> & Ha & _). specialize (IH s1).
    destruct (Exhibitor.AwaitZookeeperRunning fuel api s1) as [o s2].
    destruct IH as (t2 & n & Ht2 & Hp2 & Hx2). exists (poll_calls api ++ t2), (S n).
    rewrite Ht2 Ht1 -app_assoc. split_and!; [done|by apply prefix_app|].
    intros Ho. destruct (Hx2 Ho) as [-> Ha2]. split; [done|]. apply answered_app; [done|].
    by rewrite -Ht1.
  - exists t1, 1. by split_and!.
  - exists t1, 1. by split_and!.
Qed.

(** ** [RunTask] *)
Definition after_task (r : runner) (fuel : nat) (api : string) : M session error progress :=
  match r with
  | ExhibitorTaskRunner => Exhibitor.AwaitZookeeperRunning fuel api
  | _ => mret Returned
  end.

Lemma M_bind_assoc {A B C} (m : M session error A) (f : A → M session error B)
    (g : B → M session error C) s : ((m ≫= f) ≫= g) s = (m ≫= λ x, f x ≫= g) s.
Proof. rewrite /mbind /M_mbind. by destruct (m s) as [[]]. Qed.

Lemma must_get_bind {A} key api (f : string → M session error A) s :
  Get key (context s) = Ret api → (must_get key ≫= f) s = f api s.
Proof. intros Hapi. by rewrite /mbind /M_mbind /must_get /MustGet Hapi. Qed.

Lemma must_get_panic {A} key e (f : string → M session error A) s :
  Get key (context s) = Err e → (must_get key ≫= f) s = (Panic (Error e), s).
Proof. intros He. by rewrite /mbind /M_mbind /must_get /MustGet He. Qed.

Lemma RunTask_split r fuel id task s :
  (∀ d, r ≠ ElasticsearchTaskRunner d) →
  RunTask r fuel id task s =
    (must_get (id +:+ ".api") ≫= λ api, task_body r id api task ;; after_task r fuel api) s.
Proof.
  intros Hr. destruct r; [| |..|by destruct (Hr awaitTimeout)]; cbn [RunTask]; rewrite /returned.
  all: try (rewrite /Kafka.RunTask /DSE.RunTask /DSE02x.RunTask /Statsd.RunTask /Syslog.RunTask
    /Zipkin.RunTask /GoKafkaClient.RunTask M_bind_assoc; reflexivity).
  rewrite /Exhibitor.RunTask /mbind /M_mbind.
  destruct (must_get _ _) as [[api| |] s0]; [|done..]. cbn [task_body]. rewrite /mbind /M_mbind.
  destruct (Exhibitor.Add _ _ _) as [[]]; [|done..].
  destruct (Exhibitor.Update _ _ _) as [[]]; [|done..]. by destruct (Exhibitor.Start _ _ _) as [[]].
Qed.

Lemma after_task_sends r fuel api : ∀ s,
  let '(o, s') := after_task r fuel api s in
  ∃ t n, calls s' = calls s ++ t ∧ t `prefix_of` polls r api n ∧
    (o = Ret Returned → t = polls r api n ∧ answered (reports_success r) (calls s) t).
Proof.
  intros s. destruct r; [|apply await_sends|..]; exists [], 0; by rewrite app_nil_r.
Qed.

End tasks.

(** ** Variables *)
Lemma Get_set_eq k v c : Get k (SetStackVariable k v c) = Ret v.
Proof. by rewrite /Get /= lookup_insert_eq. Qed.
Lemma Get_set_ne k k' v c : k ≠ k' → Get k (SetStackVariable k' v c) = Get k c.
Proof. intros Hne. by rewrite /Get /= lookup_insert_ne. Qed.

(** [k] is a variable of the application [id]. *)
Definition owned (id k : string) : bool := HasPrefix k (id +:+ ".").
Lemma owned_app id k : owned id (id +:+ String "."%char k) = true.
Proof.
  rewrite /owned /HasPrefix. change (String "."%char k) with ("." +:+ k).
  rewrite str_app_assoc. apply str_prefix_app.
Qed.
Lemma set_owned id k k' v c : owned id k = false → Get k (SetStackVariable (id +:+ String "."%char k') v c) = Get k c.
Proof. intros Hk. apply Get_set_ne. intros ->. by rewrite owned_app in Hk. Qed.

Section fill.
Context `{ord : MapOrder} `{Network}.
Implicit Types (s : session).

(** The variables in a map of [idx], [idx + 1], ... *)
Lemma set_indexed_spec prefix idx hosts s :
  let '(o, s') := set_indexed prefix idx hosts s in
  o = Ret tt ∧ calls s' = calls s ∧
  (∀ i h, hosts !! i = Some h → Get (prefix +:+ Itoa (Z.of_nat (idx + i))) (context s') = Ret h) ∧
  (∀ k, (∀ i, idx ≤ i < idx + length hosts → k ≠ prefix +:+ Itoa (Z.of_nat i)) →
     Get k (context s') = Get k (context s)).
Proof.
  revert idx s. induction hosts as [|h l IH]; intros idx s; [done|]. simpl.
  change (set_indexed prefix (S idx) l (MkSession (calls s) (SetStackVariable
    (prefix +:+ Itoa (Z.of_nat idx)) h (context s)))) with
    (set_indexed prefix (S idx) l (set_stack_variable (prefix +:+ Itoa (Z.of_nat idx)) h s).2).
  rewrite /mbind /M_mbind. simpl. specialize (IH (S idx)
    (MkSession (calls s) (SetStackVariable (prefix +:+ Itoa (Z.of_nat idx)) h (context s)))).
  destruct (set_indexed prefix (S idx) l _) as [o s']. destruct IH as (-> & Hc & Hin & Hout).
  split_and!; [done|done| |].
  - intros [|i] h' Hi; simpl in Hi.
    + injection Hi as <-. rewrite Nat.add_0_r Hout.
      * apply Get_set_eq.
      * intros i Hi Heq%str_app_inv%Itoa_inj. lia.
    + rewrite -Nat.add_succ_comm. by apply Hin.
  - intros k Hk. rewrite Hout; [|intros i Hi; apply Hk; lia]. simpl. apply Get_set_ne. apply Hk. lia.
Qed.

(** [set_ports] writes what [set_indexed] does. *)
Lemma set_ports_indexed id idx ports s :
  set_ports id idx ports s = set_indexed (id +:+ ".port") idx (Itoa <$> ports) s.
Proof.
  revert idx s. induction ports as [|p l IH]; intros idx s; [done|]. simpl.
  rewrite -str_app_assoc. rewrite /mbind /M_mbind /=. apply IH.
Qed.

Lemma fill_context_spec id task s :
  let '(o, s') := fill_context id task s in
  calls s' = calls s ∧
  match Ports task with
  | [] => o = Panic index_out_of_range
  | port :: _ =>
      o = Ret (api_url task port) ∧
      Get (id +:+ ".api") (context s') = Ret (api_url task port) ∧
      Get (id +:+ ".host") (context s') = Ret (Host task) ∧
      (∀ i p, Ports task !! i = Some p →
         Get (id +:+ ".port" +:+ Itoa (Z.of_nat i)) (context s') = Ret (Itoa p))
  end ∧
  (∀ k, owned id k = false → Get k (context s') = Get k (context s)).
Proof.
  rewrite /fill_context /mbind /M_mbind. simpl. rewrite set_ports_indexed.
  pose proof (set_indexed_spec (id +:+ ".port") 0 (Itoa <$> Ports task)
    (MkSession (calls s) (SetStackVariable (id +:+ ".host") (Host task) (context s)))) as Hs.
  destruct (set_indexed _ _ _ _) as [o s']. destruct Hs as (-> & Hc & Hin & Hout).
  assert (∀ k, owned id k = false → Get k (context s') = Get k (context s)) as Hother.
  { intros k Hk. rewrite Hout; [simpl; by apply set_owned|].
    intros i _ ->. rewrite -str_app_assoc owned_app in Hk. done. }
  destruct (Ports task) as [|port ports] eqn:E; simpl; [done|]. split_and!; [done|done|apply Get_set_eq| | |].
  - rewrite Get_set_ne; [|by intros Heq%str_app_inv]. rewrite Hout; [apply Get_set_eq|].
    intros i _. rewrite -str_app_assoc. by intros Heq%str_app_inv.
  - intros i p Hi. rewrite Get_set_ne; [|by intros Heq%str_app_inv].
    rewrite str_app_assoc. apply Hin. by rewrite list_lookup_fmap Hi.
  - intros k Hk. rewrite set_owned //. by apply Hother.
Qed.
End fill.

Section contexts.
Context `{ord : MapOrder} `{Network}.

(** When the first task Marathon reports has a port, every runner but that
    of Elasticsearch, which goes on to wait, fills the context at once: the
    address of the API on the first port, the host and each port can be read
    back under the application's id, no variable outside that name space
    changes, and nothing is sent. When it has none, all of them panic with an
    index out of range, before anything is sent. *)
Theorem FillContext_correct r fuel id task s :
  let '(o, s') := FillContext r fuel id task s in
  match Ports task with
  | [] => o = Panic index_out_of_range ∧ calls s' = calls s
  | port :: _ =>
      (∀ d, r ≠ ElasticsearchTaskRunner d) →
      o = Ret Returned ∧ calls s' = calls s ∧
      Get (id +:+ ".api") (context s') = Ret ("http://" +:+ Host task +:+ ":" +:+ Itoa port) ∧
      Get (id +:+ ".host") (context s') = Ret (Host task) ∧
      (∀ i p, Ports task !! i = Some p →
         Get (id +:+ ".port" +:+ Itoa (Z.of_nat i)) (context s') = Ret (Itoa p)) ∧
      ∀ k, HasPrefix k (id +:+ ".") = false → Get k (context s') = Get k (context s)
  end.
Proof.
  assert ((∃ d, r = ElasticsearchTaskRunner d) ∨
          FillContext r fuel id task s = (fill_context id task ≫= λ _, mret Returned) s) as Hr.
  { destruct r; try (by left; eexists); right; cbn [FillContext]; rewrite /returned; apply M_bind_assoc. }
  pose proof (fill_context_spec id task s) as Hs. destruct Hr as [[d ->]| ->].
  - cbn [FillContext]. rewrite /Elasticsearch.FillContext /mbind /M_mbind.
    destruct (fill_context id task s) as [o s']. destruct Hs as (Hc & Hp & _).
    destruct (Ports task); [by subst o|].
    destruct (match o with Ret _ => _ | _ => _ end). intros Hd. by destruct (Hd d).
  - rewrite /mbind /M_mbind. destruct (fill_context id task s) as [o s'].
    destruct Hs as (Hc & Hp & Ho). destruct (Ports task); [by subst o|].
    destruct Hp as (-> & ? & ? & ?). intros _. by split_and!.
Qed.

(** ** Addresses of servers *)

(** What the runners of Exhibitor and of DSE 0.1 make of the servers in the
    last answer. *)
Definition lists_servers (id prefix connect : string) (servers : list string) (s s' : session) : Prop :=
  calls s' = calls s ∧
  Get (id +:+ connect) (context s') = Ret (Join servers ",") ∧
  (∀ i h, servers !! i = Some h → Get (id +:+ prefix +:+ Itoa (Z.of_nat i)) (context s') = Ret h) ∧
  (∀ k, owned id k = false → Get k (context s') = Get k (context s)).

Lemma set_servers id prefix connect servers s :
  (∀ i, String "."%char prefix +:+ i ≠ String "."%char connect) →
  let '(o, s') := (set_indexed (id +:+ String "."%char prefix) 0 servers ;;
                   set_stack_variable (id +:+ String "."%char connect) (Join servers ",")) s in
  o = Ret tt ∧ lists_servers id (String "."%char prefix) (String "."%char connect) servers s s'.
Proof.
  intros Hne. rewrite /mbind /M_mbind.
  pose proof (set_indexed_spec (id +:+ String "."%char prefix) 0 servers s) as Hs.
  destruct (set_indexed _ _ _ _) as [o s']. destruct Hs as (-> & Hc & Hin & Hout). simpl.
  split; [done|]. split_and!; [done|apply Get_set_eq| |].
  - intros i h Hi. rewrite Get_set_ne; [|by intros Heq%str_app_inv%Hne].
    rewrite str_app_assoc. by apply Hin.
  - intros k Hk. simpl. rewrite set_owned // Hout //.
    intros i _ ->. rewrite -str_app_assoc owned_app in Hk. done.
Qed.

Lemma mapM_Ret {A B} (f : A → result B) l k : mapM f l = Ret k → Forall2 (λ x y, f x = Ret y) l k.
Proof.
  revert k. induction l as [|x l IH]; intros k; simpl; [by intros [= <-]; constructor|].
  destruct (f x) as [y|e|p] eqn:E; simpl; [|done..].
  destruct (mapM f l) as [k'|e|p] eqn:E'; simpl; [|done..]. intros [= <-].
  constructor; [done|]. by apply IH.
Qed.
Lemma mapM_not_Ret {A B} (f : A → result B) l :
  is_ret (mapM f l) = false → ∃ x, x ∈ l ∧ is_ret (f x) = false.
Proof.
  induction l as [|x l IH]; simpl; [done|].
  destruct (f x) as [y|e|p] eqn:E; simpl; [|exists x; rewrite E; by split; [left|]..].
  destruct (mapM f l) as [k'|e|p]; simpl; [done|..]; intros _;
    destruct (IH eq_refl) as (x' & ? & ?); exists x'; by split; [right|].
Qed.

(** The address under which a server of a ZooKeeper ensemble is published. *)
Definition zk_address (server : option Exhibitor.exhibitorServer) (address : string) : Prop :=
  ∃ sv config, server = Some sv ∧ Exhibitor.Config sv = Some config ∧
    address = Exhibitor.Hostname config +:+ ":" +:+
      default "2181" (Exhibitor.SharedConfigOverride config !! "client-port").

(** After its task was started, Exhibitor's runner publishes the servers of
    the cluster in the answer: [<id>.zkConnect] lists their addresses, the host
    and the client port, 2181 unless configured, in the order of the answer,
    and [<id>.exhibitor-<i>] is the address of the server at position [i] -
    its position, not its id. No other application's variable changes. An
    answer without a cluster, or with a server that has no configuration,
    makes it panic. *)
Theorem exhibitor_servers_published id response s :
  let '(o, s') := Exhibitor.fillTaskContext id response s in
  (∃ cluster servers, response = Some cluster ∧
     Forall2 zk_address (Exhibitor.Cluster cluster) servers ∧ o = Ret tt ∧
     Get (id +:+ ".zkConnect") (context s') = Ret (Join servers ",") ∧
     (∀ i address, servers !! i = Some address →
        Get (id +:+ ".exhibitor-" +:+ Itoa (Z.of_nat i)) (context s') = Ret address) ∧
     (∀ k, HasPrefix k (id +:+ ".") = false → Get k (context s') = Get k (context s))) ∨
  (o = Panic nil_dereference ∧ s' = s ∧
     (response = None ∨ ∃ cluster server, response = Some cluster ∧
        server ∈ Exhibitor.Cluster cluster ∧ ∀ address, ¬ zk_address server address)).
Proof.
  destruct response as [cluster|]; [|right; by eauto]. rewrite /Exhibitor.fillTaskContext.
  destruct (mapM Exhibitor.hostname_of (Exhibitor.Cluster cluster)) as [servers|e|p] eqn:Hm.
  - pose proof (set_servers id "exhibitor-" "zkConnect" servers s ltac:(done)) as Hs.
    rewrite {1}/mbind {1}/M_mbind /lift. cbv beta iota.
    destruct ((set_indexed _ _ _ ;; _) s) as [o s']. destruct Hs as (-> & _ & Hc & Hi & Ho).
    left. exists cluster, servers. split_and!; [done| |done|done|done|done].
    apply mapM_Ret in Hm. eapply Forall2_impl; [exact Hm|]. intros [sv|] h; simpl; [|done].
    destruct (Exhibitor.Config sv) as [config|] eqn:Ec; [|done]. intros [= <-].
    exists sv, config. split_and!; [done|done|]. rewrite /Exhibitor.getClientPort.
    by destruct (Exhibitor.SharedConfigOverride config !! "client-port").
  - exfalso. revert Hm. induction (Exhibitor.Cluster cluster) as [|sv l IH]; simpl; [done|].
    rewrite /Exhibitor.hostname_of. destruct sv as [sv|]; [destruct (Exhibitor.Config sv)|]; simpl; try done.
    by destruct (mapM _ l).
  - right. assert (p = nil_dereference) as ->.
    { revert Hm. induction (Exhibitor.Cluster cluster) as [|sv l IH]; simpl; [done|].
      rewrite /Exhibitor.hostname_of. destruct sv as [sv|]; [destruct (Exhibitor.Config sv)|]; simpl;
        [|by intros [= <-]..].
      fold Exhibitor.hostname_of in *. destruct (mapM _ l); [done..|]. by intros [= ->]; apply IH. }
    split_and!; [done|done|]. right. exists cluster.
    destruct (mapM_not_Ret Exhibitor.hostname_of (Exhibitor.Cluster cluster)) as (sv & Hsv & Hno).
    { by rewrite Hm. }
    exists sv. split_and!; [done|done|]. intros h (sv' & config & -> & Hc & _). simpl in Hno.
    by rewrite Hc in Hno.
Qed.

(** ** Waiting for ZooKeeper *)

(** What a poll made after the log [t] finds. *)
Definition poll_result (api : string) (t : list call) : result bool :=
  (Exhibitor.poll api (MkSession t NewVariables)).1.
Lemma poll_run api s :
  Exhibitor.poll api s = (poll_result api (calls s), (Exhibitor.poll api s).2) ∧
  calls (Exhibitor.poll api s).2 = calls s ++ poll_calls api.
Proof.
  rewrite /poll_result /Exhibitor.poll /sleep /call_out /Exhibitor.Status /http_get /call_out.
  run_m. rewrite -app_assoc /=. destruct (answer _) as [e|raw]; simpl; [done|].
  rewrite /Exhibitor.checkResponse /read_all. run_m.
  destruct (Body raw) as [e|[[]|]]; [done..| |done]. simpl.
  destruct (decode_bool _) as [[]|e|p]; simpl; [| |done..].
  all: destruct (decode_string _); simpl; [|done..].
  all: destruct (match member _ _ with Some _ => _ | None => _ end) as [[st|]|e|p]; done.
Qed.

(** All servers a server of the cluster sees are up. *)
Definition serving (z : option Exhibitor.zookeeperStatus) : bool :=
  match z with Some zk => String.eqb (Exhibitor.Description zk) "serving" | None => false end.
Definition sees (n : nat) (server : option Exhibitor.exhibitorStatus) : Prop :=
  ∃ sv, server = Some sv ∧ length (filter serving (Exhibitor.ExhibitorClusterView sv)) = n.

Lemma count_serving_spec view n :
  Exhibitor.count_serving view = Ret n → length (filter serving view) = n.
Proof.
  revert n. induction view as [|[zk|] view IH]; intros n; simpl; [by intros [= <-]| |done].
  destruct (Exhibitor.count_serving view) as [m|e|p]; [|done..]. specialize (IH m eq_refl).
  intros [= <-]. rewrite filter_cons /=.
  destruct (String.eqb (Exhibitor.Description zk) "serving"); simpl; by rewrite IH.
Qed.
Lemma all_running_spec n statuses :
  Exhibitor.all_running n statuses = Ret true → Forall (sees n) statuses.
Proof.
  induction statuses as [|[sv|] l IH]; simpl; [by constructor| |done].
  destruct (Exhibitor.count_serving _) as [m|e|p] eqn:E; [|done..]. simpl.
  destruct (n =? m) eqn:Em; [|done]. apply Nat.eqb_eq in Em as ->. intros Hl.
  constructor; [|by apply IH]. exists sv. split; [done|]. by apply count_serving_spec.
Qed.

(** The answer to a poll that ends the wait. *)
Definition ensemble_up (raw : response) : Prop :=
  ∃ fields st, Body raw = inr (Some (JObj fields)) ∧
    default (Ret (Some (Exhibitor.MkClusterStatus [])))
      (decode_pointer Exhibitor.decode_cluster_status <$> member "Value" fields) = Ret (Some st) ∧
    Forall (sees (length (Exhibitor.ServerStatuses st))) (Exhibitor.ServerStatuses st).

Lemma poll_true api t :
  poll_result api t = Ret true → ∃ raw, answer (t ++ poll_calls api) = inr raw ∧ ensemble_up raw.
Proof.
  rewrite /poll_result /Exhibitor.poll /sleep /call_out /Exhibitor.Status /http_get /call_out.
  run_m. rewrite -app_assoc /=. destruct (answer _) as [e|raw]; simpl; [done|].
  rewrite /Exhibitor.checkResponse /read_all /ensemble_up. run_m.
  destruct (Body raw) as [e|[[]|]] eqn:Eb; [done..| |done]. simpl.
  destruct (decode_bool _) as [[]|e|p]; simpl; [| |done..].
  all: destruct (decode_string _); simpl; [|done..].
  all: destruct (member "Value" fields) as [j|] eqn:Ev; simpl.
  1: destruct (decode_pointer _ j) as [[st|]|e|p] eqn:E; simpl; [|done..].
  - intros Hall%all_running_spec. eexists. split; [done|]. exists fields, st. by rewrite Ev.
  - intros _. eexists. split; [done|]. exists fields, (Exhibitor.MkClusterStatus []).
    rewrite Ev. split_and!; [done|done|constructor].
  - by destruct (decode_pointer _ j).
  - done.
Qed.

(** After a task of Exhibitor was started its runner polls the status of
    the cluster, pausing before each poll, until a poll fails - which ends the
    wait with its error - or shows that every server sees as many servers
    serving as there are; there is no bound: while the polls keep showing
    less, it does not return. *)
Theorem AwaitZookeeperRunning_polls api fuel s :
  let r n := poll_result api (calls s ++ polls ExhibitorTaskRunner api n) in
  let '(o, s') := Exhibitor.AwaitZookeeperRunning fuel api s in
  (∀ n, n < fuel → (∀ m, m < n → r m = Ret false) → r n ≠ Ret false →
     calls s' = calls s ++ polls ExhibitorTaskRunner api (S n) ∧
     match r n with
     | Ret _ => o = Ret Returned ∧ ∃ raw, answer (calls s') = inr raw ∧ ensemble_up raw
     | Err e => o = Err e
     | Panic p => o = Panic p
     end) ∧
  ((∀ n, n < fuel → r n = Ret false) →
     o = Ret Waiting ∧ calls s' = calls s ++ polls ExhibitorTaskRunner api fuel).
Proof.
  cbv zeta. revert s. induction fuel as [|fuel IH]; intros s; cbn [Exhibitor.AwaitZookeeperRunning].
  { split; [lia|]. intros _. by rewrite app_nil_r. }
  destruct (poll_run api s) as [Hp Hc]. rewrite /mbind /M_mbind Hp.
  specialize (IH (Exhibitor.poll api s).2). rewrite Hc in IH.
  assert (∀ n, (calls s ++ poll_calls api) ++ polls ExhibitorTaskRunner api n =
               calls s ++ polls ExhibitorTaskRunner api (S n)) as Hshift.
  { intros n. by rewrite -app_assoc. }
  assert (calls s ++ polls ExhibitorTaskRunner api 0 = calls s) as H0 by apply app_nil_r.
  assert (poll_result api (calls s) ≠ Ret false → ∀ n (P : Prop),
    (∀ m, m < S n → poll_result api (calls s ++ polls ExhibitorTaskRunner api m) = Ret false) → P)
    as Hover.
  { intros Hne n P Hbad. specialize (Hbad 0 ltac:(lia)). by rewrite H0 in Hbad. }
  destruct (poll_result api (calls s)) as [[]|e|p] eqn:E.
  - split; [|intros Hbad; by eapply Hover].
    intros [|n] Hn Hbad Hr; [|by eapply Hover].
    rewrite H0 E. split; [by rewrite Hc|]. split; [done|]. simpl. rewrite Hc. by apply poll_true.
  - destruct (Exhibitor.AwaitZookeeperRunning fuel api _) as [o s2]. destruct IH as [IHok IHbad]. split.
    + intros [|n] Hn Hbad Hr; [rewrite H0 in Hr; congruence|].
      specialize (IHok n). rewrite !Hshift in IHok. apply IHok; [lia| |done].
      intros m Hm. rewrite Hshift. apply Hbad. lia.
    + intros Hbad. rewrite Hshift in IHbad. apply IHbad. intros n Hn. rewrite Hshift. apply Hbad. lia.
  - split; [|intros Hbad; by eapply Hover].
    intros [|n] Hn Hbad Hr; [by rewrite H0 E Hc|by eapply Hover].
  - split; [|intros Hbad; by eapply Hover].
    intros [|n] Hn Hbad Hr; [by rewrite H0 E Hc|by eapply Hover].
Qed.
End contexts.

(** ** Elasticsearch *)
Section elasticsearch.
Context `{ord : MapOrder} `{Network}.
Import Elasticsearch.

(** The tasks in a response. *)
Definition tasks_in (raw : response) : option (list (option ElasticsearchTask)) :=
  match Body raw with
  | inr (Some j) =>
      match decode_list (decode_pointer decode_task) j with Ret l => Some l | _ => None end
  | _ => None
  end.
Definition runs (task : option ElasticsearchTask) : Prop :=
  ∃ t, task = Some t ∧ State t = "TASK_RUNNING".
Definition tasks_call (api : string) : call := HttpGet (api +:+ "/v1/tasks") None.
Definition is_pause (c : call) : bool := match c with Pause => true | _ => false end.
Definition pauses (t : list call) : nat := length (filter is_pause t).

Lemma pauses_app t t' : pauses (t ++ t') = pauses t + pauses t'.
Proof. by rewrite /pauses filter_app length_app. Qed.

Lemma GetTasks_run api s :
  let '(o, s') := GetTasks api s in
  calls s' = calls s ++ [tasks_call api] ∧
  ∀ l, o = Ret l → ∃ raw, answer (calls s') = inr raw ∧ tasks_in raw = Some l.
Proof.
  rewrite /GetTasks /http_get /call_out /read_all /tasks_in. run_m.
  destruct (answer _) as [e|raw] eqn:Ha; simpl; [done|].
  destruct (Body raw) as [e|[j|]] eqn:Hb; cbn [from_sum]; [done| |done].
  split; [done|]. intros l Hl. exists raw. split; [done|]. by rewrite Hb Hl.
Qed.

Lemma all_running_runs l : all_running l = Ret true → Forall runs l.
Proof.
  induction l as [|[t|] l IH]; simpl; [by constructor| |done].
  destruct (String.eqb_spec (State t) "TASK_RUNNING"); [|done]. intros Hl.
  constructor; [by exists t|by apply IH].
Qed.

Lemma poll_elasticsearch api s :
  let '(o, s') := poll api s in
  (o = Ret true → calls s' = calls s ++ [tasks_call api] ∧
     ∃ raw l, answer (calls s') = inr raw ∧ tasks_in raw = Some l ∧ l ≠ [] ∧ Forall runs l) ∧
  (o = Ret false → pauses (calls s') = S (pauses (calls s))).
Proof.
  pose proof (GetTasks_run api s) as Hg.
  rewrite /poll /catch /mbind /M_mbind. destruct (GetTasks api s) as [[l|e|p] s1].
  - destruct Hg as [Hc Hl]. destruct (Hl l eq_refl) as (raw & Ha & Ht).
    destruct l as [|task l]; simpl; [split; [done|]; intros _; by rewrite Hc !pauses_app /= Nat.add_comm|].
    destruct (all_running (task :: l)) as [[]|e|p] eqn:E; simpl in E; rewrite E; simpl;
      [| |done..].
    + split; [|done]. intros _. split; [done|]. exists raw, (task :: l).
      split_and!; [done|done|done|]. by apply all_running_runs.
    + split; [done|]. intros _. by rewrite Hc !pauses_app /= Nat.add_comm.
  - simpl. split; [done|]. intros _. destruct Hg as [Hc _]. by rewrite Hc !pauses_app /= Nat.add_comm.
  - done.
Qed.

Lemma AwaitRunning_run d api fuel : ∀ s,
  let '(o, s') := AwaitRunning d fuel api s in
  (o = Ret Returned → ∃ t raw l, calls s' = t ++ [tasks_call api] ∧ answer (calls s') = inr raw ∧
     tasks_in raw = Some l ∧ l ≠ [] ∧ Forall runs l) ∧
  ∀ N, (∀ t, N ≤ pauses t → expired t = true) → N - pauses (calls s) < fuel → o ≠ Ret Waiting.
Proof.
  induction fuel as [|fuel IH]; intros s; cbn [AwaitRunning]; [split; [done|lia]|].
  rewrite /timer_fired {1}/mbind {1}/M_mbind. cbv beta iota.
  destruct (expired (calls s)) eqn:Hx; [done|].
  pose proof (poll_elasticsearch api s) as Hp. rewrite /mbind /M_mbind.
  destruct (poll api s) as [[[]|e|p] s1]; [| |done..].
  - destruct Hp as [Hp _]. destruct (Hp eq_refl) as [Hc (raw & l & ?)]. simpl. split; [|done].
    intros _. exists (calls s), raw, l. done.
  - destruct Hp as [_ Hp]. specialize (Hp eq_refl). specialize (IH s1).
    destruct (AwaitRunning d fuel api s1) as [o s2]. destruct IH as [IHr IHn]. split; [done|].
    intros N HN Hlt. apply (IHn N HN). rewrite Hp.
    destruct (decide (N ≤ pauses (calls s))) as [Hle|]; [|lia]. rewrite (HN _ Hle) in Hx. done.
Qed.

(** The variables of a task. *)
Definition http_key (id : string) (i : nat) : string :=
  id +:+ "." +:+ Itoa (Z.of_nat i) +:+ ".httpAddress".
Definition transport_key (id : string) (i : nat) : string :=
  id +:+ "." +:+ Itoa (Z.of_nat i) +:+ ".transportAddress".

Lemma http_key_inj id i j : http_key id i = http_key id j → i = j.
Proof. intros Heq%str_app_inv%str_app_inv. apply str_app_inv_suffix in Heq as [Heq%Itoa_inj _]; [lia|done]. Qed.
Lemma transport_key_inj id i j : transport_key id i = transport_key id j → i = j.
Proof. intros Heq%str_app_inv%str_app_inv. apply str_app_inv_suffix in Heq as [Heq%Itoa_inj _]; [lia|done]. Qed.
Lemma http_not_transport id i j : http_key id i ≠ transport_key id j.
Proof.
  intros Heq%str_app_inv%str_app_inv.
  change ".httpAddress" with (".htt" +:+ "pAddress") in Heq.
  change ".transportAddress" with (".transpor" +:+ "tAddress") in Heq.
  rewrite !str_app_assoc in Heq. by apply str_app_inv_suffix in Heq as [_ ?].
Qed.

(** The addresses of the tasks from position [idx] on. *)
Lemma set_addresses_spec id idx tasks s :
  let '(o, s') := set_addresses id idx tasks s in
  calls s' = calls s ∧ (o = Ret tt → Forall is_Some tasks) ∧
  (o = Ret tt → ∀ i t, tasks !! i = Some (Some t) →
     Get (http_key id (idx + i)) (context s') = Ret (HttpAddress t) ∧
     Get (transport_key id (idx + i)) (context s') = Ret (TransportAddress t)) ∧
  (∀ k, (∀ i, idx ≤ i → k ≠ http_key id i ∧ k ≠ transport_key id i) →
     Get k (context s') = Get k (context s)).
Proof.
  revert idx s. induction tasks as [|[t|] l IH]; intros idx s; [by split_and!; [..|constructor| |]| |done].
  cbn [set_addresses]. rewrite -!str_app_assoc -/(http_key id idx) -/(transport_key id idx).
  rewrite /mbind /M_mbind /set_stack_variable. cbv beta iota.
  specialize (IH (S idx) (MkSession (calls s) (SetStackVariable (transport_key id idx) (TransportAddress t)
    (SetStackVariable (http_key id idx) (HttpAddress t) (context s))))). cbn [calls context] in *.
  destruct (set_addresses id (S idx) l _) as [o s']. destruct IH as (Hc & Hs & Hin & Hout).
  split_and!; [done| | |].
  - intros Ho. constructor; [done|by apply Hs].
  - intros Ho [|i] t' Hi; simpl in Hi.
    + injection Hi as <-. rewrite Nat.add_0_r !Hout.
      * rewrite Get_set_ne; [by rewrite !Get_set_eq|apply http_not_transport].
      * intros i Hi. split; [intros Heq; symmetry in Heq; by apply http_not_transport in Heq|].
        intros Heq%transport_key_inj. lia.
      * intros i Hi. split; [|apply http_not_transport]. intros Heq%http_key_inj. lia.
    + rewrite -Nat.add_succ_comm. by apply Hin.
  - intros k Hk. rewrite Hout; [|intros i Hi; apply Hk; lia].
    destruct (Hk idx ltac:(lia)). by rewrite !Get_set_ne.
Qed.

(** C24. Elasticsearch: filling the context waits until the scheduler lists
    tasks, and all of them run. It does not wait for ever - if the timer fires
    once it has paused [N] times, [N + 1] turns of the loop suffice - and when
    it returns nil, the last answer but one listed some tasks, all running,
    and the addresses of the tasks in the last answer, whatever their state,
    are in the variables [<id>.<i>.httpAddress] and
    [<id>.<i>.transportAddress]. *)
Theorem elasticsearch_FillContext d fuel id task s :
  let '(o, s') := FillContext d fuel id task s in
  (∀ N, (∀ t, N ≤ pauses t → expired t = true) → N < fuel → o ≠ Ret Waiting) ∧
  (o = Ret Returned → ∃ t port raw tasks raw' tasks',
     let call := tasks_call ("http://" +:+ Host task +:+ ":" +:+ Itoa port) in
     head (Ports task) = Some port ∧ calls s' = t ++ [call; call] ∧
     answer (t ++ [call]) = inr raw ∧ tasks_in raw = Some tasks ∧ tasks ≠ [] ∧ Forall runs tasks ∧
     answer (t ++ [call; call]) = inr raw' ∧ tasks_in raw' = Some tasks' ∧
     ∀ i t, tasks' !! i = Some t → ∃ t', t = Some t' ∧
       Get (id +:+ "." +:+ Itoa (Z.of_nat i) +:+ ".httpAddress") (context s') = Ret (HttpAddress t') ∧
       Get (id +:+ "." +:+ Itoa (Z.of_nat i) +:+ ".transportAddress") (context s') =
         Ret (TransportAddress t')).
Proof.
  rewrite /FillContext /mbind /M_mbind. pose proof (fill_context_spec id task s) as Hf.
  destruct (fill_context id task s) as [o s1]. destruct Hf as (_ & Hf & _).
  destruct (Ports task) as [|port ports]; [by subst o|]. destruct Hf as (-> & _).
  rewrite -/(api_url task port). pose proof (AwaitRunning_run d (api_url task port) fuel s1) as Ha.
  destruct (AwaitRunning d fuel (api_url task port) s1) as [[[]|e|p] s2]; destruct Ha as [Hr Hn]; simpl.
  - destruct (Hr eq_refl) as (t & raw & tasks & Hc2 & Ha & Ht & Hne & Hruns).
    pose proof (GetTasks_run (api_url task port) s2) as Hg.
    destruct (GetTasks (api_url task port) s2) as [[tasks'|e|p] s3]; [|done..].
    destruct Hg as [Hc3 Hl]. destruct (Hl tasks' eq_refl) as (raw' & Ha' & Ht').
    pose proof (set_addresses_spec id 0 tasks' s3) as Hs.
    destruct (set_addresses id 0 tasks' s3) as [[[]|e|p] s4]; [|done..].
    destruct Hs as (Hc4 & Hsome & Hin & _). split; [done|]. intros _.
    exists t, port, raw, tasks, raw', tasks'. rewrite -/(api_url task port).
    rewrite Hc2 in Ha. rewrite Hc3 Hc2 -app_assoc /= in Ha'.
    split_and!; [done|by rewrite Hc4 Hc3 Hc2 -app_assoc|done..|].
    intros i ot Hi. destruct (Forall_lookup_1 _ _ _ _ (Hsome eq_refl) Hi) as [t' ->].
    exists t'. split; [done|]. by apply (Hin eq_refl i).
  - split; [|done]. intros N HN Hlt. apply (Hn N HN). lia.
  - done.
  - done.
Qed.
End elasticsearch.

(** ** Concrete services *)
Section examples.
#[local] Existing Instance canonical_order.

(** A scheduler of Kafka that accepts everything. *)
Definition ex_kafka : Network := {|
  answer _ := inr (MkResponse 200 (inr (Some (JObj [("state", JStr "started")]))));
  expired _ := false;
  others _ v := v
|}.
Definition ex_task : marathon_task := MkTask "h1" [31000; 31001]%Z.
Definition ex_params : gmap string string := {["id" := "0"; "cpu" := "0.5"; "timeout" := "30s"]}.
Definition ex_session : session :=
  (FillContext (H := ex_kafka) KafkaTaskRunner 0 "kafka" ex_task (MkSession [] NewVariables)).2.


Lemma FillContext_correct_witness :
  Get "kafka.port1" (context ex_session) = Ret "31001" ∧
  Get "zk.api" (context ex_session) = Get "zk.api" NewVariables.
Proof.
  pose proof (FillContext_correct (H := ex_kafka) KafkaTaskRunner 0 "kafka" ex_task
    (MkSession [] NewVariables)) as Hf.
  rewrite /ex_session. destruct (FillContext KafkaTaskRunner 0 "kafka" ex_task _) as [o s].
  destruct Hf as (_ & _ & _ & _ & Hp & Ho); [done|].
  split; [apply (Hp 1 31001%Z); reflexivity|apply (Ho "zk.api"); reflexivity].
Defined.

(** A ZooKeeper ensemble of two servers, of which only one serves at first. *)
Definition ex_cluster : Exhibitor.exhibitorCluster :=
  Exhibitor.MkCluster "" [
    Some (Exhibitor.MkServer "7" "running"
      (Some (Exhibitor.MkConfig ∅ ∅ "7" "z1" float_zero float_zero "")));
    Some (Exhibitor.MkServer "9" "running"
      (Some (Exhibitor.MkConfig ∅ {["client-port" := "31500"]} "9" "z2" float_zero float_zero "")))].
Definition ex_view (second : string) : json :=
  JObj [("exhibitorClusterView", JArr [JObj [("description", JStr "serving")];
                                       JObj [("description", JStr second)]])].
Definition ex_status (second : string) : json :=
  JObj [("success", JBool true);
        ("value", JObj [("serverStatuses", JArr [ex_view second; ex_view second])])].
Definition ex_exhibitor : Network := {|
  answer t := inr (MkResponse 200 (inr (Some
    (ex_status (if length t <? 4 then "down" else "serving")))));
  expired _ := false;
  others _ v := v
|}.

Lemma exhibitor_servers_published_witness :
  let s' := (Exhibitor.fillTaskContext "zk" (Some ex_cluster)
               (MkSession [] NewVariables)).2 in
  Get "zk.zkConnect" (context s') = Ret "z1:2181,z2:31500" ∧
  Get "zk.exhibitor-1" (context s') = Ret "z2:31500".
Proof.
  pose proof (exhibitor_servers_published "zk" (Some ex_cluster)
    (MkSession [] NewVariables)) as Hp. cbv zeta.
  destruct (Exhibitor.fillTaskContext "zk" (Some ex_cluster) _) as [o s'].
  destruct Hp as [(c & servers & [= <-] & Hz & _ & Hc & Hi & _)|(_ & _ & [|(c & sv & [= <-] & Hsv & Hno)])].
  - assert (servers = ["z1:2181"; "z2:31500"]) as ->.
    { apply Forall2_cons_inv_l in Hz as (h1 & l1 & (s1 & c1 & Hs1 & Hc1 & ->) & Hz & ->).
      apply Forall2_cons_inv_l in Hz as (h2 & l2 & (s2 & c2 & Hs2 & Hc2 & ->) & Hz & ->).
      apply Forall2_nil_inv_l in Hz as ->. injection Hs1 as <-. injection Hs2 as <-.
      injection Hc1 as <-. injection Hc2 as <-. by vm_compute. }
    split; [exact Hc|exact (Hi 1 _ eq_refl)].
  - done.
  - exfalso. apply elem_of_cons in Hsv as [->|Hsv]; [|apply elem_of_cons in Hsv as [->|Hsv]].
    + eapply Hno. eexists _, _. done.
    + eapply Hno. eexists _, _. done.
    + by apply elem_of_nil in Hsv.
Defined.

Lemma AwaitZookeeperRunning_polls_witness :
  let '(o, s') := Exhibitor.AwaitZookeeperRunning (H := ex_exhibitor) 10 "http://h" (MkSession [] NewVariables) in
  o = Ret Returned ∧ length (calls s') = 4.
Proof.
  pose proof (AwaitZookeeperRunning_polls (H := ex_exhibitor) "http://h" 10 (MkSession [] NewVariables)) as Hp.
  destruct (Exhibitor.AwaitZookeeperRunning 10 "http://h" _) as [o s']. destruct Hp as [Hp _].
  specialize (Hp 1 ltac:(lia)). destruct Hp as [Hc Hr].
  - intros [|m] Hm; [by vm_compute|lia].
  - by vm_compute.
  - assert (poll_result (H := ex_exhibitor) "http://h" (calls (MkSession [] NewVariables) ++
              polls ExhibitorTaskRunner "http://h" 1) = Ret true) as H1 by by vm_compute.
    rewrite H1 in Hr. split; [by destruct Hr|by rewrite Hc].
Defined.

(** An Elasticsearch scheduler with one task that is up at the third answer;
    the timer fires after ten pauses. *)
Definition ex_elasticsearch : Network := {|
  answer t := inr (MkResponse 200 (inr (Some (JArr (
    if length t <? 4 then [] else
    [JObj [("state", JStr "TASK_RUNNING"); ("http_address", JStr "e1:9200");
           ("transport_address", JStr "e1:9300")]])))));
  expired t := 10 <=? pauses t;
  others _ v := v
|}.
Lemma elasticsearch_FillContext_witness :
  let o := (Elasticsearch.FillContext (H := ex_elasticsearch) "5m0s" 11 "es" ex_task
              (MkSession [] NewVariables)).1 in
  o = Ret Returned ∧ o ≠ Ret Waiting.
Proof.
  split; [by vm_compute|].
  pose proof (elasticsearch_FillContext (H := ex_elasticsearch) "5m0s" 11 "es" ex_task
    (MkSession [] NewVariables)) as He.
  destruct (Elasticsearch.FillContext "5m0s" 11 "es" ex_task _) as [o s].
  destruct He as [He _]. apply (He 10); [|lia]. intros t Ht. by apply Nat.leb_le.
Defined.
End examples.
