(* ===== verification/TaskRunnersAtomic.v ===== *)
(** The work of a task runner seen as one action: a runner waits for a
    framework while other goroutines change the variables of the stack, and
    does what it would do alone. *)
From S2P Require Import Prelude GoStrings Errors Json Variables Data Strconv Http.
From S2P Require Import TaskRunners TaskRunnersFacts.
Open Scope string_scope.
Open Scope list_scope.
Open Scope nat_scope.

(** The same services, while nobody else acts. *)
Definition undisturbed_net (n : Network) : Network :=
  {| answer := answer; expired := expired; others _ v := v |}.

(** What the others alone make of the variables while the calls [l] are made
    after [t]. *)
Fixpoint drift (n : Network) (t l : list call) (v : Variables) : Variables :=
  match l with
  | [] => v
  | c :: l' => drift n (t ++ [c]) l' (others (Network := n) (t ++ [c]) v)
  end.
Lemma drift_snoc n t l c v :
  drift n t (l ++ [c]) v = others (Network := n) (t ++ l ++ [c]) (drift n t l v).
Proof.
  revert t v. induction l as [|c' l IH]; intros t v; simpl; [done|].
  by rewrite IH -app_assoc.
Qed.

Section atomic.
Context `{ord : MapOrder} (n : Network) (id : string).

(** The others neither set the variables of the application nor look at them. *)
Definition minds_own : Prop :=
  (∀ t v k, owned id k = true → Get k (others (Network := n) t v) = Get k v) ∧
  ∀ t v v', (∀ k, owned id k = false → Get k v = Get k v') →
    ∀ k, owned id k = false →
    Get k (others (Network := n) t v) = Get k (others (Network := n) t v').
Context (Hothers : minds_own).
Abbreviation alone := (undisturbed_net n).

(** A session beside others and one alone, both since [t0]: the variables of
    the application agree, and those of others are what the others made of
    [v0]. *)
Context (t0 : list call) (v0 : Variables).
Definition agree (s s' : session) : Prop :=
  calls s = calls s' ∧ (∀ k, owned id k = true → Get k (context s) = Get k (context s')) ∧
  ∃ l, calls s = t0 ++ l ∧
    ∀ k, owned id k = false → Get k (context s) = Get k (drift n t0 l v0).
Definition agrees {A} (m m' : M session error A) : Prop := ∀ s s', agree s s' →
  (m s).1 = (m' s').1 ∧ agree (m s).2 (m' s').2.

Lemma agrees_bind {A B} (m m' : M session error A) (f f' : A → M session error B) :
  agrees m m' → (∀ x, agrees (f x) (f' x)) → agrees (m ≫= f) (m' ≫= f').
Proof.
  intros Hm Hf s s' Hs. rewrite /mbind /M_mbind. destruct (Hm s s' Hs) as [Ho Hs1].
  destruct (m s) as [o s1], (m' s') as [o' s1']. simpl in *. subst o'.
  destruct o as [x|e|p]; [by apply Hf|done..].
Qed.
Lemma agrees_same {A} (o : outcome error A) : agrees (λ s, (o, s)) (λ s, (o, s)).
Proof. by intros s s' Hs. Qed.
Lemma agrees_catch {A} (m m' : M session error A) : agrees m m' → agrees (catch m) (catch m').
Proof.
  intros Hm s s' Hs. rewrite /catch. destruct (Hm s s' Hs) as [Ho Hs1].
  destruct (m s) as [o s1], (m' s') as [o' s1']. simpl in *. subst o'. by destruct o.
Qed.
Lemma agrees_for_each {A} (f f' : A → M session error unit) l :
  (∀ x, agrees (f x) (f' x)) → agrees (for_each f l) (for_each f' l).
Proof. intros Hf. induction l as [|x l IH]; [apply agrees_same|]. by apply agrees_bind. Qed.
Lemma agrees_collect {A B} (f f' : A → M session error B) l :
  (∀ x, agrees (f x) (f' x)) → agrees (collect f l) (collect f' l).
Proof.
  intros Hf. induction l as [|x l IH]; [apply agrees_same|].
  apply agrees_bind; [done|]. intros y. apply agrees_bind; [done|]. intros ys. apply agrees_same.
Qed.
Lemma agrees_set k v : owned id k = true → agrees (set_stack_variable k v) (set_stack_variable k v).
Proof.
  intros Hown s s' (Hc & Hv & l & Hl & Hf). split; [done|]. split_and!; [done| |exists l; split; [done|]];
    intros k' Hk'; simpl.
  - destruct (decide (k' = k)) as [->|Hne]; [by rewrite !Get_set_eq|].
    rewrite !Get_set_ne //. by apply Hv.
  - rewrite Get_set_ne; [by apply Hf|]. intros ->. congruence.
Qed.
Lemma agrees_must_get k : owned id k = true → agrees (must_get k) (must_get k).
Proof. intros Hk s s' Hs. rewrite /must_get /MustGet (proj1 (proj2 Hs) k Hk). by split. Qed.
Lemma agrees_fired : agrees (timer_fired (H := n)) (timer_fired (H := alone)).
Proof. intros s s' Hs. rewrite /timer_fired /= (proj1 Hs). by split. Qed.
Lemma agrees_call c : agrees (call_out (H := n) c) (call_out (H := alone) c).
Proof.
  intros s s' (Hc & Hv & l & Hl & Hf). destruct Hothers as [Hown Hforeign].
  rewrite /call_out /= Hc. split; [done|]. split_and!; [done| |exists (l ++ [c])]; simpl.
  - intros k Hk. rewrite Hown //. by apply Hv.
  - rewrite -Hc Hl -app_assoc. split; [done|]. rewrite drift_snoc. by apply Hforeign.
Qed.

(** Follow the structure of the two runs of the same code. *)
Create HintDb agreedb.
#[local] Hint Resolve agrees_same agrees_fired agrees_call agrees_must_get : agreedb.
#[local] Hint Extern 2 (agrees (set_stack_variable _ _) _) =>
  apply agrees_set; rewrite -?str_app_assoc; apply owned_app : agreedb.
Ltac agree :=
  intros; cbv beta zeta;
  lazymatch goal with
  | |- agrees (_ ≫= _) _ => apply agrees_bind; [agree|agree]
  | |- agrees (for_each _ _) _ => apply agrees_for_each; agree
  | |- agrees (collect _ _) _ => apply agrees_collect; agree
  | |- agrees (catch _) _ => apply agrees_catch; agree
  | |- agrees (match ?x with _ => _ end) _ => destruct x; agree
  | |- _ => first [done|apply agrees_same|eauto with agreedb]
  end.

Lemma agrees_get url query : agrees (http_get (H := n) url query) (http_get (H := alone) url query).
Proof. rewrite /http_get. agree. Qed.
Lemma agrees_post url body : agrees (http_post (H := n) url body) (http_post (H := alone) url body).
Proof. rewrite /http_post. agree. Qed.
Lemma agrees_sleep : agrees (sleep (H := n)) (sleep (H := alone)).
Proof. rewrite /sleep. agree. Qed.
Lemma agrees_set_indexed prefix idx hosts :
  (∀ i, owned id (prefix +:+ i) = true) →
  agrees (set_indexed prefix idx hosts) (set_indexed prefix idx hosts).
Proof.
  intros Hp. revert idx. induction hosts as [|h l IH]; intros idx; cbn [set_indexed]; [agree|].
  apply agrees_bind; [by apply agrees_set|agree].
Qed.
Lemma agrees_api : agrees (must_get (id +:+ ".api")) (must_get (id +:+ ".api")).
Proof. apply agrees_must_get. apply (owned_app id "api"). Qed.
#[local] Hint Resolve agrees_get agrees_post agrees_sleep agrees_api : agreedb.
#[local] Hint Extern 2 (agrees (set_indexed _ _ _) _) =>
  apply agrees_set_indexed; intros ?; rewrite -?str_app_assoc; apply owned_app : agreedb.
#[local] Hint Extern 2 (agrees (check_status _) _) => rewrite /check_status; agree : agreedb.
#[local] Hint Extern 2 (agrees (check_Success _ _) _) =>
  rewrite /check_Success /read_all; agree : agreedb.
#[local] Hint Extern 2 (agrees (check_success _) _) =>
  rewrite /check_success /read_all; agree : agreedb.

Lemma agrees_await fuel api :
  agrees (Exhibitor.AwaitZookeeperRunning (H := n) fuel api)
    (Exhibitor.AwaitZookeeperRunning (H := alone) fuel api).
Proof.
  induction fuel as [|fuel IH]; cbn [Exhibitor.AwaitZookeeperRunning];
    rewrite /Exhibitor.poll /Exhibitor.Status /Exhibitor.checkResponse; agree.
Qed.
#[local] Hint Resolve agrees_await : agreedb.

Lemma agrees_GetTasks api :
  agrees (Elasticsearch.GetTasks (H := n) api) (Elasticsearch.GetTasks (H := alone) api).
Proof. rewrite /Elasticsearch.GetTasks /read_all. agree. Qed.
#[local] Hint Resolve agrees_GetTasks : agreedb.
Lemma agrees_AwaitRunning d fuel api :
  agrees (Elasticsearch.AwaitRunning (H := n) d fuel api)
    (Elasticsearch.AwaitRunning (H := alone) d fuel api).
Proof.
  induction fuel as [|fuel IH]; cbn [Elasticsearch.AwaitRunning]; rewrite /Elasticsearch.poll; agree.
Qed.
Lemma agrees_set_addresses idx tasks :
  agrees (Elasticsearch.set_addresses id idx tasks) (Elasticsearch.set_addresses id idx tasks).
Proof. revert idx. induction tasks as [|t l IH]; intros idx; cbn [Elasticsearch.set_addresses]; agree. Qed.
Lemma agrees_set_ports idx ports : agrees (set_ports id idx ports) (set_ports id idx ports).
Proof. revert idx. induction ports as [|p l IH]; intros idx; cbn [set_ports]; agree. Qed.
#[local] Hint Resolve agrees_AwaitRunning agrees_set_addresses agrees_set_ports : agreedb.
Lemma agrees_fill_context task : agrees (fill_context id task) (fill_context id task).
Proof. rewrite /fill_context. agree. Qed.
#[local] Hint Resolve agrees_fill_context : agreedb.

Lemma agrees_FillContext r fuel task :
  agrees (FillContext (H := n) r fuel id task) (FillContext (H := alone) r fuel id task).
Proof.
  destruct r; cbn [FillContext]; rewrite /returned;
    [rewrite /Kafka.FillContext|rewrite /Exhibitor.FillContext|rewrite /DSE.FillContext
    |rewrite /DSE02x.FillContext|rewrite /Statsd.FillContext|rewrite /Syslog.FillContext
    |rewrite /Zipkin.FillContext|rewrite /GoKafkaClient.FillContext
    |rewrite /Elasticsearch.FillContext]; agree.
Qed.
Lemma agrees_RunTask r fuel task :
  agrees (RunTask (H := n) r fuel id task) (RunTask (H := alone) r fuel id task).
Proof.
  destruct r; cbn [RunTask]; rewrite /returned.
  - rewrite /Kafka.RunTask /Kafka.Add /Kafka.Start /Kafka.checkResponse /read_all. agree.
  - rewrite /Exhibitor.RunTask /Exhibitor.Add /Exhibitor.Update /Exhibitor.Start
      /Exhibitor.cluster_call /Exhibitor.checkResponse /Exhibitor.fillTaskContext /read_all. agree.
  - rewrite /DSE.RunTask /DSE.Add /DSE.Start /DSE.doPost /DSE.checkResponse /DSE.fillTaskContext. agree.
  - rewrite /DSE02x.RunTask /DSE02x.AddCluster /DSE02x.Add /DSE02x.Start /DSE02x.doGet
      /DSE02x.checkResponse /DSE02x.fillTaskContext /DSE02x.fill_node /read_all. agree.
  - rewrite /Statsd.RunTask /Statsd.Update /Statsd.Start /Statsd.checkResponse. agree.
  - rewrite /Syslog.RunTask /Syslog.Update /Syslog.Start /Syslog.checkResponse. agree.
  - rewrite /Zipkin.RunTask /Zipkin.Add /Zipkin.Start /Zipkin.checkResponse /Zipkin.fillTaskContext. agree.
  - rewrite /GoKafkaClient.RunTask /GoKafkaClient.Add /GoKafkaClient.Update /GoKafkaClient.Start
      /GoKafkaClient.checkResponse. agree.
  - agree.
Qed.
End atomic.

(** A session of [m] beside others ends as one of [m'] alone, followed by what
    the others did. *)
Definition separates (n : Network) (id : string) {A} (m m' : M session error A) (s : session) : Prop :=
  let '(o, s1) := m s in
  let '(o', s2) := m' s in
  o = o' ∧ calls s1 = calls s2 ∧
  (∀ k, owned id k = true → Get k (context s1) = Get k (context s2)) ∧
  ∃ l, calls s1 = calls s ++ l ∧
    ∀ k, owned id k = false → Get k (context s1) = Get k (drift n (calls s) l (context s)).
Lemma agrees_separates n id {A} (m m' : M session error A) s :
  agrees n id (calls s) (context s) m m' → separates n id m m' s.
Proof.
  intros Hm. destruct (Hm s s) as [Ho (Hc & Hv & Hl)].
  { split_and!; [done|done|]. exists []. by rewrite app_nil_r. }
  rewrite /separates. destruct (m s) as [o s1], (m' s) as [o' s2]. by split_and!.
Qed.

(** C11. The work of a task runner can be seen as one action: when the other
    goroutines neither set nor read the variables of the application, then
    filling the context and running a task, during which the others act at
    every request, return what they return alone, make the same requests in
    the same order and leave the application's variables as they do alone,
    while all other variables are what the others make of them. *)
Theorem runners_atomic `{ord : MapOrder} n id r fuel task params s :
  minds_own n id →
  separates n id (FillContext (H := n) r fuel id task)
    (FillContext (H := undisturbed_net n) r fuel id task) s ∧
  separates n id (RunTask (H := n) r fuel id params)
    (RunTask (H := undisturbed_net n) r fuel id params) s.
Proof.
  intros Hn. split; apply agrees_separates; [by apply agrees_FillContext|by apply agrees_RunTask].
Qed.

(** ** Kafka, while another goroutine counts the requests *)
Section examples.
#[local] Existing Instance canonical_order.
Definition ex_busy : Network := {|
  answer := answer (Network := ex_kafka);
  expired := expired (Network := ex_kafka);
  others t v := SetStackVariable "zk.port0" (Itoa (Z.of_nat (length t))) v
|}.
Lemma ex_busy_minds : minds_own ex_busy "kafka".
Proof.
  split; simpl.
  - intros t v k Hk. apply Get_set_ne. by intros ->.
  - intros t v v' Hv k Hk. destruct (decide (k = "zk.port0")) as [->|Hne]; [by rewrite !Get_set_eq|].
    rewrite !Get_set_ne //. by apply Hv.
Qed.
Lemma runners_atomic_witness :
  let '(o, s) := RunTask (H := ex_busy) KafkaTaskRunner 0 "kafka" ex_params ex_session in
  o = Ret Returned ∧ length (calls s) = 2 ∧ Get "zk.port0" (context s) = Ret "2".
Proof.
  destruct (runners_atomic ex_busy "kafka" KafkaTaskRunner 0 ex_task ex_params ex_session
    ex_busy_minds) as [_ Hr].
  rewrite /separates in Hr.
  destruct (RunTask (H := ex_busy) KafkaTaskRunner 0 "kafka" ex_params ex_session) as [o s].
  destruct (RunTask (H := undisturbed_net ex_busy) KafkaTaskRunner 0 "kafka" ex_params ex_session)
    as [o' s'] eqn:E.
  assert (o' = Ret Returned ∧ length (calls s') = 2) as [Ho Hc].
  { change o' with (o', s').1. change s' with (o', s').2 at 2. rewrite -E. by vm_compute. }
  destruct Hr as (-> & Hcs & _ & l & Hl & Hf). split_and!; [exact Ho|by rewrite Hcs|].
  rewrite (Hf "zk.port0"); [|reflexivity].
  assert (length l = 2) as Hlen by (rewrite Hcs in Hl; rewrite -Hc Hl; reflexivity).
  destruct l as [|c1 [|c2 [|c3 l]]]; [discriminate..| |discriminate]. reflexivity.
Defined.
End examples.
