(* ===== verification/Constraints.v ===== *)
(** Placement constraints, [constraints/constraints.go]: their parser, their
    [Matches] methods and the attributes of an offer; and what a sequence of
    placements accepted by a constraint looks like. *)
From S2P Require Import Prelude GoStrings Errors Data.
From Stdlib Require Import ZArith Lia.
Open Scope string_scope.
Open Scope list_scope.

(** [regexp.Compile] for the patterns users write is a parameter: it rejects a
    pattern with an error or yields the predicate [MatchString]. *)
Class Regexp := Compile : string → result (string → bool).

(** ** Offers

    The fields of a Mesos offer the program reads. Protobuf strings are
    pointers; a getter gives the zero value for a nil one. *)
Record Attribute : Type := { attr_Name : option string; attr_Text : option string }.
Record Resource : Type := { res_Name : option string; res_Scalar : option float64 }.
Record Offer : Type := {
  off_Id : string;
  off_SlaveId : string;
  off_Hostname : option string;
  off_Attributes : list Attribute;
  off_Resources : list Resource }.
Definition GetHostname (o : Offer) : string := default "" (off_Hostname o).

(** [OfferAttributes]: the hostname and every non-empty text attribute, a later
    attribute over an earlier one. *)
Definition OfferAttributes (offer : Offer) : gmap string string :=
  foldl (λ m attribute,
           let text := default "" (attr_Text attribute) in
           if String.eqb text "" then m
           else <[default "" (attr_Name attribute) := text]> m)
        {["hostname" := GetHostname offer]} (off_Attributes offer).

(** ** Constraints *)
Inductive Constraint : Type :=
| Like (regex : string) (pattern : string → bool)
| Unlike (regex : string) (pattern : string → bool)
| Unique
| Cluster (value : string)
| GroupBy (groups : Z).

Definition MaxInt32 : Z := 2147483647.

(** Go's [counts[v] = counts[v] + 1]: an absent key reads as zero. *)
Definition count_up (counts : gmap string Z) (v : string) : gmap string Z :=
  <[v := (default 0 (counts !! v) + 1)%Z]> counts.
Definition value_counts (values : list string) : gmap string Z :=
  foldl count_up ∅ values.

Section constraints.
Context `{rx : Regexp} `{ord : MapOrder}.

(** The loop computing [minCount]. *)
Definition min_count (counts : gmap string Z) : Z :=
  let minCount :=
    foldl (λ minCount '(_, v), if (v <? minCount)%Z then v else minCount)
          MaxInt32 (range 0 counts) in
  if (minCount =? MaxInt32)%Z then 0%Z else minCount.

Definition group_by_matches (groups : Z) (value : string) (values : list string) : bool :=
  let counts := value_counts values in
  if (Z.of_nat (size counts) <? groups)%Z
  then match counts !! value with Some _ => false | None => true end
  else (default 0 (counts !! value) =? min_count counts)%Z.

Fixpoint unique_matches (value : string) (values : list string) : bool :=
  match values with
  | [] => true
  | v :: values' => if String.eqb value v then false else unique_matches value values'
  end.

Definition cluster_matches (c_value value : string) (values : list string) : bool :=
  if negb (String.eqb c_value "") then String.eqb c_value value
  else match values with [] => true | v :: _ => String.eqb v value end.

(** The interface method [Matches]. *)
Definition Matches (c : Constraint) (value : string) (values : list string) : bool :=
  match c with
  | Like _ pattern => pattern value
  | Unlike _ pattern => negb (pattern value)
  | Unique => unique_matches value values
  | Cluster c_value => cluster_matches c_value value values
  | GroupBy groups => group_by_matches groups value values
  end.

(** The [String] methods. *)
Definition constraint_String (c : Constraint) : string :=
  match c with
  | Like regex _ => "like:" +:+ regex
  | Unlike regex _ => "unlike:" +:+ regex
  | Unique => "unique"
  | Cluster value => if negb (String.eqb value "") then "cluster:" +:+ value else "cluster"
  | GroupBy groups => if (1 <? groups)%Z then "groupBy:" +:+ Itoa groups else "groupBy"
  end.

(** ** Parsing *)
Definition go_slice_String (l : list string) : string := "[" +:+ Join l " " +:+ "]".
Definition unsupported (value : list string) : error :=
  Errorf ("Unsupported constraint: " +:+ go_slice_String value).

Definition NewLikeConstraint (regex : string) : result Constraint :=
  match Compile regex with
  | Ret pattern => Ret (Like regex pattern)
  | Err e => Err (Errorf ("Invalid like: " +:+ Error e))
  | Panic p => Panic p
  end.
Definition NewUnlikeConstraint (regex : string) : result Constraint :=
  match Compile regex with
  | Ret pattern => Ret (Unlike regex pattern)
  | Err e => Err (Errorf ("Invalid unlike: " +:+ Error e))
  | Panic p => Panic p
  end.
Definition NewUniqueConstraint : Constraint := Unique.
Definition NewClusterConstraint (value : string) : Constraint := Cluster value.
Definition NewGroupByConstraint (groups : Z) : Constraint := GroupBy groups.

Definition ParseConstraint (value : list string) : result Constraint :=
  match value with
  | [] => Err (unsupported value)
  | kind :: args =>
      if String.eqb kind "LIKE" then
        match args with
        | [] => Err (unsupported value)
        | regex :: _ => NewLikeConstraint regex
        end
      else if String.eqb kind "UNLIKE" then
        match args with
        | [] => Err (unsupported value)
        | regex :: _ => NewUnlikeConstraint regex
        end
      else if String.eqb kind "UNIQUE" then Ret NewUniqueConstraint
      else if String.eqb kind "CLUSTER" then
        match args with
        | [] => Ret (NewClusterConstraint "")
        | v :: _ => Ret (NewClusterConstraint v)
        end
      else if String.eqb kind "GROUP_BY" then
        match args with
        | [] => Ret (NewGroupByConstraint 1)
        | v :: _ =>
            match Atoi v with
            | None => Err (Errorf ("Invalid constraint: " +:+ go_slice_String value))
            | Some groups => Ret (NewGroupByConstraint groups)
            end
        end
      else Err (unsupported value)
  end.

Definition MustParseConstraint (value : list string) : result Constraint :=
  match ParseConstraint value with
  | Ret c => Ret c
  | Err e => Panic (Error e)
  | Panic p => Panic p
  end.

(** [constraints[attribute] = append(constraints[attribute], constraint)]. *)
Definition append_constraint (m : gmap string (list Constraint))
    (attribute : string) (c : Constraint) : gmap string (list Constraint) :=
  <[attribute := default [] (m !! attribute) ++ [c]]> m.

Fixpoint parse_loop (raws : list (list string)) (m : gmap string (list Constraint)) :
    result (gmap string (list Constraint)) :=
  match raws with
  | [] => Ret m
  | [] :: _ => Err (Errorf "Invalid constraint")
  | (attribute :: rest) :: raws' =>
      c ← ParseConstraint rest;
      parse_loop raws' (append_constraint m attribute c)
  end.

(** [ParseConstraints]; the nil map for no constraints is the empty one. *)
Definition ParseConstraints (rawConstraints : list (list string)) :
    result (gmap string (list Constraint)) :=
  if (length rawConstraints =? 0)%nat then Ret ∅ else parse_loop rawConstraints ∅.
End constraints.

(** ** Counting occurrences *)

(** How often [v] occurs in [vs]. *)
Definition occ (v : string) (vs : list string) : nat :=
  length (filter (λ x, x = v) vs).
(** How many different values [vs] has. *)
Definition distinct (vs : list string) : nat := length (remove_dups vs).

Lemma occ_snoc v w vs :
  occ w (vs ++ [v]) = (occ w vs + if decide (v = w) then 1 else 0)%nat.
Proof.
  rewrite /occ filter_app length_app filter_cons filter_nil.
  by case_decide.
Qed.

Lemma occ_pos v vs : (0 < occ v vs)%nat ↔ v ∈ vs.
Proof.
  rewrite /occ. split.
  - destruct (filter (λ x, x = v) vs) as [|x l] eqn:E; simpl; [lia|].
    intros _. assert (x ∈ filter (λ x, x = v) vs) as Hx by (rewrite E; constructor).
    apply list_elem_of_filter in Hx as [-> ?]. done.
  - intros H. assert (v ∈ filter (λ x, x = v) vs) as Hx
      by by apply list_elem_of_filter.
    destruct (filter (λ x, x = v) vs); simpl; [set_solver|lia].
Qed.

Lemma occ_zero v vs : occ v vs = 0%nat ↔ v ∉ vs.
Proof. rewrite -occ_pos. lia. Qed.

Lemma occ_le_length v vs : (occ v vs ≤ length vs)%nat.
Proof. apply length_filter. Qed.

Lemma distinct_size vs : distinct vs = size (list_to_set vs : gset string).
Proof.
  rewrite /distinct -(size_list_to_set (C := gset string)); [|apply NoDup_remove_dups].
  f_equal. apply set_eq. intros x.
  by rewrite !elem_of_list_to_set elem_of_remove_dups.
Qed.

Lemma distinct_snoc_old v vs : v ∈ vs → distinct (vs ++ [v]) = distinct vs.
Proof.
  intros H. rewrite !distinct_size. f_equal. apply set_eq. intros x.
  rewrite !elem_of_list_to_set. set_solver.
Qed.

Lemma distinct_snoc_new v vs : v ∉ vs → distinct (vs ++ [v]) = S (distinct vs).
Proof.
  intros H. rewrite !distinct_size list_to_set_app_L list_to_set_singleton_L.
  rewrite size_union; [rewrite size_singleton; lia|].
  set_solver.
Qed.

(** The Go map of counts holds exactly the numbers of occurrences. *)
Lemma value_counts_lookup vs v :
  value_counts vs !! v =
    if decide (v ∈ vs) then Some (Z.of_nat (occ v vs)) else None.
Proof.
  induction vs as [|w vs IH] using rev_ind; [done|].
  rewrite /value_counts foldl_snoc -/(value_counts vs) /count_up occ_snoc.
  destruct (decide (w = v)) as [->|Hne].
  - rewrite lookup_insert_eq IH.
    destruct (decide (v ∈ vs ++ [v])) as [_|H]; [|set_solver].
    f_equal. destruct (decide (v ∈ vs)) as [?|Hn]; simpl; [lia|].
    apply occ_zero in Hn. lia.
  - rewrite lookup_insert_ne // IH Nat.add_0_r.
    destruct (decide (v ∈ vs)), (decide (v ∈ vs ++ [w])); set_solver.
Qed.

Lemma value_counts_default vs v :
  default 0%Z (value_counts vs !! v) = Z.of_nat (occ v vs).
Proof.
  rewrite value_counts_lookup. case_decide as H; [done|].
  apply occ_zero in H. by rewrite H.
Qed.

Lemma size_value_counts vs : size (value_counts vs) = distinct vs.
Proof.
  rewrite distinct_size -size_dom. f_equal. apply set_eq. intros v.
  rewrite elem_of_dom value_counts_lookup elem_of_list_to_set.
  case_decide; split; naive_solver.
Qed.

Section min.
Context `{ord : MapOrder}.

Lemma min_loop (l : list (string * Z)) m0 :
  let m := foldl (λ m '(_, v), if (v <? m)%Z then v else m) m0 l in
  (m ≤ m0)%Z ∧ (∀ k v, (k, v) ∈ l → (m ≤ v)%Z) ∧ (m = m0 ∨ ∃ k, (k, m) ∈ l).
Proof.
  revert m0. induction l as [|[k v] l IH]; intros m0 m; subst m; simpl.
  { split_and!; [lia|set_solver|by left]. }
  specialize (IH (if (v <? m0)%Z then v else m0)) as (H1 & H2 & H3).
  set (m := foldl _ _ l) in *.
  assert (m ≤ m0 ∧ m ≤ v)%Z as [? ?] by (destruct (Z.ltb_spec v m0); lia).
  split_and!; [done| |].
  - intros k' v' [[= -> ->]|?]%elem_of_cons; eauto.
  - destruct H3 as [H3|[k' ?]]; [|right; set_solver].
    destruct (Z.ltb_spec v m0); [|by left].
    right. exists k. rewrite H3. set_solver.
Qed.

(** On a non-empty map of small counts, [min_count] is the least count. *)
Lemma min_count_spec vs :
  vs ≠ [] → (Z.of_nat (length vs) < MaxInt32)%Z →
  (∀ w, w ∈ vs → (min_count (value_counts vs) ≤ Z.of_nat (occ w vs))%Z) ∧
  ∃ w, w ∈ vs ∧ min_count (value_counts vs) = Z.of_nat (occ w vs).
Proof.
  intros Hne Hlen.
  pose proof (min_loop (range 0 (value_counts vs)) MaxInt32) as (H1 & H2 & H3).
  rewrite /min_count. set (m := foldl _ _ _) in *.
  assert (∀ w, w ∈ vs → (m ≤ Z.of_nat (occ w vs))%Z) as Hle.
  { intros w Hw. apply (H2 w). apply elem_of_range.
    rewrite value_counts_lookup decide_True //. }
  destruct (Z.eqb_spec m MaxInt32) as [E|E].
  { destruct vs as [|w vs]; [done|].
    specialize (Hle w (list_elem_of_here _ _)).
    pose proof (occ_le_length w (w :: vs)). simpl in *. lia. }
  split; [done|].
  destruct H3 as [H3|[k Hk]]; [done|].
  apply elem_of_range in Hk. rewrite value_counts_lookup in Hk.
  case_decide; simplify_eq. eauto.
Qed.
End min.

(** ** What the constraints promise

    [accepted c vs]: the attribute values [vs] arose by placing one task after
    the other, each one allowed by [Matches] against the earlier ones. *)

Section placements.
Context `{ord : MapOrder}.

Inductive accepted (c : Constraint) : list string → Prop :=
| accepted_nil : accepted c []
| accepted_snoc vs v :
    accepted c vs → Matches c v vs = true → accepted c (vs ++ [v]).

(** The meaning of GROUP_BY, without maps: as long as fewer than [groups]
    values are in use a new one is required, afterwards only a value with
    the fewest tasks is allowed. *)
Definition group_by_spec (groups : Z) (v : string) (vs : list string) : Prop :=
  if decide (Z.of_nat (distinct vs) < groups)%Z then v ∉ vs
  else vs = [] ∨ v ∈ vs ∧ ∀ w, w ∈ vs → (occ v vs ≤ occ w vs)%nat.

Lemma unique_matches_spec v vs : unique_matches v vs = true ↔ v ∉ vs.
Proof.
  induction vs as [|w vs IH]; simpl; [set_solver|].
  destruct (String.eqb_spec v w) as [->|]; [set_solver|].
  rewrite IH. set_solver.
Qed.

Lemma group_by_matches_correct groups v vs :
  (Z.of_nat (length vs) < MaxInt32)%Z →
  group_by_matches groups v vs = true ↔ group_by_spec groups v vs.
Proof.
  intros Hlen. rewrite /group_by_matches /group_by_spec size_value_counts.
  destruct (Z.ltb_spec (Z.of_nat (distinct vs)) groups).
  { rewrite decide_True // value_counts_lookup.
    case_decide; naive_solver. }
  rewrite decide_False; [|lia].
  rewrite value_counts_default Z.eqb_eq.
  destruct (decide (vs = [])) as [->|Hne].
  { rewrite /min_count /value_counts /=.
    assert (range 0 (∅ : gmap string Z) = []) as -> by by apply range_nil.
    split; [by left|done]. }
  destruct (min_count_spec vs Hne Hlen) as [Hle (w & Hw & Hmin)].
  split.
  - intros Heq. right. rewrite -Heq in Hle, Hmin. split.
    + apply occ_pos. apply occ_pos in Hw. lia.
    + intros u Hu. specialize (Hle u Hu). lia.
  - intros [?|[Hv Hall]]; [done|].
    specialize (Hall w Hw). specialize (Hle v Hv). lia.
Qed.

Record balanced (groups : Z) (vs : list string) : Prop := {
  balanced_distinct : (Z.of_nat (distinct vs) ≤ Z.max 1 groups)%Z;
  balanced_fresh : (Z.of_nat (distinct vs) < groups)%Z →
    ∀ v, v ∈ vs → occ v vs = 1%nat;
  balanced_spread : ∀ v w, v ∈ vs → w ∈ vs → (occ v vs ≤ occ w vs + 1)%nat
}.

Lemma balanced_snoc groups v vs :
  balanced groups vs → group_by_spec groups v vs → balanced groups (vs ++ [v]).
Proof.
  intros [Hd Hf Hs]. rewrite /group_by_spec. case_decide as Hlt.
  - intros Hv. specialize (Hf Hlt).
    assert (∀ u, u ∈ vs ++ [v] → occ u (vs ++ [v]) = 1%nat) as Hone.
    { intros u [Hu| ->%list_elem_of_singleton]%elem_of_app; rewrite occ_snoc.
      - rewrite Hf // decide_False; [lia|]. by intros ->.
      - rewrite decide_True // (proj2 (occ_zero v vs)) //. }
    split.
    + rewrite distinct_snoc_new //. lia.
    + intros _ u Hu. by apply Hone.
    + intros u w Hu Hw. rewrite (Hone u Hu) (Hone w Hw). lia.
  - intros [-> |[Hv Hmin]].
    + assert (distinct ([] ++ [v]) = 1%nat) as Hone
        by (rewrite distinct_snoc_new; [done|set_solver]).
      assert (distinct [] = 0%nat) as Hzero by done.
      split; [lia|lia|].
      intros u w ->%list_elem_of_singleton ->%list_elem_of_singleton. lia.
    + pose proof (distinct_snoc_old v vs Hv) as Hold.
      split; [lia|lia|].
      assert (∀ u, u ∈ vs ++ [v] → u ∈ vs) as Hin by set_solver.
      intros u w Hu%Hin Hw%Hin. rewrite !occ_snoc.
      specialize (Hs u w Hu Hw). specialize (Hmin w Hw).
      destruct (decide (v = u)) as [<-|], (decide (v = w)); lia.
Qed.

Lemma accepted_unique vs : accepted Unique vs ↔ NoDup vs.
Proof.
  split.
  - induction 1 as [|vs v _ IH Hm]; [constructor|].
    apply NoDup_app. apply unique_matches_spec in Hm.
    split_and!; [done|set_solver|apply NoDup_singleton].
  - induction vs as [|v vs IH] using rev_ind; [constructor|].
    intros (H1 & H2 & _)%NoDup_app. constructor; [by apply IH|].
    apply unique_matches_spec. set_solver.
Qed.

Lemma accepted_cluster c vs :
  accepted (Cluster c) vs ↔
  ∃ v, (c ≠ "" → v = c) ∧ Forall (v =.) vs.
Proof.
  split.
  - induction 1 as [|vs v _ (u & Hu & Hall) Hm].
    { exists c. by split; [|constructor]. }
    rewrite /= /cluster_matches in Hm.
    destruct (String.eqb_spec c "") as [->|Hc]; simpl in Hm.
    + exists v. split; [done|]. destruct vs as [|w vs]; [by repeat constructor|].
      apply String.eqb_eq in Hm as ->. inversion Hall; subst.
      apply Forall_app; split; [done|by repeat constructor].
    + apply String.eqb_eq in Hm as ->. exists v. split; [done|].
      rewrite (Hu Hc) in Hall. apply Forall_app; by split; [|repeat constructor].
  - intros (u & Hu & Hall). induction vs as [|v vs IH] using rev_ind; [constructor|].
    apply Forall_app in Hall as [Hall [<- _]%Forall_cons].
    constructor; [by apply IH|]. rewrite /= /cluster_matches.
    destruct (String.eqb_spec c "") as [->|Hc]; simpl.
    + destruct vs as [|w vs]; [done|]. inversion Hall; subst.
      by apply String.eqb_eq.
    + apply String.eqb_eq. symmetry. by apply Hu.
Qed.
End placements.

Section parsing.
Context `{rx : Regexp}.

(** The constraints one by one, before they are grouped by attribute. *)
Fixpoint parse_each (raws : list (list string)) : result (list (string * Constraint)) :=
  match raws with
  | [] => Ret []
  | [] :: _ => Err (Errorf "Invalid constraint")
  | (attribute :: rest) :: raws' =>
      c ← ParseConstraint rest;
      l ← parse_each raws';
      Ret ((attribute, c) :: l)
  end.

(** The constraints of [l] on one attribute, in order. *)
Definition constraints_of (attribute : string) (l : list (string * Constraint)) :
    list Constraint :=
  (filter (λ ac, ac.1 = attribute) l).*2.

Lemma append_all_lookup l m a :
  foldl (λ m '(b, c), append_constraint m b c) m l !! a =
    match constraints_of a l with
    | [] => m !! a
    | cs => Some (default [] (m !! a) ++ cs)
    end.
Proof.
  revert m. induction l as [|[b c] l IH]; intros m; [done|].
  cbn [foldl]. rewrite IH /constraints_of filter_cons /append_constraint.
  cbn [fst]. destruct (decide (b = a)) as [->|Hne].
  - rewrite lookup_insert_eq fmap_cons. cbn [default snd].
    destruct (filter _ l).*2; [done|]. by rewrite -app_assoc.
  - by rewrite lookup_insert_ne.
Qed.

Lemma parse_loop_each raws m :
  parse_loop raws m =
    (λ l, foldl (λ m '(b, c), append_constraint m b c) m l) <$> parse_each raws.
Proof.
  revert m. induction raws as [|[|a rest] raws IH]; intros m; simpl; [done..|].
  destruct (ParseConstraint rest) as [c|e|p]; simpl; [|done..].
  rewrite IH. by destruct (parse_each raws).
Qed.
End parsing.

(** ** Theorems *)

Section theorems.
Context `{rx : Regexp} `{ord : MapOrder}.

(** The map-based GROUP_BY test, with its two passes over a map of
    counts and its sentinel minimum, is the plain rule of [group_by_spec]
    for fewer than 2^31-1 placed tasks, whatever order Go visits the map
    in. *)
Theorem group_by_matches_is_spec groups v vs :
  (Z.of_nat (length vs) < MaxInt32)%Z →
  Matches (GroupBy groups) v vs = true ↔ group_by_spec groups v vs.
Proof. apply group_by_matches_correct. Qed.

(** Placing tasks one at a time under GROUP_BY keeps them balanced: at
    most [max 1 groups] different values are ever used, no value is used
    twice before all groups are in use, and the numbers of tasks per value
    never differ by more than one. *)
Theorem group_by_keeps_balance groups vs :
  accepted (GroupBy groups) vs → (Z.of_nat (length vs) ≤ MaxInt32)%Z →
  balanced groups vs.
Proof.
  induction 1 as [|vs v _ IH Hm]; intros Hlen.
  { assert (distinct [] = 0%nat) by done. split; [lia|set_solver..]. }
  rewrite length_app /= in Hlen.
  apply balanced_snoc; [apply IH; lia|].
  apply group_by_matches_correct in Hm; [done|lia].
Qed.

(** Under UNIQUE exactly the repetition-free sequences of values can be
    placed; under CLUSTER exactly the constant ones, and a cluster with a
    value only accepts that value. *)
Theorem unique_and_cluster_placements c vs :
  (accepted Unique vs ↔ NoDup vs) ∧
  (accepted (Cluster c) vs ↔ ∃ v, (c ≠ "" → v = c) ∧ Forall (v =.) vs).
Proof. split; [apply accepted_unique|apply accepted_cluster]. Qed.

(** [ParseConstraints] parses every constraint in turn and groups the
    results by attribute in their order: an attribute is in the map exactly
    if some constraint names it, and the first constraint that is empty or
    cannot be parsed decides the error. *)
Theorem ParseConstraints_groups raws :
  match parse_each raws with
  | Ret l => ∃ m, ParseConstraints raws = Ret m ∧
      ∀ a, m !! a = match constraints_of a l with [] => None | cs => Some cs end
  | Err e => ParseConstraints raws = Err e
  | Panic p => ParseConstraints raws = Panic p
  end.
Proof.
  rewrite /ParseConstraints.
  assert ((if (length raws =? 0)%nat then Ret ∅ else parse_loop raws ∅) =
          parse_loop raws ∅) as -> by by destruct raws.
  rewrite parse_loop_each. destruct (parse_each raws) as [l|e|p]; [|done..].
  eexists. split; [done|]. intros a. rewrite append_all_lookup lookup_empty.
  by destruct (constraints_of a l).
Qed.
End theorems.

(** Two tasks on [a], one on [b]: with two groups in use only [b] may follow. *)
Lemma group_by_matches_is_spec_witness :
  (Z.of_nat (length ["a"; "b"; "a"]) < MaxInt32)%Z ∧
  (@Matches canonical_order (GroupBy 2) "b" ["a"; "b"; "a"] = true ↔
   group_by_spec 2 "b" ["a"; "b"; "a"]).
Proof.
  split; [vm_compute; reflexivity|].
  apply (@group_by_matches_is_spec canonical_order 2 "b" ["a"; "b"; "a"]).
  vm_compute; reflexivity.
Defined.

Lemma accepted_a_b :
  @accepted canonical_order (GroupBy 2) ["a"; "b"].
Proof.
  apply (@accepted_snoc canonical_order (GroupBy 2) ["a"] "b");
    [|vm_compute; reflexivity].
  apply (@accepted_snoc canonical_order (GroupBy 2) [] "a");
    [constructor|vm_compute; reflexivity].
Qed.

Lemma group_by_keeps_balance_witness : balanced 2 ["a"; "b"].
Proof.
  apply (@group_by_keeps_balance canonical_order 2 ["a"; "b"]).
  - exact accepted_a_b.
  - vm_compute. discriminate.
Defined.
