(* ===== verification/Forest.v ===== *)
(** The inheritance forest of a stack storage: every stored name with the name
    of its parent, the empty name for none. Both storages ([InMemoryStorage],
    [CassandraStorage]) delete sub-trees of it; the facts that do not depend on
    how the rows are held are here. *)
From S2P Require Import Prelude.
From Stdlib Require Import Lia.
Open Scope string_scope.
Open Scope list_scope.
Open Scope nat_scope.

Abbreviation forest := (gmap string string).

(** [under t a n]: [n] is [a] or inherits from it, directly or not. *)
Inductive under (t : forest) (a : string) : string → Prop :=
| under_self : under t a a
| under_child n p : t !! n = Some p → under t a p → under t a n.

(** Parents are stored, the empty name is not, and following parents ends. *)
Definition ranked (t : forest) (rank : string → nat) : Prop :=
  ∀ n p, t !! n = Some p → p ≠ "" → rank p < rank n.
Record forest_wf (t : forest) : Prop := {
  wf_no_empty_name : t !! "" = None;
  wf_parent : ∀ n p, t !! n = Some p → p ≠ "" → is_Some (t !! p);
  wf_ranked : ∃ rank, ranked t rank
}.

(** [pruned t D t']: [t'] is [t] without the sub-trees of the names in [D]. *)
Record pruned (t : forest) (D : string → Prop) (t' : forest) : Prop := {
  pruned_sub : t' ⊆ t;
  pruned_gone d n : D d → under t d n → t' !! n = None;
  pruned_kept n : (∀ d, D d → ¬ under t d n) → t' !! n = t !! n
}.

Lemma under_trans t a b c : under t a b → under t b c → under t a c.
Proof. intros Hab. induction 1; eauto using under. Qed.

Lemma under_mono t t' a n : t' ⊆ t → under t' a n → under t a n.
Proof.
  intros Hsub. induction 1 as [|n p Hn _ IH]; [constructor|].
  econstructor; [|exact IH]. by eapply lookup_weaken.
Qed.

(** Everything strictly below [a] is under one of its children. *)
Lemma under_via_child t a n :
  under t a n → n = a ∨ ∃ c, t !! c = Some a ∧ under t c n.
Proof.
  induction 1 as [|n p Hn _ [->|(c & Hc & Hu)]]; [by left|right..].
  - exists n. split; [done|constructor].
  - exists c. split; [done|]. by econstructor.
Qed.

Lemma under_rank t rank a n :
  ranked t rank → t !! "" = None → a ≠ "" → under t a n → n = a ∨ rank a < rank n.
Proof.
  intros Hr He Ha. induction 1 as [|n p Hn Hu IH]; [by left|right].
  assert (p ≠ "") as Hp.
  { intros ->. inversion Hu; subst; [done|congruence]. }
  specialize (Hr n p Hn Hp). destruct IH as [->|]; lia.
Qed.

Lemma pruned_none t : pruned t (λ _, False) t.
Proof. split; [done|done|done]. Qed.

Lemma pruned_step t D t1 c t2 :
  pruned t D t1 → pruned t1 (c =.) t2 → pruned t (λ d, D d ∨ d = c) t2.
Proof.
  intros [Hs1 Hg1 Hk1] [Hs2 Hg2 Hk2].
  assert (∀ n, under t c n → n = c ∨ t1 !! n = None ∨ under t1 c n) as Hdown.
  { induction 1 as [|n p Hn Hu IH]; [by left|right].
    destruct (t1 !! n) as [q|] eqn:Eq; [right|by left].
    assert (q = p) as -> by (pose proof (lookup_weaken _ _ _ _ Eq Hs1); congruence).
    apply (under_child _ _ _ _ Eq).
    destruct IH as [->|[Hnone|?]]; [constructor| |done].
    destruct (decide (p = c)) as [->|Hpc]; [constructor|].
    exfalso. destruct (t !! p) as [pp|] eqn:Ep.
    - (* p was pruned, hence so was n *)
      apply (eq_None_not_Some (t1 !! n)); [|by rewrite Eq].
      destruct (t1 !! n) eqn:En; [|done].
      assert (¬ ∀ d, D d → ¬ under t d p) as Hnot.
      { intros Hall. apply Hk1 in Hall. congruence. }
      exfalso. apply Hnot. intros d Hd Hdp.
      assert (t1 !! n = None) by (eapply Hg1; [done|by econstructor]). congruence.
    - inversion Hu; subst; [done|congruence]. }
  split.
  - by etrans.
  - intros d n [Hd| ->] Hu.
    + apply eq_None_not_Some. intros [x Hx].
      pose proof (lookup_weaken _ _ _ _ Hx Hs2).
      rewrite (Hg1 d n Hd Hu) in H. done.
    + destruct (Hdown n Hu) as [->|[Hn|Hu1]].
      * apply (Hg2 c); [done|constructor].
      * apply eq_None_not_Some. intros [x Hx].
        pose proof (lookup_weaken _ _ _ _ Hx Hs2). congruence.
      * by apply (Hg2 c).
  - intros n Hn. rewrite Hk2.
    + apply Hk1. intros d Hd. apply Hn. by left.
    + intros d <- Hu. apply (Hn c); [by right|]. by eapply under_mono.
Qed.

(** Deleting [a] after the sub-trees of its children deletes its sub-tree. *)
Lemma pruned_finish t D a t1 :
  pruned t D t1 → (∀ d, t !! d = Some a ↔ D d) → pruned t (a =.) (delete a t1).
Proof.
  intros [Hs Hg Hk] HD. split.
  - etrans; [apply delete_subseteq|done].
  - intros ? n <- [->|(c & Hc%HD & Hu)]%under_via_child;
      [apply lookup_delete_eq|].
    destruct (decide (a = n)) as [->|]; [apply lookup_delete_eq|].
    rewrite lookup_delete_ne //. by eapply Hg.
  - intros n Hn. rewrite lookup_delete_ne.
    + apply Hk. intros d Hd%HD Hu. apply (Hn a eq_refl).
      eapply under_trans; [|done]. econstructor; [done|constructor].
    + intros ->. apply (Hn n eq_refl). constructor.
Qed.

Lemma pruned_ext t D D' t' :
  (∀ d, D d ↔ D' d) → pruned t D t' → pruned t D' t'.
Proof.
  intros HD [Hs Hg Hk]. split; [done| |].
  - intros d n Hd%HD. by apply Hg.
  - intros n Hn. apply Hk. intros d Hd%HD. by apply Hn.
Qed.

(** ** Well-formedness *)

Lemma ranked_sub t t' rank : t' ⊆ t → ranked t rank → ranked t' rank.
Proof. intros Hs Hr n p Hn. apply Hr. by eapply lookup_weaken. Qed.

Lemma forest_wf_empty : forest_wf ∅.
Proof.
  split; [done|intros n p; by rewrite lookup_empty|].
  exists (λ _, 0). intros n p. by rewrite lookup_empty.
Qed.

Lemma forest_wf_insert t n p :
  forest_wf t → n ≠ "" → t !! n = None → (p ≠ "" → is_Some (t !! p)) →
  forest_wf (<[n := p]> t).
Proof.
  intros [He Hp [rank Hr]] Hn Hnew Hpar. split.
  - by rewrite lookup_insert_ne.
  - intros m q. destruct (decide (n = m)) as [->|Hne].
    + rewrite lookup_insert_eq. intros [= <-] Hq. destruct (Hpar Hq) as [x Hx].
      rewrite lookup_insert_ne; [by eexists|congruence].
    + rewrite lookup_insert_ne // => Hm Hq. destruct (Hp m q Hm Hq) as [x Hx].
      rewrite lookup_insert_ne; [by eexists|congruence].
  - exists (λ x, if decide (x = n) then S (rank p) else rank x).
    intros m q. destruct (decide (n = m)) as [->|Hne].
    + rewrite lookup_insert_eq. intros [= <-] Hq. destruct (Hpar Hq) as [x Hx].
      rewrite decide_False; [|congruence]. rewrite decide_True //. lia.
    + rewrite lookup_insert_ne // => Hm Hq. destruct (Hp m q Hm Hq) as [x Hx].
      rewrite !decide_False; [|congruence..]. by apply Hr.
Qed.

Lemma forest_wf_pruned t D t' : forest_wf t → pruned t D t' → forest_wf t'.
Proof.
  intros [He Hp [rank Hr]] [Hs Hg Hk]. split.
  - apply eq_None_not_Some. intros [x Hx].
    pose proof (lookup_weaken _ _ _ _ Hx Hs). congruence.
  - intros n p Hn Hne.
    pose proof (lookup_weaken _ _ _ _ Hn Hs) as Hn'.
    destruct (Hp n p Hn' Hne) as [q Hq]. rewrite Hk; [by eexists|].
    intros d Hd Hu. rewrite (Hg d n Hd) in Hn; [done|by econstructor].
  - exists rank. by eapply ranked_sub.
Qed.

(** A rank below the number of stored names, for fuel bounds. *)
Lemma ranked_bounded t rank :
  ranked t rank → (∀ n p, t !! n = Some p → p ≠ "" → is_Some (t !! p)) →
  ∃ rank', ranked t rank' ∧ ∀ n, rank' n ≤ size t.
Proof.
  intros Hr Hp.
  set (below n := filter (λ m, rank m < rank n) (dom t : gset string)).
  exists (λ n, size (below n)). split.
  - intros n p Hn Hne. apply subset_size. split.
    + intros m. rewrite /below !elem_of_filter. specialize (Hr n p Hn Hne).
      intros [? ?]. split; [lia|done].
    + intros Hsub. assert (p ∈ below p) as Hin.
      { apply Hsub. rewrite /below elem_of_filter elem_of_dom. eauto. }
      rewrite /below elem_of_filter in Hin. lia.
  - intros n. rewrite -size_dom. apply subseteq_size. set_solver.
Qed.

(** A name that is already gone may be counted as pruned. *)
Lemma pruned_gone_name t D c t1 :
  pruned t D t1 → is_Some (t !! c) → t1 !! c = None → pruned t (λ d, D d ∨ d = c) t1.
Proof.
  intros [Hs Hg Hk] Hc Hnone. split; [done| |].
  - intros d n [Hd| ->] Hu; [by eapply Hg|].
    destruct (t1 !! n) eqn:En; [exfalso|done].
    assert (¬ ∀ d, D d → ¬ under t d c) as Hnot.
    { intros Hall%Hk. rewrite Hnone in Hall. rewrite -Hall in Hc. by destruct Hc. }
    apply Hnot. intros d Hd Hdc.
    rewrite (Hg d n Hd) in En; [done|]. by eapply under_trans.
  - intros n Hn. apply Hk. intros d Hd. apply Hn. by left.
Qed.

(** ** A measure for recursion towards the leaves

    The stored names that rank no lower than [n]: strictly fewer for a child. *)
Definition above (t : forest) (rank : string → nat) (n : string) : gset string :=
  filter (λ m, rank n ≤ rank m) (dom t).

Lemma above_size t rank n : size (above t rank n) ≤ size t.
Proof. rewrite -size_dom. apply subseteq_size. set_solver. Qed.

Lemma above_pos t rank n : is_Some (t !! n) → 0 < size (above t rank n).
Proof.
  intros Hn. destruct (decide (size (above t rank n) = 0)) as [He|]; [|lia].
  apply size_empty_inv in He. assert (n ∈ above t rank n); [|set_solver].
  rewrite /above elem_of_filter elem_of_dom. done.
Qed.

Lemma above_child t rank n c :
  ranked t rank → is_Some (t !! n) → n ≠ "" → t !! c = Some n →
  size (above t rank c) < size (above t rank n).
Proof.
  intros Hr Hn Hne Hc. specialize (Hr c n Hc Hne). apply subset_size. split.
  - intros m. rewrite /above !elem_of_filter. intros [? ?]. split; [lia|done].
  - intros Hsub. assert (n ∈ above t rank c) as Hin.
    { apply Hsub. rewrite /above elem_of_filter elem_of_dom. done. }
    rewrite /above elem_of_filter in Hin. lia.
Qed.
