(* ===== verification/Stacks.v ===== *)
(** Stacks, their inheritance and the layers they are merged from:
    [framework/stack.go] (the struct, [Merge], accessors) and
    [framework/layer.go].

    [Merge] works through pointers: it writes into the receiver's applications
    and shares the child's. It is modelled twice: on a store of objects
    ([Merge], the translation), and on stacks held by value ([merge_stack]),
    which is what it amounts to when no object is shared; the refinement
    theorem connects the two. *)
From S2P Require Import Prelude GoStrings Errors Data.
From Stdlib Require Import Lia.
Open Scope string_scope.
Open Scope list_scope.

Section merge.
Context `{ord : MapOrder}.

(** The loop over [childApp.Scheduler]: an empty value removes the key. *)
Definition merge_scheduler (child app : gmap string string) : gmap string string :=
  foldl (λ m '(k, v), if String.eqb v "" then delete k m else <[k := v]> m)
        app (range 1 child).

(** The body of [Merge]'s loop for an application both stacks have: the new
    value of [*app]. *)
Definition merge_application (app childApp : Application) : Application :=
  {| App.Typ := App.Typ app;
     App.ID := setString (App.ID childApp) (App.ID app);
     App.Version := setString (App.Version childApp) (App.Version app);
     App.Cpu := setFloat (App.Cpu childApp) (App.Cpu app);
     App.Mem := setFloat (App.Mem childApp) (App.Mem app);
     App.Ports := setIntSlice (App.Ports childApp) (App.Ports app);
     App.Instances := App.Instances app;
     App.Constraints := App.Constraints app;
     App.User := setString (App.User childApp) (App.User app);
     App.Healthcheck := setString (App.Healthcheck childApp) (App.Healthcheck app);
     App.LaunchCommand := setString (App.LaunchCommand childApp) (App.LaunchCommand app);
     App.Args := App.Args app;
     App.Env := App.Env app;
     App.ArtifactURLs := setStringSlice (App.ArtifactURLs childApp) (App.ArtifactURLs app);
     App.AdditionalArtifacts :=
       setStringSlice (App.AdditionalArtifacts childApp) (App.AdditionalArtifacts app);
     App.Scheduler := merge_scheduler (App.Scheduler childApp) (App.Scheduler app);
     App.Tasks := if (0 <? length (App.Tasks childApp))%nat
                  then App.Tasks childApp else App.Tasks app;
     App.Dependencies := setStringSlice (App.Dependencies childApp) (App.Dependencies app);
     App.DockerSpec := App.DockerSpec app;
     App.StartTime := App.StartTime app;
     App.TimeSchedule := App.TimeSchedule app;
     App.BeforeScheduler :=
       setStringSlice (App.BeforeScheduler childApp) (App.BeforeScheduler app);
     App.AfterScheduler := setStringSlice (App.AfterScheduler childApp) (App.AfterScheduler app);
     App.BeforeTask := setStringSlice (App.BeforeTask childApp) (App.BeforeTask app);
     App.AfterTask := setStringSlice (App.AfterTask childApp) (App.AfterTask app);
     App.AfterTasks := setStringSlice (App.AfterTasks childApp) (App.AfterTasks app) |}.

Definition nil_map_write : string := "assignment to entry in nil map".

(** [s.Applications[name] = childApp] for a name that is not there. *)
Definition add_entry {P} (name : string) (childApp : P) (apps : option (gmap string P)) :
    result (option (gmap string P)) :=
  match apps with
  | None => Panic nil_map_write
  | Some m => Ret (Some (<[name := childApp]> m))
  end.

(** [Merge] on stacks held by value. *)
Fixpoint merge_entries (entries : list (string * Application))
    (apps : option (gmap string Application)) :
    result (option (gmap string Application)) :=
  match entries with
  | [] => Ret apps
  | (name, childApp) :: entries' =>
      apps ← match default ∅ apps !! name with
             | None => add_entry name childApp apps
             | Some app =>
                 Ret ((λ m : gmap string Application,
                         <[name := merge_application app childApp]> m) <$> apps)
             end;
      merge_entries entries' apps
  end.

Definition merge_stack (s child : Stack) : result Stack :=
  apps ← merge_entries (range 0 (Stk.apps child)) (Stk.Applications s);
  Ret {| Stk.Namespace := Stk.Namespace s;
         Stk.Name := Stk.Name child;
         Stk.From := Stk.From s;
         Stk.Applications := apps;
         Stk.Layer := Stk.Layer s |}.
End merge.

(** ** The store of objects

    [app_at] and [stack_at] hold what the Go pointers point to; a pointer
    outside the store is nil. *)
Definition loc := N.
Record heap : Type := MkHeap {
  app_at : gmap loc Application;
  stack_at : gmap loc (Stk.Stack loc)
}.

Definition load_app (p : loc) : M heap error Application := λ h,
  match app_at h !! p with
  | Some a => (Ret a, h)
  | None => (Panic nil_dereference, h)
  end.
Definition store_app (p : loc) (a : Application) : M heap error unit := λ h,
  (Ret tt, MkHeap (<[p := a]> (app_at h)) (stack_at h)).
Definition load_stack (p : loc) : M heap error (Stk.Stack loc) := λ h,
  match stack_at h !! p with
  | Some s => (Ret s, h)
  | None => (Panic nil_dereference, h)
  end.
Definition store_stack (p : loc) (s : Stk.Stack loc) : M heap error unit := λ h,
  (Ret tt, MkHeap (app_at h) (<[p := s]> (stack_at h))).

Definition set_name {P} (s : Stk.Stack P) (name : string) : Stk.Stack P :=
  Stk.MkStack (Stk.Namespace s) name (Stk.From s) (Stk.Applications s) (Stk.Layer s).
Definition set_apps {P} (s : Stk.Stack P) (apps : option (gmap string P)) : Stk.Stack P :=
  Stk.MkStack (Stk.Namespace s) (Stk.Name s) (Stk.From s) apps (Stk.Layer s).
Definition set_from {P} (s : Stk.Stack P) (from : string) : Stk.Stack P :=
  Stk.MkStack (Stk.Namespace s) (Stk.Name s) from (Stk.Applications s) (Stk.Layer s).
Definition set_layer {P} (s : Stk.Stack P) (layer : Z) : Stk.Stack P :=
  Stk.MkStack (Stk.Namespace s) (Stk.Name s) (Stk.From s) (Stk.Applications s) layer.

(** ** Layers *)
Record Layer (S : Type) : Type := MkLayer { Level : Z; LStack : S }.
Arguments MkLayer {S}.
Arguments Level {S}.
Arguments LStack {S}.

Definition NewDataCenter {S} (stack : S) : Layer S := MkLayer LayerDataCenter stack.
Definition NewCluster {S} (stack : S) : Layer S := MkLayer LayerCluster stack.
Definition NewZone {S} (stack : S) : Layer S := MkLayer LayerZone stack.

(** [NewLayer] looks at the [Layer] field, here [level]; [None] is nil. *)
Definition NewLayer {S} (level : Z) (stack : S) : option (Layer S) :=
  if (level =? LayerZone)%Z then Some (NewZone stack)
  else if (level =? LayerCluster)%Z then Some (NewCluster stack)
  else if (level =? LayerDataCenter)%Z then Some (NewDataCenter stack)
  else None.

Definition merge_level_error (l other : Z) : error :=
  Errorf ("Can't merge layer level " +:+ Itoa l +:+ " with level " +:+ Itoa other).

Section heap_merge.
Context `{ord : MapOrder}.

(** One iteration of [Merge]'s loop. *)
Definition Merge_entry (s : loc) (entry : string * loc) : M heap error unit :=
  let '(name, childApp) := entry in
  st ← load_stack s;
  match Stk.apps st !! name with
  | None =>
      apps ← lift (add_entry name childApp (Stk.Applications st));
      store_stack s (set_apps st apps)
  | Some app =>
      c ← load_app childApp;
      a ← load_app app;
      store_app app (merge_application a c)
  end.

(** [func (s *Stack) Merge(child *Stack)]. *)
Definition Merge (s child : loc) : M heap error unit :=
  c ← load_stack child;
  st ← load_stack s;
  store_stack s (set_name st (Stk.Name c)) ;;
  c ← load_stack child;
  for_each (Merge_entry s) (range 0 (Stk.apps c)).

(** [func (l *Layer) Merge(other *Layer) error]. *)
Definition Layer_Merge (l other : Layer loc) : M heap error unit :=
  if (Level l <? Level other)%Z then fail (merge_level_error (Level l) (Level other))
  else Merge (LStack l) (LStack other).

(** The same on layers held by value. *)
Definition merge_layer (l other : Layer Stack) : result (Layer Stack) :=
  if (Level l <? Level other)%Z then Err (merge_level_error (Level l) (Level other))
  else s ← merge_stack (LStack l) (LStack other); Ret (MkLayer (Level l) s).
End heap_merge.

(** What a stack object denotes: its applications read from the store. *)
Definition denote (h : heap) (s : Stk.Stack loc) : Stack :=
  Stk.map_apps (λ p, default App.zero (app_at h !! p)) s.

(** ** Facts about merging by value *)
Section merge_facts.
Context `{ord : MapOrder}.

Lemma scheduler_loop_lookup (l : list (string * string)) (app : gmap string string) k :
  NoDup l.*1 →
  foldl (λ m '(k, v), if String.eqb v "" then delete k m else <[k := v]> m) app l !! k =
    match (list_to_map l : gmap string string) !! k with
    | Some v => if String.eqb v "" then None else Some v
    | None => app !! k
    end.
Proof.
  revert app. induction l as [|[k' v] l IH]; intros app Hnd; simpl.
  { by rewrite lookup_empty. }
  apply NoDup_cons in Hnd as [Hk' Hnd]. rewrite IH //.
  destruct (decide (k = k')) as [->|Hne].
  - rewrite lookup_insert_eq (not_elem_of_list_to_map_1 _ _ Hk').
    destruct (String.eqb v ""); [apply lookup_delete_eq|apply lookup_insert_eq].
  - rewrite lookup_insert_ne //. destruct (list_to_map l !! k); [done|].
    destruct (String.eqb v ""); [by rewrite lookup_delete_ne|by rewrite lookup_insert_ne].
Qed.

Lemma merge_scheduler_lookup child app k :
  merge_scheduler child app !! k =
    match child !! k with
    | Some v => if String.eqb v "" then None else Some v
    | None => app !! k
    end.
Proof.
  rewrite /merge_scheduler scheduler_loop_lookup; [|apply NoDup_range_keys].
  by rewrite list_to_map_range.
Qed.

(** The applications after a merge, name by name. *)
Definition merged_app (mine child : option Application) : option Application :=
  match mine, child with
  | Some a, Some c => Some (merge_application a c)
  | Some a, None => Some a
  | None, c => c
  end.

Lemma merge_entries_spec l m :
  NoDup l.*1 →
  ∃ m', merge_entries l (Some m) = Ret (Some m') ∧
    ∀ k, m' !! k = merged_app (m !! k) ((list_to_map l : gmap string Application) !! k).
Proof.
  revert m. induction l as [|[k a] l IH]; intros m Hnd.
  { exists m. split; [done|]. intros k. rewrite lookup_empty. by destruct (m !! k). }
  apply NoDup_cons in Hnd as [Hk Hnd]. simpl.
  pose proof (not_elem_of_list_to_map_1 (M := gmap string) l k Hk) as Hlk.
  destruct (m !! k) as [b|] eqn:E; simpl.
  - destruct (IH (<[k := merge_application b a]> m) Hnd) as (m' & -> & Hm').
    exists m'. split; [done|]. intros j. rewrite Hm'.
    destruct (decide (k = j)) as [<-|]; [|by rewrite !lookup_insert_ne].
    by rewrite !lookup_insert_eq Hlk E.
  - destruct (IH (<[k := a]> m) Hnd) as (m' & -> & Hm').
    exists m'. split; [done|]. intros j. rewrite Hm'.
    destruct (decide (k = j)) as [<-|]; [|by rewrite !lookup_insert_ne].
    by rewrite !lookup_insert_eq Hlk E.
Qed.

Lemma merge_entries_nil_map l :
  merge_entries l None = match l with [] => Ret None | _ => Panic nil_map_write end.
Proof. by destruct l as [|[k a] l]. Qed.

(** [merge_stack] case by case. *)
Lemma merge_stack_spec (s child : Stack) :
  match Stk.Applications s with
  | None =>
      if decide (Stk.apps child = ∅)
      then merge_stack s child = Ret (set_name s (Stk.Name child))
      else merge_stack s child = Panic nil_map_write
  | Some m => ∃ m',
      merge_stack s child = Ret (set_apps (set_name s (Stk.Name child)) (Some m')) ∧
      ∀ k, m' !! k = merged_app (m !! k) (Stk.apps child !! k)
  end.
Proof.
  rewrite /merge_stack. destruct (Stk.Applications s) as [m|] eqn:Em.
  - destruct (merge_entries_spec (range 0 (Stk.apps child)) m) as (m' & -> & Hm').
    { apply NoDup_range_keys. }
    exists m'. split; [done|]. intros k. by rewrite Hm' list_to_map_range.
  - rewrite merge_entries_nil_map. case_decide as Hc.
    + rewrite (proj2 (range_nil 0 _) Hc) /=. rewrite /set_name Em. done.
    + destruct (range 0 (Stk.apps child)) eqn:E; [|done].
      apply range_nil in E. done.
Qed.
End merge_facts.

(** ** The refinement *)
Section refinement.
Context `{ord : MapOrder}.

Abbreviation read h := (λ p : loc, app_at h !! p).

(** What the loop needs: every pointer is valid, no pointer of the receiver
    that is still to be merged into is shared. *)
Record loop_pre (h : heap) (m : gmap string loc) (l : list (string * loc)) : Prop := {
  pre_keys : NoDup l.*1;
  pre_child k p : (k, p) ∈ l → is_Some (app_at h !! p);
  pre_mine k q : m !! k = Some q → is_Some (app_at h !! q);
  pre_sep k q k' p : k ∈ l.*1 → m !! k = Some q → (k', p) ∈ l → q ≠ p;
  pre_inj k k' q : k ∈ l.*1 → m !! k = Some q → m !! k' = Some q → k = k'
}.

Record loop_post (h : heap) (m : gmap string loc) (l : list (string * loc))
    (s : loc) (st : Stk.Stack loc) (h' : heap) (m' : gmap string loc) : Prop := {
  post_stacks : stack_at h' = <[s := set_apps st (Some m')]> (stack_at h);
  post_apps k : m' !! k ≫= read h' =
    merged_app (m !! k ≫= read h) ((list_to_map l : gmap string loc) !! k ≫= read h);
  post_frame p : (∀ k, k ∈ l.*1 → m !! k ≠ Some p) → app_at h' !! p = app_at h !! p;
  post_valid k p : m' !! k = Some p → is_Some (app_at h' !! p);
  post_ptrs : m' = m ∪ list_to_map l
}.

Lemma Merge_entry_new s h st m k p :
  stack_at h !! s = Some st → Stk.Applications st = Some m → m !! k = None →
  Merge_entry s (k, p) h =
    (Ret tt, MkHeap (app_at h) (<[s := set_apps st (Some (<[k := p]> m))]> (stack_at h))).
Proof.
  intros Hs Hm Hk. rewrite /Merge_entry /load_stack. run_m.
  by rewrite Hs /Stk.apps Hm /= Hk.
Qed.

Lemma Merge_entry_old s h st m k p q a c :
  stack_at h !! s = Some st → Stk.Applications st = Some m → m !! k = Some q →
  app_at h !! q = Some a → app_at h !! p = Some c →
  Merge_entry s (k, p) h =
    (Ret tt, MkHeap (<[q := merge_application a c]> (app_at h)) (stack_at h)).
Proof.
  intros Hs Hm Hk Ha Hc. rewrite /Merge_entry /load_stack. run_m.
  rewrite Hs /Stk.apps Hm /= Hk /load_app /= Hc /= Ha. done.
Qed.

Lemma loop_pre_new h m k p l stacks :
  loop_pre h m ((k, p) :: l) → m !! k = None →
  loop_pre (MkHeap (app_at h) stacks) (<[k := p]> m) l.
Proof.
  intros [Hnd Hc Hm Hsep Hinj] Hk. apply NoDup_cons in Hnd as [Hkl Hnd].
  assert (∀ j, j ∈ l.*1 → <[k := p]> m !! j = m !! j) as Hother.
  { intros j Hj. apply lookup_insert_ne. by intros ->. }
  split; simpl.
  - done.
  - intros j q Hj. apply (Hc j). by constructor.
  - intros j q. destruct (decide (k = j)) as [<-|].
    + rewrite lookup_insert_eq. intros [= <-]. apply (Hc k). constructor.
    + rewrite lookup_insert_ne //. apply Hm.
  - intros j q j' p' Hj. rewrite Hother // => Hq Hp'.
    apply (Hsep j q j' p'); [by constructor|done|by constructor].
  - intros j j' q Hj. rewrite Hother // => Hq.
    destruct (decide (k = j')) as [<-|].
    + rewrite lookup_insert_eq. intros [= ->].
      exfalso. eapply (Hsep j q k q); [by constructor|done|constructor|done].
    + rewrite lookup_insert_ne //. intros Hq'.
      apply (Hinj j j' q); [by constructor|done..].
Qed.

Lemma loop_pre_old h m k p q x l :
  loop_pre h m ((k, p) :: l) → m !! k = Some q →
  loop_pre (MkHeap (<[q := x]> (app_at h)) (stack_at h)) m l.
Proof.
  intros [Hnd Hc Hm Hsep Hinj] Hk. apply NoDup_cons in Hnd as [Hkl Hnd].
  assert (∀ r, is_Some (app_at h !! r) → is_Some (<[q := x]> (app_at h) !! r)) as Hval.
  { intros r Hr. rewrite lookup_insert. case_decide; [by eexists|done]. }
  split; simpl.
  - done.
  - intros j r Hj. apply Hval, (Hc j). by constructor.
  - intros j r Hj. by eapply Hval, Hm.
  - intros j r j' p' Hj Hr Hp'.
    apply (Hsep j r j' p'); [by constructor|done|by constructor].
  - intros j j' r Hj Hr Hr'. apply (Hinj j j' r); [by constructor|done..].
Qed.

(** One turn before the others, for an application the receiver has and for a
    new one. *)
Lemma loop_post_old h m k p l s st q a c h' m' :
  loop_pre h m ((k, p) :: l) → m !! k = Some q → app_at h !! q = Some a → app_at h !! p = Some c →
  loop_post (MkHeap (<[q := merge_application a c]> (app_at h)) (stack_at h)) m l s st h' m' →
  loop_post h m ((k, p) :: l) s st h' m'.
Proof.
  intros Hpre Hk Ha Hc [Hst Happs Hframe Hval Hptr].
  pose proof (pre_keys _ _ _ Hpre) as [Hkl _]%NoDup_cons.
  split; [done| | |done|].
  - intros j. rewrite Happs /=. destruct (decide (k = j)) as [<-|Hne].
    + rewrite (not_elem_of_list_to_map_1 (M := gmap string) l k Hkl) Hk lookup_insert_eq /=
        lookup_insert_eq Ha Hc. done.
    + rewrite (lookup_insert_ne (list_to_map l)) //. f_equal.
      * destruct (m !! j) as [r|] eqn:Hj; [|done]. simpl.
        rewrite lookup_insert_ne //. intros <-. apply Hne.
        by apply (pre_inj _ _ _ Hpre k j q); [constructor|..].
      * destruct (list_to_map l !! j) as [r|] eqn:Hj; [|done]. simpl.
        rewrite lookup_insert_ne //. apply elem_of_list_to_map_2 in Hj.
        by apply (pre_sep _ _ _ Hpre k q j r); [constructor|done|constructor].
  - intros r Hr. rewrite Hframe /=.
    + apply lookup_insert_ne. intros ->. by apply (Hr k); [constructor|].
    + intros j Hj. apply Hr. by constructor.
  - rewrite Hptr /= union_insert_hidden //.
Qed.
Lemma loop_post_new h m k p l s st c h' m' :
  loop_pre h m ((k, p) :: l) → m !! k = None → app_at h !! p = Some c →
  loop_post (MkHeap (app_at h) (<[s := set_apps st (Some (<[k := p]> m))]> (stack_at h)))
    (<[k := p]> m) l s (set_apps st (Some (<[k := p]> m))) h' m' →
  loop_post h m ((k, p) :: l) s st h' m'.
Proof.
  intros Hpre Hk Hc [Hst Happs Hframe Hval Hptr].
  pose proof (pre_keys _ _ _ Hpre) as [Hkl _]%NoDup_cons.
  split; [| | |done|].
  - rewrite Hst /= insert_insert_eq. done.
  - intros j. rewrite Happs /=. destruct (decide (k = j)) as [<-|Hne].
    + rewrite (not_elem_of_list_to_map_1 (M := gmap string) l k Hkl) Hk !lookup_insert_eq /= Hc. done.
    + by rewrite !lookup_insert_ne.
  - intros r Hr. rewrite Hframe //. intros j Hj.
    rewrite lookup_insert_ne; [|by intros ->]. apply Hr. by constructor.
  - rewrite Hptr /= -insert_union_l insert_union_r //.
Qed.

Lemma Merge_loop s l : ∀ h st m,
  stack_at h !! s = Some st → Stk.Applications st = Some m → loop_pre h m l →
  ∃ h' m', for_each (Merge_entry s) l h = (Ret tt, h') ∧ loop_post h m l s st h' m'.
Proof.
  induction l as [|[k p] l IH]; intros h st m Hs Hm Hpre.
  { exists h, m. split; [done|]. split.
    - rewrite insert_id //. rewrite Hs. destruct st; simpl in *. by rewrite Hm.
    - intros k. rewrite lookup_empty /=. by destruct (m !! k ≫= read h).
    - done.
    - apply (pre_mine _ _ _ Hpre).
    - by rewrite union_empty_r. }
  destruct (pre_child _ _ _ Hpre k p (list_elem_of_here _ _)) as [c Hc].
  destruct (m !! k) as [q|] eqn:Hk.
  - destruct (pre_mine _ _ _ Hpre k q Hk) as [a Ha].
    destruct (IH (MkHeap (<[q := merge_application a c]> (app_at h)) (stack_at h)) st m)
      as (h' & m' & Hrun & Hpost); [done..|by eapply loop_pre_old|].
    exists h', m'. split; [|by eapply loop_post_old].
    cbn [for_each]. rewrite /mbind /M_mbind (Merge_entry_old s h st m k p q a c) //.
  - destruct (IH (MkHeap (app_at h) (<[s := set_apps st (Some (<[k := p]> m))]> (stack_at h)))
                (set_apps st (Some (<[k := p]> m))) (<[k := p]> m))
      as (h' & m' & Hrun & Hpost); [apply lookup_insert_eq|done|by apply loop_pre_new|].
    exists h', m'. split; [|by eapply loop_post_new].
    cbn [for_each]. rewrite /mbind /M_mbind (Merge_entry_new s h st m k p) //.
Qed.
End refinement.

Section Merge_correct.
Context `{ord : MapOrder}.

(** Every pointer of a stack object is in the store. *)
Definition valid_stack (h : heap) (st : Stk.Stack loc) : Prop :=
  ∀ k p, Stk.apps st !! k = Some p → is_Some (app_at h !! p).
(** No application of the receiver is held twice or shared with the child. *)
Definition unshared (st ct : Stk.Stack loc) : Prop :=
  (∀ k k' q, Stk.apps st !! k = Some q → Stk.apps st !! k' = Some q → k = k') ∧
  (∀ k q k' p, Stk.apps st !! k = Some q → Stk.apps ct !! k' = Some p → q ≠ p).

Lemma denote_lookup h st k :
  valid_stack h st →
  Stk.apps (denote h st) !! k = Stk.apps st !! k ≫= (λ p, app_at h !! p).
Proof.
  intros Hv. rewrite /denote /Stk.apps /=.
  destruct (Stk.Applications st) as [m|] eqn:Em; simpl; [|by rewrite !lookup_empty].
  rewrite lookup_fmap. destruct (m !! k) as [p|] eqn:Ek; [|done]. simpl.
  destruct (Hv k p) as [a Ha]; [by rewrite /Stk.apps Em|]. by rewrite Ha.
Qed.

Lemma unshared_loop_pre h st ct :
  valid_stack h st → valid_stack h ct → unshared st ct →
  loop_pre h (Stk.apps st) (range 0 (Stk.apps ct)).
Proof.
  intros Hs Hc [Hinj Hsep]. split.
  - apply NoDup_range_keys.
  - intros k p Hk%elem_of_range. by eapply Hc.
  - done.
  - intros k q k' p _ Hq Hp%elem_of_range. by eapply Hsep.
  - intros k k' q _. apply Hinj.
Qed.

Lemma merge_stack_ext (s child : Stack) m m' :
  Stk.Applications s = Some m →
  (∀ k, m' !! k = merged_app (m !! k) (Stk.apps child !! k)) →
  merge_stack s child = Ret (set_apps (set_name s (Stk.Name child)) (Some m')).
Proof.
  intros Hm Hm'. pose proof (merge_stack_spec s child) as Hspec.
  rewrite Hm in Hspec. destruct Hspec as (m2 & -> & Hm2).
  do 3 f_equal. apply map_eq. intros k. by rewrite Hm' Hm2.
Qed.

Lemma denote_set_apps h st m n :
  denote h (set_apps (set_name st n) (Some m)) =
    set_apps (set_name (denote h st) n)
      (Some ((λ p, default App.zero (app_at h !! p)) <$> m)).
Proof. done. Qed.

(** A receiver with a nil map of applications: nothing to merge, or a
    panic. *)
Lemma Merge_nil_map s h st ct :
  Stk.Applications st = None → valid_stack h ct → stack_at h !! s = Some (set_name st (Stk.Name ct)) →
  match merge_stack (denote h st) (denote h ct) with
  | Ret merged =>
      for_each (Merge_entry s) (range 0 (Stk.apps ct)) h = (Ret tt, h) ∧
      denote h (set_name st (Stk.Name ct)) = merged
  | Panic e => (for_each (Merge_entry s) (range 0 (Stk.apps ct)) h).1 = Panic e
  | Err _ => False
  end.
Proof.
  intros Em Hvc Hs. rewrite /merge_stack /= Em merge_entries_nil_map.
  destruct (decide (Stk.apps ct = ∅)) as [He|He].
  - assert (Stk.apps (denote h ct) = ∅) as ->.
    { apply map_eq. intros k. by rewrite denote_lookup // He !lookup_empty. }
    rewrite He !(proj2 (range_nil _ _) eq_refl) /=.
    split; [done|]. by rewrite /denote /set_name /Stk.map_apps /= Em.
  - destruct (range 0 (Stk.apps (denote h ct))) as [|e l] eqn:E.
    { apply range_nil in E. exfalso. apply He. apply map_eq. intros k.
      pose proof (denote_lookup h ct k Hvc) as Hd. rewrite E lookup_empty in Hd.
      rewrite lookup_empty. destruct (Stk.apps ct !! k) as [p|] eqn:Ek; [|done].
      destruct (Hvc k p Ek) as [a Ha]. by rewrite /= Ha in Hd. }
    destruct (range 0 (Stk.apps ct)) as [|[k p] l'] eqn:E'.
    { by apply range_nil in E'. }
    cbn [for_each]. rewrite /mbind /M_mbind /Merge_entry /load_stack. run_m.
    by rewrite Hs /= /Stk.apps /= Em.
Qed.

(** Unfolding [Merge] up to its loop. *)
Lemma Merge_unfold s h c st ct :
  stack_at h !! s = Some st → stack_at h !! c = Some ct → s ≠ c →
  Merge s c h = for_each (Merge_entry s) (range 0 (Stk.apps ct))
    (MkHeap (app_at h) (<[s := set_name st (Stk.Name ct)]> (stack_at h))).
Proof.
  intros Hs Hc Hne. rewrite /Merge /load_stack /store_stack. run_m.
  rewrite Hc /= Hs /=. by rewrite lookup_insert_ne // Hc.
Qed.

(** What a merge into a receiver with a map leaves behind. *)
Record merged_into (h : heap) (s : loc) (st ct : Stk.Stack loc) (m : gmap string loc)
    (h' : heap) (st' : Stk.Stack loc) : Prop := {
  merged_apps : st' = set_apps (set_name st (Stk.Name ct)) (Some (m ∪ Stk.apps ct));
  merged_stacks : stack_at h' = <[s := st']> (stack_at h);
  merged_valid : valid_stack h' st';
  merged_value : merge_stack (denote h st) (denote h ct) = Ret (denote h' st');
  merged_frame p : (∀ k, Stk.apps st !! k ≠ Some p) → app_at h' !! p = app_at h !! p;
  merged_keeps p : is_Some (app_at h !! p) → is_Some (app_at h' !! p)
}.

Lemma Merge_run s h c st ct m :
  stack_at h !! s = Some st → stack_at h !! c = Some ct → s ≠ c →
  valid_stack h st → valid_stack h ct → unshared st ct →
  Stk.Applications st = Some m →
  ∃ h' st', Merge s c h = (Ret tt, h') ∧ merged_into h s st ct m h' st'.
Proof.
  intros Hs Hc Hne Hvs Hvc Hun Em. rewrite (Merge_unfold s h c st ct) //.
  pose proof (unshared_loop_pre _ _ _ Hvs Hvc Hun) as Hpre.
  set (st0 := set_name st (Stk.Name ct)).
  set (h0 := MkHeap (app_at h) (<[s := st0]> (stack_at h))).
  destruct (Merge_loop s (range 0 (Stk.apps ct)) h0 st0 m)
    as (h' & m' & Hrun & [Hst Happs Hframe Hval Hptr]).
  { apply lookup_insert_eq. }
  { done. }
  { rewrite /Stk.apps Em in Hpre. destruct Hpre. by split. }
  rewrite list_to_map_range in Hptr.
  assert (∀ p, (∀ k, Stk.apps st !! k ≠ Some p) → app_at h' !! p = app_at h !! p) as Hfr.
  { intros p Hp. rewrite Hframe //. intros k _ Hk. apply (Hp k).
    by rewrite /Stk.apps Em. }
  exists h', (set_apps st0 (Some m')). split; [done|]. split.
  - by rewrite Hptr.
  - by rewrite Hst insert_insert_eq.
  - exact Hval.
  - rewrite (merge_stack_ext _ _ ((λ p, default App.zero (app_at h !! p)) <$> m)
               ((λ p, default App.zero (app_at h' !! p)) <$> m')).
    + done.
    + by rewrite /= Em.
    + intros k. rewrite denote_lookup // lookup_fmap.
      pose proof (denote_lookup h st k Hvs) as Hd.
      rewrite {1}/Stk.apps /= Em /= in Hd. rewrite Hd.
      specialize (Happs k). rewrite list_to_map_range /= in Happs.
      rewrite /Stk.apps Em /= -Happs.
      destruct (m' !! k) as [p|] eqn:Ek; [|done].
      destruct (Hval k p Ek) as [a Ha]. by rewrite /= Ha.
  - exact Hfr.
  - intros p Hp. destruct (decide (p ∈ (map_to_list m).*2)) as [Hin|Hin].
    + apply list_elem_of_fmap in Hin as ([k q] & -> & Hk%elem_of_map_to_list).
      apply (Hval k). by rewrite Hptr (lookup_union_Some_l _ _ _ _ Hk).
    + rewrite Hfr //. rewrite /Stk.apps Em /=. intros k Hk%elem_of_map_to_list.
      apply Hin. apply list_elem_of_fmap. by exists (k, p).
Qed.

(** C36. The pointer program [Merge] computes [merge_stack]: when the receiver
    shares no application object with the child, the object it leaves
    denotes the merge of what the two stacks denoted (or it panics exactly
    when merging by value does, on a nil map), every application that is
    not the receiver's keeps its value, and no other stack object is
    written. *)
Theorem Merge_refines_merge_stack h s c st ct :
  stack_at h !! s = Some st → stack_at h !! c = Some ct → s ≠ c →
  valid_stack h st → valid_stack h ct → unshared st ct →
  match merge_stack (denote h st) (denote h ct) with
  | Ret merged => ∃ h' st',
      Merge s c h = (Ret tt, h') ∧
      stack_at h' = <[s := st']> (stack_at h) ∧ denote h' st' = merged ∧
      ∀ p, (∀ k, Stk.apps st !! k ≠ Some p) → app_at h' !! p = app_at h !! p
  | Panic e => (Merge s c h).1 = Panic e
  | Err _ => False
  end.
Proof.
  intros Hs Hc Hne Hvs Hvc Hun.
  destruct (Stk.Applications st) as [m|] eqn:Em.
  - destruct (Merge_run s h c st ct m) as (h' & st' & Hrun & []); [done..|].
    rewrite merged_value0. by exists h', st'.
  - rewrite (Merge_unfold s h c st ct) //.
    set (h0 := MkHeap (app_at h) (<[s := set_name st (Stk.Name ct)]> (stack_at h))).
    assert (denote h0 = denote h) as Hd by done.
    pose proof (Merge_nil_map s h0 st ct Em Hvc (lookup_insert_eq _ _ _)) as Hnil.
    rewrite Hd in Hnil. destruct (merge_stack _ _); [|done..].
    destruct Hnil as [-> <-]. by exists h0, (set_name st (Stk.Name ct)).
Qed.
End Merge_correct.

Section inheritance.
Context `{ord : MapOrder}.

(** The fields a child may override, and those it may not. *)
Definition overrides (a c b : Application) : Prop :=
  App.ID b = setString (App.ID c) (App.ID a) ∧
  App.Version b = setString (App.Version c) (App.Version a) ∧
  App.Cpu b = setFloat (App.Cpu c) (App.Cpu a) ∧
  App.Mem b = setFloat (App.Mem c) (App.Mem a) ∧
  App.LaunchCommand b = setString (App.LaunchCommand c) (App.LaunchCommand a) ∧
  App.Dependencies b = setStringSlice (App.Dependencies c) (App.Dependencies a) ∧
  (App.Tasks c ≠ [] → App.Tasks b = App.Tasks c) ∧
  (∀ k, App.Scheduler b !! k =
     match App.Scheduler c !! k with
     | Some v => if String.eqb v "" then None else Some v
     | None => App.Scheduler a !! k
     end).
Definition keeps_parent (a b : Application) : Prop :=
  App.Typ b = App.Typ a ∧ App.Instances b = App.Instances a ∧
  App.Constraints b = App.Constraints a ∧ App.Args b = App.Args a ∧
  App.Env b = App.Env a ∧ App.DockerSpec b = App.DockerSpec a ∧
  App.StartTime b = App.StartTime a ∧ App.TimeSchedule b = App.TimeSchedule a.

Lemma merge_application_overrides a c : overrides a c (merge_application a c).
Proof.
  split_and!; try reflexivity.
  - intros H. simpl. by destruct (App.Tasks c).
  - intros k. apply merge_scheduler_lookup.
Qed.

Lemma setString_idemp x y : setString x (setString x y) = setString x y.
Proof. rewrite /setString. by destruct (String.eqb x ""). Qed.
Lemma setFloat_idemp x y : setFloat x (setFloat x y) = setFloat x y.
Proof. rewrite /setFloat. by destruct (float_neq x float_zero). Qed.
Lemma setStringSlice_idemp x y : setStringSlice x (setStringSlice x y) = setStringSlice x y.
Proof. rewrite /setStringSlice. by destruct (0 <? length x)%nat. Qed.
Lemma setIntSlice_idemp x y : setIntSlice x (setIntSlice x y) = setIntSlice x y.
Proof. rewrite /setIntSlice. by destruct (0 <? length x)%nat. Qed.
Lemma merge_scheduler_idemp c a : merge_scheduler c (merge_scheduler c a) = merge_scheduler c a.
Proof.
  apply map_eq. intros k. rewrite !merge_scheduler_lookup. by destruct (c !! k).
Qed.

Lemma merge_application_idemp a c :
  merge_application (merge_application a c) c = merge_application a c.
Proof.
  rewrite /merge_application /=.
  rewrite !setString_idemp !setFloat_idemp !setStringSlice_idemp setIntSlice_idemp
    merge_scheduler_idemp.
  by destruct (0 <? length (App.Tasks c))%nat.
Qed.

End inheritance.

(** ** A concrete merge *)
Section example.
Definition ex_app (id version cmd : string) (cpu : float64) : Application :=
  {| App.Typ := "kafka"; App.ID := id; App.Version := version; App.Cpu := cpu;
     App.Mem := float_zero; App.Ports := []; App.Instances := "all";
     App.Constraints := []; App.User := ""; App.Healthcheck := "";
     App.LaunchCommand := cmd; App.Args := []; App.Env := ∅; App.ArtifactURLs := [];
     App.AdditionalArtifacts := []; App.Scheduler := {["storage" := "file"]}; App.Tasks := [];
     App.Dependencies := []; App.DockerSpec := None; App.StartTime := "";
     App.TimeSchedule := ""; App.BeforeScheduler := []; App.AfterScheduler := [];
     App.BeforeTask := []; App.AfterTask := []; App.AfterTasks := [] |}.

Definition ex_parent : Stk.Stack loc :=
  Stk.MkStack "" "base" "" (Some {["kafka" := 10%N]}) LayerDataCenter.
Definition ex_child : Stk.Stack loc :=
  Stk.MkStack "" "prod" "base"
    (Some (<["kafka" := 20%N]> {["extra" := 21%N]})) LayerZone.
Definition ex_heap : heap :=
  MkHeap (<[10%N := ex_app "kafka" "0.9" "./run" (float_of 1 0)]>
            (<[20%N := ex_app "" "0.10" "" float_zero]>
               {[21%N := ex_app "extra" "1" "./x" (float_of 2 0)]}))
         (<[1%N := ex_parent]> {[2%N := ex_child]}).

Lemma ex_parent_apps k p : Stk.apps ex_parent !! k = Some p → k = "kafka" ∧ p = 10%N.
Proof. rewrite /Stk.apps /=. by intros [<- <-]%lookup_singleton_Some. Qed.

Lemma ex_child_apps k p : Stk.apps ex_child !! k = Some p → p = 20%N ∨ p = 21%N.
Proof.
  rewrite /Stk.apps /=.
  intros [[_ <-]|[_ [_ <-]%lookup_singleton_Some]]%lookup_insert_Some; auto.
Qed.

Lemma ex_valid_parent : valid_stack ex_heap ex_parent.
Proof. intros k p [_ ->]%ex_parent_apps. by eexists. Qed.

Lemma ex_valid_child : valid_stack ex_heap ex_child.
Proof. intros k p [-> | ->]%ex_child_apps; by eexists. Qed.

Lemma ex_unshared : unshared ex_parent ex_child.
Proof.
  split.
  - by intros k k' q [-> _]%ex_parent_apps [-> _]%ex_parent_apps.
  - by intros k q k' p [_ ->]%ex_parent_apps [-> | ->]%ex_child_apps.
Qed.

(** The child's version wins, its empty settings do not, and its new
    application is added. *)
Lemma Merge_refines_merge_stack_witness :
  let ord := canonical_order in
  match merge_stack (denote ex_heap ex_parent) (denote ex_heap ex_child) with
  | Ret merged => ∃ h' st',
      Merge 1%N 2%N ex_heap = (Ret tt, h') ∧
      stack_at h' = <[1%N := st']> (stack_at ex_heap) ∧ denote h' st' = merged ∧
      ∀ p, (∀ k, Stk.apps ex_parent !! k ≠ Some p) → app_at h' !! p = app_at ex_heap !! p
  | Panic e => (Merge 1%N 2%N ex_heap).1 = Panic e
  | Err _ => False
  end ∧
  (App.Version <$> app_at (Merge 1%N 2%N ex_heap).2 !! 10%N) = Some "0.10" ∧
  (App.LaunchCommand <$> app_at (Merge 1%N 2%N ex_heap).2 !! 10%N) = Some "./run".
Proof.
  intros ord. split; [|by vm_compute].
  apply (Merge_refines_merge_stack ex_heap 1%N 2%N ex_parent ex_child);
    [reflexivity|reflexivity|done|apply ex_valid_parent|apply ex_valid_child|apply ex_unshared].
Defined.

End example.
