(* ===== verification/InMemoryStorage.v ===== *)
(** [InMemoryStorage] of [framework/storage.go]: the storage of development
    mode. Its state is the map of stacks together with the store of objects
    the map points into: callers share those objects, and [GetLayersStack]
    writes into them. *)
From S2P Require Import Prelude GoStrings Errors Data Forest Stacks.
From Stdlib Require Import Lia.
Open Scope string_scope.
Open Scope list_scope.
Open Scope nat_scope.

Record memory : Type := MkMemory { objects : heap; stacks : gmap string loc }.

Definition on_heap {A} (m : M heap error A) : M memory error A := λ st,
  let '(r, h) := m (objects st) in (r, MkMemory h (stacks st)).
Definition set_stacks (f : gmap string loc → gmap string loc) : M memory error unit := λ st,
  (Ret tt, MkMemory (objects st) (f (stacks st))).

Module InMemoryStorage.
Section operations.
Context `{ord : MapOrder}.

(** [NewInMemoryStorage]: no stacks; the objects are the program's. *)
Definition NewInMemoryStorage (h : heap) : memory := MkMemory h ∅.

Definition GetAll : M memory error (list loc) :=
  st ← get_state; mret (range 0 (stacks st)).*2.

Definition GetStack (name : string) : M memory error loc :=
  st ← get_state;
  match stacks st !! name with
  | None => fail (Errorf "Stack does not exist")
  | Some stack => mret stack
  end.

(** A [*Stack] is its own [Runner]. *)
Definition GetStackRunner (name : string) : M memory error loc := GetStack name.

Definition StoreStack (stack : loc) : M memory error unit :=
  s ← on_heap (load_stack stack);
  st ← get_state;
  match stacks st !! Stk.Name s with
  | Some _ => fail (Errorf "Stack already exists")
  | None => set_stacks <[Stk.Name s := stack]>
  end.

(** The loop of [remove] over the entries its range statement visits; an entry
    deleted in the meantime is not visited. [rec] is the recursive call. *)
Fixpoint remove_loop (rec : string → M memory error unit) (name : string) (force : bool)
    (entries : list (string * loc)) (children : list string) : M memory error (list string) :=
  match entries with
  | [] => mret children
  | (key, _) :: entries' =>
      st ← get_state;
      match stacks st !! key with
      | None => remove_loop rec name force entries' children
      | Some p =>
          stack ← on_heap (load_stack p);
          if String.eqb (Stk.From stack) name then
            if force then rec (Stk.Name stack) ;; remove_loop rec name force entries' children
            else remove_loop rec name force entries' (children ++ [Stk.Name stack])
          else remove_loop rec name force entries' children
      end
  end.

(** [fuel] bounds the depth of the recursion: the goroutine's stack. *)
Fixpoint remove (fuel : nat) (name : string) (force : bool) : M memory error unit :=
  match fuel with
  | O => panic overflow
  | S fuel' =>
      st ← get_state;
      children ← remove_loop (λ n, remove fuel' n force) name force (range 0 (stacks st)) [];
      if (0 <? length children)%nat then fail (dependants name children)
      else set_stacks (delete name)
  end.

Definition RemoveStack (fuel : nat) (name : string) (force : bool) : M memory error unit :=
  st ← get_state;
  match stacks st !! name with
  | None => fail (Errorf "Stack does not exist")
  | Some _ => remove fuel name force
  end.

Definition Init : M memory error unit := mret tt.

Definition GetLayer (name : string) : M memory error (Layer loc) :=
  stack ← GetStack name;
  s ← on_heap (load_stack stack);
  match NewLayer (Stk.Layer s) stack with
  | Some layer => mret layer
  | None => fail (no_layer name (Stk.Layer s))
  end.

Definition GetLayersStack (name : string) : M memory error loc :=
  zone ← GetLayer name;
  z ← on_heap (load_stack (LStack zone));
  if String.eqb (Stk.From z) "" then mret (LStack zone) else
  cluster ← GetLayer (Stk.From z);
  c ← on_heap (load_stack (LStack cluster));
  if String.eqb (Stk.From c) "" then mret (LStack cluster) else
  datacenter ← GetLayer (Stk.From c);
  on_heap (Layer_Merge datacenter cluster) ;;
  on_heap (Layer_Merge datacenter zone) ;;
  mret (LStack datacenter).
End operations.
End InMemoryStorage.

(** ** The names a storage holds, with their parents *)
Definition forest_of (h : heap) (m : gmap string loc) : forest :=
  omap (λ p, Stk.From <$> stack_at h !! p) m.
(** Every entry is filed under the name of its stack. *)
Definition keyed (h : heap) (m : gmap string loc) : Prop :=
  ∀ k p, m !! k = Some p → ∃ s, stack_at h !! p = Some s ∧ Stk.Name s = k.

Lemma keyed_sub h m m' : keyed h m → m' ⊆ m → keyed h m'.
Proof. intros Hk Hs k p Hp. apply Hk. by eapply lookup_weaken. Qed.

Lemma forest_of_lookup h m k :
  forest_of h m !! k = m !! k ≫= (λ p, Stk.From <$> stack_at h !! p).
Proof. by rewrite /forest_of lookup_omap. Qed.

Lemma forest_of_is_Some h m k :
  keyed h m → is_Some (forest_of h m !! k) ↔ is_Some (m !! k).
Proof.
  intros Hk. rewrite forest_of_lookup. destruct (m !! k) as [p|] eqn:E; [|by split; intros []].
  destruct (Hk k p E) as (s & Hs & _). simpl. rewrite Hs. split; by eexists.
Qed.

Lemma forest_of_mono h m m' : m' ⊆ m → forest_of h m' ⊆ forest_of h m.
Proof.
  intros Hs. apply map_subseteq_spec. intros k n. rewrite !forest_of_lookup.
  destruct (m' !! k) as [p|] eqn:E; [|done]. simpl.
  by rewrite (lookup_weaken _ _ _ _ E Hs).
Qed.

Lemma forest_of_size h m : keyed h m → size (forest_of h m) = size m.
Proof.
  intros Hk. rewrite -!size_dom. f_equal. apply set_eq. intros k.
  by rewrite !elem_of_dom forest_of_is_Some.
Qed.

Module removal.
Import InMemoryStorage.
Section loops.
Context `{ord : MapOrder}.
Implicit Types (h : heap) (m : gmap string loc).

(** What one visit of [remove]'s loop does. *)
Lemma remove_loop_cons rec n force k p l cs h m :
  keyed h m → is_Some (m !! k) →
  remove_loop rec n force ((k, p) :: l) cs (MkMemory h m) =
    if decide (forest_of h m !! k = Some n) then
      if force then (rec k ;; remove_loop rec n force l cs) (MkMemory h m)
      else remove_loop rec n force l (cs ++ [k]) (MkMemory h m)
    else remove_loop rec n force l cs (MkMemory h m).
Proof.
  intros Hkey [q Hq]. destruct (Hkey k q Hq) as (s & Hs & Hname).
  cbn [remove_loop]. run_m. rewrite Hq /on_heap /load_stack /= Hs /=.
  rewrite forest_of_lookup Hq /= Hs /= Hname.
  destruct (String.eqb_spec (Stk.From s) n) as [->|Hne].
  - rewrite decide_True //. by destruct force.
  - rewrite decide_False //. congruence.
Qed.

Lemma remove_loop_gone rec n force k p l cs h m :
  m !! k = None →
  remove_loop rec n force ((k, p) :: l) cs (MkMemory h m) =
    remove_loop rec n force l cs (MkMemory h m).
Proof. intros Hk. cbn [remove_loop]. run_m. by rewrite Hk. Qed.

(** Without force the loop only collects the children. *)
Lemma collect_loop rec n l cs h m :
  keyed h m → (∀ k, k ∈ l.*1 → is_Some (m !! k)) →
  remove_loop rec n false l cs (MkMemory h m) =
    (Ret (cs ++ filter (λ k, forest_of h m !! k = Some n) l.*1), MkMemory h m).
Proof.
  intros Hkey. revert cs. induction l as [|[k p] l IH]; intros cs Hl.
  { by rewrite /= app_nil_r. }
  rewrite remove_loop_cons //; [|apply Hl; constructor]. rewrite fmap_cons /= filter_cons.
  destruct (decide _) as [Hp|Hp]; (rewrite IH; [|intros; apply Hl; by constructor]).
  - by rewrite -app_assoc.
  - done.
Qed.

(** With force it prunes the sub-trees of the children. *)
Lemma prune_loop rec n h m l (D : string → Prop) m1 :
  keyed h m → m1 ⊆ m → (∀ k, k ∈ l.*1 → is_Some (m !! k)) →
  (∀ c m1, m1 ⊆ m → is_Some (m1 !! c) → forest_of h m !! c = Some n →
     ∃ m2, rec c (MkMemory h m1) = (Ret tt, MkMemory h m2) ∧ m2 ⊆ m1 ∧
       pruned (forest_of h m1) (c =.) (forest_of h m2)) →
  pruned (forest_of h m) D (forest_of h m1) →
  ∃ m2, remove_loop rec n true l [] (MkMemory h m1) = (Ret [], MkMemory h m2) ∧ m2 ⊆ m1 ∧
    pruned (forest_of h m) (λ d, D d ∨ d ∈ l.*1 ∧ forest_of h m !! d = Some n)
      (forest_of h m2).
Proof.
  intros Hkey Hsub Hl Hrec. revert D m1 Hsub.
  induction l as [|[k p] l IH]; intros D m1 Hsub Hpr.
  { exists m1. split_and!; [done|done|]. eapply pruned_ext; [|done].
    intros d. simpl. set_solver. }
  assert (∀ j, j ∈ l.*1 → is_Some (m !! j)) as Hl' by (intros; apply Hl; by constructor).
  assert (is_Some (m !! k)) as Hk by (apply Hl; constructor).
  assert (∀ D2 m2, m2 ⊆ m → (∀ d, (D2 d ∨ d ∈ l.*1 ∧ forest_of h m !! d = Some n) ↔
      (D d ∨ d ∈ k :: l.*1 ∧ forest_of h m !! d = Some n)) →
      pruned (forest_of h m) D2 (forest_of h m2) → m2 ⊆ m1 →
      ∃ m3, remove_loop rec n true l [] (MkMemory h m2) = (Ret [], MkMemory h m3) ∧ m3 ⊆ m1 ∧
        pruned (forest_of h m) (λ d, D d ∨ d ∈ k :: l.*1 ∧ forest_of h m !! d = Some n)
          (forest_of h m3)) as Hnext.
  { intros D2 m2 Hm2 HD Hpr2 Hm21. destruct (IH Hl' D2 m2 Hm2 Hpr2) as (m3 & -> & Hm3 & Hp3).
    exists m3. split_and!; [done|by etrans|]. eapply pruned_ext; [exact HD|done]. }
  destruct (m1 !! k) as [q|] eqn:Hq.
  - rewrite remove_loop_cons; [|by eapply (keyed_sub h m)|by eexists].
    assert (forest_of h m1 !! k = forest_of h m !! k) as ->.
    { rewrite !forest_of_lookup Hq. by rewrite (lookup_weaken _ _ _ _ Hq Hsub). }
    destruct (decide _) as [Hp|Hp].
    + destruct (Hrec k m1 Hsub ltac:(by eexists) Hp) as (m2 & Hrun & Hm2 & Hp2).
      rewrite /mbind /M_mbind Hrun. apply (Hnext (λ d, D d ∨ d = k) m2); [by etrans| |by eapply pruned_step|done].
      intros d. rewrite elem_of_cons. naive_solver.
    + apply (Hnext D m1 Hsub); [|done|done].
      intros d. rewrite elem_of_cons. naive_solver.
  - rewrite remove_loop_gone //. destruct (decide (forest_of h m !! k = Some n)) as [Hp|Hp].
    + apply (Hnext (λ d, D d ∨ d = k) m1 Hsub); [|apply pruned_gone_name; [done| |]|done].
      * intros d. rewrite elem_of_cons. naive_solver.
      * by eexists.
      * by rewrite forest_of_lookup Hq.
    + apply (Hnext D m1 Hsub); [|done|done].
      intros d. rewrite elem_of_cons. naive_solver.
Qed.

(** A forced removal with enough fuel removes exactly the sub-tree. *)
Lemma remove_prunes t rank h fuel : ∀ n m,
  ranked t rank → forest_of h m ⊆ t → keyed h m → m !! "" = None → is_Some (m !! n) →
  size (above t rank n) ≤ fuel →
  ∃ m', remove fuel n true (MkMemory h m) = (Ret tt, MkMemory h m') ∧ m' ⊆ m ∧
    pruned (forest_of h m) (n =.) (forest_of h m').
Proof.
  induction fuel as [|fuel IH]; intros n m Hr Ht Hkey He Hn Hf.
  { pose proof (above_pos t rank n). apply (forest_of_is_Some h m) in Hn; [|done].
    destruct Hn as [x Hx]. pose proof (lookup_weaken _ _ _ _ Hx Ht).
    assert (0 < size (above t rank n)) by by apply H. lia. }
  assert (is_Some (t !! n)) as Htn.
  { apply (forest_of_is_Some h m) in Hn as [x Hx]; [|done].
    exists x. by eapply lookup_weaken. }
  assert (n ≠ "") as Hne by (intros ->; rewrite He in Hn; by destruct Hn).
  destruct (prune_loop (λ c, remove fuel c true) n h m (range 0 m) (λ _, False) m)
    as (m' & Hrun & Hm' & Hpr).
  - done.
  - done.
  - intros k [[j p] [-> Hj%elem_of_range]]%list_elem_of_fmap. by eexists.
  - intros c m1 Hm1 Hc Hpar. apply IH; [done| | | |done|].
    + etrans; [by apply forest_of_mono|done].
    + by eapply keyed_sub.
    + by eapply lookup_weaken_None.
    + assert (t !! c = Some n) as Htc by by eapply lookup_weaken.
      pose proof (above_child t rank n c Hr Htn Hne Htc). lia.
  - apply pruned_none.
  - exists (delete n m'). split_and!.
    + cbn [remove]. run_m. rewrite Hrun. done.
    + etrans; [apply delete_subseteq|done].
    + rewrite /forest_of omap_delete -/(forest_of h m').
      eapply pruned_finish; [exact Hpr|]. intros d. split; [|naive_solver].
      intros Hd. right. split; [|done].
      assert (is_Some (m !! d)) as [p Hp] by (apply (forest_of_is_Some h); [done|by eexists]).
      apply list_elem_of_fmap. exists (d, p). by rewrite elem_of_range.
Qed.
End loops.
End removal.

Section facts.
Context `{ord : MapOrder}.
Import InMemoryStorage removal.

Lemma collected_children h m n c :
  keyed h m →
  c ∈ filter (λ k, forest_of h m !! k = Some n) (range 0 m).*1 ↔ forest_of h m !! c = Some n.
Proof.
  intros Hkey. rewrite list_elem_of_filter. split; [naive_solver|]. intros Hc. split; [done|].
  assert (is_Some (m !! c)) as [p Hp] by (apply (forest_of_is_Some h); [done|by eexists]).
  apply list_elem_of_fmap. exists (c, p). by rewrite elem_of_range.
Qed.

(** After a forced removal a name keeps its entry or loses it. *)
Lemma pruned_entries h m m' n k :
  keyed h m → m' ⊆ m → pruned (forest_of h m) (n =.) (forest_of h m') →
  (under (forest_of h m) n k → m' !! k = None) ∧
  (¬ under (forest_of h m) n k → m' !! k = m !! k).
Proof.
  intros Hkey Hsub [_ Hgone Hkept].
  assert (keyed h m') as Hkey' by by eapply keyed_sub.
  split; intros Hu.
  - apply eq_None_not_Some. rewrite -(forest_of_is_Some h) //.
    rewrite (Hgone n k) //.
  - destruct (m !! k) as [p|] eqn:Hp; [|by eapply lookup_weaken_None].
    assert (is_Some (m' !! k)) as [q Hq].
    { rewrite -(forest_of_is_Some h) //. rewrite Hkept; [|by intros ? <-].
      by rewrite forest_of_is_Some // Hp. }
    rewrite Hq. symmetry. rewrite -Hp. by eapply lookup_weaken.
Qed.

Lemma RemoveStack_run fuel name force st :
  RemoveStack fuel name force st =
    match stacks st !! name with
    | None => (Err (Errorf "Stack does not exist"), st)
    | Some _ => remove fuel name force st
    end.
Proof. rewrite /RemoveStack. run_m. by destruct (stacks st !! name). Qed.

End facts.

(** ** Removal from a cyclic storage

    [StoreStack] does not look at the parent, so two stacks can inherit from
    each other. *)
Section cycles.
Context `{ord : MapOrder}.
Import InMemoryStorage removal.

(** A set of stored names closed under parents in which everyone has a child:
    a cycle of inheritance. *)
Record cycle (t : forest) (C : string → Prop) : Prop := {
  cycle_parent n : C n → ∃ p, t !! n = Some p ∧ C p;
  cycle_child n : C n → ∃ c, t !! c = Some n ∧ C c
}.

Definition holds (C : string → Prop) (m m1 : gmap string loc) : Prop :=
  m1 ⊆ m ∧ ∀ k, C k → m1 !! k = m !! k.

(** Removing from outside the cycle never touches it; removing from inside
    never returns. *)
Definition spares (h : heap) (m : gmap string loc) (C : string → Prop) (n : string)
    (r : outcome error unit * memory) : Prop :=
  ∃ m2, r.2 = MkMemory h m2 ∧ holds C m m2 ∧ (r.1 = Ret tt ∧ ¬ C n ∨ r.1 = Panic overflow).

Lemma holds_forest h C m m1 k : holds C m m1 → C k → forest_of h m1 !! k = forest_of h m !! k.
Proof. intros [_ Hk] HC. by rewrite !forest_of_lookup Hk. Qed.

Lemma cycle_loop rec n h m C l m1 :
  keyed h m → cycle (forest_of h m) C → holds C m m1 →
  (∀ c m1, holds C m m1 → spares h m C c (rec c (MkMemory h m1))) →
  ∃ m2, (remove_loop rec n true l [] (MkMemory h m1)).2 = MkMemory h m2 ∧ holds C m m2 ∧
    ((remove_loop rec n true l [] (MkMemory h m1)).1 = Ret [] ∧
       (∀ c, c ∈ l.*1 → C c → forest_of h m !! c ≠ Some n) ∨
     (remove_loop rec n true l [] (MkMemory h m1)).1 = Panic overflow).
Proof.
  intros Hkey Hcy Hm1 Hrec. revert m1 Hm1.
  induction l as [|[k p] l IH]; intros m1 Hm1.
  { exists m1. split_and!; [done..|]. left. split; [done|]. by intros c ?%elem_of_nil. }
  assert (∀ m2, holds C m m2 → (C k → forest_of h m !! k ≠ Some n) →
    let r := remove_loop rec n true l [] (MkMemory h m2) in
    ∃ m3, r.2 = MkMemory h m3 ∧ holds C m m3 ∧
      (r.1 = Ret [] ∧ (∀ c, c ∈ k :: l.*1 → C c → forest_of h m !! c ≠ Some n) ∨
       r.1 = Panic overflow)) as Hnext.
  { intros m2 Hm2 Hk. destruct (IH m2 Hm2) as (m3 & ? & ? & Hout).
    exists m3. split_and!; [done..|]. destruct Hout as [[? Hl]|]; [left|by right].
    split; [done|]. intros c [->|Hc]%elem_of_cons; [done|by apply Hl]. }
  destruct (m1 !! k) as [q|] eqn:Hq.
  - assert (forest_of h m1 !! k = forest_of h m !! k) as Hf.
    { rewrite !forest_of_lookup Hq. by rewrite (lookup_weaken _ _ _ _ Hq (proj1 Hm1)). }
    rewrite remove_loop_cons; [|by eapply (keyed_sub h m), Hm1|by eexists]. rewrite Hf.
    destruct (decide _) as [Hp|Hp]; [|by apply Hnext].
    rewrite /mbind /M_mbind. destruct (Hrec k m1 Hm1) as (m2 & Heq & Hm2 & Hout).
    destruct (rec k (MkMemory h m1)) as [r s]. simpl in *. subst s.
    destruct Hout as [[-> HC]| ->]; [by apply Hnext|].
    exists m2. split_and!; [done..|by right].
  - rewrite remove_loop_gone //. apply Hnext; [done|]. intros HC Hp.
    rewrite -(holds_forest h C m m1) // forest_of_lookup Hq in Hp. done.
Qed.

Lemma remove_cycle h m C fuel : ∀ n m1,
  keyed h m → cycle (forest_of h m) C → holds C m m1 →
  spares h m C n (remove fuel n true (MkMemory h m1)).
Proof.
  induction fuel as [|fuel IH]; intros n m1 Hkey Hcy Hm1.
  { exists m1. split_and!; [done..|by right]. }
  destruct (cycle_loop (λ c, remove fuel c true) n h m C (range 0 m1) m1)
    as (m2 & Hs & Hm2 & Hout); [done..|by intros; apply IH|].
  rewrite /spares. cbn [remove]. run_m.
  destruct (remove_loop _ _ _ _ _ _) as [r s]. simpl in *. subst s.
  destruct Hout as [[-> Hnone]| ->]; [|exists m2; split_and!; [done..|by right]].
  assert (¬ C n) as HC.
  { intros HC. destruct (cycle_child _ _ Hcy n HC) as (c & Hc & HCc).
    apply (Hnone c); [|done..].
    assert (is_Some (m1 !! c)) as [p Hp].
    { apply (forest_of_is_Some h); [by eapply (keyed_sub h m), Hm1|].
      rewrite (holds_forest h C m m1) //. }
    apply list_elem_of_fmap. exists (c, p). by rewrite elem_of_range. }
  exists (delete n m2). split_and!; [done| |by left]. destruct Hm2 as [Hsub Hk]. split.
  - etrans; [apply delete_subseteq|done].
  - intros k HCk. rewrite lookup_delete_ne; [by apply Hk|by intros ->].
Qed.

(** A forced removal from a cycle of inheritance overflows the stack
    whatever its size: the server dies. Stacks outside the cycle may be
    removed; the cycle stays. *)
Theorem RemoveStack_cycle_overflows fuel name st C :
  keyed (objects st) (stacks st) → cycle (forest_of (objects st) (stacks st)) C → C name →
  (RemoveStack fuel name true st).1 = Panic overflow ∧
  ∀ k, C k → stacks (RemoveStack fuel name true st).2 !! k = stacks st !! k.
Proof.
  destruct st as [h m]. intros Hkey Hcy HC. simpl in *. rewrite RemoveStack_run.
  assert (is_Some (m !! name)) as [p Hp].
  { destruct (cycle_parent _ _ Hcy name HC) as (q & Hq & _).
    rewrite -(forest_of_is_Some h) // Hq. }
  rewrite /= Hp. destruct (remove_cycle h m C fuel name m) as (m2 & -> & [_ Hk] & Hout);
    [done..|by split|].
  split; [|done]. by destruct Hout as [[? ?]|].
Qed.
End cycles.

(** ** Layers *)
Section layers.
Context `{ord : MapOrder}.
Import InMemoryStorage.

(** The stack filed under [name] is the object [p] with contents [s]. *)
Definition stored (st : memory) (name : string) (p : loc) (s : Stk.Stack loc) : Prop :=
  stacks st !! name = Some p ∧ stack_at (objects st) !! p = Some s.

Lemma GetLayer_stored st name p s layer :
  stored st name p s → NewLayer (Stk.Layer s) p = Some layer →
  GetLayer name st = (Ret layer, st).
Proof.
  intros [Hp Hs] Hl. rewrite /GetLayer /GetStack. run_m.
  rewrite Hp /on_heap /load_stack /= Hs /= Hl. by destruct st.
Qed.

Lemma load_stored st name p s :
  stored st name p s → on_heap (load_stack p) st = (Ret s, st).
Proof. intros [_ Hs]. rewrite /on_heap /load_stack Hs. by destruct st. Qed.

Lemma denote_ext h h' s :
  (∀ k p, Stk.apps s !! k = Some p → app_at h !! p = app_at h' !! p) →
  denote h s = denote h' s.
Proof.
  intros Hext. rewrite /denote /Stk.map_apps. f_equal.
  rewrite /Stk.apps in Hext. destruct (Stk.Applications s) as [m|]; [|done].
  simpl. f_equal. apply map_fmap_ext. intros k p Hp. by rewrite (Hext k p Hp).
Qed.

(** The receiver of a first merge is unshared with a third stack when both
    stacks that went into it are. *)
Lemma unshared_merged st ct zt m st' :
  Stk.Applications st = Some m → Stk.apps st' = m ∪ Stk.apps ct →
  unshared st ct → unshared st zt → unshared ct zt → unshared st' zt.
Proof.
  intros Em Hst' [Hinj Hsep] [_ Hsz] [Hcinj Hcz].
  assert (Stk.apps st = m) as Ha by by rewrite /Stk.apps Em.
  rewrite Ha in Hinj Hsep Hsz. rewrite /unshared Hst'. split.
  - intros k k' q [Hk|[_ Hk]]%lookup_union_Some_raw [Hk'|[_ Hk']]%lookup_union_Some_raw.
    + by eapply Hinj.
    + by destruct (Hsep k q k' q).
    + by destruct (Hsep k' q k q).
    + by eapply Hcinj.
  - intros k q k' p [Hk|[_ Hk]]%lookup_union_Some_raw; [by eapply Hsz|by eapply Hcz].
Qed.

(** Two merges into the same receiver. *)
Lemma Merge_twice h d c z dt ct zt m :
  stack_at h !! d = Some dt → stack_at h !! c = Some ct → stack_at h !! z = Some zt →
  d ≠ c → d ≠ z → valid_stack h dt → valid_stack h ct → valid_stack h zt →
  unshared dt ct → unshared dt zt → unshared ct zt → Stk.Applications dt = Some m →
  ∃ h1 h2 dt2 dc, Merge d c h = (Ret tt, h1) ∧ Merge d z h1 = (Ret tt, h2) ∧
    stack_at h2 = <[d := dt2]> (stack_at h) ∧
    merge_stack (denote h dt) (denote h ct) = Ret dc ∧
    merge_stack dc (denote h zt) = Ret (denote h2 dt2).
Proof.
  intros Hd Hc Hz Hdc Hdz Hvd Hvc Hvz Udc Udz Ucz Em.
  destruct (Merge_run d h c dt ct m) as (h1 & dt1 & Hrun1 & [Ha1 Hs1 Hv1 Hm1 Hf1 Hk1]); [done..|].
  assert (Stk.apps dt1 = m ∪ Stk.apps ct) as Happs by by rewrite Ha1.
  destruct (Merge_run d h1 z dt1 zt (m ∪ Stk.apps ct))
    as (h2 & dt2 & Hrun2 & [Ha2 Hs2 Hv2 Hm2 Hf2 Hk2]).
  - rewrite Hs1. apply lookup_insert_eq.
  - rewrite Hs1 lookup_insert_ne //.
  - done.
  - done.
  - intros k p Hp. by eapply Hk1, Hvz.
  - by eapply unshared_merged.
  - by rewrite Ha1.
  - exists h1, h2, dt2, (denote h1 dt1). split_and!; [done|done| |done|].
    + by rewrite Hs2 Hs1 insert_insert_eq.
    + rewrite (denote_ext h h1 zt) //. intros k p Hp. symmetry. apply Hf1.
      intros j Hj. by destruct (proj2 Udz j p k p Hj Hp).
Qed.

(** C39. The layers of a zone: when its cluster has no datacenter the cluster
    alone is returned - the zone's settings are lost; otherwise the result
    is the datacenter overridden by the cluster overridden by the zone. The
    result is the stored datacenter object itself: it is overwritten, and a
    later [GetStack] of the datacenter gives the merged stack. *)
Theorem GetLayersStack_chain st zn zp z cp c :
  stored st zn zp z → Stk.Layer z = LayerZone → Stk.From z ≠ "" →
  stored st (Stk.From z) cp c → Stk.Layer c = LayerCluster →
  (Stk.From c = "" → GetLayersStack zn st = (Ret cp, st)) ∧
  ∀ dp d m, Stk.From c ≠ "" →
    stored st (Stk.From c) dp d → Stk.Layer d = LayerDataCenter →
    Stk.Applications d = Some m →
    valid_stack (objects st) d → valid_stack (objects st) c → valid_stack (objects st) z →
    unshared d c → unshared d z → unshared c z →
    ∃ st' d' dc,
      GetLayersStack zn st = (Ret dp, st') ∧ GetStack (Stk.From c) st' = (Ret dp, st') ∧
      merge_stack (denote (objects st) d) (denote (objects st) c) = Ret dc ∧
      merge_stack dc (denote (objects st) z) = Ret (denote (objects st') d') ∧
      stack_at (objects st') = <[dp := d']> (stack_at (objects st)).
Proof.
  intros Hz Hzl Hzf Hc Hcl.
  pose proof (GetLayer_stored st zn zp z (NewZone zp) Hz) as Hgz. rewrite Hzl in Hgz.
  pose proof (GetLayer_stored st _ cp c (NewCluster cp) Hc) as Hgc. rewrite Hcl in Hgc.
  rewrite /GetLayersStack. run_m. rewrite Hgz //= (load_stored st zn zp z) //.
  destruct (String.eqb_spec (Stk.From z) "") as [|_]; [done|].
  rewrite Hgc //= (load_stored st _ cp c Hc). split.
  { intros ->. done. }
  intros dp d m Hcf Hd Hdl Em Hvd Hvc Hvz Udc Udz Ucz.
  pose proof (GetLayer_stored st _ dp d (NewDataCenter dp) Hd) as Hgd. rewrite Hdl in Hgd.
  destruct (String.eqb_spec (Stk.From c) "") as [|_]; [done|]. rewrite Hgd //=.
  destruct Hz as [Hzk Hzp], Hc as [Hck Hcp], Hd as [Hdk Hdp].
  destruct (Merge_twice (objects st) dp cp zp d c z m)
    as (h1 & h2 & d2 & dc & Hrun1 & Hrun2 & Hst & Hm1 & Hm2); [try done..|].
  - intros ->. assert (c = d) by congruence. by subst; rewrite Hcl in Hdl.
  - intros ->. assert (z = d) by congruence. by subst; rewrite Hzl in Hdl.
  - exists (MkMemory h2 (stacks st)), d2, dc.
    split_and!; [|by rewrite /GetStack; run_m; rewrite Hdk|done..].
    by rewrite /on_heap /Layer_Merge /= Hrun1 /= Hrun2.
Qed.
End layers.

(** ** Concrete storages *)
Definition ex_named (name from : string) (layer : Z) (app : loc) : Stk.Stack loc :=
  Stk.MkStack "" name from (Some {["web" := app]}) layer.

(** Three layers, or three stacks that inherit from each other. *)
Definition ex_layers : memory :=
  MkMemory
    (MkHeap (<[10%N := ex_app "web" "1" "./run" (float_of 1 0)]>
              (<[11%N := ex_app "" "2" "" float_zero]>
                 {[12%N := ex_app "" "3" "" float_zero]}))
            (<[1%N := ex_named "dc" "" LayerDataCenter 10%N]>
              (<[2%N := ex_named "cluster" "dc" LayerCluster 11%N]>
                 {[3%N := ex_named "zone" "cluster" LayerZone 12%N]})))
    (<["dc" := 1%N]> (<["cluster" := 2%N]> {["zone" := 3%N]})).

Lemma ex_layers_keys k p :
  stacks ex_layers !! k = Some p →
  (k = "dc" ∧ p = 1%N) ∨ (k = "cluster" ∧ p = 2%N) ∨ (k = "zone" ∧ p = 3%N).
Proof.
  simpl. intros [[<- <-]|[_ [[<- <-]|[_ [<- <-]%lookup_singleton_Some]]%lookup_insert_Some]]
    %lookup_insert_Some; auto.
Qed.

Lemma ex_layers_keyed : keyed (objects ex_layers) (stacks ex_layers).
Proof.
  intros k p [[-> ->]|[[-> ->]|[-> ->]]]%ex_layers_keys; eexists; by split.
Qed.

Definition ex_rank (n : string) : nat :=
  if String.eqb n "dc" then 0 else if String.eqb n "cluster" then 1 else 2.

Lemma ex_layers_ranked : ranked (forest_of (objects ex_layers) (stacks ex_layers)) ex_rank.
Proof.
  intros n p Hn Hp. rewrite forest_of_lookup in Hn.
  destruct (stacks ex_layers !! n) as [q|] eqn:E; [|done].
  apply ex_layers_keys in E as [[-> ->]|[[-> ->]|[-> ->]]];
    injection Hn as <-; by vm_compute; auto with arith.
Qed.

Lemma ex_named_apps name from layer a k p :
  Stk.apps (ex_named name from layer a) !! k = Some p → k = "web" ∧ p = a.
Proof. rewrite /Stk.apps /=. by intros [<- <-]%lookup_singleton_Some. Qed.

Lemma ex_named_valid h name from layer a :
  is_Some (app_at h !! a) → valid_stack h (ex_named name from layer a).
Proof. by intros Ha k p [-> ->]%ex_named_apps. Qed.

Lemma ex_named_unshared n f l a n' f' l' a' :
  a ≠ a' → unshared (ex_named n f l a) (ex_named n' f' l' a').
Proof.
  intros Ha. split.
  - by intros k k' q [-> _]%ex_named_apps [-> _]%ex_named_apps.
  - by intros k q k' p [_ ->]%ex_named_apps [_ ->]%ex_named_apps.
Qed.

Section examples.
Import InMemoryStorage.


(** Two stacks that inherit from each other, stored one after the other. *)
Definition ex_cycle : memory :=
  snd ((StoreStack 1%N ;; StoreStack 2%N)
    (NewInMemoryStorage (MkHeap ∅ (<[1%N := ex_named "a" "b" LayerStack 10%N]>
                                     {[2%N := ex_named "b" "a" LayerStack 11%N]})))).

Lemma RemoveStack_cycle_overflows_witness :
  let ord := canonical_order in
  (RemoveStack 1000 "a" true ex_cycle).1 = Panic overflow.
Proof.
  intros ord.
  apply (RemoveStack_cycle_overflows 1000 "a" ex_cycle (λ n, n = "a" ∨ n = "b")).
  - intros k p Hk.
    change (<["b" := 2%N]> (<["a" := 1%N]> (∅ : gmap string loc)) !! k = Some p) in Hk.
    apply lookup_insert_Some in Hk as [[<- <-]|[_ Hk]].
    { exists (ex_named "b" "a" LayerStack 11%N). split; by vm_compute. }
    apply lookup_insert_Some in Hk as [[<- <-]|[_ Hk]].
    { exists (ex_named "a" "b" LayerStack 10%N). split; by vm_compute. }
    by rewrite lookup_empty in Hk.
  - split; (intros n [-> | ->]; [exists "b"|exists "a"]);
      (split; [by vm_compute|by (left + right)]).
  - by left.
Defined.

Definition ex_merged : memory := snd (GetLayersStack (ord := canonical_order) "zone" ex_layers).

Lemma GetLayersStack_chain_witness :
  let ord := canonical_order in
  (∃ st' d', GetLayersStack "zone" ex_layers = (Ret 1%N, st') ∧
     GetStack "dc" st' = (Ret 1%N, st') ∧ stack_at (objects st') !! 1%N = Some d') ∧
  (Stk.Name <$> stack_at (objects ex_merged) !! 1%N) = Some "zone" ∧
  (App.Version <$> app_at (objects ex_merged) !! 10%N) = Some "3".
Proof.
  intros ord. split; [|by vm_compute].
  destruct (GetLayersStack_chain ex_layers "zone" 3%N (ex_named "zone" "cluster" LayerZone 12%N)
    2%N (ex_named "cluster" "dc" LayerCluster 11%N)) as [_ Hmerge];
    [by split|done|done|by split|done|].
  destruct (Hmerge 1%N (ex_named "dc" "" LayerDataCenter 10%N) {["web" := 10%N]})
    as (st' & d' & dc & Hrun & Hget & _ & _ & Hst);
    [done|by split|done|done|by apply ex_named_valid; eexists..|
     by apply ex_named_unshared|by apply ex_named_unshared|by apply ex_named_unshared|].
  exists st', d'. split; [exact Hrun|]. split; [exact Hget|].
  rewrite Hst. apply lookup_insert_eq.
Defined.
End examples.
