(* ===== verification/CassandraStorage.v ===== *)
(** [CassandraStorage] of [framework/storage.go].

    The database is a service: the queries the code sends are the operations
    of the class [StacksTable], and what a Cassandra that answers every query
    does with them is stated by [StacksTableLaws] on the logical contents
    [rows] of the table. The same goes for the YAML codec ([Yaml]). *)
From S2P Require Import Prelude GoStrings Errors Data Forest Stacks.
From Stdlib Require Import Lia.
Open Scope string_scope.
Open Scope list_scope.
Open Scope nat_scope.

(** ** What the code uses *)

(** [yaml.Marshal] and [yaml.Unmarshal] on the map of applications. *)
Class Yaml := {
  marshal_apps : option (gmap string Application) → result string;
  unmarshal_apps : string → result (option (gmap string Application))
}.
(** Marshalled applications read back as they were, an absent map as an empty
    one (it is written [{}]). *)
Class YamlLaws `{Yaml} : Prop :=
  unmarshal_marshal m t : marshal_apps m = Ret t → unmarshal_apps t = Ret (Some (default ∅ m)).

(** The statements sent to the table of stacks. A query whose rows are scanned
    through an iterator gives the rows seen before the iterator ended; the
    code never asks the iterator why it ended. *)
Class StacksTable (db : Type) := {
  create_keyspace : M db error unit;
  create_table : M db error unit;
  create_index : M db error unit;
  select_stack : string → M db error (string * string * string);
  count_stack : string → M db error Z;
  insert_stack : string → string → string → M db error unit;
  delete_stack : string → M db error unit;
  select_children : string → db → list string * db;
  select_all : db → list (string * string * string) * db
}.

Definition iter {db A} (q : db → list A * db) : M db error (list A) := λ s,
  let '(l, s') := q s in (Ret l, s').

Record Row : Type := MkRow { row_parent : string; row_applications : string }.

(** [gocql.ErrNotFound]. *)
Definition not_found : error := Errorf "not found".

(** A reachable database. The primary key of a table may not be empty. *)
Class StacksTableLaws (db : Type) `{StacksTable db} := {
  rows : db → gmap string Row;
  select_stack_law n s : n ≠ "" →
    select_stack n s =
      (match rows s !! n with
       | Some r => Ret (n, row_parent r, row_applications r)
       | None => Err not_found
       end, s);
  select_stack_empty s : ∃ e, select_stack "" s = (Err e, s);
  count_stack_law n s : n ≠ "" →
    count_stack n s = (Ret (if rows s !! n is Some _ then 1%Z else 0%Z), s);
  count_stack_empty s : ∃ e, count_stack "" s = (Err e, s);
  insert_stack_law n p a s : n ≠ "" →
    ∃ s', insert_stack n p a s = (Ret tt, s') ∧ rows s' = <[n := MkRow p a]> (rows s);
  delete_stack_law n s : n ≠ "" →
    ∃ s', delete_stack n s = (Ret tt, s') ∧ rows s' = delete n (rows s);
  select_children_law p s : (select_children p s).2 = s ∧
    ∀ n, n ∈ (select_children p s).1 ↔ row_parent <$> rows s !! n = Some p;
  select_all_law s : (select_all s).2 = s ∧
    (select_all s).1 ≡ₚ
      (λ '(n, r), (n, row_parent r, row_applications r)) <$> map_to_list (rows s)
}.

Module CassandraStorage.
Section operations.
Context `{ord : MapOrder} `{Yaml} {db : Type} `{StacksTable db}.

Definition exists_ (name : string) : M db error bool :=
  count ← count_stack name; mret (0 <? count)%Z.

(** The error both getters build around a failed [yaml.Unmarshal]. *)
Definition unable (name : string) (e : error) : error :=
  Errorf ("Unable get stack " +:+ name +:+ " from Cassandra: " +:+ Error e).
Definition decode (name apps : string) : result (option (gmap string Application)) :=
  match unmarshal_apps apps with
  | Ret m => Ret m
  | Err e => Err (unable name e)
  | Panic p => Panic p
  end.

Fixpoint GetAll_loop (l : list (string * string * string)) : result (list Stack) :=
  match l with
  | [] => Ret []
  | (name, parent, apps) :: l' =>
      m ← decode name apps;
      stacks ← GetAll_loop l';
      Ret (Stk.MkStack "" name parent m 0 :: stacks)
  end.
Definition GetAll : M db error (list Stack) :=
  l ← iter select_all; lift (GetAll_loop l).

(** [fuel] bounds the depth of the recursion. Every stack was just decoded, so
    merging writes to objects nothing else points to. *)
Fixpoint GetStack (fuel : nat) (name : string) : M db error Stack :=
  match fuel with
  | O => panic overflow
  | S fuel' =>
      row ← select_stack name;
      let '(name', parent, apps) := row in
      m ← lift (decode name apps);
      let stack := Stk.MkStack "" name' "" m 0 in
      if String.eqb parent "" then mret stack
      else
        parentStack ← GetStack fuel' parent;
        lift (merge_stack parentStack stack)
  end.

Definition GetStackRunner (fuel : nat) (name : string) : M db error Stack := GetStack fuel name.

Definition GetLayer (fuel : nat) (name : string) : M db error (Layer Stack) :=
  stack ← GetStack fuel name;
  match NewLayer (Stk.Layer stack) stack with
  | Some layer => mret layer
  | None => fail (no_layer name (Stk.Layer stack))
  end.

Definition GetLayersStack (fuel : nat) (name : string) : M db error Stack :=
  zone ← GetLayer fuel name;
  if String.eqb (Stk.From (LStack zone)) "" then mret (LStack zone) else
  cluster ← GetLayer fuel (Stk.From (LStack zone));
  if String.eqb (Stk.From (LStack cluster)) "" then mret (LStack cluster) else
  datacenter ← GetLayer fuel (Stk.From (LStack cluster));
  datacenter ← lift (merge_layer datacenter cluster);
  datacenter ← lift (merge_layer datacenter zone);
  mret (LStack datacenter).

(** A failure to look the parent up is reported as a missing parent. *)
Definition StoreStack (stack : Stack) : M db error unit :=
  present ← exists_ (Stk.Name stack);
  if present : bool then fail (Errorf ("Stack " +:+ Stk.Name stack +:+ " already exists")) else
  (if String.eqb (Stk.From stack) "" then mret tt else
   parent ← catch (exists_ (Stk.From stack));
   match parent with
   | inr true => mret tt
   | _ => fail (Errorf ("Parent stack " +:+ Stk.From stack +:+ " does not exist"))
   end) ;;
  apps ← lift (marshal_apps (Stk.Applications stack));
  insert_stack (Stk.Name stack) (Stk.From stack) apps.

Fixpoint remove_loop (rec : string → M db error unit) (force : bool)
    (names children : list string) : M db error (list string) :=
  match names with
  | [] => mret children
  | name :: names' =>
      if force then rec name ;; remove_loop rec force names' children
      else remove_loop rec force names' (children ++ [name])
  end.

Fixpoint remove (fuel : nat) (stack : string) (force : bool) : M db error unit :=
  match fuel with
  | O => panic overflow
  | S fuel' =>
      names ← iter (select_children stack);
      children ← remove_loop (λ n, remove fuel' n force) force names [];
      if (0 <? length children) then fail (dependants stack children)
      else delete_stack stack
  end.

Definition RemoveStack (fuel : nat) (stack : string) (force : bool) : M db error unit :=
  present ← exists_ stack;
  if present : bool then remove fuel stack force
  else fail (Errorf ("Stack " +:+ stack +:+ " does not exist")).

Definition Init : M db error unit := create_keyspace ;; create_table ;; create_index.
End operations.

(** [NewCassandraStorageRetryBackoff]: [connect] opens the session and
    [storage_init] is [Init] on it; [None] is the nil storage. *)
Section connection.
Context {world session : Type} (connect : M world error session)
  (storage_init : session → M world error unit) (sleep : world → world).

Fixpoint retry_connect (retries : nat) (err : option error) : M world error (option session) :=
  match retries with
  | O => match err with None => mret None | Some e => fail e end
  | S retries' =>
      attempt ← catch (storage ← connect; storage_init storage ;; mret storage);
      match attempt with
      | inr storage => mret (Some storage)
      | inl e => (λ w, (Ret tt, sleep w)) ;; retry_connect retries' (Some e)
      end
  end.
Definition NewCassandraStorageRetryBackoff (retries : Z) : M world error (option session) :=
  retry_connect (Z.to_nat retries) None.
End connection.
End CassandraStorage.

(** ** The contents of the table *)
Section contents.
Context `{ord : MapOrder} `{Yaml} {db : Type} `{StacksTableLaws db}.
Import CassandraStorage.
Implicit Types (s : db) (n : string).

Definition parents s : forest := row_parent <$> rows s.

Lemma parents_is_Some s n : is_Some (parents s !! n) ↔ is_Some (rows s !! n).
Proof. by rewrite /parents lookup_fmap fmap_is_Some. Qed.

Lemma parents_mono s s' : rows s' ⊆ rows s → parents s' ⊆ parents s.
Proof. apply map_fmap_mono. Qed.

Lemma parents_size s : size (parents s) = size (rows s).
Proof. apply map_size_fmap. Qed.

Lemma exists_spec n s :
  n ≠ "" → exists_ n s = (Ret (bool_decide (is_Some (rows s !! n))), s).
Proof.
  intros Hn. rewrite /exists_. run_m. rewrite count_stack_law //.
  by destruct (rows s !! n).
Qed.

Lemma exists_empty s : ∃ e, exists_ "" s = (Err e, s).
Proof.
  destruct (count_stack_empty s) as [e He]. exists e. rewrite /exists_. run_m. by rewrite He.
Qed.

Lemma iter_children p s : iter (select_children p) s = (Ret (select_children p s).1, s).
Proof.
  rewrite /iter. pose proof (proj1 (select_children_law p s)) as Hs.
  destruct (select_children p s). simpl in *. by subst.
Qed.

Lemma children_spec p s c : c ∈ (select_children p s).1 ↔ parents s !! c = Some p.
Proof. rewrite (proj2 (select_children_law p s)) /parents lookup_fmap. done. Qed.

(** ** Removal *)
Lemma collect_names rec names cs s :
  remove_loop rec false names cs s = (Ret (cs ++ names), s).
Proof.
  revert cs. induction names as [|n l IH]; intros cs; simpl; [by rewrite app_nil_r|].
  rewrite IH -app_assoc. done.
Qed.

(** Recursive calls that prune the sub-trees of [l] one after the other. *)
Lemma prune_names rec s l D s1 :
  rows s1 ⊆ rows s → pruned (parents s) D (parents s1) →
  (∀ c s1, c ∈ l → rows s1 ⊆ rows s →
     ∃ s2, rec c s1 = (Ret tt, s2) ∧ rows s2 ⊆ rows s1 ∧
       pruned (parents s1) (c =.) (parents s2)) →
  ∃ s2, remove_loop rec true l [] s1 = (Ret [], s2) ∧ rows s2 ⊆ rows s1 ∧
    pruned (parents s) (λ d, D d ∨ d ∈ l) (parents s2).
Proof.
  revert D s1. induction l as [|c l IH]; intros D s1 Hsub Hpr Hrec; simpl.
  { exists s1. split_and!; [done..|]. eapply pruned_ext; [|done]. set_solver. }
  destruct (Hrec c s1) as (s2 & Hrun & Hs2 & Hp2); [constructor|done|].
  destruct (IH (λ d, D d ∨ d = c) s2) as (s3 & Hrun3 & Hs3 & Hp3).
  - by etrans.
  - by eapply pruned_step.
  - intros d s4 Hd. apply Hrec. by constructor.
  - exists s3. rewrite /mbind /M_mbind Hrun Hrun3. split_and!; [done|by etrans|].
    eapply pruned_ext; [|done]. set_solver.
Qed.

Lemma remove_prunes_rows t rank fuel : ∀ n s,
  ranked t rank → t !! "" = None → parents s ⊆ t → is_Some (t !! n) →
  size (above t rank n) ≤ fuel →
  ∃ s', remove fuel n true s = (Ret tt, s') ∧ rows s' ⊆ rows s ∧
    pruned (parents s) (n =.) (parents s').
Proof.
  induction fuel as [|fuel IH]; intros n s Hr He Ht Hn Hf.
  { pose proof (above_pos t rank n Hn). lia. }
  assert (n ≠ "") as Hne by (intros ->; rewrite He in Hn; by destruct Hn).
  destruct (prune_names (λ c, remove fuel c true) s (select_children n s).1 (λ _, False) s)
    as (s1 & Hrun & Hs1 & Hp1).
  - done.
  - apply pruned_none.
  - intros c s1 Hc%children_spec Hs1.
    assert (t !! c = Some n) as Htc by by eapply lookup_weaken.
    apply IH; [done|done| |by eexists|].
    + etrans; [by apply parents_mono|done].
    + pose proof (above_child t rank n c Hr Hn Hne Htc). lia.
  - destruct (delete_stack_law n s1 Hne) as (s2 & Hdel & Hs2).
    exists s2. split_and!.
    + cbn [remove]. run_m. rewrite iter_children Hrun /=. done.
    + rewrite Hs2. etrans; [apply delete_subseteq|done].
    + rewrite /parents Hs2 fmap_delete -/(parents s1).
      eapply pruned_finish; [exact Hp1|]. intros d. cbv beta. rewrite children_spec. naive_solver.
Qed.

(** A stored table: every parent is stored, no cycle, every text decodes. *)
Record well_stored s : Prop := {
  ws_forest : forest_wf (parents s);
  ws_decodes n r : rows s !! n = Some r → ∃ m, unmarshal_apps (row_applications r) = Ret (Some m)
}.

Lemma well_stored_sub s s' D :
  well_stored s → rows s' ⊆ rows s → pruned (parents s) D (parents s') → well_stored s'.
Proof.
  intros [Hf Hd] Hsub Hp. split; [by eapply forest_wf_pruned|].
  intros n r Hr. eapply Hd. by eapply lookup_weaken.
Qed.

Lemma well_stored_insert `{!YamlLaws} s s' n p apps text :
  well_stored s → n ≠ "" → rows s !! n = None → (p ≠ "" → is_Some (rows s !! p)) →
  marshal_apps apps = Ret text → rows s' = <[n := MkRow p text]> (rows s) →
  well_stored s'.
Proof.
  intros [Hf Hd] Hn Hnew Hp Htext Hs'. split.
  - rewrite /parents Hs' fmap_insert. apply forest_wf_insert; [done|done| |].
    + by rewrite lookup_fmap Hnew.
    + intros Hne. by apply parents_is_Some, Hp.
  - intros k r. rewrite Hs'. intros [[<- <-]|[_ Hk]]%lookup_insert_Some; [|by eapply Hd].
    eexists. by apply unmarshal_marshal.
Qed.

Lemma RemoveStack_run_rows fuel n force s :
  RemoveStack fuel n force s =
    match exists_ n s with
    | (Ret true, s') => remove fuel n force s'
    | (Ret false, s') => (Err (Errorf ("Stack " +:+ n +:+ " does not exist")), s')
    | (Err e, s') => (Err e, s')
    | (Panic p, s') => (Panic p, s')
    end.
Proof. rewrite /RemoveStack. run_m. by destruct (exists_ n s) as [[[]|e|p] s']. Qed.

Lemma forced_removal_rows s s' n k :
  rows s' ⊆ rows s → pruned (parents s) (n =.) (parents s') →
  (under (parents s) n k → rows s' !! k = None) ∧
  (¬ under (parents s) n k → rows s' !! k = rows s !! k).
Proof.
  intros Hsub [_ Hgone Hkept]. split; intros Hu.
  - apply eq_None_not_Some. rewrite -parents_is_Some (Hgone n k) //.
  - destruct (rows s !! k) as [r|] eqn:Hr; [|by eapply lookup_weaken_None].
    assert (is_Some (rows s' !! k)) as [r' Hr'].
    { rewrite -parents_is_Some Hkept; [|by intros ? <-].
      by rewrite parents_is_Some Hr. }
    rewrite Hr' -Hr. symmetry. by eapply lookup_weaken.
Qed.

(** ** What storing a stack may do *)
Inductive store_step (s : db) (st : Stack) : outcome error unit → db → Prop :=
| store_no_name e : Stk.Name st = "" → store_step s st (Err e) s
| store_exists : Stk.Name st ≠ "" → is_Some (rows s !! Stk.Name st) →
    store_step s st (Err (Errorf ("Stack " +:+ Stk.Name st +:+ " already exists"))) s
| store_no_parent : Stk.Name st ≠ "" → rows s !! Stk.Name st = None →
    Stk.From st ≠ "" → rows s !! Stk.From st = None →
    store_step s st (Err (Errorf ("Parent stack " +:+ Stk.From st +:+ " does not exist"))) s
| store_not_yaml r : Stk.Name st ≠ "" → rows s !! Stk.Name st = None →
    (Stk.From st ≠ "" → is_Some (rows s !! Stk.From st)) →
    marshal_apps (Stk.Applications st) = r → is_ret r = false →
    store_step s st ((λ _, tt) <$> r) s
| store_ok text s' : Stk.Name st ≠ "" → rows s !! Stk.Name st = None →
    (Stk.From st ≠ "" → is_Some (rows s !! Stk.From st)) →
    marshal_apps (Stk.Applications st) = Ret text →
    rows s' = <[Stk.Name st := MkRow (Stk.From st) text]> (rows s) →
    store_step s st (Ret tt) s'.

Lemma StoreStack_steps st s : store_step s st (StoreStack st s).1 (StoreStack st s).2.
Proof.
  rewrite /StoreStack. run_m.
  destruct (decide (Stk.Name st = "")) as [He|Hn].
  { destruct (exists_empty s) as [e Hex]. rewrite -He in Hex.
    rewrite Hex. by apply store_no_name. }
  rewrite exists_spec //. destruct (rows s !! Stk.Name st) eqn:Hrow; simpl.
  { apply store_exists; [done|by eexists]. }
  assert (∀ m : M db error unit, m = (apps ← lift (marshal_apps (Stk.Applications st));
      insert_stack (Stk.Name st) (Stk.From st) apps) →
    (Stk.From st ≠ "" → is_Some (rows s !! Stk.From st)) →
    store_step s st (m s).1 (m s).2) as Hstore.
  { intros m -> Hp. run_m. destruct (marshal_apps (Stk.Applications st)) as [t|e|p] eqn:Ht.
    - destruct (insert_stack_law (Stk.Name st) (Stk.From st) t s Hn) as (s' & -> & Hs').
      by eapply store_ok.
    - by apply (store_not_yaml s st (Err e)).
    - by apply (store_not_yaml s st (Panic p)). }
  destruct (String.eqb_spec (Stk.From st) "") as [Hf|Hf]; simpl; [by apply (Hstore _ eq_refl)|].
  rewrite exists_spec //. destruct (rows s !! Stk.From st) eqn:Hfrom; simpl.
  - by apply (Hstore _ eq_refl).
  - by apply store_no_parent.
Qed.

Lemma StoreStack_well_stored `{!YamlLaws} st s : well_stored s → well_stored (StoreStack st s).2.
Proof.
  intros Hw. destruct (StoreStack_steps st s); try done. by eapply well_stored_insert.
Qed.

(** The same for removal. *)
Lemma RemoveStack_well_stored fuel n force s :
  well_stored s → size (rows s) ≤ fuel → well_stored (RemoveStack fuel n force s).2.
Proof.
  intros Hw Hf. rewrite RemoveStack_run_rows.
  destruct (decide (n = "")) as [->|Hn]; [by destruct (exists_empty s) as [e ->]|].
  rewrite exists_spec //. destruct (rows s !! n) eqn:Hrow; simpl; [|done].
  pose proof (ws_forest _ Hw) as Hfor. destruct (wf_ranked _ Hfor) as [rank Hr].
  destruct force.
  - destruct (remove_prunes_rows (parents s) rank fuel n s) as (s' & -> & Hsub & Hp); [done| |done| | |].
    + apply (wf_no_empty_name _ Hfor).
    + apply parents_is_Some. by eexists.
    + pose proof (above_size (parents s) rank n) as Hs. rewrite parents_size in Hs. lia.
    + by eapply well_stored_sub.
  - destruct fuel as [|fuel]; [done|]. cbn [remove]. run_m. rewrite iter_children /=.
    rewrite collect_names /=. destruct (select_children n s).1 as [|c l] eqn:Hc; [|done]. simpl.
    destruct (delete_stack_law n s Hn) as (s' & -> & Hs').
    apply (well_stored_sub s s' (n =.)); [done|rewrite Hs'; apply delete_subseteq|].
    rewrite /parents Hs' fmap_delete. eapply pruned_finish; [apply pruned_none|].
    intros d. rewrite -children_spec Hc. split; [by intros ?%elem_of_nil|done].
Qed.
End contents.

(** ** Inheritance: the stack a name stands for *)
Section inheritance.
Context `{ord : MapOrder} `{Yaml} {db : Type} `{StacksTableLaws db}.
Import CassandraStorage.
Implicit Types (s : db) (n : string).

(** [lineage t n l]: [l] leads from a root of the forest down to [n]. *)
Inductive lineage (t : forest) : string → list string → Prop :=
| lineage_root n : t !! n = Some "" → lineage t n [n]
| lineage_child n p l : t !! n = Some p → p ≠ "" → lineage t p l → lineage t n (l ++ [n]).

(** The applications written in the stack's own row. *)
Definition own_apps s n : gmap string Application :=
  match rows s !! n with
  | Some r => match unmarshal_apps (row_applications r) with Ret m => default ∅ m | _ => ∅ end
  | None => ∅
  end.

(** An application as the lineage defines it: from the root down, every stack
    overrides what it inherits. *)
Definition inherited s (l : list string) (k : string) : option Application :=
  foldl (λ acc n, merged_app acc (own_apps s n !! k)) None l.

Lemma lineage_exists t rank n :
  forest_wf t → ranked t rank → is_Some (t !! n) → ∃ l, lineage t n l ∧ length l ≤ S (rank n).
Proof.
  intros Hwf Hr. remember (rank n) as r eqn:Er. revert n Er.
  induction (lt_wf r) as [r _ IH]. intros n -> [p Hp].
  destruct (decide (p = "")) as [->|Hne].
  { exists [n]. split; [by constructor|simpl; lia]. }
  destruct (IH (rank p)) with (n := p) as (l & Hl & Hlen); [by apply Hr|done| |].
  - by eapply wf_parent.
  - exists (l ++ [n]). split; [by econstructor|]. rewrite length_app /=.
    specialize (Hr n p Hp Hne). lia.
Qed.

Lemma own_row s n :
  well_stored s → is_Some (rows s !! n) →
  ∃ r m, rows s !! n = Some r ∧ unmarshal_apps (row_applications r) = Ret (Some m) ∧
    own_apps s n = m.
Proof.
  intros Hw [r Hr]. destruct (ws_decodes _ Hw n r Hr) as [m Hm].
  exists r, m. split_and!; [done..|]. by rewrite /own_apps Hr Hm.
Qed.

(** What [GetStack] returns, as a predicate on its result. *)
Record loaded s n l (st : Stack) : Prop := {
  loaded_name : Stk.Name st = n;
  loaded_plain : Stk.Namespace st = "" ∧ Stk.From st = "" ∧ Stk.Layer st = LayerZone;
  loaded_map : is_Some (Stk.Applications st);
  loaded_apps k : Stk.apps st !! k = inherited s l k
}.

Lemma GetStack_loads s l : well_stored s → ∀ n, lineage (parents s) n l →
  ∀ fuel, length l ≤ fuel → ∃ st, GetStack fuel n s = (Ret st, s) ∧ loaded s n l st.
Proof.
  intros Hw n Hl. pose proof (wf_no_empty_name _ (ws_forest _ Hw)) as He.
  induction Hl as [n Hn|n p l Hn Hp Hl IH]; intros fuel Hf.
  - destruct fuel as [|fuel]; [simpl in Hf; lia|]. assert (n ≠ "") as Hne by congruence.
    rewrite /parents lookup_fmap_Some in Hn. destruct Hn as (r & Hpar & Hr).
    destruct (own_row s n Hw) as (r' & m & Hr' & Hm & Hown); [by eexists|].
    assert (r' = r) as -> by congruence.
    exists (Stk.MkStack "" n "" (Some m) LayerZone). split.
    + cbn [GetStack]. run_m. rewrite select_stack_law // Hr /decode Hm /= Hpar. done.
    + split; [done|done|by eexists|]. intros k. by rewrite /inherited /= Hown.
  - rewrite length_app /= in Hf. destruct fuel as [|fuel]; [lia|].
    assert (n ≠ "") as Hne by congruence.
    rewrite /parents lookup_fmap_Some in Hn. destruct Hn as (r & Hpar & Hr).
    destruct (own_row s n Hw) as (r' & m & Hr' & Hm & Hown); [by eexists|].
    assert (r' = r) as -> by congruence.
    destruct (IH fuel) as (pst & Hget & [Hpn Hplain [pm Hpm] Hpa]); [lia|].
    set (st := Stk.MkStack "" n "" (Some m) LayerZone : Stack).
    pose proof (merge_stack_spec pst st) as Hms. rewrite Hpm in Hms.
    destruct Hms as (m' & Hmerge & Hm').
    exists (set_apps (set_name pst n) (Some m')). split.
    + cbn [GetStack]. run_m. rewrite select_stack_law // Hr /decode Hm /= Hpar.
      destruct (String.eqb_spec p "") as [|_]; [done|]. by rewrite Hget Hmerge.
    + split; [done|done|by eexists|]. intros k. rewrite /inherited foldl_app /= Hown.
      rewrite {1}/Stk.apps /= Hm'. f_equal.
      specialize (Hpa k). rewrite /Stk.apps Hpm /= in Hpa. exact Hpa.
Qed.

Lemma stored_lineage s n :
  well_stored s → is_Some (rows s !! n) →
  ∃ l, lineage (parents s) n l ∧ length l ≤ S (size (rows s)).
Proof.
  intros Hw Hn. pose proof (ws_forest _ Hw) as Hf. destruct (wf_ranked _ Hf) as [rank Hr].
  destruct (ranked_bounded _ rank Hr (wf_parent _ Hf)) as (rank' & Hr' & Hb).
  destruct (lineage_exists (parents s) rank' n) as (l & Hl & Hlen); [done..| |].
  - by apply parents_is_Some.
  - exists l. split; [done|]. specialize (Hb n). rewrite parents_size in Hb. lia.
Qed.
End inheritance.

(** ** The theorems *)
Section theorems.
Context `{ord : MapOrder} `{Yaml} `{!YamlLaws} {db : Type} `{StacksTableLaws db}.
Import CassandraStorage.
Implicit Types (s : db).

(** The states a storage goes through: an initialised empty table, then any
    sequence of calls. *)
Inductive reachable : db → Prop :=
| reach_init s : rows s = ∅ → reachable s
| reach_store st s : reachable s → reachable (StoreStack st s).2
| reach_remove fuel n force s : reachable s → size (rows s) ≤ fuel →
    reachable (RemoveStack fuel n force s).2.

Lemma reachable_well_stored s : reachable s → well_stored s.
Proof.
  induction 1 as [s He|st s _ IH|fuel n force s _ IH Hf].
  - split; [|intros n r; by rewrite He lookup_empty].
    rewrite /parents He fmap_empty. apply forest_wf_empty.
  - by apply StoreStack_well_stored.
  - by apply RemoveStack_well_stored.
Qed.


(** [StoreStack] on every branch. *)
Theorem StoreStack_correct st s :
  if decide (Stk.Name st = "") then ∃ e, StoreStack st s = (Err e, s)
  else if decide (is_Some (rows s !! Stk.Name st)) then
    StoreStack st s = (Err (Errorf ("Stack " +:+ Stk.Name st +:+ " already exists")), s)
  else if decide (Stk.From st ≠ "" ∧ rows s !! Stk.From st = None) then
    StoreStack st s = (Err (Errorf ("Parent stack " +:+ Stk.From st +:+ " does not exist")), s)
  else match marshal_apps (Stk.Applications st) with
  | Ret text => ∃ s', StoreStack st s = (Ret tt, s') ∧
      rows s' = <[Stk.Name st := MkRow (Stk.From st) text]> (rows s)
  | r => StoreStack st s = ((λ _, tt) <$> r, s)
  end.
Proof.
  pose proof (StoreStack_steps st s) as Hstep. destruct (StoreStack st s) as [r s'].
  simpl in Hstep. destruct Hstep as [e Hn|Hn Hex|Hn Hrow Hf Hp|r Hn Hrow Hp Hm Hr|t s' Hn Hrow Hp Hm Hs'].
  - rewrite decide_True //. by eexists.
  - by rewrite decide_False // decide_True.
  - rewrite decide_False // decide_False; [|by rewrite Hrow; intros []].
    by rewrite decide_True.
  - rewrite decide_False // decide_False; [|by rewrite Hrow; intros []].
    rewrite decide_False; [|intros [? Hnone]; destruct (Hp ltac:(done)); congruence].
    rewrite Hm. by destruct r.
  - rewrite decide_False // decide_False; [|by rewrite Hrow; intros []].
    rewrite decide_False; [|intros [? Hnone]; destruct (Hp ltac:(done)); congruence].
    rewrite Hm. by eexists.
Qed.

(** [RemoveStack] on every branch: unknown names are refused; with force
    exactly the rows of the sub-tree disappear; without, the row alone or
    nothing, with the children listed. *)
Theorem RemoveStack_correct_rows fuel n (force : bool) s :
  well_stored s → size (rows s) ≤ fuel → n ≠ "" →
  match rows s !! n with
  | None => RemoveStack fuel n force s = (Err (Errorf ("Stack " +:+ n +:+ " does not exist")), s)
  | Some _ =>
      if force then ∃ s', RemoveStack fuel n true s = (Ret tt, s') ∧
        ∀ k, (under (parents s) n k → rows s' !! k = None) ∧
             (¬ under (parents s) n k → rows s' !! k = rows s !! k)
      else ∃ children : list string,
        (∀ c, c ∈ children ↔ parents s !! c = Some n) ∧
        if decide (children = []) then
          ∃ s', RemoveStack fuel n false s = (Ret tt, s') ∧ rows s' = delete n (rows s)
        else RemoveStack fuel n false s = (Err (dependants n children), s)
  end.
Proof.
  intros Hw Hf Hn. rewrite !RemoveStack_run_rows exists_spec //.
  destruct (rows s !! n) as [r|] eqn:Hrow; [|done]. simpl.
  pose proof (ws_forest _ Hw) as Hfor. destruct (wf_ranked _ Hfor) as [rank Hr].
  destruct force.
  - destruct (remove_prunes_rows (parents s) rank fuel n s) as (s' & Hrun & Hsub & Hp); [done| |done| | |].
    + apply (wf_no_empty_name _ Hfor).
    + apply parents_is_Some. by eexists.
    + pose proof (above_size (parents s) rank n) as Hs. rewrite parents_size in Hs. lia.
    + exists s'. split; [done|]. intros k. by apply forced_removal_rows.
  - exists (select_children n s).1. split; [intros c; apply children_spec|].
    destruct fuel as [|fuel].
    { assert (rows s = ∅) as He by (apply map_size_empty_inv; lia). by rewrite He in Hrow. }
    cbn [remove]. run_m. rewrite iter_children /= collect_names /=.
    destruct (select_children n s).1 as [|c l]; simpl; [|done].
    destruct (delete_stack_law n s Hn) as (s' & Hdel & Hs'). rewrite Hdel. by exists s'.
Qed.

(** The layers of a zone need no merging here: the level of a layer is not
    written to the table, so [GetLayer] sees every stack as a zone without a
    parent and [GetLayersStack] is [GetStack], which has already merged the
    whole lineage. *)
Theorem GetLayersStack_is_GetStack s n fuel :
  well_stored s → size (rows s) < fuel →
  GetLayersStack fuel n s = GetStack fuel n s.
Proof.
  intros Hw Hf. rewrite /GetLayersStack /GetLayer. run_m.
  destruct (decide (is_Some (rows s !! n))) as [Hn|Hn].
  - destruct (stored_lineage s n Hw Hn) as (l & Hl & Hlen).
    destruct (GetStack_loads s l Hw n Hl fuel) as (st & Hget & [_ (_ & Hfrom & Hlayer) _ _]); [lia|].
    by rewrite Hget Hlayer /= Hfrom.
  - assert (∃ e s', GetStack fuel n s = (Err e, s')) as (e & s' & ->); [|done].
    destruct fuel as [|fuel]; [lia|]. cbn [GetStack]. run_m.
    destruct (decide (n = "")) as [->|Hne].
    + destruct (select_stack_empty s) as [e ->]. by exists e, s.
    + rewrite select_stack_law //. destruct (rows s !! n); [|by eexists _, _].
      exfalso. apply Hn. by eexists.
Qed.
End theorems.

(** ** Connecting

    [attempts w i]: the world before the [i]-th attempt. *)
Section connecting.
Context {world session : Type} (connect : M world error session)
  (storage_init : session → M world error unit) (sleep : world → world).
Import CassandraStorage.

Definition attempt : M world error session :=
  storage ← connect; storage_init storage ;; mret storage.
Fixpoint attempts (w : world) (i : nat) : world :=
  match i with
  | O => w
  | S i' => attempts (sleep (attempt w).2) i'
  end.

Lemma retry_connect_succeeds i : ∀ retries w err s w',
  i < retries →
  (∀ j, j < i → ∃ e, (attempt (attempts w j)).1 = Err e) →
  attempt (attempts w i) = (Ret s, w') →
  retry_connect connect storage_init sleep retries err w = (Ret (Some s), w').
Proof.
  induction i as [|i IH]; intros [|retries] w err s w' Hi Hbad Hok; try lia;
    cbn [retry_connect]; fold attempt.
  - simpl in Hok. run_m. by rewrite -/attempt Hok.
  - destruct (Hbad 0) as [e He]; [lia|]. simpl in He, Hok.
    run_m. rewrite -/attempt. destruct (attempt w) as [r w1] eqn:Ea. simpl in He. subst r.
    apply IH; [lia| |done]. intros j Hj.
    specialize (Hbad (S j)). simpl in Hbad. rewrite Ea in Hbad. apply Hbad. lia.
Qed.

Lemma retry_connect_fails retries : ∀ w err,
  (∀ j, j < retries → ∃ e, (attempt (attempts w j)).1 = Err e) →
  retry_connect connect storage_init sleep retries err w =
    (match retries with
     | O => match err with None => Ret None | Some e => Err e end
     | S n => match (attempt (attempts w n)).1 with Err e => Err e | _ => Ret None end
     end, attempts w retries).
Proof.
  induction retries as [|n IH]; intros w err Hbad; [by destruct err|].
  cbn [retry_connect]. fold attempt. destruct (Hbad 0) as [e He]; [lia|]. simpl in He.
  run_m. rewrite -/attempt. destruct (attempt w) as [r w1] eqn:Ea. simpl in He. subst r. simpl.
  rewrite IH.
  - destruct n; simpl; by rewrite Ea.
  - intros j Hj. specialize (Hbad (S j)). simpl in Hbad. rewrite Ea in Hbad. apply Hbad. lia.
Qed.

(** Connecting with retries: the first attempt that both connects and
    initialises gives the storage, and none is made after it; if all fail,
    the last error is returned after one pause per attempt; and a retry
    count of zero or less gives a nil storage together with a nil error. *)
Theorem connect_retries retries w :
  (∀ i s w', (Z.of_nat i < retries)%Z →
     (∀ j, j < i → ∃ e, (attempt (attempts w j)).1 = Err e) →
     attempt (attempts w i) = (Ret s, w') →
     NewCassandraStorageRetryBackoff connect storage_init sleep retries w = (Ret (Some s), w')) ∧
  ((0 < retries)%Z →
   (∀ j, j < Z.to_nat retries → ∃ e, (attempt (attempts w j)).1 = Err e) →
   ∃ e, (attempt (attempts w (Nat.pred (Z.to_nat retries)))).1 = Err e ∧
     NewCassandraStorageRetryBackoff connect storage_init sleep retries w =
       (Err e, attempts w (Z.to_nat retries))) ∧
  ((retries ≤ 0)%Z →
   NewCassandraStorageRetryBackoff connect storage_init sleep retries w = (Ret None, w)).
Proof.
  rewrite /NewCassandraStorageRetryBackoff. split_and!.
  - intros i s w' Hi Hbad Hok. eapply retry_connect_succeeds; [|done|done]. lia.
  - intros Hpos Hbad. destruct (Z.to_nat retries) as [|n] eqn:En; [lia|].
    destruct (Hbad n) as [e He]; [lia|]. exists e. split; [done|].
    rewrite retry_connect_fails // /= He. done.
  - intros Hneg. by replace (Z.to_nat retries) with 0 by lia.
Qed.
End connecting.

(** ** A concrete table and codec

    They satisfy the laws, so the theorems above are not empty. *)
Module Concrete.
Definition table : Type := gmap string Row.
Definition empty_key : error := Errorf "Key may not be empty".

#[export] Instance table_ops : StacksTable table := {
  create_keyspace := mret tt;
  create_table := mret tt;
  create_index := mret tt;
  select_stack n := λ s,
    (if String.eqb n "" then Err empty_key else
     match s !! n with
     | Some r => Ret (n, row_parent r, row_applications r)
     | None => Err not_found
     end, s);
  count_stack n := λ s,
    (if String.eqb n "" then Err empty_key else
     Ret (if s !! n is Some _ then 1%Z else 0%Z), s);
  insert_stack n p a := λ s,
    if String.eqb n "" then (Err empty_key, s) else (Ret tt, <[n := MkRow p a]> s);
  delete_stack n := λ s,
    if String.eqb n "" then (Err empty_key, s) else (Ret tt, delete n s);
  select_children p := λ s,
    (filter (λ n, row_parent <$> s !! n = Some p) (map_to_list s).*1, s);
  select_all := λ s,
    ((λ '(n, r), (n, row_parent r, row_applications r)) <$> map_to_list s, s)
}.

#[export] Instance table_laws : StacksTableLaws table.
Proof.
  refine {| rows := λ s : table, s |}.
  - intros n s Hn. rewrite /select_stack /=. by destruct (String.eqb_spec n "").
  - intros s. by exists empty_key.
  - intros n s Hn. rewrite /count_stack /=. by destruct (String.eqb_spec n "").
  - intros s. by exists empty_key.
  - intros n p a s Hn. rewrite /insert_stack /=. destruct (String.eqb_spec n ""); [done|].
    by eexists.
  - intros n s Hn. rewrite /delete_stack /=. destruct (String.eqb_spec n ""); [done|].
    by eexists.
  - intros p s. split; [done|]. intros n. simpl. rewrite list_elem_of_filter.
    split; [naive_solver|]. intros Hn. split; [done|].
    apply fmap_Some in Hn as (r & Hr & _).
    apply list_elem_of_fmap. exists (n, r). by rewrite elem_of_map_to_list.
  - by intros s.
Defined.

(** A codec for the maps of one application without settings. *)
Definition bare (id : string) : Application :=
  App.MkApplication "" id "" float_zero float_zero [] "" [] "" "" "" [] ∅ [] [] ∅
    [] [] None "" "" [] [] [] [] [].
#[export] Instance bare_yaml : Yaml := {
  marshal_apps m :=
    match map_to_list (default ∅ m) with
    | [] => Ret "{}"
    | [(k, a)] => if decide (a = bare k ∧ k ≠ "{}") then Ret k else Err (Errorf "not supported")
    | _ => Err (Errorf "not supported")
    end;
  unmarshal_apps t := if String.eqb t "{}" then Ret (Some ∅) else Ret (Some {[t := bare t]})
}.
#[export] Instance bare_yaml_laws : YamlLaws.
Proof.
  intros m t. rewrite /marshal_apps /unmarshal_apps /=.
  destruct (map_to_list (default ∅ m)) as [|[k a] [|? ?]] eqn:Hl; [| |done].
  - intros [= <-]. by apply map_to_list_empty_iff in Hl as ->.
  - case_decide as Hk; [|done]. destruct Hk as [-> Hk]. intros [= <-].
    destruct (String.eqb_spec k "{}"); [done|]. do 2 f_equal.
    by rewrite -(list_to_map_to_list (default ∅ m)) Hl /= insert_empty.
Qed.
End Concrete.

Section examples.
Import CassandraStorage Concrete.

Definition ex_stack (name from : string) : Stack :=
  Stk.MkStack "" name from (Some {[name := bare name]}) LayerStack.
(** [base], [mid] which inherits from it and [leaf] below. *)
Definition ex_table : table :=
  <["leaf" := MkRow "mid" "leaf"]> (<["mid" := MkRow "base" "mid"]> {["base" := MkRow "" "base"]}).

Lemma ex_table_stored :
  snd (StoreStack (db := table) (ex_stack "leaf" "mid")
    (snd (StoreStack (db := table) (ex_stack "mid" "base")
      (snd (StoreStack (db := table) (ex_stack "base" "") (∅ : table)))))) = ex_table.
Proof. by vm_compute. Qed.

Lemma ex_table_reachable : reachable (db := table) ex_table.
Proof. rewrite -ex_table_stored. do 3 apply reach_store. by apply reach_init. Qed.


Lemma StoreStack_correct_witness :
  (∃ s', StoreStack (db := table) (ex_stack "twig" "mid") ex_table = (Ret tt, s') ∧
     rows s' = <["twig" := MkRow "mid" "twig"]> (rows (db := table) ex_table)) ∧
  StoreStack (db := table) (ex_stack "twig" "nobody") ex_table =
    (Err (Errorf "Parent stack nobody does not exist"), ex_table).
Proof.
  split.
  - exact (StoreStack_correct (db := table) (ex_stack "twig" "mid") ex_table).
  - exact (StoreStack_correct (db := table) (ex_stack "twig" "nobody") ex_table).
Defined.

Lemma RemoveStack_correct_rows_witness :
  let s := ex_table in
  ∃ s' : table, RemoveStack (db := table) 3 "mid" true s = (Ret tt, s') ∧
    (under (parents (db := table) s) "mid" "leaf" → rows s' !! "leaf" = None).
Proof.
  intros s.
  destruct (RemoveStack_correct_rows (db := table) 3 "mid" true s
    (reachable_well_stored _ ex_table_reachable)
    ltac:(by vm_compute; lia) ltac:(done)) as (s' & Hrun & Hk).
  exists s'. split; [exact Hrun|apply Hk].
Defined.

Lemma GetLayersStack_is_GetStack_witness :
  let ord := canonical_order in
  GetLayersStack (db := table) 5 "leaf" ex_table = GetStack (db := table) 5 "leaf" ex_table.
Proof.
  intros ord. apply GetLayersStack_is_GetStack; [|by vm_compute; lia].
  apply (reachable_well_stored), ex_table_reachable.
Defined.

(** A server that refuses the first two connections. *)
Definition ex_connect : M nat error string := λ w,
  (if (w <? 2) then Err (Errorf "refused") else Ret "session", w).

Lemma connect_retries_witness :
  NewCassandraStorageRetryBackoff ex_connect (λ _, mret tt) S 5 0 = (Ret (Some "session"), 2) ∧
  (∃ e, NewCassandraStorageRetryBackoff ex_connect (λ _, mret tt) S 2 0 = (Err e, 2)) ∧
  NewCassandraStorageRetryBackoff ex_connect (λ _, mret tt) S 0 7 = (Ret None, 7).
Proof.
  split_and!.
  - apply (connect_retries ex_connect (λ _, mret tt) S 5 0) with (i := 2); [lia| |done].
    intros j Hj. destruct j as [|[|j]]; [by eexists|by eexists|lia].
  - destruct (proj1 (proj2 (connect_retries ex_connect (λ _, mret tt) S 2 0)))
      as (e & _ & He); [lia| |by exists e].
    intros j Hj. destruct j as [|[|j]]; [by eexists|by eexists|]. simpl in Hj. lia.
  - by apply (connect_retries ex_connect (λ _, mret tt) S 0 7).
Defined.
End examples.
