(* ===== verification/StateStorage.v ===== *)
(** The storages of stack states ([framework/state_storage.go]): which status a
    stack and its applications were last saved with, per zone, and the
    variables of the run. [InMemoryStateStorage] and [CassandraStateStorage]
    are instances of the same interface; clients are proved against it. *)
From S2P Require Import Prelude GoStrings Errors Data Variables.
Open Scope string_scope.
Open Scope list_scope.

(** Statuses are Go integers once stored. *)
Record StackState : Type := MkStackState {
  ss_Name : string;
  ss_Zone : string;
  ss_Status : Z;
  ss_Variables : option Variables;
  ss_Applications : gmap string Z
}.

(** [newStackState]; [None] is the nil pointer. *)
Definition newStackState (name zone : string) (status : Z) : StackState :=
  MkStackState name zone status None ∅.

(** ** The interface *)
Class StateStorage (S : Type) := {
  SaveStackStatus : string → string → StackStatus → M S error unit;
  SaveApplicationStatus : string → string → string → ApplicationStatus → M S error unit;
  SaveStackVariables : string → string → Variables → M S error unit;
  GetStackState : string → string → M S error StackState
}.

#[export] Instance outcome_unit_decision (r : outcome error unit) : Decision (r = Ret tt).
Proof. destruct r as [[]| |]; by [left|right]. Defined.

(** What its clients rely on, about two observations of the storage: the saved
    status of a stack and of an application of a stack. A call that succeeds
    does what it says and touches nothing else; one that fails does
    nothing. *)
Class StateStorageLaws (S : Type) `{StateStorage S} := {
  stack_status : S → string → string → option Z;
  app_status : S → string → string → string → option Z;
  save_stack_law n z v s : let '(r, s') := SaveStackStatus n z v s in
    (∀ n' z', stack_status s' n' z' =
       if decide (r = Ret tt ∧ (n', z') = (n, z)) then Some (StackStatus_code v)
       else stack_status s n' z') ∧
    (∀ n' z' a', app_status s' n' z' a' = app_status s n' z' a') ∧ ∀ p, r ≠ Panic p;
  save_app_law n z a v s : let '(r, s') := SaveApplicationStatus n z a v s in
    (∀ n' z' a', app_status s' n' z' a' =
       if decide (r = Ret tt ∧ (n', z', a') = (n, z, a)) then Some (ApplicationStatus_code v)
       else app_status s n' z' a') ∧
    (∀ n' z', stack_status s' n' z' = stack_status s n' z') ∧ ∀ p, r ≠ Panic p;
  save_vars_law n z v s : let '(r, s') := SaveStackVariables n z v s in
    (∀ n' z' a', app_status s' n' z' a' = app_status s n' z' a') ∧
    (∀ n' z', stack_status s' n' z' = stack_status s n' z') ∧ ∀ p, r ≠ Panic p;
  get_state_law n z s st s' : GetStackState n z s = (Ret st, s') →
    s' = s ∧ stack_status s n z = Some (ss_Status st) ∧
    ∀ a, ss_Applications st !! a = app_status s n z a
}.

(** ** In memory *)
Module InMemoryStateStorage.
Definition states : Type := gmap string (gmap string StackState).

Definition NewInMemoryStateStorage : states := ∅.

Definition SaveStackStatus (name zone : string) (status : StackStatus) : M states error unit :=
  λ s,
  let s := match s !! name with None => <[name := ∅]> s | Some _ => s end in
  let nameStates := default ∅ (s !! name) in
  match nameStates !! zone with
  | Some _ => (Err ErrStackStateExists, s)
  | None =>
      (Ret tt,
       <[name := <[zone := newStackState name zone (StackStatus_code status)]> nameStates]> s)
  end.

(** The two lookups the other operations begin with. *)
Definition find_state (s : states) (stack zone : string) : option StackState :=
  nameStates ← s !! stack; nameStates !! zone.
(** A write through the pointer found there. *)
Definition write_state (stack zone : string) (st : StackState) (s : states) : states :=
  <[stack := <[zone := st]> (default ∅ (s !! stack))]> s.

Definition SaveApplicationStatus (stack zone applicationName : string)
    (status : ApplicationStatus) : M states error unit := λ s,
  match find_state s stack zone with
  | None => (Err ErrStackStateDoesNotExist, s)
  | Some st =>
      (Ret tt, write_state stack zone
        (MkStackState (ss_Name st) (ss_Zone st) (ss_Status st) (ss_Variables st)
           (<[applicationName := ApplicationStatus_code status]> (ss_Applications st))) s)
  end.

Definition SaveStackVariables (stack zone : string) (variables : Variables) :
    M states error unit := λ s,
  match find_state s stack zone with
  | None => (Err ErrStackStateDoesNotExist, s)
  | Some st =>
      (Ret tt, write_state stack zone
        (MkStackState (ss_Name st) (ss_Zone st) (ss_Status st) (Some variables)
           (ss_Applications st)) s)
  end.

Definition GetStackState (stack zone : string) : M states error StackState := λ s,
  match find_state s stack zone with
  | None => (Err ErrStackStateDoesNotExist, s)
  | Some st => (Ret st, s)
  end.

#[export] Instance ops : StateStorage states := {
  SaveStackStatus := SaveStackStatus;
  SaveApplicationStatus := SaveApplicationStatus;
  SaveStackVariables := SaveStackVariables;
  GetStackState := GetStackState
}.

Lemma find_write s n z st n' z' :
  find_state (write_state n z st s) n' z' =
    if decide ((n', z') = (n, z)) then Some st else find_state s n' z'.
Proof.
  rewrite /find_state /write_state. destruct (decide (n = n')) as [->|Hn].
  - rewrite lookup_insert_eq /=. destruct (decide (z = z')) as [->|Hz].
    + by rewrite lookup_insert_eq decide_True.
    + rewrite lookup_insert_ne // decide_False; [|congruence]. by destruct (s !! n').
  - rewrite lookup_insert_ne // decide_False //. congruence.
Qed.

(** Creating the inner map is not visible. *)
Lemma find_ensure s n n' z' :
  find_state (match s !! n with None => <[n := ∅]> s | Some _ => s end) n' z' =
    find_state s n' z'.
Proof.
  rewrite /find_state. destruct (s !! n) eqn:E; [done|].
  destruct (decide (n = n')) as [->|Hn]; [|by rewrite lookup_insert_ne].
  rewrite lookup_insert_eq E /=. by rewrite lookup_empty.
Qed.

Lemma SaveStackStatus_spec n z v s :
  let '(r, s') := SaveStackStatus n z v s in
  r = (if find_state s n z is Some _ then Err ErrStackStateExists else Ret tt) ∧
  ∀ n' z', find_state s' n' z' =
    if decide (r = Ret tt ∧ (n', z') = (n, z))
    then Some (newStackState n z (StackStatus_code v)) else find_state s n' z'.
Proof.
  rewrite /SaveStackStatus. set (s1 := match s !! n with None => _ | _ => _ end).
  assert (∀ n' z', find_state s1 n' z' = find_state s n' z') as Hs1 by apply find_ensure.
  assert (default ∅ (s1 !! n) !! z = find_state s n z) as ->.
  { rewrite -Hs1 /find_state. by destruct (s1 !! n). }
  destruct (find_state s n z) eqn:E.
  - split; [done|]. intros n' z'. rewrite Hs1. case_decide as Hd; [by destruct Hd|done].
  - split; [done|]. intros n' z'.
    rewrite -/(write_state n z (newStackState n z (StackStatus_code v)) s1) find_write Hs1.
    case_decide as Hd; case_decide as Hd'; naive_solver.
Qed.

Definition stack_status_of (s : states) (n z : string) : option Z :=
  ss_Status <$> find_state s n z.
Definition app_status_of (s : states) (n z a : string) : option Z :=
  st ← find_state s n z; ss_Applications st !! a.

#[export] Instance laws : StateStorageLaws states.
Proof.
  refine {| stack_status := stack_status_of; app_status := app_status_of |};
    rewrite /stack_status_of /app_status_of /=.
  - intros n z v s. pose proof (SaveStackStatus_spec n z v s) as Hspec.
    destruct (SaveStackStatus n z v s) as [r s']. destruct Hspec as [Hr Hs']. split_and!.
    + intros n' z'. rewrite Hs'. by case_decide.
    + intros n' z' a. rewrite Hs'. case_decide as Hd; [|done].
      destruct Hd as [Hok [= -> ->]]. rewrite Hr in Hok.
      by destruct (find_state s n z).
    + intros p. rewrite Hr. by destruct (find_state s n z).
  - intros n z a v s. rewrite /SaveApplicationStatus.
    destruct (find_state s n z) as [st|] eqn:E.
    + split_and!; [| |done]; intros n' z'; [intros a'|]; rewrite find_write;
        destruct (decide ((n', z') = (n, z))) as [[= -> ->]|Hne]; rewrite ?E //=.
      * destruct (decide (a = a')) as [->|Ha].
        -- rewrite lookup_insert_eq. case_decide; naive_solver.
        -- rewrite lookup_insert_ne //. case_decide; naive_solver.
      * case_decide; naive_solver.
    + split_and!; [|done..]. intros n' z' a'. case_decide; naive_solver.
  - intros n z v s. rewrite /SaveStackVariables.
    destruct (find_state s n z) as [st|] eqn:E; [|done].
    split_and!; [| |done]; intros n' z'; [intros a'|]; rewrite find_write;
      destruct (decide ((n', z') = (n, z))) as [[= -> ->]|Hne]; by rewrite ?E.
  - intros n z s st s'. rewrite /GetStackState.
    destruct (find_state s n z) as [st'|] eqn:E; [|done]. by intros [= -> ->].
Defined.
End InMemoryStateStorage.

(** ** In Cassandra

    The three tables, and the statements sent to them. *)
Class StateTables (db : Type) := {
  create_states : M db error unit;
  create_application_states : M db error unit;
  create_variables : M db error unit;
  insert_state : string → string → Z → M db error unit;
  insert_application_state : string → string → string → Z → M db error unit;
  insert_variable : string → string → string → string → string → M db error unit;
  select_state : string → string → M db error Z;
  select_application_states : string → string → db → list (string * Z) * db;
  select_variables : string → string → db → list (string * string * string) * db
}.

(** A reachable database: inserting overwrites the row with the same primary
    key, whose first column may not be empty. The variable type is not part
    of the key of a variable. *)
Class StateTablesLaws (db : Type) `{StateTables db} := {
  t_states : db → gmap (string * string) Z;
  t_apps : db → gmap (string * string * string) Z;
  t_vars : db → gmap (string * string * string) (string * string);
  insert_state_law n z v s : if decide (n = "") then ∃ e, insert_state n z v s = (Err e, s)
    else ∃ s', insert_state n z v s = (Ret tt, s') ∧
      t_states s' = <[(n, z) := v]> (t_states s) ∧ t_apps s' = t_apps s ∧ t_vars s' = t_vars s;
  insert_app_law n z a v s :
    if decide (n = "") then ∃ e, insert_application_state n z a v s = (Err e, s)
    else ∃ s', insert_application_state n z a v s = (Ret tt, s') ∧
      t_apps s' = <[(n, z, a) := v]> (t_apps s) ∧ t_states s' = t_states s ∧ t_vars s' = t_vars s;
  insert_var_law n z k v t s :
    if decide (n = "") then ∃ e, insert_variable n z k v t s = (Err e, s)
    else ∃ s', insert_variable n z k v t s = (Ret tt, s') ∧
      t_vars s' = <[(n, z, k) := (v, t)]> (t_vars s) ∧ t_states s' = t_states s ∧ t_apps s' = t_apps s;
  select_state_law n z s : select_state n z s =
    (match t_states s !! (n, z) with Some v => Ret v | None => Err (Errorf "not found") end, s);
  select_apps_law n z s : (select_application_states n z s).2 = s ∧
    NoDup (select_application_states n z s).1.*1 ∧
    ∀ a v, (a, v) ∈ (select_application_states n z s).1 ↔ t_apps s !! (n, z, a) = Some v;
  select_vars_law n z s : (select_variables n z s).2 = s ∧
    NoDup (select_variables n z s).1.*1.*1 ∧
    ∀ k v t, (k, v, t) ∈ (select_variables n z s).1 ↔ t_vars s !! (n, z, k) = Some (v, t)
}.

Module CassandraStateStorage.
Section operations.
Context `{ord : MapOrder} {db : Type} `{StateTables db}.

Definition init : M db error unit :=
  create_states ;; create_application_states ;; create_variables.

Definition SaveStackStatus (name zone : string) (status : StackStatus) : M db error unit :=
  insert_state name zone (StackStatus_code status).

Definition SaveApplicationStatus (stack zone applicationName : string)
    (status : ApplicationStatus) : M db error unit :=
  insert_application_state stack zone applicationName (ApplicationStatus_code status).

Definition saveStackVariable (stack zone varType key value : string) : M db error unit :=
  insert_variable stack zone key value varType.

Definition save_scope (stack zone varType : string) (l : list (string * string)) :
    M db error unit :=
  for_each (λ '(k, v), saveStackVariable stack zone varType k v) l.

Definition SaveStackVariables (stack zone : string) (variables : Variables) : M db error unit :=
  save_scope stack zone "global" (range 0 (globalVariables variables)) ;;
  save_scope stack zone "arbitrary" (range 1 (arbitraryVariables variables)) ;;
  save_scope stack zone "stack" (range 2 (stackVariables variables)).

Fixpoint read_variables (l : list (string * string * string)) (v : Variables) :
    result Variables :=
  match l with
  | [] => Ret v
  | (varKey, varValue, varType) :: l' =>
      if String.eqb varType "global" then
        read_variables l' (SetGlobalVariable varKey varValue v)
      else if String.eqb varType "arbitrary" then
        read_variables l' (SetArbitraryVariable varKey varValue v)
      else if String.eqb varType "stack" then
        read_variables l' (SetStackVariable varKey varValue v)
      else Panic ("Unknown stored variable type " +:+ varType)
  end.

Definition GetStackState (name zone : string) : M db error StackState :=
  status ← select_state name zone;
  apps ← (λ s, let '(l, s') := select_application_states name zone s in (Ret l, s'));
  let applications := insert_all apps ∅ in
  vars ← (λ s, let '(l, s') := select_variables name zone s in (Ret l, s'));
  variables ← lift (read_variables vars NewVariables);
  mret (MkStackState name zone status (Some variables) applications).

#[export] Instance ops : StateStorage db := {
  SaveStackStatus := SaveStackStatus;
  SaveApplicationStatus := SaveApplicationStatus;
  SaveStackVariables := SaveStackVariables;
  GetStackState := GetStackState
}.
End operations.

Section facts.
Context `{ord : MapOrder} {db : Type} `{StateTablesLaws db}.
Implicit Types (s : db).

(** The rows a scope writes. *)
Definition scope_rows (n z ty : string) (l : list (string * string))
    (rows : gmap (string * string * string) (string * string)) :=
  foldl (λ m '(k, v), <[(n, z, k) := (v, ty)]> m) rows l.

Lemma scope_rows_lookup n z ty l rows k :
  NoDup l.*1 →
  scope_rows n z ty l rows !! (n, z, k) =
    match (list_to_map l : gmap string string) !! k with
    | Some v => Some (v, ty)
    | None => rows !! (n, z, k)
    end.
Proof.
  revert rows. induction l as [|[j v] l IH]; intros rows Hnd; simpl; [by rewrite lookup_empty|].
  apply NoDup_cons in Hnd as [Hj Hnd].
  rewrite /scope_rows /= -/(scope_rows n z ty l _) IH //.
  destruct (decide (k = j)) as [->|Hne].
  - by rewrite (not_elem_of_list_to_map_1 _ _ Hj) !lookup_insert_eq.
  - rewrite !lookup_insert_ne //; congruence.
Qed.

Lemma save_scope_run n z ty l s :
  n ≠ "" →
  ∃ s', save_scope n z ty l s = (Ret tt, s') ∧ t_vars s' = scope_rows n z ty l (t_vars s) ∧
    t_states s' = t_states s ∧ t_apps s' = t_apps s.
Proof.
  intros Hn. revert s. induction l as [|[k v] l IH]; intros s; [by exists s|].
  rewrite /save_scope. cbn [for_each]. rewrite /mbind /M_mbind /saveStackVariable.
  pose proof (insert_var_law n z k v ty s) as Hi. case_decide; [done|].
  destruct Hi as (s1 & -> & Hv & Hs & Ha).
  destruct (IH s1) as (s2 & Hrun & Hv2 & Hs2 & Ha2).
  exists s2. rewrite -/(save_scope n z ty l) Hrun Hv2 Hv Hs2 Ha2. by split_and!.
Qed.

(** Saving with an empty stack name fails at the first variable. *)
Lemma save_scope_empty z ty l s :
  ∃ r, save_scope "" z ty l s = (r, s) ∧ ∀ p, r ≠ Panic p.
Proof.
  destruct l as [|[k v] l]; [by exists (Ret tt)|].
  rewrite /save_scope. cbn [for_each]. rewrite /mbind /M_mbind /saveStackVariable.
  pose proof (insert_var_law "" z k v ty s) as Hi. case_decide; [|done].
  destruct Hi as (e & ->). by exists (Err e).
Qed.

Lemma SaveStackVariables_run n z v s :
  n ≠ "" →
  ∃ s', SaveStackVariables n z v s = (Ret tt, s') ∧
    t_states s' = t_states s ∧ t_apps s' = t_apps s ∧
    ∀ k, t_vars s' !! (n, z, k) =
      match stackVariables v !! k with
      | Some x => Some (x, "stack")
      | None => match arbitraryVariables v !! k with
        | Some x => Some (x, "arbitrary")
        | None => match globalVariables v !! k with
          | Some x => Some (x, "global")
          | None => t_vars s !! (n, z, k)
          end
        end
      end.
Proof.
  intros Hn. rewrite /SaveStackVariables. run_m.
  destruct (save_scope_run n z "global" (range 0 (globalVariables v)) s Hn)
    as (s1 & -> & Hv1 & Hs1 & Ha1).
  destruct (save_scope_run n z "arbitrary" (range 1 (arbitraryVariables v)) s1 Hn)
    as (s2 & -> & Hv2 & Hs2 & Ha2).
  destruct (save_scope_run n z "stack" (range 2 (stackVariables v)) s2 Hn)
    as (s3 & -> & Hv3 & Hs3 & Ha3).
  exists s3. split_and!; [done|congruence..|]. intros k.
  rewrite Hv3 Hv2 Hv1 !scope_rows_lookup; [|apply NoDup_range_keys..].
  by rewrite !list_to_map_range.
Qed.

Lemma iter_apps n z s :
  (let '(l, s') := select_application_states n z s in (Ret (E := error) l, s')) =
    (Ret (select_application_states n z s).1, s).
Proof.
  pose proof (proj1 (select_apps_law n z s)). destruct (select_application_states n z s).
  simpl in *. by subst.
Qed.
Lemma iter_vars n z s :
  (let '(l, s') := select_variables n z s in (Ret (E := error) l, s')) =
    (Ret (select_variables n z s).1, s).
Proof.
  pose proof (proj1 (select_vars_law n z s)). destruct (select_variables n z s).
  simpl in *. by subst.
Qed.

Lemma GetStackState_run n z s :
  GetStackState n z s =
    (match t_states s !! (n, z) with
     | None => Err (Errorf "not found")
     | Some v =>
         variables ← read_variables (select_variables n z s).1 NewVariables;
         Ret (MkStackState n z v (Some variables)
                (insert_all (select_application_states n z s).1 ∅))
     end, s).
Proof.
  rewrite /GetStackState. run_m. rewrite select_state_law.
  destruct (t_states s !! (n, z)) as [v|]; [|done].
  rewrite iter_apps iter_vars. by destruct (read_variables _ _).
Qed.

Lemma read_apps n z s a :
  insert_all (select_application_states n z s).1 ∅ !! a = t_apps s !! (n, z, a).
Proof.
  destruct (select_apps_law n z s) as (_ & Hnd & Hin).
  rewrite insert_all_lookup // lookup_empty.
  destruct (t_apps s !! (n, z, a)) as [v|] eqn:E.
  - by rewrite (elem_of_list_to_map_1 _ a v Hnd (proj2 (Hin a v) E)).
  - destruct (list_to_map _ !! a) as [v|] eqn:E'; [|done].
    apply elem_of_list_to_map_2, Hin in E'. congruence.
Qed.

(** [CassandraStateStorage] keeps the promises of the interface. *)
#[export] Instance laws : StateStorageLaws db.
Proof.
  refine {| stack_status s n z := t_states s !! (n, z);
            app_status s n z a := t_apps s !! (n, z, a) |};
    rewrite /= /SaveStackStatus /SaveApplicationStatus.
  - intros n z v s. pose proof (insert_state_law n z (StackStatus_code v) s) as Hi.
    case_decide as Hn.
    + destruct Hi as (e & ->). split_and!; [|done..].
      intros n' z'. case_decide; naive_solver.
    + destruct Hi as (s' & -> & Hs & Ha & Hv). split_and!; [|by rewrite Ha|done].
      intros n' z'. rewrite Hs lookup_insert. repeat case_decide; naive_solver.
  - intros n z a v s.
    pose proof (insert_app_law n z a (ApplicationStatus_code v) s) as Hi. case_decide as Hn.
    + destruct Hi as (e & ->). split_and!; [|done..].
      intros n' z' a'. case_decide; naive_solver.
    + destruct Hi as (s' & -> & Ha & Hs & Hv). split_and!; [|by rewrite Hs|done].
      intros n' z' a'. rewrite Ha lookup_insert. repeat case_decide; naive_solver.
  - intros n z v s. destruct (decide (n = "")) as [->|Hn].
    + assert (∃ r, SaveStackVariables "" z v s = (r, s) ∧ ∀ p, r ≠ Panic p) as (r & -> & Hr); [|done].
      rewrite /SaveStackVariables. run_m.
      destruct (save_scope_empty z "global" (range 0 (globalVariables v)) s) as ([[]|e|p] & -> & Hr);
        [|by exists (Err e)|by destruct (Hr p)].
      destruct (save_scope_empty z "arbitrary" (range 1 (arbitraryVariables v)) s)
        as ([[]|e|p] & -> & Hr'); [|by exists (Err e)|by destruct (Hr' p)].
      apply save_scope_empty.
    + destruct (SaveStackVariables_run n z v s Hn) as (s' & -> & Hs & Ha & _).
      by rewrite Hs Ha.
  - intros n z s st s'. rewrite GetStackState_run.
    destruct (t_states s !! (n, z)) as [v|]; [|done]. simpl.
    destruct (read_variables _ _) as [vars|e|p]; [|done..]. intros [= <- <-].
    split_and!; [done..|]. intros a. apply read_apps.
Defined.

(** What [read_variables] makes of rows with distinct keys. *)
Definition value (k : string) (v : Variables) : option string :=
  match Get k v with Ret x => Some x | _ => None end.
Definition known_type (t : string) : Prop := t = "global" ∨ t = "arbitrary" ∨ t = "stack".

Lemma value_None k v :
  value k v = None ↔
    stackVariables v !! k = None ∧ arbitraryVariables v !! k = None ∧ globalVariables v !! k = None.
Proof.
  rewrite /value /Get. destruct (stackVariables v !! k), (arbitraryVariables v !! k),
    (globalVariables v !! k); naive_solver.
Qed.

Lemma key_in (k x t : string) l : (k, x, t) ∈ l → k ∈ l.*1.*1.
Proof.
  intros Hin. apply list_elem_of_fmap. exists (k, x). split; [done|].
  apply list_elem_of_fmap. by exists (k, x, t).
Qed.

Lemma read_variables_spec l : ∀ v,
  NoDup l.*1.*1 → (∀ k x t, (k, x, t) ∈ l → known_type t ∧ value k v = None) →
  ∃ v', read_variables l v = Ret v' ∧
    (∀ k x t, (k, x, t) ∈ l → value k v' = Some x) ∧
    (∀ k, k ∉ l.*1.*1 → value k v' = value k v).
Proof.
  induction l as [|[[k x] t] l IH]; intros v Hnd Hl.
  { exists v. split_and!; [done| |done]. by intros ? ? ? ?%elem_of_nil. }
  apply NoDup_cons in Hnd as [Hk Hnd].
  destruct (Hl k x t (list_elem_of_here _ _)) as [Ht Hv].
  assert (∀ v1, (value k v1 = Some x) → (∀ j, j ≠ k → value j v1 = value j v) →
    read_variables ((k, x, t) :: l) v = read_variables l v1 →
    ∃ v', read_variables ((k, x, t) :: l) v = Ret v' ∧
      (∀ j y u, (j, y, u) ∈ (k, x, t) :: l → value j v' = Some y) ∧
      (∀ j, j ∉ k :: l.*1.*1 → value j v' = value j v)) as Hstep.
  { intros v1 H1 Hother Hrun. destruct (IH v1 Hnd) as (v' & Hr & Hin & Hout).
    - intros j y u Hj. destruct (Hl j y u) as [Hu Hj']; [by constructor|]. split; [done|].
      rewrite Hother //. intros ->. by eapply Hk, key_in.
    - exists v'. rewrite Hrun. split_and!; [done| |].
      + intros j y u [[= -> -> ->]|Hj]%elem_of_cons; [by rewrite Hout|by eapply Hin].
      + intros j [Hjk Hj]%not_elem_of_cons. by rewrite Hout // Hother. }
  apply value_None in Hv as (Hs & Ha & Hg).
  destruct Ht as [->|[->| ->]];
    [apply (Hstep (SetGlobalVariable k x v))|apply (Hstep (SetArbitraryVariable k x v))
    |apply (Hstep (SetStackVariable k x v))]; try done;
    try (intros j Hj; by rewrite /value /Get /= lookup_insert_ne);
    by rewrite /value /Get /= ?Hs ?Ha lookup_insert_eq.
Qed.
End facts.
End CassandraStateStorage.

(** ** The theorems *)
Section cassandra_theorems.
Context `{ord : MapOrder} {db : Type} `{StateTablesLaws db}.
Import CassandraStateStorage.

(** The variables of a run are read back from Cassandra as they were saved:
    although a row has room for one kind of variable per key, what is lost
    are only values that [Get] would not have returned. Keys that were not
    saved keep what an earlier run stored. *)
Theorem saved_variables_read_back n z v s status :
  n ≠ "" → t_states s !! (n, z) = Some status →
  (∀ k x t, t_vars s !! (n, z, k) = Some (x, t) → known_type t) →
  ∃ s' st vars, SaveStackVariables n z v s = (Ret tt, s') ∧
    GetStackState n z s' = (Ret st, s') ∧ ss_Status st = status ∧ ss_Variables st = Some vars ∧
    ∀ k, value k vars =
      match value k v with Some x => Some x | None => fst <$> t_vars s !! (n, z, k) end.
Proof.
  intros Hn Hst Hknown.
  destruct (SaveStackVariables_run n z v s Hn) as (s' & Hsave & Hs' & _ & Hv').
  destruct (select_vars_law n z s') as (_ & Hnd & Hin).
  destruct (read_variables_spec (select_variables n z s').1 NewVariables Hnd)
    as (vars & Hread & Hval & Hout).
  { intros k x t Hk%Hin. split; [|by apply value_None]. rewrite Hv' in Hk.
    destruct (stackVariables v !! k); [injection Hk as _ <-; by do 2 right|].
    destruct (arbitraryVariables v !! k); [injection Hk as _ <-; by right; left|].
    destruct (globalVariables v !! k); [injection Hk as _ <-; by left|]. by eapply Hknown. }
  exists s', (MkStackState n z status (Some vars)
                (insert_all (select_application_states n z s').1 ∅)), vars.
  split_and!; [done| |done|done|].
  { by rewrite GetStackState_run Hs' Hst Hread. }
  intros k. assert (value k vars = fst <$> t_vars s' !! (n, z, k)) as ->.
  { destruct (t_vars s' !! (n, z, k)) as [[x t]|] eqn:Hk.
    - apply Hval with t. by apply Hin.
    - rewrite Hout //. intros [[j x] [-> Hj]]%list_elem_of_fmap.
      apply list_elem_of_fmap in Hj as ([[j' x'] t] & [= -> ->] & Hj%Hin). simpl in Hk. congruence. }
  rewrite Hv' /value /Get. destruct (stackVariables v !! k); [done|].
  destruct (arbitraryVariables v !! k); [done|]. by destruct (globalVariables v !! k).
Qed.
End cassandra_theorems.

Module in_memory_theorems.
Import InMemoryStateStorage.

(** The calls a server makes. *)
Inductive call : Type :=
| CallSaveStackStatus (name zone : string) (status : StackStatus)
| CallSaveApplicationStatus (stack zone app : string) (status : ApplicationStatus)
| CallSaveStackVariables (stack zone : string) (variables : Variables)
| CallGetStackState (stack zone : string).
Definition perform (c : call) (s : states) : states :=
  match c with
  | CallSaveStackStatus n z v => (SaveStackStatus n z v s).2
  | CallSaveApplicationStatus n z a v => (SaveApplicationStatus n z a v s).2
  | CallSaveStackVariables n z v => (SaveStackVariables n z v s).2
  | CallGetStackState n z => (GetStackState n z s).2
  end.

Lemma write_state_status n z st st0 s n' z' :
  find_state s n z = Some st0 → ss_Status st = ss_Status st0 →
  stack_status_of (write_state n z st s) n' z' = stack_status_of s n' z'.
Proof.
  intros Hf Hst. rewrite /stack_status_of find_write.
  case_decide as Hd; [|done]. injection Hd as -> ->. by rewrite Hf /= Hst.
Qed.

Lemma perform_keeps_status c s n z v :
  stack_status_of s n z = Some v → stack_status_of (perform c s) n z = Some v.
Proof.
  intros Hs. destruct c as [n' z' v'|n' z' a v'|n' z' v'|n' z']; simpl.
  - pose proof (SaveStackStatus_spec n' z' v' s) as Hspec.
    destruct (SaveStackStatus n' z' v' s) as [r s']. destruct Hspec as [Hr Hs'].
    rewrite /stack_status_of Hs'. case_decide as Hd; [|done].
    destruct Hd as [Hok [= -> ->]]. rewrite Hr in Hok.
    rewrite /stack_status_of in Hs. by destruct (find_state s n' z').
  - rewrite /SaveApplicationStatus. destruct (find_state s n' z') eqn:E; [|done].
    simpl. by erewrite write_state_status.
  - rewrite /SaveStackVariables. destruct (find_state s n' z') eqn:E; [|done].
    simpl. by erewrite write_state_status.
  - rewrite /GetStackState. by destruct (find_state s n' z').
Qed.

(** In memory the first status of a stack in a zone is the last: whatever
    calls follow, it stays, and saving another one is refused with
    [ErrStackStateExists]. A run can therefore never be recorded as
    finished. *)
Theorem first_status_is_final n z v v' s calls :
  (SaveStackStatus n z v s).1 = Ret tt →
  let s' := foldl (λ s c, perform c s) (SaveStackStatus n z v s).2 calls in
  stack_status_of s' n z = Some (StackStatus_code v) ∧
  (SaveStackStatus n z v' s').1 = Err ErrStackStateExists.
Proof.
  intros Hok. simpl.
  assert (stack_status_of (SaveStackStatus n z v s).2 n z = Some (StackStatus_code v)) as Hs.
  { pose proof (SaveStackStatus_spec n z v s) as Hspec.
    destruct (SaveStackStatus n z v s) as [r s1]. destruct Hspec as [_ Hs1]. simpl in *.
    rewrite /stack_status_of Hs1. by case_decide; [|naive_solver]. }
  revert Hs. generalize (SaveStackStatus n z v s).2 as s1. induction calls as [|c l IH]; intros s1 Hs.
  - split; [done|]. simpl. pose proof (SaveStackStatus_spec n z v' s1) as Hspec.
    destruct (SaveStackStatus n z v' s1) as [r s2]. destruct Hspec as [-> _].
    rewrite /stack_status_of in Hs. by destruct (find_state s1 n z).
  - simpl. by apply IH, perform_keeps_status.
Qed.

Lemma first_status_is_final_witness :
  let s1 := (SaveStackStatus "kafka" "" StackStatusStaging NewInMemoryStateStorage).2 in
  let s2 := (SaveApplicationStatus "kafka" "" "broker" ApplicationStatusRunning s1).2 in
  stack_status_of s2 "kafka" "" = Some 0%Z ∧
  (SaveStackStatus "kafka" "" StackStatusRunning s2).1 = Err ErrStackStateExists.
Proof.
  intros s1 s2.
  apply (first_status_is_final "kafka" "" StackStatusStaging StackStatusRunning
           NewInMemoryStateStorage
           [CallSaveApplicationStatus "kafka" "" "broker" ApplicationStatusRunning]).
  reflexivity.
Defined.
End in_memory_theorems.

(** ** Concrete tables *)
Module ConcreteTables.
Record tables : Type := MkTables {
  tb_states : gmap (string * string) Z;
  tb_apps : gmap (string * string * string) Z;
  tb_vars : gmap (string * string * string) (string * string)
}.
Definition empty_key : error := Errorf "Key may not be empty".
Definition keyed_insert (n : string) (f : tables → tables) : M tables error unit := λ s,
  if decide (n = "") then (Err empty_key, s) else (Ret tt, f s).

#[export] Instance tables_ops : StateTables tables := {
  create_states := mret tt;
  create_application_states := mret tt;
  create_variables := mret tt;
  insert_state n z v :=
    keyed_insert n (λ s, MkTables (<[(n, z) := v]> (tb_states s)) (tb_apps s) (tb_vars s));
  insert_application_state n z a v :=
    keyed_insert n (λ s, MkTables (tb_states s) (<[(n, z, a) := v]> (tb_apps s)) (tb_vars s));
  insert_variable n z k v t :=
    keyed_insert n (λ s, MkTables (tb_states s) (tb_apps s) (<[(n, z, k) := (v, t)]> (tb_vars s)));
  select_state n z := λ s,
    (match tb_states s !! (n, z) with Some v => Ret v | None => Err (Errorf "not found") end, s);
  select_application_states n z := λ s,
    (omap (λ '(n', z', a, v), if decide ((n', z') = (n, z)) then Some (a, v) else None)
       (map_to_list (tb_apps s)), s);
  select_variables n z := λ s,
    (omap (λ '(n', z', k, (v, t)), if decide ((n', z') = (n, z)) then Some (k, v, t) else None)
       (map_to_list (tb_vars s)), s)
}.

(** Distinct keys stay distinct when the rows of one partition are selected. *)
Lemma NoDup_omap_keys {K V B} (f : K * V → option (string * B)) (g : string → K) l :
  NoDup l.*1 → (∀ kv a b, kv ∈ l → f kv = Some (a, b) → kv.1 = g a) →
  NoDup (omap f l).*1.
Proof.
  intros Hnd Hg. induction l as [|kv l IH]; simpl; [constructor|].
  apply NoDup_cons in Hnd as [Hk Hnd].
  assert (NoDup (omap f l).*1) as Hl.
  { apply IH; [done|]. intros kv' a b Hin. apply Hg. by constructor. }
  destruct (f kv) as [[a b]|] eqn:E; [|done]. apply NoDup_cons. split; [|done].
  intros [[a' b'] [Ha Hin]]%list_elem_of_fmap. simpl in Ha. subst a'.
  apply list_elem_of_omap in Hin as (kv' & Hin & E'). apply Hk.
  rewrite (Hg kv _ _ (list_elem_of_here _ _) E).
  rewrite -(Hg kv' _ _ (list_elem_of_further _ _ _ Hin) E').
  apply list_elem_of_fmap. by exists kv'.
Qed.

Lemma omap_keys {A B C} (f : A → option (string * B * C)) (g : A → option (string * (B * C))) l :
  (∀ x, fst ∘ fst <$> f x = fst <$> g x) → (omap f l).*1.*1 = (omap g l).*1.
Proof.
  intros Hfg. induction l as [|x l IH]; simpl; [done|]. specialize (Hfg x).
  destruct (f x) as [[[k b] c]|], (g x) as [[k' bc]|]; simpl in *; [|done..].
  injection Hfg as ->. f_equal. exact IH.
Qed.

#[export] Instance tables_laws : StateTablesLaws tables.
Proof.
  refine {| t_states := tb_states; t_apps := tb_apps; t_vars := tb_vars |};
    rewrite /= /keyed_insert.
  - intros n z v s. case_decide; [by eexists|by eexists].
  - intros n z a v s. case_decide; [by eexists|by eexists].
  - intros n z k v t s. case_decide; [by eexists|by eexists].
  - done.
  - intros n z s. split_and!; [done| |].
    + apply (NoDup_omap_keys _ (λ a, (n, z, a))); [apply NoDup_fst_map_to_list|].
      intros [[[n' z'] a'] v'] a v _. case_decide; naive_solver.
    + intros a v. rewrite list_elem_of_omap. split.
      * intros ([[[n' z'] a'] v'] & Hin%elem_of_map_to_list & Hf).
        case_decide; naive_solver.
      * intros Hin. exists (n, z, a, v). rewrite elem_of_map_to_list. split; [done|].
        by rewrite decide_True.
  - intros n z s. split_and!; [done| |].
    + assert ((omap (λ '(n', z', k, (v, t)),
          if decide ((n', z') = (n, z)) then Some (k, v, t) else None) (map_to_list (tb_vars s))).*1.*1 =
        (omap (λ '(n', z', k, (v, t)),
          if decide ((n', z') = (n, z)) then Some (k, (v, t)) else None)
          (map_to_list (tb_vars s))).*1) as ->.
      { apply omap_keys. intros [[[n' z'] k] [v t]]. by case_decide. }
      apply (NoDup_omap_keys _ (λ a, (n, z, a))); [apply NoDup_fst_map_to_list|].
      intros [[[n' z'] a'] [v' t']] a [v t] _. case_decide; naive_solver.
    + intros k v t. rewrite list_elem_of_omap. split.
      * intros ([[[n' z'] k'] [v' t']] & Hin%elem_of_map_to_list & Hf).
        case_decide; naive_solver.
      * intros Hin. exists (n, z, k, (v, t)). rewrite elem_of_map_to_list. split; [done|].
        by rewrite decide_True.
Defined.

Definition ex_vars : Variables :=
  MkVariables {["zone" := "eu"]} ∅ (<["zone" := "us"]> {["port" := "9092"]}).
Definition ex_tables : tables := MkTables {[("kafka", "") := 0%Z]} ∅ ∅.

Lemma saved_variables_read_back_witness :
  let ord := canonical_order in
  ∃ s' st vars,
    CassandraStateStorage.SaveStackVariables "kafka" "" ex_vars ex_tables = (Ret tt, s') ∧
    CassandraStateStorage.GetStackState "kafka" "" s' = (Ret st, s') ∧
    ss_Variables st = Some vars ∧
    CassandraStateStorage.value "zone" vars = Some "eu" ∧
    CassandraStateStorage.value "port" vars = Some "9092".
Proof.
  intros ord.
  destruct (saved_variables_read_back "kafka" "" ex_vars ex_tables 0%Z) as
    (s' & st & vars & Hsave & Hget & _ & Hvars & Hval); [done|done|done|].
  exists s', st, vars. split_and!; [exact Hsave|exact Hget|exact Hvars|by rewrite Hval..].
Defined.
End ConcreteTables.
