(* ===== verification/Sha1.v ===== *)
(** SHA-1 as Go's [crypto/sha1] computes it, and its hexadecimal text: the
    function [sha] of [framework/user_storage.go]. *)
From S2P Require Import Prelude GoStrings.
From Stdlib Require Import ZArith Lia.
Open Scope string_scope.
Open Scope list_scope.
Open Scope Z_scope.

(** 32-bit words. *)
Definition word_mask : Z := 2 ^ 32 - 1.
Definition add32 (a b : Z) : Z := Z.land (a + b) word_mask.
Definition rotl (n x : Z) : Z :=
  Z.land (Z.lor (Z.shiftl x n) (Z.shiftr x (32 - n))) word_mask.
Definition not32 (x : Z) : Z := Z.lxor x word_mask.

Definition bytes_of (s : string) : list Z :=
  (λ c, Z.of_nat (Ascii.nat_of_ascii c)) <$> String.list_ascii_of_string s.
(** [n] bytes of [x], the most significant first. *)
Fixpoint big_endian (n : nat) (x : Z) : list Z :=
  match n with
  | O => []
  | S n' => Z.land (Z.shiftr x (8 * Z.of_nat n')) 255 :: big_endian n' x
  end.
Definition word_of (l : list Z) : Z := foldl (λ acc b, Z.lor (Z.shiftl acc 8) b) 0 l.

(** The message with the bit 1, zeros and its length in bits: a multiple of
    64 bytes. *)
Definition pad (msg : list Z) : list Z :=
  msg ++ 128 :: replicate (Z.to_nat ((55 - Z.of_nat (length msg)) mod 64)) 0
      ++ big_endian 8 (8 * Z.of_nat (length msg)).

(** [n] consecutive pieces of [k] elements. *)
Fixpoint pieces (n k : nat) (l : list Z) : list (list Z) :=
  match n with
  | O => []
  | S n' => take k l :: pieces n' k (drop k l)
  end.

(** The message schedule, the latest word first. *)
Fixpoint schedule (n : nat) (w : list Z) : list Z :=
  match n with
  | O => w
  | S n' =>
      let x := Z.lxor (Z.lxor (nth 2 w 0) (nth 7 w 0)) (Z.lxor (nth 13 w 0) (nth 15 w 0)) in
      schedule n' (rotl 1 x :: w)
  end.

Definition digest : Type := (Z * Z * Z * Z * Z)%type.
Definition initial : digest :=
  (0x67452301, 0xEFCDAB89, 0x98BADCFE, 0x10325476, 0xC3D2E1F0).

Definition round (st : digest) (tw : nat * Z) : digest :=
  let '(a, b, c, d, e) := st in
  let '(t, w) := tw in
  let '(f, k) :=
    if (t <? 20)%nat then (Z.lor (Z.land b c) (Z.land (not32 b) d), 0x5A827999)
    else if (t <? 40)%nat then (Z.lxor (Z.lxor b c) d, 0x6ED9EBA1)
    else if (t <? 60)%nat then
      (Z.lor (Z.lor (Z.land b c) (Z.land b d)) (Z.land c d), 0x8F1BBCDC)
    else (Z.lxor (Z.lxor b c) d, 0xCA62C1D6) in
  (add32 (add32 (add32 (rotl 5 a) f) (add32 e k)) w, a, rotl 30 b, c, d).

Definition block (st : digest) (bytes : list Z) : digest :=
  let w := reverse (schedule 64 (reverse (word_of <$> pieces 16 4 bytes))) in
  let '(a, b, c, d, e) := foldl round st (zip (seq 0 80) w) in
  let '(h0, h1, h2, h3, h4) := st in
  (add32 h0 a, add32 h1 b, add32 h2 c, add32 h3 d, add32 h4 e).

Definition Sum (msg : list Z) : list Z :=
  let padded := pad msg in
  let '(h0, h1, h2, h3, h4) := foldl block initial (pieces (length padded / 64) 64 padded) in
  concat (big_endian 4 <$> [h0; h1; h2; h3; h4]).

Definition hex_digit (n : Z) : Ascii.ascii :=
  Ascii.ascii_of_nat (Z.to_nat (if n <? 10 then 48 + n else 87 + n)).
(** [fmt.Sprintf] with [%x]. *)
Definition hex (l : list Z) : string :=
  String.string_of_list_ascii (l ≫= λ b, [hex_digit (Z.shiftr b 4); hex_digit (Z.land b 15)]).

Definition sha (key : string) : string := hex (Sum (bytes_of key)).

Example sha_empty : sha "" = "da39a3ee5e6b4b0d3255bfef95601890afd80709".
Proof. by vm_compute. Qed.
Example sha_abc : sha "abc" = "a9993e364706816aba3e25717850c26c9cd0d89d".
Proof. by vm_compute. Qed.
Example sha_two_blocks :
  sha "abcdbcdecdefdefgefghfghighijhijkijkljklmklmnlmnomnopnopq" =
    "84983e441c3bd26ebaae4aa1f95129e5e54670f1".
Proof. by vm_compute. Qed.
