(* ===== verification/UserStorage.v ===== *)
(** The storages of API users ([framework/user_storage.go]). The table of
    users and the generator of keys are services; [sha] is in [Sha1]. *)
From S2P Require Import Prelude GoStrings Errors Json Sha1.
Open Scope string_scope.
Open Scope list_scope.
Open Scope Z_scope.

Definition UserAdmin : Z := 0.
Definition UserRegular : Z := 1.

Record User : Type := MkUser { u_Name : string; u_Key : string; u_Role : Z }.

(** [(u *User) UnmarshalJSON]. *)
Definition User_UnmarshalJSON (data : option json) : result User :=
  doc ← decode_object data;
  name ← decode_string (field "name" doc);
  key ← decode_string (field "key" doc);
  role ← decode_string (field "role" doc);
  Ret (MkUser name key (if String.eqb role "admin" then UserAdmin else UserRegular)).

(** ** The interface

    [None] is the nil user of the storage of development mode. *)
Class UserStorage (S : Type) := {
  SaveUser : User → M S error unit;
  GetUser : string → M S error (option User);
  CheckKey : string → string → M S error bool;
  IsAdmin : string → M S error bool;
  CreateUser : string → Z → M S error string;
  RefreshToken : string → M S error string
}.

(** ** In Cassandra *)
Class UserTable (db : Type) := {
  create_users : M db error unit;
  insert_user : string → string → Z → M db error unit;
  select_user : string → M db error (string * string * Z);
  count_users : M db error Z;
  count_user : string → M db error Z;
  (** [uuid.NewV4().String()] *)
  UUID : db → string * db
}.

(** A reachable database; the key of a row, its first column, is not empty. *)
Class UserTableLaws (db : Type) `{UserTable db} := {
  users : db → gmap string (string * Z);
  create_users_law s : ∃ s', create_users s = (Ret tt, s') ∧ users s' = users s;
  insert_user_law n k r s : if decide (n = "") then ∃ e, insert_user n k r s = (Err e, s)
    else ∃ s', insert_user n k r s = (Ret tt, s') ∧ users s' = <[n := (k, r)]> (users s);
  select_user_law n s : if decide (n = "") then ∃ e, select_user n s = (Err e, s)
    else select_user n s =
      (match users s !! n with
       | Some (k, r) => Ret (n, k, r)
       | None => Err (Errorf "not found")
       end, s);
  count_users_law s : count_users s = (Ret (Z.of_nat (size (users s))), s);
  count_user_law n s : if decide (n = "") then ∃ e, count_user n s = (Err e, s)
    else count_user n s = (Ret (if users s !! n is Some _ then 1 else 0), s);
  UUID_law s : users (UUID s).2 = users s
}.

Module CassandraUserStorage.
Section operations.
Context {db : Type} `{UserTable db}.

Definition new_key : M db error string := λ s, let '(k, s') := UUID s in (Ret k, s').

Definition userExist (name : string) : M db error bool :=
  count ← count_user name; mret (0 <? count).
Definition isEmpty : M db error bool := count ← count_users; mret (count =? 0).

Definition SaveUser (user : User) : M db error unit :=
  insert_user (u_Name user) (sha (u_Key user)) (u_Role user).

Definition GetUser (name : string) : M db error (option User) :=
  row ← select_user name;
  let '(name', key, role) := row in mret (Some (MkUser name' key role)).

(** Reading a field of a user that may be nil. *)
Definition deref (user : option User) : M db error User :=
  match user with Some u => mret u | None => panic nil_dereference end.

Definition CheckKey (name key : string) : M db error bool :=
  user ← GetUser name;
  user ← deref user;
  mret (String.eqb (u_Key user) (sha key)).

Definition IsAdmin (name : string) : M db error bool :=
  user ← GetUser name;
  user ← deref user;
  mret (u_Role user =? UserAdmin).

(** On a failed save the key is returned beside the error; callers look at the
    error first. *)
Definition CreateUser (name : string) (role : Z) : M db error string :=
  present ← userExist name;
  if present : bool then fail (Errorf ("User '" +:+ name +:+ "' already exists")) else
  key ← new_key;
  SaveUser (MkUser name key role) ;;
  mret key.

Definition RefreshToken (name : string) : M db error string :=
  present ← userExist name;
  if negb present then fail (Errorf ("User '" +:+ name +:+ "' does not exist")) else
  user ← GetUser name;
  newKey ← new_key;
  user ← deref user;
  SaveUser (MkUser (u_Name user) newKey (u_Role user)) ;;
  mret newKey.

Definition createAdmin : M db error string := CreateUser "admin" UserAdmin.

(** The key of a new administrator, or the empty string. *)
Definition Init : M db error string :=
  create_users ;;
  empty ← isEmpty;
  if empty : bool then createAdmin else mret "".

#[export] Instance ops : UserStorage db := {
  SaveUser := SaveUser;
  GetUser := GetUser;
  CheckKey := CheckKey;
  IsAdmin := IsAdmin;
  CreateUser := CreateUser;
  RefreshToken := RefreshToken
}.
End operations.

Section facts.
Context {db : Type} `{UserTableLaws db}.
Implicit Types (s : db).

(** What the two checks answer, from the contents of the table. *)
Definition checked s (n k : string) : option bool :=
  (λ '(hash, _), String.eqb hash (sha k)) <$> users s !! n.
Definition admin_of s (n : string) : option bool :=
  (λ '(_, role), role =? UserAdmin) <$> users s !! n.

Lemma CheckKey_run s n k :
  match (if decide (n = "") then None else checked s n k) with
  | Some b => CheckKey n k s = (Ret b, s)
  | None => ∃ e, CheckKey n k s = (Err e, s)
  end.
Proof.
  rewrite /CheckKey /GetUser /checked. run_m. pose proof (select_user_law n s) as Hs.
  case_decide; [destruct Hs as [e ->]; by exists e|].
  rewrite Hs. destruct (users s !! n) as [[h r]|]; [done|by eexists].
Qed.

Lemma IsAdmin_run s n :
  match (if decide (n = "") then None else admin_of s n) with
  | Some b => IsAdmin n s = (Ret b, s)
  | None => ∃ e, IsAdmin n s = (Err e, s)
  end.
Proof.
  rewrite /IsAdmin /GetUser /admin_of. run_m. pose proof (select_user_law n s) as Hs.
  case_decide; [destruct Hs as [e ->]; by exists e|].
  rewrite Hs. destruct (users s !! n) as [[h r]|]; [done|by eexists].
Qed.

Lemma userExist_run s n :
  n ≠ "" → userExist n s = (Ret (bool_decide (is_Some (users s !! n))), s).
Proof.
  intros Hn. rewrite /userExist. run_m. pose proof (count_user_law n s) as Hc.
  case_decide; [done|]. rewrite Hc. by destruct (users s !! n).
Qed.

(** Saving the user [n] with a fresh key. *)
Lemma save_new_key_run s n r :
  n ≠ "" →
  ∃ k s', (key ← new_key; SaveUser (MkUser n key r) ;; mret key) s = (Ret k, s') ∧
    users s' = <[n := (sha k, r)]> (users s).
Proof.
  intros Hn. run_m. rewrite /new_key /SaveUser. pose proof (UUID_law s) as Hu.
  destruct (UUID s) as [k s1]. simpl in *.
  pose proof (insert_user_law n (sha k) r s1) as Hi. case_decide; [done|].
  destruct Hi as (s2 & -> & Hs2). exists k, s2. by rewrite Hs2 Hu.
Qed.

Lemma CreateUser_run s n r :
  n ≠ "" → users s !! n = None →
  ∃ k s', CreateUser n r s = (Ret k, s') ∧ users s' = <[n := (sha k, r)]> (users s).
Proof.
  intros Hn Hnew. destruct (save_new_key_run s n r Hn) as (k & s' & Hrun & Hs').
  exists k, s'. split; [|done]. rewrite /CreateUser {1}/mbind /M_mbind userExist_run //.
  by rewrite Hnew /= Hrun.
Qed.
End facts.
End CassandraUserStorage.

(** ** In development mode *)
Module NoopUserStorage.
Definition storage : Type := unit.
#[export] Instance ops : UserStorage storage := {
  SaveUser _ := mret tt;
  GetUser _ := mret None;
  CheckKey _ _ := mret true;
  IsAdmin _ := mret true;
  CreateUser _ _ := mret "";
  RefreshToken _ := mret ""
}.
End NoopUserStorage.

Section theorems.
Context {db : Type} `{UserTableLaws db}.
Import CassandraUserStorage.
Implicit Types (s : db).

(** Creating a user: an existing name is refused and nothing changes;
    otherwise the returned key authenticates the new user, any other key does
    so only if it has the same digest, the user has the role asked for, and
    no other user is affected. *)
Theorem CreateUser_correct s n r :
  n ≠ "" →
  match users s !! n with
  | Some _ => CreateUser n r s = (Err (Errorf ("User '" +:+ n +:+ "' already exists")), s)
  | None => ∃ k s', CreateUser n r s = (Ret k, s') ∧
      CheckKey n k s' = (Ret true, s') ∧
      (∀ k', CheckKey n k' s' = (Ret (String.eqb (sha k) (sha k')), s')) ∧
      IsAdmin n s' = (Ret (r =? UserAdmin), s') ∧
      ∀ m, m ≠ n → users s' !! m = users s !! m
  end.
Proof.
  intros Hn. destruct (users s !! n) as [u|] eqn:E.
  - rewrite /CreateUser {1}/mbind /M_mbind userExist_run //. by rewrite E.
  - destruct (CreateUser_run s n r Hn E) as (k & s' & Hrun & Hs'). exists k, s'.
    assert (∀ k', CheckKey n k' s' = (Ret (String.eqb (sha k) (sha k')), s')) as Hck.
    { intros k'. pose proof (CheckKey_run s' n k') as Hc.
      rewrite /checked Hs' lookup_insert_eq in Hc. by case_decide. }
    split_and!; [done| |done| |].
    + by rewrite Hck String.eqb_refl.
    + pose proof (IsAdmin_run s' n) as Ha.
      rewrite /admin_of Hs' lookup_insert_eq in Ha. by case_decide.
    + intros m Hm. by rewrite Hs' lookup_insert_ne.
Qed.

(** Refreshing a token: an unknown user is refused; otherwise the returned
    key authenticates the user, the role is kept, no other user is affected,
    and every key whose digest differs from the new one's - the old key with
    it - stops working. *)
Theorem RefreshToken_correct s n :
  n ≠ "" →
  match users s !! n with
  | None => RefreshToken n s = (Err (Errorf ("User '" +:+ n +:+ "' does not exist")), s)
  | Some (_, r) => ∃ k s', RefreshToken n s = (Ret k, s') ∧
      CheckKey n k s' = (Ret true, s') ∧
      (∀ k', sha k' ≠ sha k → CheckKey n k' s' = (Ret false, s')) ∧
      IsAdmin n s' = (Ret (r =? UserAdmin), s') ∧
      ∀ m, m ≠ n → users s' !! m = users s !! m
  end.
Proof.
  intros Hn. destruct (users s !! n) as [[h r]|] eqn:E.
  - destruct (save_new_key_run s n r Hn) as (k & s' & Hrun & Hs'). exists k, s'.
    assert (∀ k', CheckKey n k' s' = (Ret (String.eqb (sha k) (sha k')), s')) as Hck.
    { intros k'. pose proof (CheckKey_run s' n k') as Hc.
      rewrite /checked Hs' lookup_insert_eq in Hc. by case_decide. }
    split_and!.
    + rewrite /RefreshToken {1}/mbind /M_mbind userExist_run // E /=.
      rewrite /GetUser. run_m. pose proof (select_user_law n s) as Hsel. case_decide; [done|].
      rewrite Hsel E /=. run_m_in Hrun. by destruct (new_key s) as [[]].
    + by rewrite Hck String.eqb_refl.
    + intros k' Hk'. rewrite Hck. destruct (String.eqb_spec (sha k) (sha k')); [congruence|done].
    + pose proof (IsAdmin_run s' n) as Ha.
      rewrite /admin_of Hs' lookup_insert_eq in Ha. by case_decide.
    + intros m Hm. by rewrite Hs' lookup_insert_ne.
  - rewrite /RefreshToken {1}/mbind /M_mbind userExist_run //. by rewrite E.
Qed.

(** The first start creates the administrator and returns the key to print;
    a later start creates nobody. *)
Theorem Init_creates_admin_once s :
  if decide (users s = ∅) then
    ∃ k s', Init s = (Ret k, s') ∧ CheckKey "admin" k s' = (Ret true, s') ∧
      IsAdmin "admin" s' = (Ret true, s') ∧ dom (users s') = {["admin"]} ∧
      ∃ s'', Init s' = (Ret "", s'') ∧ users s'' = users s'
  else ∃ s', Init s = (Ret "", s') ∧ users s' = users s.
Proof.
  assert (∀ s, users s ≠ ∅ → ∃ s', Init s = (Ret "", s') ∧ users s' = users s) as Hlater.
  { intros s0 Hne. destruct (create_users_law s0) as (s1 & Hc & Hs1).
    exists s1. split; [|done]. rewrite /Init /isEmpty. run_m. rewrite Hc count_users_law Hs1.
    assert (size (users s0) ≠ 0%nat) by by rewrite map_size_empty_iff.
    by destruct (size (users s0)). }
  case_decide as He; [|by apply Hlater].
  destruct (create_users_law s) as (s1 & Hc & Hs1).
  destruct (CreateUser_run s1 "admin" UserAdmin) as (k & s2 & Hrun & Hs2);
    [done|by rewrite Hs1 He|].
  exists k, s2. split_and!.
  - rewrite /Init /isEmpty. run_m. rewrite Hc count_users_law Hs1 He /createAdmin.
    by rewrite map_size_empty.
  - pose proof (CheckKey_run s2 "admin" k) as Hk.
    by rewrite /checked Hs2 lookup_insert_eq /= String.eqb_refl in Hk.
  - pose proof (IsAdmin_run s2 "admin") as Ha. by rewrite /admin_of Hs2 lookup_insert_eq in Ha.
  - rewrite Hs2 Hs1 He. set_solver.
  - apply Hlater. rewrite Hs2. apply insert_non_empty.
Qed.
End theorems.

(** ** A concrete table, with a counter for keys *)
Module ConcreteUsers.
Record table : Type := MkTable { tb_users : gmap string (string * Z); tb_next : Z }.
Definition empty_key : error := Errorf "Key may not be empty".

#[export] Instance table_ops : UserTable table := {
  create_users := mret tt;
  insert_user n k r := λ s,
    if decide (n = "") then (Err empty_key, s)
    else (Ret tt, MkTable (<[n := (k, r)]> (tb_users s)) (tb_next s));
  select_user n := λ s,
    if decide (n = "") then (Err empty_key, s)
    else (match tb_users s !! n with
          | Some (k, r) => Ret (n, k, r)
          | None => Err (Errorf "not found")
          end, s);
  count_users := λ s, (Ret (Z.of_nat (size (tb_users s))), s);
  count_user n := λ s,
    if decide (n = "") then (Err empty_key, s)
    else (Ret (if tb_users s !! n is Some _ then 1 else 0), s);
  UUID s := ("key-" +:+ Itoa (tb_next s), MkTable (tb_users s) (tb_next s + 1))
}.

#[export] Instance table_laws : UserTableLaws table.
Proof.
  refine {| users := tb_users |}; simpl.
  - intros s. by exists s.
  - intros n k r s. case_decide; by eexists.
  - intros n s. case_decide; [by eexists|done].
  - done.
  - intros n s. case_decide; [by eexists|done].
  - done.
Defined.

Import CassandraUserStorage.
Definition ex_users : table := (Init (MkTable ∅ 1)).2.

Lemma CreateUser_correct_witness :
  ∃ k s', CreateUser "bob" UserRegular ex_users = (Ret k, s') ∧
    CheckKey "bob" k s' = (Ret true, s') ∧ IsAdmin "bob" s' = (Ret false, s').
Proof.
  destruct (CreateUser_correct ex_users "bob" UserRegular) as (k & s' & Hrun & Hk & _ & Ha & _);
    [done|]. exists k, s'. split_and!; [exact Hrun|exact Hk|exact Ha].
Defined.

Lemma RefreshToken_correct_witness :
  ∃ k s', RefreshToken "admin" ex_users = (Ret k, s') ∧
    CheckKey "admin" k s' = (Ret true, s') ∧ IsAdmin "admin" s' = (Ret true, s') ∧
    (sha "key-1" ≠ sha k → CheckKey "admin" "key-1" s' = (Ret false, s')).
Proof.
  pose proof (RefreshToken_correct ex_users "admin" ltac:(done)) as Hr.
  assert (users ex_users !! "admin" = Some (sha "key-1", UserAdmin)) as He by by vm_compute.
  rewrite He in Hr. destruct Hr as (k & s' & Hrun & Hk & Hold & Ha & _).
  exists k, s'. split_and!; [exact Hrun|exact Hk|exact Ha|apply Hold].
Defined.
End ConcreteUsers.
