(* ===== verification/MesosState.v ===== *)
(** [framework/mesos_state.go]: what the server knows of the Mesos cluster.
    The state is fetched over HTTP, a parameter here, and decoded from
    JSON. *)
From S2P Require Import Prelude GoStrings Errors Json Data Strconv.
Open Scope string_scope.
Open Scope list_scope.
Open Scope Z_scope.

(** The fields of a slave that are read. *)
Record Slave : Type := MkSlave {
  sl_Active : bool;
  sl_Attributes : gmap string string;
  sl_Hostname : string;
  sl_ID : string;
  sl_PID : string
}.

(** [(s *Slave) Attribute]. *)
Definition Attribute (name : string) (s : Slave) : string :=
  if String.eqb name "hostname" then sl_Hostname s
  else default "" (sl_Attributes s !! name).

Record MesosClusterState : Type := MkMesosClusterState {
  ActivatedSlaves : float64;
  Slaves : list Slave;
  master : string
}.

Definition NewMesosClusterState (m : string) : MesosClusterState :=
  let m := if HasPrefix m "http://" then m else "http://" +:+ m in
  let m := if HasSuffix m "/" then take_str (String.length m - 1)%nat m else m in
  MkMesosClusterState float_zero [] m.

(** The interface [MesosState]: what applications ask of it. *)
Record MesosState : Type := MkMesosState {
  GetActivatedSlaves : Z;
  GetSlaves : list Slave
}.
Definition cluster_view (ms : MesosClusterState) : MesosState :=
  MkMesosState (float_to_int (ActivatedSlaves ms)) (Slaves ms).

(** A slave in a list is a struct, not a pointer: [null] is the zero slave. *)
Definition decode_slave (fs : list (string * json)) : result Slave :=
  active ← decode_bool (member_or_null "active" fs);
  attributes ← decode_map decode_string (member_or_null "attributes" fs);
  hostname ← decode_string (member_or_null "hostname" fs);
  id ← decode_string (member_or_null "id" fs);
  pid ← decode_string (member_or_null "pid" fs);
  _ ← decode_map Ret (member_or_null "resources" fs);
  Ret (MkSlave active attributes hostname id pid).
Definition zero_slave : Slave := MkSlave false ∅ "" "" "".

Section update.
(** [http_get url]: the body of the response, decoded as JSON where it is
    JSON. *)
Context (http_get : string → result (option json)).

(** [Update]: on an error nothing the caller goes on to use has changed. *)
Definition Update (ms : MesosClusterState) : result MesosClusterState :=
  body ← http_get (master ms +:+ "/master/state.json");
  match body with
  | None => Err (Errorf "invalid character")
  | Some JNull => Ret ms
  | Some (JObj fs) =>
      activated ← match member "activated_slaves" fs with
                  | None | Some JNull => Ret (ActivatedSlaves ms)
                  | Some j => decode_float j
                  end;
      slaves ← match member "slaves" fs with
               | None => Ret (Slaves ms)
               | Some j => decode_list (λ j, default zero_slave <$> decode_pointer decode_slave j) j
               end;
      Ret (MkMesosClusterState activated slaves (master ms))
  | Some _ => Err (Errorf "json: cannot unmarshal into Go value of type struct")
  end.
End update.

Example Update_ex :
  (λ ms, (cluster_view ms, master ms)) <$>
    Update (λ url, Ret (Some (JObj [("slaves", JArr [JObj [("hostname", JStr url)]]);
                                    ("activated_slaves", JNum "1.0")])))
           (NewMesosClusterState "m:5050/")
  = Ret (MkMesosState 1 [MkSlave false ∅ "http://m:5050/master/state.json" "" ""], "http://m:5050").
Proof. reflexivity. Qed.
