(* ===== verification/MesosRunner.v ===== *)
(** What the scheduler and the Mesos task runners share: offers and status
    updates, the scheduler driver, the cron service, and the interface
    [MesosTaskRunner] of [framework/task_runner.go].

    The driver is a log of the calls made to it and an oracle that answers
    them. *)
From S2P Require Import Prelude GoStrings Errors Data Constraints MesosState.
From Stdlib Require Import Lia.
Open Scope string_scope.
Open Scope list_scope.

Inductive TaskState : Type :=
| TASK_STAGING
| TASK_STARTING
| TASK_RUNNING
| TASK_FINISHED
| TASK_FAILED
| TASK_KILLED
| TASK_LOST
| TASK_ERROR.
#[export] Instance TaskState_eq_dec : EqDecision TaskState.
Proof. solve_decision. Defined.
Definition TaskState_String (s : TaskState) : string :=
  match s with
  | TASK_STAGING => "TASK_STAGING"
  | TASK_STARTING => "TASK_STARTING"
  | TASK_RUNNING => "TASK_RUNNING"
  | TASK_FINISHED => "TASK_FINISHED"
  | TASK_FAILED => "TASK_FAILED"
  | TASK_KILLED => "TASK_KILLED"
  | TASK_LOST => "TASK_LOST"
  | TASK_ERROR => "TASK_ERROR"
  end.

(** A status update, its optional strings read by their getters. *)
Record TaskStatus : Type := MkTaskStatus {
  ts_TaskId : string;
  ts_State : TaskState;
  ts_Message : string
}.

(** A task to launch. [ti_Uris] is [None] for a nil slice; every URI is
    extracted. *)
Record TaskInfo : Type := MkTaskInfo {
  ti_Name : string;
  ti_TaskId : string;
  ti_SlaveId : string;
  ti_Cpus : float64;
  ti_Mem : float64;
  ti_Command : string;
  ti_Uris : option (list string)
}.

(** [utils.GetScalarResources]. *)
Definition GetScalarResources (offer : Offer) (resourceName : string) : float64 :=
  foldl (λ resources res, float_add resources (default float_zero (res_Scalar res))) float_zero
    (filter (λ res, default "" (res_Name res) = resourceName) (off_Resources offer)).

(** Calls of the driver; [RefuseSeconds] is always 10. *)
Inductive driver_call : Type :=
| LaunchTasks (offer : string) (task : TaskInfo)
| DeclineOffer (offer : string)
| ReviveOffers.
Abbreviation driver := (list driver_call).

(** What [LaunchTasks] answers, and random identifiers. *)
Class Driver := {
  LaunchTasks_error : driver → option error;
  new_UUID : driver → string
}.

(** ** The cron service

    A job is one of the two closures the program schedules: stage an
    application, or schedule another job. [AddFunc] gives an identifier and
    maybe an error. *)
Inductive job : Type :=
| StageJob (application : Application)
| AddJob (spec : string) (j : job).
Class CronScheduler (C : Type) := {
  AddFunc : string → job → C → Z * option error * C;
  DeleteJob : Z → C → C;
  Entries : C → list (Z * string * job)
}.
(** A schedule that parses becomes an entry with an identifier in use by no
    other; deleting removes the entry with that identifier. *)
Class CronSchedulerLaws (C : Type) `{CronScheduler C} := {
  valid_spec : string → bool;
  AddFunc_law spec j c : let '(id, e, c') := AddFunc spec j c in
    if valid_spec spec then e = None ∧ (id ∉ ((Entries c).*1).*1) ∧
      Entries c' = Entries c ++ [(id, spec, j)]
    else e ≠ None ∧ id = (-1)%Z ∧ Entries c' = Entries c;
  DeleteJob_law id c :
    Entries (DeleteJob id c) =
      filter (λ e, e.1.1 ≠ id) (Entries c)
}.

(** ** The interface of a runner

    [R] is its state. A channel of statuses is a number; [statuses] are the
    sends on the channels so far, in order. *)
Class MesosTaskRunner (R : Type) := {
  StageApplication : Application → MesosState → M R error nat;
  ResourceOffer : Offer → M (R * driver) error string;
  StatusUpdate : TaskStatus → M R error bool;
  statuses : R → list (nat * option error)
}.
(** The part of it that talks to the cron service. The channel of a scheduled
    application has a status in its buffer from the start. *)
Class MesosCronRunner (R C : Type) := {
  ScheduleApplication : R → Application → C → Z * C;
  DeleteSchedule : R → Z → C → C
}.

(** What the scheduler expects of a runner's answer to an offer: no reason to
    decline it means that it was used, an error that the runner tried to. *)
Class MesosTaskRunnerLaws (R : Type) `{MesosTaskRunner R} := {
  ResourceOffer_law offer r d :
    let '(o, (_, d')) := ResourceOffer offer (r, d) in
    match o with
    | Ret "" | Err _ => ∃ task, d' = d ++ [LaunchTasks (off_Id offer) task]
    | Ret _ | Panic _ => d' = d
    end
}.
