(* ===== verification/Application.v ===== *)
(** [framework/application.go] up to running an application, and the Marathon
    side of [framework/docker.go]: validation, dependencies, the number of
    instances, variables, and the application sent to Marathon. *)
From S2P Require Import Prelude GoStrings Errors Json Variables Data Constraints MesosState.
From Stdlib Require Import Lia.
Open Scope string_scope.
Open Scope list_scope.

(** The task runners registered at start, by application type. *)
Class Runners := {
  TaskRunners : gset string;
  MesosTaskRunners : gset string
}.

Section validation.
Context `{Regexp} `{Runners}.

Definition Validate (a : Application) : result unit :=
  if String.eqb (App.Typ a) "" then Err ErrApplicationNoType else
  if (0 <? length (App.Tasks a))%nat && negb (bool_decide (App.Typ a ∈ TaskRunners))
  then Err ErrApplicationNoTaskRunner else
  if String.eqb (App.ID a) "" then Err ErrApplicationNoID else
  if float_le (App.Cpu a) float_zero then Err ErrApplicationInvalidCPU else
  if float_le (App.Mem a) float_zero then Err ErrApplicationInvalidMem else
  (if negb (String.eqb (App.Instances a) "") && negb (String.eqb (App.Instances a) "all") then
     match Atoi (App.Instances a) with
     | None => Err ErrApplicationInvalidInstances
     | Some instances =>
         if (instances <? 1)%Z then Err ErrApplicationInvalidInstances else Ret tt
     end
   else Ret tt) ≫= λ _,
  _ ← ParseConstraints (App.Constraints a);
  Ret tt.

(** [runningApps] maps an application's ID to its status. *)
Definition IsDependencySatisfied (a : Application)
    (runningApps : gmap string ApplicationStatus) : bool :=
  forallb (λ dependency,
    match runningApps !! dependency with
    | Some status => bool_decide (status = ApplicationStatusRunning)
    | None => false
    end) (App.Dependencies a).
End validation.

(** ** The number of instances *)
Section instances.
Context `{ord : MapOrder} `{Regexp}.

(** Parse errors were excluded by [Validate]. *)
Definition GetConstraints (a : Application) : result (gmap string (list Constraint)) :=
  match ParseConstraints (App.Constraints a) with
  | Ret c => Ret c
  | Err e => Panic (Error e)
  | Panic p => Panic p
  end.

Definition otherSlavesAttributes (slaves : list Slave) (name : string) : list string :=
  filter (λ attribute, attribute ≠ "") (Attribute name <$> slaves).

Definition slaveMatches (constraints : gmap string (list Constraint)) (slave : Slave)
    (otherSlaves : list Slave) : bool :=
  forallb (λ '(attribute, attributeConstraints),
    let slaveAttribute := Attribute attribute slave in
    negb (String.eqb slaveAttribute "") &&
    forallb (λ constraint,
      Matches constraint slaveAttribute (otherSlavesAttributes otherSlaves attribute))
      attributeConstraints)
    (range 0 constraints).

(** The loop of [calculateAllInstances]. *)
Definition matching_slaves (constraints : gmap string (list Constraint))
    (slaves matching : list Slave) : list Slave :=
  foldl (λ matching slave,
    if slaveMatches constraints slave matching then matching ++ [slave] else matching)
    matching slaves.

Definition calculateAllInstances (a : Application) (mesos : MesosState) : result Z :=
  constraints ← GetConstraints a;
  if (size constraints =? 0)%nat then Ret (GetActivatedSlaves mesos)
  else Ret (Z.of_nat (length (matching_slaves constraints (GetSlaves mesos) []))).

Definition GetInstances (a : Application) (mesos : MesosState) : result Z :=
  if String.eqb (App.Instances a) "" then Ret 1%Z
  else if String.eqb (App.Instances a) "all" then calculateAllInstances a mesos
  else match Atoi (App.Instances a) with
       | Some instances => Ret instances
       | None => Panic "strconv.ParseInt: parsing"
       end.
End instances.

(** ** Variables *)
Definition reference (k : string) : string := "${" +:+ k +:+ "}".
Definition resolve (k v s : string) : string := Replace s (reference k) v.

Section variables.
Context `{ord : MapOrder}.

(** [resolveCmdVariables]; [d] numbers its executions: Go may visit the
    variables in another order each time. *)
Definition resolveCmdVariables (d : nat) (context : Variables) (commands : list string) :
    list string :=
  foldl (λ commands '(k, v), resolve k v <$> commands) commands (range d (All context)).

Definition not_a_MapSlice : string :=
  "interface conversion: interface {} is not yaml.MapSlice".

(** The values of one task become strings; a task without a value is left. *)
Definition resolve_task (k v : string) (task : yaml_value * yaml_value) :
    result (yaml_value * yaml_value) :=
  match task.2 with
  | YNil => Ret task
  | YMap items =>
      Ret (task.1, YMap ((λ '(key, value), (key, YString (resolve k v (Sprint value)))) <$> items))
  | _ => Panic not_a_MapSlice
  end.
Fixpoint resolve_tasks (k v : string) (tasks : MapSlice) : result MapSlice :=
  match tasks with
  | [] => Ret []
  | task :: tasks' =>
      task ← resolve_task k v task;
      tasks' ← resolve_tasks k v tasks';
      Ret (task :: tasks')
  end.

(** One iteration of the loop of [resolveVariables]. *)
Definition resolve_application (d : nat) (context : Variables) (k v : string)
    (a : Application) : result Application :=
  tasks ← resolve_tasks k v (App.Tasks a);
  Ret {| App.Typ := App.Typ a; App.ID := App.ID a; App.Version := App.Version a;
         App.Cpu := App.Cpu a; App.Mem := App.Mem a; App.Ports := App.Ports a;
         App.Instances := App.Instances a; App.Constraints := App.Constraints a;
         App.User := App.User a; App.Healthcheck := App.Healthcheck a;
         App.LaunchCommand := resolve k v (App.LaunchCommand a);
         App.Args := resolve k v <$> App.Args a;
         App.Env := resolve k v <$> App.Env a;
         App.ArtifactURLs := App.ArtifactURLs a;
         App.AdditionalArtifacts := App.AdditionalArtifacts a;
         App.Scheduler := resolve k v <$> App.Scheduler a;
         App.Tasks := tasks;
         App.Dependencies := App.Dependencies a; App.DockerSpec := App.DockerSpec a;
         App.StartTime := App.StartTime a; App.TimeSchedule := App.TimeSchedule a;
         App.BeforeScheduler := resolveCmdVariables (5 * d + 1) context (App.BeforeScheduler a);
         App.AfterScheduler := resolveCmdVariables (5 * d + 2) context (App.AfterScheduler a);
         App.BeforeTask := resolveCmdVariables (5 * d + 3) context (App.BeforeTask a);
         App.AfterTask := resolveCmdVariables (5 * d + 4) context (App.AfterTask a);
         App.AfterTasks := resolveCmdVariables (5 * d + 5) context (App.AfterTasks a) |}.

Fixpoint resolve_loop (d : nat) (context : Variables) (l : list (string * string))
    (a : Application) : result Application :=
  match l with
  | [] => Ret a
  | (k, v) :: l' => a ← resolve_application d context k v a; resolve_loop (S d) context l' a
  end.
Definition resolveVariables (context : Variables) (a : Application) : result Application :=
  resolve_loop 0 context (range 0 (All context)) a.
End variables.

(** The arguments of [ensureVariablesResolved]; a value of another type is not
    looked at. *)
Inductive checked_value : Type :=
| CString (s : string)
| CStrings (l : list string)
| CMap (m : gmap string string)
| CYaml (y : yaml_value)
| COther.

Section ensure.
Context `{ord : MapOrder}.
(** [Variables.String], the text of the JSON form. *)
Context (MarshalIndent : json → string).

Definition Variables_String (context : Variables) : string :=
  MarshalIndent (MarshalJSON context).

Definition ensureStringVariableResolved (context : Variables) (value : string) : result unit :=
  let unresolved := find_variable value in
  if String.eqb unresolved "" then Ret tt
  else Err (Errorf ("Unresolved variable " +:+ unresolved +:+ ". Available variables:" +:+
                    String newline (Variables_String context))).

Definition ensure_strings (context : Variables) (l : list string) : result unit :=
  foldr (λ s k, ensureStringVariableResolved context s ≫= λ _, k) (Ret tt) l.

(** A mapping's values: strings and, recursively, mappings. *)
Fixpoint ensure_yaml (context : Variables) (y : yaml_value) : result unit :=
  match y with
  | YString s => ensureStringVariableResolved context s
  | YMap items =>
      foldr (λ '(_, value) k, ensure_yaml context value ≫= λ _, k) (Ret tt) items
  | _ => Ret tt
  end.

Definition ensure_value (context : Variables) (value : checked_value) : result unit :=
  match value with
  | CString s => ensureStringVariableResolved context s
  | CStrings l => ensure_strings context l
  | CMap m => ensure_strings context (range 0 m).*2
  | CYaml y => ensure_yaml context y
  | COther => Ret tt
  end.
Definition ensureVariablesResolved (context : Variables) (values : list checked_value) :
    result unit :=
  foldr (λ value k, ensure_value context value ≫= λ _, k) (Ret tt) values.
End ensure.

(** ** The application sent to Marathon

    The fields of go-marathon's structs that the code sets. *)
Record PortMapping : Type := MkPortMapping {
  pm_ContainerPort : Z; pm_HostPort : Z; pm_ServicePort : Z; pm_Protocol : string }.
Record Volume : Type := MkVolume {
  vol_ContainerPath : string; vol_HostPath : string; vol_Mode : string }.
Record Container : Type := MkContainer {
  ct_Type : string;
  ct_ForcePullImage : bool;
  ct_Image : string;
  ct_Network : string;
  ct_Parameters : list (string * string);
  ct_PortMappings : list PortMapping;
  ct_Privileged : bool;
  ct_Volumes : list Volume
}.
Record HealthCheck : Type := MkHealthCheck {
  hc_Protocol : string;
  hc_Path : string;
  hc_GracePeriodSeconds : Z;
  hc_IntervalSeconds : Z;
  hc_PortIndex : Z;
  hc_MaxConsecutiveFailures : Z;
  hc_TimeoutSeconds : Z
}.
Record MarathonApplication : Type := MkMarathonApplication {
  ma_ID : string;
  ma_Cmd : option string;
  ma_Args : list string;
  ma_Env : gmap string string;
  ma_Instances : Z;
  ma_CPUs : float64;
  ma_Mem : float64;
  ma_Ports : list Z;
  ma_RequirePorts : bool;
  ma_Uris : list string;
  ma_User : string;
  ma_HealthChecks : list HealthCheck;
  ma_Constraints : list (list string);
  ma_Labels : gmap string string;
  ma_Container : option Container
}.

Definition DockerPortMapping_Marathon (dpm : DockerPortMapping) : PortMapping :=
  MkPortMapping (dpm_ContainerPort dpm) (dpm_HostPort dpm) (dpm_ServicePort dpm)
    (dpm_Protocol dpm).
Definition DockerVolume_Marathon (dv : DockerVolume) : Volume :=
  MkVolume (dv_ContainerPath dv) (dv_HostPath dv) (dv_Mode dv).

Section marathon.
Context `{ord : MapOrder} `{Regexp}.

(** A nil slice and an empty one are the same list. *)
Definition marathonParameters (d : Docker) : list (string * string) := range 0 (d_Parameters d).
Definition marathonPortMappings (d : Docker) : list PortMapping :=
  DockerPortMapping_Marathon <$> d_PortMappings d.
Definition marathonVolumes (d : Docker) : list Volume := DockerVolume_Marathon <$> d_Volumes d.
Definition MarathonContainer (d : Docker) : Container :=
  MkContainer "DOCKER" (d_ForcePullImage d) (d_Image d) (d_Network d) (marathonParameters d)
    (marathonPortMappings d) (d_Privileged d) (marathonVolumes d).
Definition getContainer (a : Application) : option Container :=
  MarathonContainer <$> App.DockerSpec a.

Definition getLabelsFromContext (context : Variables) : gmap string string :=
  foldl (λ labels key,
    match Get key context with
    | Ret val => if String.eqb val "" then labels else <[key := val]> labels
    | _ => labels
    end) ∅ ["zone"; "stack"].

Definition getLaunchCommand (a : Application) : option string :=
  let cmd := foldl (λ cmd '(k, v), cmd +:+ " --" +:+ k +:+ " " +:+ v)
               (App.LaunchCommand a) (range 0 (App.Scheduler a)) in
  if String.eqb cmd "" then None else Some cmd.

Definition getEnv (a : Application) (context : Variables) : gmap string string :=
  let labelStrings := (λ '(key, val), key +:+ "=" +:+ val)
                        <$> range 0 (getLabelsFromContext context) in
  let stackLabels := Join labelStrings ";" in
  let env := if String.eqb stackLabels "" then ∅ else {["STACK_LABELS" := stackLabels]} in
  insert_all (range 1 (App.Env a)) env.

Definition getHealthchecks (a : Application) : list HealthCheck :=
  if String.eqb (App.Healthcheck a) "" then []
  else [MkHealthCheck "HTTP" (App.Healthcheck a) 120 10 0 18 30].

Definition createApplication (a : Application) (context : Variables) (mesos : MesosState) :
    result MarathonApplication :=
  let launchCommand := getLaunchCommand a in
  let env := getEnv a context in
  instances ← GetInstances a mesos;
  Ret {| ma_ID := App.ID a;
         ma_Cmd := launchCommand;
         ma_Args := App.Args a;
         ma_Env := env;
         ma_Instances := instances;
         ma_CPUs := App.Cpu a;
         ma_Mem := App.Mem a;
         ma_Ports := App.Ports a;
         ma_RequirePorts := (0 <? length (App.Ports a))%nat;
         ma_Uris := App.ArtifactURLs a ++ App.AdditionalArtifacts a;
         ma_User := App.User a;
         ma_HealthChecks := getHealthchecks a;
         ma_Constraints := App.Constraints a;
         ma_Labels := getLabelsFromContext context;
         ma_Container := getContainer a |}.
End marathon.

(** ** Validation *)
Section validation_facts.
Context `{Regexp} `{Runners}.

Definition valid_instances (s : string) : Prop :=
  s = "" ∨ s = "all" ∨ ∃ n, Atoi s = Some n ∧ (1 ≤ n)%Z.

Lemma Validate_ok a :
  Validate a = Ret tt ↔
    App.Typ a ≠ "" ∧ (App.Tasks a ≠ [] → App.Typ a ∈ TaskRunners) ∧ App.ID a ≠ "" ∧
    float_le (App.Cpu a) float_zero = false ∧ float_le (App.Mem a) float_zero = false ∧
    valid_instances (App.Instances a) ∧ ∃ c, ParseConstraints (App.Constraints a) = Ret c.
Proof.
  rewrite /Validate /valid_instances.
  destruct (String.eqb_spec (App.Typ a) "") as [Ht|Ht]; [naive_solver|].
  case_bool_decide as Hr.
  2: destruct (App.Tasks a) as [|t ts]; simpl; [|split; [done|]; intros (_ & Hin & _); naive_solver].
  all: rewrite ?andb_false_r; simpl.
  all: destruct (String.eqb_spec (App.ID a) "") as [Hi|Hi]; [naive_solver|].
  all: destruct (float_le (App.Cpu a) float_zero); [naive_solver|].
  all: destruct (float_le (App.Mem a) float_zero); [naive_solver|].
  all: destruct (String.eqb_spec (App.Instances a) "") as [He|He]; simpl;
    [destruct (ParseConstraints _); naive_solver|].
  all: destruct (String.eqb_spec (App.Instances a) "all") as [Ha|Ha]; simpl;
    [destruct (ParseConstraints _); naive_solver|].
  all: destruct (Atoi (App.Instances a)) as [n|]; simpl; [|naive_solver].
  all: destruct (Z.ltb_spec n 1); simpl; [split; [done|]; intros (?&?&?&?&?&Hv&?);
    destruct Hv as [?|[?|(m & [= ->] & ?)]]; [done|done|lia]|].
  all: destruct (ParseConstraints _); naive_solver.
Qed.
End validation_facts.

Section theorems.
Context `{ord : MapOrder} `{Regexp} `{Runners}.

Lemma GetInstances_valid a mesos c :
  valid_instances (App.Instances a) → ParseConstraints (App.Constraints a) = Ret c →
  ∃ n, GetInstances a mesos = Ret n ∧ (App.Instances a ≠ "all" → (1 ≤ n)%Z).
Proof.
  intros Hv Hc. rewrite /GetInstances /calculateAllInstances /GetConstraints Hc.
  destruct Hv as [->|[->|(n & Hn & Hpos)]]; simpl.
  - by exists 1%Z.
  - destruct (size c =? 0)%nat; by eexists.
  - destruct (String.eqb_spec (App.Instances a) ""); [by exists 1%Z|].
    destruct (String.eqb_spec (App.Instances a) "all"); [|rewrite Hn; by exists n].
    destruct (size c =? 0)%nat; by eexists.
Qed.

(** [Validate] accepts exactly the applications with a type - one that has
    a task runner when there are tasks -, an ID, a CPU and a memory that are
    not at most zero (a NaN is not), a count of instances that is empty,
    [all] or a positive 64-bit number, and constraints that parse; and for
    those the number of instances is always defined, positive when it is a
    number, and the constraints never panic. *)
Theorem Validate_spec a :
  (Validate a = Ret tt ↔
    App.Typ a ≠ "" ∧ (App.Tasks a ≠ [] → App.Typ a ∈ TaskRunners) ∧ App.ID a ≠ "" ∧
    float_le (App.Cpu a) float_zero = false ∧ float_le (App.Mem a) float_zero = false ∧
    valid_instances (App.Instances a) ∧ ∃ c, ParseConstraints (App.Constraints a) = Ret c) ∧
  (Validate a = Ret tt → ∀ mesos,
    (∃ c, GetConstraints a = Ret c) ∧
    ∃ n, GetInstances a mesos = Ret n ∧ (App.Instances a ≠ "all" → (1 ≤ n)%Z)).
Proof.
  split; [apply Validate_ok|].
  intros (_ & _ & _ & _ & _ & Hv & c & Hc)%Validate_ok mesos. split.
  - exists c. by rewrite /GetConstraints Hc.
  - by eapply GetInstances_valid.
Qed.

(** ** All instances *)
Lemma slaveMatches_spec C s others :
  slaveMatches C s others = true ↔
    ∀ attribute cs, C !! attribute = Some cs →
      Attribute attribute s ≠ "" ∧
      ∀ c, c ∈ cs → Matches c (Attribute attribute s) (otherSlavesAttributes others attribute) = true.
Proof.
  rewrite /slaveMatches forallb_forall. split.
  - intros Hall attribute cs Hc.
    specialize (Hall (attribute, cs)). simpl in Hall.
    assert (In (attribute, cs) (range 0 C)) as Hin by by apply list_elem_of_In, elem_of_range.
    apply Hall in Hin. apply andb_true_iff in Hin as [Hne Hm].
    split; [by destruct (String.eqb_spec (Attribute attribute s) "")|].
    intros c Hin. rewrite forallb_forall in Hm. apply Hm. by apply list_elem_of_In.
  - intros Hall [attribute cs] Hin%list_elem_of_In%elem_of_range.
    destruct (Hall attribute cs Hin) as [Hne Hm]. apply andb_true_iff. split.
    + by destruct (String.eqb_spec (Attribute attribute s) "").
    + apply forallb_forall. intros c Hc%list_elem_of_In. by apply Hm.
Qed.

(** A list of slaves that satisfies the constraints, one placed after the
    other. *)
Definition placement (C : gmap string (list Constraint)) (ms : list Slave) : Prop :=
  ∀ attribute cs, C !! attribute = Some cs →
    otherSlavesAttributes ms attribute = Attribute attribute <$> ms ∧
    ∀ c, c ∈ cs → accepted c (Attribute attribute <$> ms).

Lemma placement_snoc C ms s :
  placement C ms → slaveMatches C s ms = true → placement C (ms ++ [s]).
Proof.
  intros Hp Hs attribute cs Hc. destruct (Hp attribute cs Hc) as [Ho Ha].
  destruct (proj1 (slaveMatches_spec C s ms) Hs attribute cs Hc) as [Hne Hm]. split.
  - rewrite /otherSlavesAttributes fmap_app filter_app -/(otherSlavesAttributes ms attribute) Ho.
    by rewrite filter_cons_True.
  - intros c Hin. rewrite fmap_app. apply accepted_snoc; [by apply Ha|].
    rewrite -Ho. by apply Hm.
Qed.

Lemma matching_slaves_placement C slaves : ∀ ms,
  placement C ms → ∃ more, matching_slaves C slaves ms = ms ++ more ∧
    placement C (ms ++ more) ∧ more `sublist_of` slaves.
Proof.
  induction slaves as [|s slaves IH]; intros ms Hp; simpl.
  { exists []. rewrite app_nil_r. by split_and!. }
  destruct (slaveMatches C s ms) eqn:Hs.
  - destruct (IH (ms ++ [s])) as (more & Hrun & Hpl & Hsub); [by apply placement_snoc|].
    exists (s :: more). rewrite (_ : ms ++ s :: more = (ms ++ [s]) ++ more); [|by rewrite -app_assoc].
    split_and!; [exact Hrun|exact Hpl|by apply sublist_skip].
  - destruct (IH ms Hp) as (more & Hrun & Hpl & Hsub).
    exists more. split_and!; [done|done|by apply sublist_cons].
Qed.

(** No slave that could still be added was left out. *)
Lemma matching_slaves_maximal C slaves s : ∀ ms,
  s ∈ slaves → ∃ before, before `prefix_of` matching_slaves C slaves ms ∧
    (slaveMatches C s before = true → s ∈ matching_slaves C slaves ms).
Proof.
  assert (∀ l ms, ms `prefix_of` matching_slaves C l ms) as Hgrow.
  { induction l as [|x l IH]; intros ms; simpl; [done|].
    destruct (slaveMatches C x ms); [|done]. etrans; [apply prefix_app_r|]; [done|apply IH]. }
  induction slaves as [|x slaves IH]; intros ms Hs; [by apply elem_of_nil in Hs|].
  apply elem_of_cons in Hs as [->|Hs]; simpl; [|by apply IH].
  exists ms. split.
  - destruct (slaveMatches C x ms); [|apply Hgrow].
    etrans; [|apply Hgrow]. by apply prefix_app_r.
  - intros ->. destruct (Hgrow slaves (ms ++ [x])) as [l ->]. set_solver.
Qed.

(** [instances: all] with constraints: the number is the size of a set of
    slaves, in the order Mesos lists them, that satisfies the constraints
    when the tasks are placed in that order - every slave has every
    constrained attribute, and each constraint accepts the sequence of
    values - and every slave left out was refused against the slaves counted
    before it. Without constraints it is the number of activated slaves. *)
Theorem all_instances_fit a mesos C :
  App.Instances a = "all" → ParseConstraints (App.Constraints a) = Ret C →
  if decide (C = ∅) then GetInstances a mesos = Ret (GetActivatedSlaves mesos)
  else ∃ ms, GetInstances a mesos = Ret (Z.of_nat (length ms)) ∧
    ms `sublist_of` GetSlaves mesos ∧ placement C ms ∧
    ∀ s, s ∈ GetSlaves mesos → ∃ before, before `prefix_of` ms ∧
      (slaveMatches C s before = true → s ∈ ms).
Proof.
  intros Hall HC. rewrite /GetInstances Hall /= /calculateAllInstances /GetConstraints HC /=.
  case_decide as Hempty.
  - by rewrite Hempty map_size_empty.
  - assert ((size C =? 0)%nat = false) as ->.
    { apply Nat.eqb_neq. by rewrite map_size_empty_iff. }
    destruct (matching_slaves_placement C (GetSlaves mesos) []) as (ms & Hrun & Hp & Hsub).
    { intros attribute cs _. split; [done|]. intros c _. constructor. }
    exists ms. rewrite Hrun /=. split_and!; [done|done|exact Hp|]. intros s Hs.
    destruct (matching_slaves_maximal C (GetSlaves mesos) s [] Hs) as (before & Hb & Hin).
    exists before. by rewrite Hrun in Hb Hin.
Qed.

Definition add_label (context : Variables) (labels : gmap string string) (key : string) :=
  match Get key context with
  | Ret val => if String.eqb val "" then labels else <[key := val]> labels
  | _ => labels
  end.

Lemma add_label_lookup context labels key k v :
  labels !! key = None →
  add_label context labels key !! k = Some v ↔
    k = key ∧ Get key context = Ret v ∧ v ≠ "" ∨ labels !! k = Some v.
Proof.
  intros Hkey. rewrite /add_label. destruct (Get key context) as [x|e|p]; [|naive_solver..].
  destruct (String.eqb_spec x "") as [->|Hx]; [naive_solver|].
  rewrite lookup_insert_Some. split; [naive_solver|].
  intros [(-> & [= ->] & _)|Hl]; [by left|right]. split; [congruence|done].
Qed.

Lemma labels_lookup context k v :
  getLabelsFromContext context !! k = Some v ↔
    (k = "zone" ∨ k = "stack") ∧ Get k context = Ret v ∧ v ≠ "".
Proof.
  change (getLabelsFromContext context) with (add_label context (add_label context ∅ "zone") "stack").
  assert (add_label context ∅ "zone" !! "stack" = None) as Hs.
  { apply eq_None_not_Some. intros [x Hx].
    apply add_label_lookup in Hx as [[? _]|?]; [done|done|done]. }
  rewrite !add_label_lookup //. split.
  - intros [(-> & ? & ?)|[(-> & ? & ?)|?]]; [naive_solver..|done].
  - intros ([-> | ->] & ? & ?); [right; left|left]; done.
Qed.

(** What Marathon is asked to run, for a valid application. *)
Theorem createApplication_spec a context mesos :
  Validate a = Ret tt →
  ∃ app, createApplication a context mesos = Ret app ∧
    ma_ID app = App.ID a ∧
    GetInstances a mesos = Ret (ma_Instances app) ∧
    ma_Uris app = App.ArtifactURLs a ++ App.AdditionalArtifacts a ∧
    (ma_Cmd app = None ↔ App.LaunchCommand a = "" ∧ App.Scheduler a = ∅) ∧
    (∀ k v, App.Env a !! k = Some v → ma_Env app !! k = Some v) ∧
    (∀ k, k ≠ "STACK_LABELS" → App.Env a !! k = None → ma_Env app !! k = None) ∧
    (∀ k v, ma_Labels app !! k = Some v ↔
       (k = "zone" ∨ k = "stack") ∧ Get k context = Ret v ∧ v ≠ "").
Proof.
  intros Hv. assert (∃ n, GetInstances a mesos = Ret n) as [n Hn].
  { apply Validate_ok in Hv as (_ & _ & _ & _ & _ & Hv & c & Hc).
    destruct (GetInstances_valid a mesos c Hv Hc) as (n & Hn & _). by exists n. }
  rewrite /createApplication Hn. eexists. split; [reflexivity|]. simpl.
  split_and!; [done|done|done| | | |].
  - rewrite /getLaunchCommand. destruct (String.eqb_spec
      (foldl (λ cmd '(k, v), cmd +:+ " --" +:+ k +:+ " " +:+ v) (App.LaunchCommand a)
        (range 0 (App.Scheduler a))) "") as [He|He].
    + split; [intros _|done].
      assert (∀ l cmd, foldl (λ cmd '(k, v), cmd +:+ " --" +:+ k +:+ " " +:+ v) cmd l = "" →
        cmd = "" ∧ (l : list (string * string)) = []) as Hfold.
      { induction l as [|[k v] l IH]; intros cmd; simpl; [done|]. intros [Hc ->]%IH.
        by destruct cmd. }
      apply Hfold in He as [? ?%range_nil]. done.
    + split; [done|]. intros [Hc Hs]. exfalso. apply He.
      by rewrite Hc Hs (proj2 (range_nil 0 (∅ : gmap string string)) eq_refl).
  - intros k v Hk. rewrite /getEnv insert_all_range. by apply lookup_union_Some_l.
  - intros k Hne Hk. rewrite /getEnv insert_all_range. apply lookup_union_None. split; [done|].
    destruct (String.eqb _ ""); [apply lookup_empty|]. by apply lookup_singleton_ne.
  - intros k v. by apply labels_lookup.
Qed.
End theorems.

(** ** A concrete application *)
Section examples.
(** Patterns that match one string. *)
Definition ex_regexp : Regexp := λ regex, Ret (String.eqb regex).
Definition ex_runners : Runners := {| TaskRunners := {["kafka"]}; MesosTaskRunners := ∅ |}.
Definition ex_valid : Application :=
  App.MkApplication "kafka" "broker" "" (float_of 1 0) (float_of 512 0) [31000] "all"
    [["hostname"; "UNIQUE"]] "" "/health" "./run" [] {["A" := "b"]} ["http://u"] ["http://v"]
    {["port" := "auto"]} [] [] None "" "" [] [] [] [] [].
Definition ex_slave (host : string) : Slave := MkSlave true ∅ host "s" "p".
Definition ex_mesos : MesosState :=
  MkMesosState 4 [ex_slave "h1"; ex_slave "h2"; ex_slave "h1"; ex_slave ""].

Lemma Validate_spec_witness :
  let rx := ex_regexp in let rs := ex_runners in let ord := canonical_order in
  Validate ex_valid = Ret tt ∧
  ∃ n, GetInstances ex_valid ex_mesos = Ret n ∧ (App.Instances ex_valid ≠ "all" → (1 ≤ n)%Z).
Proof.
  intros rx rs ord. split; [by vm_compute|].
  apply (Validate_spec ex_valid). by vm_compute.
Defined.

Definition ex_constraints : gmap string (list Constraint) := {["hostname" := [Unique]]}.
Lemma ex_constraints_parse :
  ParseConstraints (rx := ex_regexp) (App.Constraints ex_valid) = Ret ex_constraints.
Proof. by vm_compute. Qed.
Lemma ex_constraints_not_empty : ex_constraints ≠ ∅.
Proof. apply map_non_empty_singleton. Qed.

Lemma all_instances_fit_witness :
  let rx := ex_regexp in let ord := canonical_order in
  (∃ ms, GetInstances ex_valid ex_mesos = Ret (Z.of_nat (length ms)) ∧
    ms `sublist_of` GetSlaves ex_mesos ∧ placement ex_constraints ms) ∧
  GetInstances ex_valid ex_mesos = Ret 2%Z.
Proof.
  intros rx ord. split; [|by vm_compute].
  pose proof (all_instances_fit ex_valid ex_mesos ex_constraints eq_refl
    ex_constraints_parse) as Hfit.
  destruct (decide (ex_constraints = ∅)) as [He|He];
    [destruct (ex_constraints_not_empty He)|].
  destruct Hfit as (ms & H1 & H2 & H3 & _).
  exists ms. split; [exact H1|]. split; [exact H2|exact H3].
Defined.

Lemma createApplication_spec_witness :
  let rx := ex_regexp in let rs := ex_runners in let ord := canonical_order in
  ∃ app, createApplication ex_valid (MkVariables {["zone" := "z1"]} ∅ ∅) ex_mesos = Ret app ∧
    ma_Uris app = ["http://u"; "http://v"] ∧ GetInstances ex_valid ex_mesos = Ret (ma_Instances app).
Proof.
  intros rx rs ord.
  destruct (createApplication_spec ex_valid (MkVariables {["zone" := "z1"]} ∅ ∅) ex_mesos)
    as (app & Hrun & _ & Hn & Hu & _); [by vm_compute|].
  exists app. split_and!; [exact Hrun|exact Hu|exact Hn].
Defined.
End examples.
