(* ===== verification/Templates.v ===== *)
(** What replacing [${name}] references one variable after the other amounts
    to: facts about [resolve] of [Application] on texts whose references are
    not nested. *)
From S2P Require Import Prelude GoStrings Variables Data Application.
From Stdlib Require Import Ascii Lia.
Open Scope string_scope.
Open Scope list_scope.

(** A text as a sequence of plain characters and references. *)
Inductive token : Type :=
| Lit (c : ascii)
| Ref (name : string).

Fixpoint text (ts : list token) : string :=
  match ts with
  | [] => ""
  | Lit c :: ts' => String c (text ts')
  | Ref name :: ts' => reference name +:+ text ts'
  end.

(** No character of [s] satisfies [p]. *)
Fixpoint free (p : ascii → bool) (s : string) : Prop :=
  match s with
  | "" => True
  | String c s' => p c = false ∧ free p s'
  end.
Definition dollar (c : ascii) : bool := Ascii.eqb c "$".
(** A name: no dollar sign and no closing brace. *)
Definition plain_name : string → Prop := free (λ c, Ascii.eqb c "$" || Ascii.eqb c "}").

Definition plain_token (t : token) : Prop :=
  match t with
  | Lit c => dollar c = false
  | Ref name => plain_name name
  end.

(** [subst f ts]: every reference to a name [f] knows becomes its value. *)
Fixpoint lits (s : string) : list token :=
  match s with "" => [] | String c s' => Lit c :: lits s' end.
Definition subst_token (f : string → option string) (t : token) : list token :=
  match t with
  | Lit c => [Lit c]
  | Ref name => match f name with Some v => lits v | None => [Ref name] end
  end.
Definition subst (f : string → option string) (ts : list token) : list token :=
  ts ≫= subst_token f.

Lemma subst_cons f t ts : subst f (t :: ts) = subst_token f t ++ subst f ts.
Proof. done. Qed.
Lemma subst_app f ts us : subst f (ts ++ us) = subst f ts ++ subst f us.
Proof. apply bind_app. Qed.

Lemma text_app ts us : text (ts ++ us) = text ts +:+ text us.
Proof.
  induction ts as [|[c|n] ts IH]; simpl; [done| |]; rewrite IH //. by rewrite str_app_assoc.
Qed.

Lemma text_lits s : text (lits s) = s.
Proof. induction s as [|c s IH]; simpl; by rewrite ?IH. Qed.

Lemma lits_plain s : free dollar s → Forall plain_token (lits s).
Proof. induction s as [|c s IH]; simpl; [by constructor|]. intros [? ?]. constructor; auto. Qed.

Lemma subst_plain f ts :
  (∀ n v, f n = Some v → free dollar v) → Forall plain_token ts → Forall plain_token (subst f ts).
Proof.
  intros Hf Hts. rewrite /subst. apply Forall_bind. eapply Forall_impl; [exact Hts|].
  intros [c|n] Ht; simpl; [by repeat constructor|].
  destruct (f n) as [v|] eqn:E; [by eapply lits_plain, Hf|by repeat constructor].
Qed.

Lemma subst_lits f s : subst f (lits s) = lits s.
Proof. induction s as [|c s IH]; [done|]. cbn [lits]. by rewrite subst_cons IH. Qed.

(** Substituting twice. *)
Lemma subst_subst f g h ts :
  (∀ n, h n = match f n with Some v => Some v | None => g n end) →
  subst g (subst f ts) = subst h ts.
Proof.
  intros Hh. induction ts as [|t ts IH]; [done|].
  rewrite !subst_cons subst_app IH. f_equal. destruct t as [c|n]; [done|].
  simpl. rewrite Hh. destruct (f n) as [v|]; [apply subst_lits|].
  by rewrite subst_cons app_nil_r.
Qed.

Lemma subst_ext f g ts : (∀ n, f n = g n) → subst f ts = subst g ts.
Proof.
  intros Hfg. rewrite /subst. apply list_bind_ext; [|done].
  intros [c|n]; simpl; [done|]. by rewrite Hfg.
Qed.

Lemma subst_none f ts : (∀ n, f n = None) → subst f ts = ts.
Proof.
  intros Hf. induction ts as [|[c|n] ts IH]; [done| |]; by rewrite subst_cons /= ?Hf IH.
Qed.

(** ** Replacing one variable *)
Lemma reference_unfold k : reference k = String "$" (String "{" (k +:+ "}")).
Proof. done. Qed.

(** Two plain names closed by a brace: one is a prefix only if they are
    equal. *)
Lemma prefix_names k j s :
  plain_name k → plain_name j → k ≠ j → String.prefix (k +:+ "}") (j +:+ "}" +:+ s) = false.
Proof.
  revert j. induction k as [|a k IH]; intros [|b j] Hk Hj Hne; [done| | |].
  - destruct Hj as [Hb _]. apply orb_false_iff in Hb as [_ Hb].
    change (String.prefix (String "}" "") (String b (j +:+ "}" +:+ s)) = false).
    by rewrite str_prefix_cons Ascii.eqb_sym Hb.
  - destruct Hk as [Ha _]. apply orb_false_iff in Ha as [_ Ha].
    change (String.prefix (String a (k +:+ "}")) (String "}" s) = false).
    by rewrite str_prefix_cons Ha.
  - destruct Hk as [_ Hk], Hj as [_ Hj].
    change (String.prefix (String a (k +:+ "}")) (String b (j +:+ "}" +:+ s)) = false).
    rewrite str_prefix_cons. destruct (Ascii.eqb_spec a b) as [->|]; [|done].
    apply IH; [done..|congruence].
Qed.

Lemma replace_skip old new n s : replace_from old new n s = replace_from old new 0 (drop_str n s).
Proof.
  revert s. induction n as [|n IH]; intros [|c s]; [done|done|done|]. simpl. apply IH.
Qed.

Lemma drop_app p s : drop_str (String.length p) (p +:+ s) = s.
Proof. by induction p. Qed.

Lemma replace_lit k v c s :
  dollar c = false → Replace (String c s) (reference k) v = String c (Replace s (reference k) v).
Proof.
  intros Hc. rewrite /Replace reference_unfold. cbn [replace_from].
  by rewrite str_prefix_cons Ascii.eqb_sym -/(dollar c) Hc.
Qed.

Lemma replace_free k v p s :
  free dollar p → Replace (p +:+ s) (reference k) v = p +:+ Replace s (reference k) v.
Proof.
  induction p as [|c p IH]; simpl; [done|]. intros [Hc Hp]. rewrite replace_lit // IH //.
Qed.

Lemma replace_same k v s : Replace (reference k +:+ s) (reference k) v = v +:+ Replace s (reference k) v.
Proof.
  assert (∀ c p, replace_from (String c p) v 0 (String c p +:+ s) =
                 v +:+ replace_from (String c p) v 0 s) as Hgen.
  { intros c p. rewrite -{1}(str_app_nil_r (String c p)).
    change (String c p +:+ s) with (String c (p +:+ s)).
    cbn [replace_from]. change (String c (p +:+ s)) with (String c p +:+ s).
    rewrite str_app_nil_r str_prefix_app replace_skip.
    replace (String.length (String c p) - 1) with (String.length p) by (simpl; lia).
    by rewrite drop_app. }
  rewrite /Replace reference_unfold. apply Hgen.
Qed.

Lemma replace_other k j v s :
  plain_name k → plain_name j → k ≠ j →
  Replace (reference j +:+ s) (reference k) v = reference j +:+ Replace s (reference k) v.
Proof.
  intros Hk Hj Hne.
  assert (free dollar (String "{" (j +:+ "}"))) as Hfree.
  { split; [done|]. clear Hne. induction j as [|c j IH]; simpl; [done|].
    destruct Hj as [Hc Hj]. apply orb_false_iff in Hc as [Hc _]. split; [done|by apply IH]. }
  change (reference j +:+ s) with (String "$" (String "{" (j +:+ "}") +:+ s)).
  rewrite /Replace. cbn [replace_from].
  assert (String.prefix (reference k) (String "$" (String "{" (j +:+ "}") +:+ s)) = false) as ->.
  { rewrite reference_unfold str_prefix_cons.
    change (String "{" (j +:+ "}") +:+ s) with (String "{" ((j +:+ "}") +:+ s)).
    rewrite str_prefix_cons -str_app_assoc. by apply prefix_names. }
  change (reference j) with (String "$" (String "{" (j +:+ "}"))).
  rewrite -/(Replace (String "{" (j +:+ "}") +:+ s) (reference k) v).
  by rewrite replace_free.
Qed.

(** One replacement is one substitution. *)
Lemma resolve_text k v ts :
  plain_name k → Forall plain_token ts →
  resolve k v (text ts) = text (subst (λ n, if decide (n = k) then Some v else None) ts).
Proof.
  intros Hk. induction 1 as [|[c|n] ts Ht _ IH]; [done| |]; rewrite subst_cons /=.
  - by rewrite /resolve replace_lit // -IH.
  - case_decide as Hn.
    + subst n. by rewrite /resolve replace_same text_app text_lits -IH.
    + by rewrite /resolve replace_other //= -IH.
Qed.

(** ** Replacing all variables, in any order *)
Definition resolve_all (l : list (string * string)) (s : string) : string :=
  foldl (λ s '(k, v), resolve k v s) s l.

(** Names and values of variables that do not look like references. *)
Definition plain_variables (m : gmap string string) : Prop :=
  ∀ k v, m !! k = Some v → plain_name k ∧ free dollar v.

Lemma resolve_all_text m l ts :
  plain_variables m → (∀ k v, (k, v) ∈ l → m !! k = Some v) → Forall plain_token ts →
  resolve_all l (text ts) = text (subst (λ n, if decide (n ∈ l.*1) then m !! n else None) ts).
Proof.
  intros Hm. revert ts. induction l as [|[k v] l IH]; intros ts Hl Hts.
  { by rewrite subst_none. }
  assert (m !! k = Some v) as Hk by (apply Hl; constructor).
  destruct (Hm k v Hk) as [Hkp Hvp].
  rewrite /resolve_all /= -/(resolve_all l _) resolve_text // IH.
  - f_equal. apply subst_subst. intros n. destruct (decide (n = k)) as [->|Hne].
    + by rewrite decide_True; [|constructor].
    + destruct (decide (n ∈ l.*1)) as [Hn|Hn].
      * by rewrite decide_True; [|constructor].
      * rewrite decide_False //. by intros [|]%elem_of_cons.
  - intros j w Hj. apply Hl. by constructor.
  - apply subst_plain; [|done]. intros n w. case_decide; [|done]. by intros [= <-].
Qed.

(** [resolves m s s']: on a text without nested references, [s'] is [s] with
    every reference to a variable of [m] replaced by its value and every
    other reference left. *)
Definition resolves (m : gmap string string) (s s' : string) : Prop :=
  ∀ ts, Forall plain_token ts → s = text ts → s' = text (subst (λ n, m !! n) ts).

Lemma resolve_all_resolves m l s :
  plain_variables m → (∀ k v, (k, v) ∈ l → m !! k = Some v) →
  (∀ k, is_Some (m !! k) → k ∈ l.*1) → resolves m s (resolve_all l s).
Proof.
  intros Hm Hl Hall ts Hts ->. rewrite (resolve_all_text m) //.
  f_equal. apply subst_ext. intros n. case_decide as Hn; [done|].
  destruct (m !! n) eqn:E; [|done]. exfalso. by apply Hn, Hall.
Qed.

(** ** [resolveVariables] as a whole *)
Section resolution.
Context `{ord : MapOrder}.

(** The lists of commands of an application. *)
Definition hooks : list (Application → list string) :=
  [App.BeforeScheduler; App.AfterScheduler; App.BeforeTask; App.AfterTask; App.AfterTasks].

Lemma resolve_all_app l l' s : resolve_all (l ++ l') s = resolve_all l' (resolve_all l s).
Proof. apply foldl_app. Qed.

Lemma resolve_commands d context commands :
  resolveCmdVariables d context commands = resolve_all (range d (All context)) <$> commands.
Proof.
  rewrite /resolveCmdVariables. generalize (range d (All context)) as l. intros l. revert commands.
  induction l as [|[k v] l IH]; intros commands; simpl.
  - by rewrite list_fmap_id.
  - by rewrite IH -list_fmap_compose.
Qed.

(** A task after the replacements [l]. *)
Definition task_after (l : list (string * string)) (t t' : yaml_value * yaml_value) : Prop :=
  t.1 = t'.1 ∧
  match t.2, t'.2 with
  | YMap items, YMap items' =>
      Forall2 (λ p p', p.1 = p'.1 ∧ Sprint p'.2 = resolve_all l (Sprint p.2)) items items'
  | y, y' => y = y'
  end.

Lemma task_after_nil t : task_after [] t t.
Proof.
  split; [done|]. destruct t.2; try done. apply Forall_Forall2_diag. by apply Forall_true.
Qed.

Lemma resolve_task_after k v l t t1 t2 :
  resolve_task k v t = Ret t1 → task_after l t1 t2 → task_after ((k, v) :: l) t t2.
Proof.
  destruct t as [key []]; try done; rewrite /resolve_task /=; intros [= <-] [Hk Ht]; split; try done.
  simpl in *. destruct t2 as [key' []]; try done. simpl in *.
  apply Forall2_fmap_l in Ht. eapply Forall2_impl; [exact Ht|].
  intros [a b] [a' b'] [Ha Hb]. simpl in *. by rewrite Hb.
Qed.

Lemma resolve_tasks_after k v l ts ts1 ts2 :
  resolve_tasks k v ts = Ret ts1 → Forall2 (task_after l) ts1 ts2 →
  Forall2 (task_after ((k, v) :: l)) ts ts2.
Proof.
  revert ts1 ts2. induction ts as [|t ts IH]; intros ts1 ts2; simpl.
  { intros [= <-] ->%Forall2_nil_inv_l. constructor. }
  destruct (resolve_task k v t) as [t1|e|p] eqn:Et; [|done..]. simpl.
  destruct (resolve_tasks k v ts) as [us|e|p]; [|done..]. simpl.
  intros [= <-] (t2 & us2 & Ht & Hus & ->)%Forall2_cons_inv_l.
  constructor; [by eapply resolve_task_after|by eapply IH].
Qed.

(** What the loop of [resolveVariables] did to the application. The hooks went
    through other sequences of replacements, [ls]: full passes over the
    variables, at least one per iteration. *)
Record resolved_by (m : gmap string string) (l : list (string * string))
    (a a' : Application) : Prop := {
  rb_launch : App.LaunchCommand a' = resolve_all l (App.LaunchCommand a);
  rb_args : App.Args a' = resolve_all l <$> App.Args a;
  rb_env : App.Env a' = resolve_all l <$> App.Env a;
  rb_scheduler : App.Scheduler a' = resolve_all l <$> App.Scheduler a;
  rb_tasks : Forall2 (task_after l) (App.Tasks a) (App.Tasks a');
  rb_hooks f : f ∈ hooks → ∃ ls, f a' = resolve_all ls <$> f a ∧
    (∀ k v, (k, v) ∈ ls → m !! k = Some v) ∧ (l ≠ [] → ∀ k, is_Some (m !! k) → k ∈ ls.*1);
  rb_same : App.Typ a' = App.Typ a ∧ App.ID a' = App.ID a ∧ App.Healthcheck a' = App.Healthcheck a
}.

Lemma resolve_application_hooks d context k v a a1 f :
  resolve_application d context k v a = Ret a1 → f ∈ hooks →
  ∃ j, f a1 = resolve_all (range j (All context)) <$> f a.
Proof.
  rewrite /resolve_application. destruct (resolve_tasks _ _ _) as [ts|e|p]; [|done..].
  intros [= <-] Hf.
  repeat (apply elem_of_cons in Hf as [->|Hf]; [eexists; apply resolve_commands|]).
  by apply elem_of_nil in Hf.
Qed.

Lemma resolve_loop_by context l : ∀ d a a',
  resolve_loop d context l a = Ret a' → resolved_by (All context) l a a'.
Proof.
  induction l as [|[k v] l IH]; intros d a a'; simpl.
  { intros [= <-]. split; rewrite ?list_fmap_id ?map_fmap_id //.
    - apply Forall_Forall2_diag, Forall_true. intros t. apply task_after_nil.
    - intros f _. exists []. rewrite list_fmap_id. by split_and!; [|intros ? ? ?%elem_of_nil|]. }
  destruct (resolve_application d context k v a) as [a1|e|p] eqn:Ea; [|done..]. simpl.
  intros [Hl Ha He Hs Ht Hh Hsame]%IH.
  pose proof (λ f, resolve_application_hooks d context k v a a1 f Ea) as Hhooks.
  rewrite /resolve_application in Ea.
  destruct (resolve_tasks k v (App.Tasks a)) as [ts|e|p] eqn:Ets; [|done..].
  injection Ea as Ea. rewrite -Ea in Hl Ha He Hs Ht Hsame. simpl in *. split.
  - by rewrite Hl.
  - by rewrite Ha -list_fmap_compose.
  - by rewrite He -map_fmap_compose.
  - by rewrite Hs -map_fmap_compose.
  - by eapply resolve_tasks_after.
  - intros f Hf. destruct (Hhooks f Hf) as [j Hj]. destruct (Hh f Hf) as (ls & Hls & Hin & _).
    exists (range j (All context) ++ ls). split_and!.
    + rewrite Hls Hj -list_fmap_compose. apply list_fmap_ext. intros _ s _. simpl.
      by rewrite resolve_all_app.
    + intros k' v' [Hr|Hr]%elem_of_app; [by apply elem_of_range in Hr|by apply Hin].
    + intros _ k' [v' Hv']. rewrite fmap_app elem_of_app. left.
      apply list_elem_of_fmap. exists (k', v'). by rewrite elem_of_range.
  - done.
Qed.

(** One task, before and after. *)
Definition task_resolves (m : gmap string string) (t t' : yaml_value * yaml_value) : Prop :=
  t.1 = t'.1 ∧
  match t.2, t'.2 with
  | YMap items, YMap items' =>
      Forall2 (λ p p', p.1 = p'.1 ∧ resolves m (Sprint p.2) (Sprint p'.2)) items items'
  | y, y' => y = y'
  end.

(** C40. Resolving variables is substitution: whatever order Go visits the
    variables in, as long as no value or name of a variable looks like a
    reference, every text of the application that has no nested references -
    the launch command, each argument, environment and scheduler value, task
    argument and hook command - has each reference to a known variable
    replaced by its value and the others left alone. *)
Theorem resolveVariables_substitutes context a a' :
  plain_variables (All context) → resolveVariables context a = Ret a' →
  let m := All context in
  resolves m (App.LaunchCommand a) (App.LaunchCommand a') ∧
  Forall2 (resolves m) (App.Args a) (App.Args a') ∧
  (∀ k, option_Forall2 (resolves m) (App.Env a !! k) (App.Env a' !! k)) ∧
  (∀ k, option_Forall2 (resolves m) (App.Scheduler a !! k) (App.Scheduler a' !! k)) ∧
  Forall2 (task_resolves m) (App.Tasks a) (App.Tasks a') ∧
  ∀ f, f ∈ hooks → Forall2 (resolves m) (f a) (f a').
Proof.
  intros Hm Hrun%resolve_loop_by m. destruct Hrun as [Hl Ha He Hs Ht Hh _].
  assert (∀ s, resolves m s (resolve_all (range 0 m) s)) as Hres.
  { intros s. apply resolve_all_resolves; [done|by intros k v ?%elem_of_range|].
    intros k [v Hk]. apply list_elem_of_fmap. exists (k, v). by rewrite elem_of_range. }
  split_and!.
  - by rewrite Hl.
  - rewrite Ha. apply Forall2_fmap_r, Forall_Forall2_diag, Forall_true. done.
  - intros k. rewrite He lookup_fmap. destruct (App.Env a !! k); by constructor.
  - intros k. rewrite Hs lookup_fmap. destruct (App.Scheduler a !! k); by constructor.
  - eapply Forall2_impl; [exact Ht|]. intros [t y] [t' y'] [Hk Hy]. split; [done|]. simpl in *.
    destruct y, y'; try done. eapply Forall2_impl; [exact Hy|].
    intros p p' [? ->]. by split.
  - intros f Hf. destruct (Hh f Hf) as (ls & -> & Hin & Hcover).
    apply Forall2_fmap_r, Forall_Forall2_diag, Forall_true. intros s.
    apply resolve_all_resolves; [done|done|]. intros k Hk. apply Hcover; [|done].
    intros Hnil%range_nil. rewrite /m Hnil lookup_empty in Hk. by destruct Hk.
Qed.
End resolution.

(** ** Types of tasks *)
Section types.
Context `{ord : MapOrder}.

(** A task of a stack file is a mapping of arguments, or nothing. *)
Definition task_typed (task : yaml_value * yaml_value) : bool :=
  match task.2 with YNil | YMap _ => true | _ => false end.
Definition well_typed (a : Application) : bool := forallb task_typed (App.Tasks a).
(** Tasks whose arguments are all strings. *)
Definition task_of_strings (task : yaml_value * yaml_value) : bool :=
  match task.2 with
  | YNil => true
  | YMap items => forallb (λ p : yaml_value * yaml_value,
      match p.2 with YString _ => true | _ => false end) items
  | _ => false
  end.

Lemma resolve_task_typed k v task :
  task_typed task = true →
  ∃ task', resolve_task k v task = Ret task' ∧ task'.1 = task.1 ∧ task_typed task' = true ∧
    task_of_strings task' = true.
Proof.
  destruct task as [key []]; try done; intros _; rewrite /resolve_task; cbn [fst snd];
    eexists; split_and!; try done.
  rewrite /task_of_strings. cbn [snd]. induction items as [|[a b] l IH]; [done|]. exact IH.
Qed.

Lemma resolve_tasks_typed k v ts :
  forallb task_typed ts = true →
  ∃ ts', resolve_tasks k v ts = Ret ts' ∧ forallb task_typed ts' = true ∧
    ts'.*1 = ts.*1 ∧ forallb task_of_strings ts' = true.
Proof.
  induction ts as [|task ts IH]; simpl; [by exists []|].
  intros [Ht Hts]%andb_true_iff. destruct (IH Hts) as (ts' & -> & ? & ? & ?).
  destruct (resolve_task_typed k v task Ht) as (task' & -> & Hk & Ht' & Hs).
  exists (task' :: ts'). simpl. split_and!; [done| | |]; by rewrite ?Ht' ?Hs ?Hk /=; f_equal.
Qed.
Lemma resolve_tasks_ill_typed k v ts :
  forallb task_typed ts = false → resolve_tasks k v ts = Panic not_a_MapSlice.
Proof.
  induction ts as [|task ts IH]; simpl; [done|]. intros [Ht|Ht]%andb_false_iff.
  - by destruct task as [key []].
  - rewrite (IH Ht). by destruct task as [key []].
Qed.

Lemma resolve_loop_typed context l : ∀ d a,
  well_typed a = true →
  ∃ a', resolve_loop d context l a = Ret a' ∧ well_typed a' = true ∧
    (App.Tasks a').*1 = (App.Tasks a).*1 ∧
    (l ≠ [] ∨ forallb task_of_strings (App.Tasks a) = true →
     forallb task_of_strings (App.Tasks a') = true).
Proof.
  induction l as [|[k v] l IH]; intros d a Ha; simpl; [by exists a; naive_solver|].
  destruct (resolve_tasks_typed k v (App.Tasks a) Ha) as (ts & Hts & Hty & Hk & Hs).
  rewrite /resolve_application Hts. cbn [mbind outcome_mbind].
  match goal with |- context [resolve_loop _ _ _ ?a1] => set (a1' := a1) end.
  destruct (IH (S d) a1' Hty) as (a' & -> & Hw & Hk' & Hs'). exists a'.
  split_and!; [done|done|by rewrite Hk'|]. intros _. apply Hs'. by right.
Qed.

(** C28. Types of task arguments: on an application whose tasks are all
    mappings or empty, resolving variables never fails a type assertion and
    leaves such an application with the same tasks in the same order, whose
    arguments are all strings as soon as there is one variable; on any other
    application it panics as soon as there is one variable, and does nothing
    otherwise. *)
Theorem resolution_type_safe context a :
  (well_typed a = true →
   ∃ a', resolveVariables context a = Ret a' ∧ well_typed a' = true ∧
     (App.Tasks a').*1 = (App.Tasks a).*1 ∧
     (All context ≠ ∅ → forallb task_of_strings (App.Tasks a') = true)) ∧
  (well_typed a = false →
   resolveVariables context a =
     if bool_decide (All context = ∅) then Ret a else Panic not_a_MapSlice).
Proof.
  rewrite /resolveVariables. split; intros Ha.
  - destruct (resolve_loop_typed context (range 0 (All context)) 0 a Ha) as (a' & ? & ? & ? & Hs).
    exists a'. split_and!; [done..|]. intros Hne. apply Hs. left. by intros Hnil%range_nil.
  - case_bool_decide as Hm.
    + by rewrite Hm (proj2 (range_nil 0 (∅ : gmap string string)) eq_refl).
    + destruct (range 0 (All context)) as [|[k v] l] eqn:El; [by apply range_nil in El|].
      simpl. by rewrite /resolve_application resolve_tasks_ill_typed.
Qed.
End types.

(** ** Concrete texts *)
Section examples.
Definition ex_command (cmd : string) : Application :=
  App.MkApplication "kafka" "broker" "" float_zero float_zero [] "" [] "" "" cmd
    ["--host"; "${host}"] ∅ [] [] ∅ [] [] None "" "" ["echo ${host} ${missing}"] [] [] [] [].
Definition ex_context : Variables := MkVariables {["host" := "h1"]} ∅ ∅.

Lemma ex_context_plain (ord : MapOrder) : plain_variables (All ex_context).
Proof.
  intros k v Hk. rewrite All_union /= !union_empty_r in Hk.
  apply lookup_singleton_Some in Hk as [<- <-]. by vm_compute.
Qed.

Lemma resolveVariables_substitutes_witness :
  let ord := canonical_order in
  ∃ a', resolveVariables ex_context (ex_command "run ${host}:${port}") = Ret a' ∧
    App.LaunchCommand a' = "run h1:${port}" ∧
    Forall2 (resolves (All ex_context)) ["echo ${host} ${missing}"] (App.BeforeScheduler a').
Proof.
  intros ord.
  destruct (resolveVariables ex_context (ex_command "run ${host}:${port}")) as [a'|e|p] eqn:E;
    [|by vm_compute in E..].
  exists a'. split; [done|].
  destruct (resolveVariables_substitutes ex_context _ a' (ex_context_plain ord) E)
    as (Hl & _ & _ & _ & _ & Hh).
  split.
  - specialize (Hl ([Lit "r"; Lit "u"; Lit "n"; Lit " "; Ref "host"; Lit ":"; Ref "port"])%char).
    rewrite Hl; [by vm_compute| |by vm_compute]. repeat constructor.
  - apply (Hh App.BeforeScheduler). constructor.
Defined.

Definition ex_tasks (ts : MapSlice) : Application :=
  App.MkApplication "kafka" "broker" "" float_zero float_zero [] "" [] "" "" ""
    [] ∅ [] [] ∅ ts [] None "" "" [] [] [] [] [].
Lemma resolution_type_safe_witness :
  let ord := canonical_order in
  (∃ a', resolveVariables ex_context (ex_tasks [(YString "add", YMap [(YString "id", YInt 1)]);
                                               (YString "start", YNil)]) = Ret a' ∧
     forallb task_of_strings (App.Tasks a') = true) ∧
  resolveVariables ex_context (ex_tasks [(YString "add", YString "1")]) = Panic not_a_MapSlice.
Proof.
  intros ord. split.
  - destruct (proj1 (resolution_type_safe ex_context
      (ex_tasks [(YString "add", YMap [(YString "id", YInt 1)]); (YString "start", YNil)])) eq_refl)
      as (a' & Ha & _ & _ & Hs).
    exists a'. split; [exact Ha|]. apply Hs. by vm_compute.
  - rewrite (proj2 (resolution_type_safe ex_context (ex_tasks [(YString "add", YString "1")])) eq_refl).
    by vm_compute.
Defined.

(** Nested references are another matter: the same application with the
    same variables resolves to different commands when Go happens to visit
    the variables in another order. *)
Theorem nested_references_depend_on_order :
  let context := MkVariables (<["env" := "prod"]> {["port_prod" := "9092"]}) ∅ ∅ in
  let resolved ord := App.LaunchCommand <$>
    resolveVariables (ord := ord) context (ex_command "--port ${port_${env}}") in
  resolved canonical_order ≠ resolved reversed_order ∧
  (resolved canonical_order = Ret "--port 9092" ∨ resolved reversed_order = Ret "--port 9092").
Proof. split; [by vm_compute|]. vm_compute. auto. Qed.
End examples.
