(* ===== verification/Goroutine.v ===== *)
(** Code that other goroutines run beside: a tree of atomic actions on a state
    they share, with rules to reason about a tree under what the others may do
    to the state (the rely) and what the tree may do to it (the guarantee). *)
From S2P Require Import Prelude Errors.
Open Scope list_scope.

Section trees.
Context {Ev St : Type}.

(** [Emit e k]: the event [e] is logged. [Act f k]: [f] is done at once, with the
    log so far and the shared state. Others may act in between. *)
Inductive prog (A : Type) : Type :=
| Halt (o : result A)
| Emit (e : Ev) (k : prog A)
| Act {X : Type} (f : list Ev → St → X * St) (k : X → prog A).
Arguments Halt {A}.
Arguments Emit {A}.
Arguments Act {A X}.

#[export] Instance prog_mret : MRet prog := λ A x, Halt (Ret x).
#[export] Instance prog_mbind : MBind prog := λ A B f,
  fix bind (p : prog A) : prog B :=
    match p with
    | Halt (Ret x) => f x
    | Halt (Err e) => Halt (Err e)
    | Halt (Panic m) => Halt (Panic m)
    | Emit e k => Emit e (bind k)
    | Act g k => Act g (λ x, bind (k x))
    end.
(** The error of [p] in hand; a panic still unwinds. *)
Fixpoint attempt {A} (p : prog A) : prog (error + A) :=
  match p with
  | Halt (Ret x) => Halt (Ret (inr x))
  | Halt (Err e) => Halt (Ret (inl e))
  | Halt (Panic m) => Halt (Panic m)
  | Emit e k => Emit e (attempt k)
  | Act f k => Act f (λ x, attempt (k x))
  end.

(** ** Steps *)

(** The next action, unless the code is done. *)
Definition advance {A} (p : prog A) (t : list Ev) (v : St) : option (list Ev * prog A * St) :=
  match p with
  | Halt _ => None
  | Emit e k => Some (t ++ [e], k, v)
  | Act f k => let '(x, v') := f t v in Some (t, k x, v')
  end.

(** What is left of some code after one action. *)
Definition rest {A} (q p : prog A) : Prop :=
  match p with
  | Halt _ => False
  | Emit _ k => q = k
  | Act _ k => ∃ x, q = k x
  end.
Lemma rest_wf {A} : well_founded (rest (A := A)).
Proof.
  intros p. induction p as [o|e k IH|X f k IH]; constructor; intros q Hq; simpl in Hq; [done| |].
  - by subst.
  - destruct Hq as [x ->]. apply IH.
Qed.
Lemma advance_rest {A} (p q : prog A) t v t' v' : advance p t v = Some (t', q, v') → rest q p.
Proof.
  destruct p as [o|e k|X f k]; simpl; [done|by intros [= _ <- _]|].
  destruct (f t v) as [x v1]. intros [= _ <- _]. by exists x.
Qed.

(** Some of several pieces of code goes on. *)
Definition pool_step {A} (ps' ps : list (prog A)) : Prop :=
  ∃ i p q, ps !! i = Some p ∧ rest q p ∧ ps' = <[i := q]> ps.
Lemma pool_wf {A} : well_founded (pool_step (A := A)).
Proof.
  intros ps. induction ps as [|p ps IHps].
  { constructor. intros ps' (i & p & q & Hi & _). by rewrite lookup_nil in Hi. }
  revert ps IHps. induction (rest_wf p) as [p _ IHp]. intros ps IHps.
  induction IHps as [ps Hacc IHps]. constructor. intros ps' ([|i] & p' & q & Hi & Hq & ->).
  - injection Hi as <-. by apply IHp.
  - apply IHps. by exists i, p', q.
Qed.

(** ** Rely and guarantee *)
Section safe.
Context (R G : St → St → Prop).

(** Run beside others that keep to [R], [p] keeps to [G], and ends in [Q]. *)
Fixpoint safe {A} (Q : result A → list Ev → St → Prop) (p : prog A) (t : list Ev) (v : St) : Prop :=
  match p with
  | Halt o => Q o t v
  | Emit e k => ∀ v', R v v' → safe Q k (t ++ [e]) v'
  | Act f k => G v (f t v).2 ∧ ∀ v', R (f t v).2 v' → safe Q (k (f t v).1) t v'
  end.

Lemma safe_mono {A} (Q Q' : result A → list Ev → St → Prop) p t v :
  (∀ o t v, Q o t v → Q' o t v) → safe Q p t v → safe Q' p t v.
Proof.
  intros HQ. revert t v. induction p as [o|e k IH|X f k IH]; intros t v; simpl; [by apply HQ| |].
  - intros Hk v' Hv. by apply IH, Hk.
  - intros [HG Hk]. split; [done|]. intros v' Hv. by apply IH, Hk.
Qed.
Lemma safe_impl {A} (φ : Prop) (Q : result A → list Ev → St → Prop) p t v :
  (∀ v v', G v v') → (φ → safe Q p t v) → safe (λ o t v, φ → Q o t v) p t v.
Proof.
  intros HG. revert t v. induction p as [o|e k IH|X f k IH]; intros t v Hp; simpl in *; [done| |].
  - intros v' Hv. apply IH. intros Hφ. by apply Hp.
  - split; [apply HG|]. intros v' Hv. apply IH. intros Hφ. by apply Hp.
Qed.
Lemma safe_bind {A B} (Q : result B → list Ev → St → Prop) (p : prog A) (f : A → prog B) t v :
  safe (λ o t v, match o with
                 | Ret x => safe Q (f x) t v
                 | Err e => Q (Err e) t v
                 | Panic m => Q (Panic m) t v
                 end) p t v →
  safe Q (p ≫= f) t v.
Proof.
  revert t v. induction p as [[x|e|m]|e k IH|X g k IH]; intros t v; simpl; [done..| |].
  - intros Hk v' Hv. by apply IH, Hk.
  - intros [HG Hk]. split; [done|]. intros v' Hv. by apply IH, Hk.
Qed.
Lemma safe_attempt {A} (Q : result (error + A) → list Ev → St → Prop) (p : prog A) t v :
  safe (λ o, Q (match o with
                | Ret x => Ret (inr x)
                | Err e => Ret (inl e)
                | Panic m => Panic m
                end)) p t v →
  safe Q (attempt p) t v.
Proof.
  revert t v. induction p as [[x|e|m]|e k IH|X g k IH]; intros t v; simpl; [done..| |].
  - intros Hk v' Hv. by apply IH, Hk.
  - intros [HG Hk]. split; [done|]. intros v' Hv. by apply IH, Hk.
Qed.

(** ** What code leaves as it is

    [quiet I p P]: [p], whatever it does, leaves [I] true, and its result is in
    [P]. *)
Definition quiet {A} (I : list Ev → St → Prop) (p : prog A) (P : A → Prop) : Prop :=
  ∀ t v, I t v → safe (λ o t v, I t v ∧ ∀ x, o = Ret x → P x) p t v.

Section quiet.
Context (I : list Ev → St → Prop).
Context (Hstable : ∀ t v v', I t v → R v v' → I t v') (Hlog : ∀ t e v, I t v → I (t ++ [e]) v).
Context (Hrefl : ∀ v, G v v).

Lemma quiet_bind {A B} (P : A → Prop) (P' : B → Prop) (p : prog A) (f : A → prog B) :
  quiet I p P → (∀ x, P x → quiet I (f x) P') → quiet I (p ≫= f) P'.
Proof.
  intros Hp Hf t v Hv. apply safe_bind. eapply safe_mono; [|by apply Hp].
  intros [x|e|m] t' v' [Hv' Hx]; [by apply Hf; [apply Hx|]|split; [done|by intros ?]..].
Qed.
Lemma quiet_attempt {A} (P : A → Prop) (p : prog A) : quiet I p P → quiet I (attempt p) (λ _, True).
Proof.
  intros Hp t v Hv. apply safe_attempt. eapply safe_mono; [|by apply Hp].
  intros o t' v' [Hv' _]. by split.
Qed.
Lemma quiet_mono {A} (P P' : A → Prop) p : (∀ x, P x → P' x) → quiet I p P → quiet I p P'.
Proof. intros HP Hp t v Hv. eapply safe_mono; [|by apply Hp]. naive_solver. Qed.
Lemma quiet_halt {A} (o : result A) (P : A → Prop) : (∀ x, o = Ret x → P x) → quiet I (Halt o) P.
Proof. intros HP t v Hv. by split. Qed.
Lemma quiet_emit {A} e (k : prog A) P : quiet I k P → quiet I (Emit e k) P.
Proof. intros Hk t v Hv v' HR. apply Hk, Hlog. by eapply Hstable. Qed.
Lemma quiet_act {A X} (f : list Ev → St → X * St) (k : X → prog A) P :
  (∀ t v, I t v → G v (f t v).2 ∧ I t (f t v).2) →
  (∀ x, quiet I (k x) P) → quiet I (Act f k) P.
Proof.
  intros Hf Hk t v Hv. destruct (Hf t v Hv) as [HG HI]. split; [done|].
  intros v' HR. apply (Hk (f t v).1). by eapply Hstable.
Qed.
(** Actions that only look. *)
Lemma quiet_read {A X} (f : list Ev → St → X * St) (k : X → prog A) P :
  (∀ t v, (f t v).2 = v) → (∀ x, quiet I (k x) P) → quiet I (Act f k) P.
Proof. intros Hf Hk. apply quiet_act; [|done]. intros t v Hv. by rewrite Hf. Qed.
End quiet.

(** ** Between two actions *)
Context `{!Reflexive G}.
Context `{!PreOrder R}.
Definition safely {A} (Q : result A → list Ev → St → Prop) (p : prog A) (t : list Ev) (v : St) : Prop :=
  ∀ v', R v v' → safe Q p t v'.
Lemma safely_stable {A} Q (p : prog A) t v v' : safely Q p t v → R v v' → safely Q p t v'.
Proof. intros Hp Hv v1 Hv1. apply Hp. by etrans. Qed.
Lemma safely_advance {A} Q (p q : prog A) t v t' v' :
  safely Q p t v → advance p t v = Some (t', q, v') → G v v' ∧ safely Q q t' v'.
Proof.
  intros Hp. specialize (Hp v (reflexivity v)). destruct p as [o|e k|X f k]; simpl in *; [done| |].
  - by intros [= <- <- <-].
  - destruct (f t v) as [x v1]. destruct Hp as [HG Hk]. by intros [= <- <- <-].
Qed.

(** ** What holds after code that succeeds *)
Definition ends {A} (I : list Ev → St → Prop) (p : prog A) (P : A → Prop)
    (I' : list Ev → St → Prop) : Prop :=
  ∀ t v, I t v → safe (λ o t v, ∀ x, o = Ret x → P x ∧ I' t v) p t v.
Lemma quiet_ends {A} I (p : prog A) P : quiet I p P → ends I p P I.
Proof. intros Hp t v Hv. eapply safe_mono; [|by apply Hp]. naive_solver. Qed.
Lemma ends_bind {A B} I I1 I2 (P : A → Prop) (P' : B → Prop) (p : prog A) (f : A → prog B) :
  ends I p P I1 → (∀ x, P x → ends I1 (f x) P' I2) → ends I (p ≫= f) P' I2.
Proof.
  intros Hp Hf t v Hv. apply safe_bind. eapply safe_mono; [|by apply Hp].
  intros [x|e|m] t' v' Hx; [|by intros ?..]. destruct (Hx x eq_refl) as [HP HI]. by apply Hf.
Qed.
End safe.
End trees.
Arguments prog : clear implicits.
Arguments Halt {Ev St A}.
Arguments Emit {Ev St A}.
Arguments Act {Ev St A X}.
