(* ===== verification/StorageConcurrency.v ===== *)
(** [CassandraStorage] of [framework/storage.go] as several requests use it at
    the same time: every operation as the tree of its statements, and the calls
    that are being served, one statement of one of them at a time.
    [StoreStack] and [RemoveStack] take [cs.lock]; the readers do not. *)
From S2P Require Import Prelude GoStrings Errors Data Forest Stacks CassandraStorage Goroutine.
From Stdlib Require Import Lia.
Open Scope string_scope.
Open Scope list_scope.
Open Scope nat_scope.

Module Statements.
Section statements.
Context `{ord : MapOrder} `{Yaml} {db : Type} `{StacksTable db}.

(** Nothing is logged. *)
Abbreviation code := (prog Empty_set db).
Definition stmt {A} (q : M db error A) : code A := Act (λ _ s, q s) Halt.

Definition exists_ (name : string) : code bool :=
  count ← stmt (count_stack name); mret (0 <? count)%Z.

Definition GetAll : code (list Stack) :=
  l ← stmt (iter select_all); Halt (CassandraStorage.GetAll_loop l).

Fixpoint GetStack (fuel : nat) (name : string) : code Stack :=
  match fuel with
  | O => Halt (Panic overflow)
  | S fuel' =>
      row ← stmt (select_stack name);
      let '(name', parent, apps) := row in
      m ← Halt (CassandraStorage.decode name apps);
      let stack := Stk.MkStack "" name' "" m 0 in
      if String.eqb parent "" then mret stack
      else
        parentStack ← GetStack fuel' parent;
        Halt (merge_stack parentStack stack)
  end.

Definition GetLayer (fuel : nat) (name : string) : code (Layer Stack) :=
  stack ← GetStack fuel name;
  match NewLayer (Stk.Layer stack) stack with
  | Some layer => mret layer
  | None => Halt (Err (no_layer name (Stk.Layer stack)))
  end.

Definition GetLayersStack (fuel : nat) (name : string) : code Stack :=
  zone ← GetLayer fuel name;
  if String.eqb (Stk.From (LStack zone)) "" then mret (LStack zone) else
  cluster ← GetLayer fuel (Stk.From (LStack zone));
  if String.eqb (Stk.From (LStack cluster)) "" then mret (LStack cluster) else
  datacenter ← GetLayer fuel (Stk.From (LStack cluster));
  datacenter ← Halt (merge_layer datacenter cluster);
  datacenter ← Halt (merge_layer datacenter zone);
  mret (LStack datacenter).

(** [StoreStack] and [RemoveStack] between [cs.lock.Lock()] and the deferred
    [cs.lock.Unlock()]. *)
Definition StoreStack (stack : Stack) : code unit :=
  present ← exists_ (Stk.Name stack);
  if present : bool then Halt (Err (Errorf ("Stack " +:+ Stk.Name stack +:+ " already exists"))) else
  (if String.eqb (Stk.From stack) "" then mret tt else
   parent ← attempt (exists_ (Stk.From stack));
   match parent with
   | inr true => mret tt
   | _ => Halt (Err (Errorf ("Parent stack " +:+ Stk.From stack +:+ " does not exist")))
   end) ;;
  apps ← Halt (marshal_apps (Stk.Applications stack));
  stmt (insert_stack (Stk.Name stack) (Stk.From stack) apps).

Fixpoint remove_loop (rec : string → code unit) (force : bool)
    (names children : list string) : code (list string) :=
  match names with
  | [] => mret children
  | name :: names' =>
      if force then rec name ;; remove_loop rec force names' children
      else remove_loop rec force names' (children ++ [name])
  end.

Fixpoint remove (fuel : nat) (stack : string) (force : bool) : code unit :=
  match fuel with
  | O => Halt (Panic overflow)
  | S fuel' =>
      names ← stmt (iter (select_children stack));
      children ← remove_loop (λ n, remove fuel' n force) force names [];
      if (0 <? length children) then Halt (Err (dependants stack children))
      else stmt (delete_stack stack)
  end.

Definition RemoveStack (fuel : nat) (stack : string) (force : bool) : code unit :=
  present ← exists_ stack;
  if present : bool then remove fuel stack force
  else Halt (Err (Errorf ("Stack " +:+ stack +:+ " does not exist"))).

(** ** With nobody beside *)
Fixpoint alone {A} (p : code A) : M db error A := λ s,
  match p with
  | Halt o => (o, s)
  | Emit _ k => alone k s
  | Act f k => let '(x, s') := f [] s in alone (k x) s'
  end.

Lemma alone_bind {A B} (p : code A) (f : A → code B) s :
  alone (p ≫= f) s = (alone p ≫= (λ x, alone (f x))) s.
Proof.
  revert s. induction p as [[x|e|m]|e k IH|X g k IH]; intros s; [done..|exact (IH s)|].
  change (alone (Act g k ≫= f) s) with (let '(x, s') := g [] s in alone (k x ≫= f) s').
  change ((alone (Act g k) ≫= (λ x, alone (f x))) s)
    with (match (let '(x, s') := g [] s in alone (k x) s') with
          | (Ret a, s') => alone (f a) s'
          | (Err e, s') => (Err e, s')
          | (Panic p, s') => (Panic p, s')
          end).
  destruct (g [] s) as [x s']. apply IH.
Qed.
Lemma alone_attempt {A} (p : code A) s : alone (attempt p) s = catch (alone p) s.
Proof.
  revert s. induction p as [[x|e|m]|e k IH|X g k IH]; intros s; [done..|exact (IH s)|].
  rewrite /catch /=. destruct (g [] s) as [x s']. apply IH.
Qed.
Lemma alone_stmt {A} (q : M db error A) s : alone (stmt q) s = q s.
Proof. rewrite /stmt /=. by destruct (q s). Qed.
Lemma alone_advance {A} (p p' : code A) s t' s' :
  advance p [] s = Some (t', p', s') → alone p s = alone p' s'.
Proof.
  destruct p as [o|[]|X g k]; simpl; [done|]. destruct (g [] s) as [x s1].
  by intros [= _ <- <-].
Qed.

(** A bind of the one is a bind of the other when the parts are. *)
Lemma alone_bind_eq {A B} (p : code A) (f : A → code B) (m : M db error A) (g : A → M db error B) :
  (∀ s, alone p s = m s) → (∀ x s, alone (f x) s = g x s) →
  ∀ s, alone (p ≫= f) s = (m ≫= g) s.
Proof.
  intros Hp Hf s. rewrite alone_bind /mbind /M_mbind Hp. by destruct (m s) as [[x|e|q] s'].
Qed.
Lemma catch_ext {A} (m m' : M db error A) s : m s = m' s → catch m s = catch m' s.
Proof. by rewrite /catch => ->. Qed.
End statements.

Ltac alone_is :=
  repeat first
    [ apply alone_bind_eq; [|intros ? ?] | apply alone_stmt | done
    | match goal with |- context[match ?b with _ => _ end] => destruct b end
    | intros ? ].

Section alone.
Context `{ord : MapOrder} `{Yaml} {db : Type} `{StacksTable db}.
Abbreviation code := (prog Empty_set db).
Implicit Types (s : db).

Lemma alone_exists n s : alone (exists_ n) s = CassandraStorage.exists_ n s.
Proof. rewrite /exists_ /CassandraStorage.exists_. by alone_is. Qed.
Lemma alone_GetAll s : alone GetAll s = CassandraStorage.GetAll s.
Proof. rewrite /GetAll /CassandraStorage.GetAll. by alone_is. Qed.
Lemma alone_GetStack fuel : ∀ n s, alone (GetStack fuel n) s = CassandraStorage.GetStack fuel n s.
Proof.
  induction fuel as [|fuel IH]; intros n s; [done|]. cbn [GetStack CassandraStorage.GetStack].
  apply alone_bind_eq; [apply alone_stmt|]. intros [[name parent] apps] s1.
  apply alone_bind_eq; [done|]. intros m s2. cbv zeta. destruct (String.eqb parent ""); [done|].
  by apply alone_bind_eq.
Qed.
Lemma alone_GetLayer fuel n s : alone (GetLayer fuel n) s = CassandraStorage.GetLayer fuel n s.
Proof.
  apply alone_bind_eq; [apply alone_GetStack|]. intros st s1. by destruct (NewLayer _ _).
Qed.
Lemma alone_GetLayersStack fuel n s :
  alone (GetLayersStack fuel n) s = CassandraStorage.GetLayersStack fuel n s.
Proof.
  rewrite /GetLayersStack /CassandraStorage.GetLayersStack.
  repeat first [apply alone_GetLayer | done |
    match goal with |- context[if ?b then _ else _] => destruct b end |
    apply alone_bind_eq; intros].
Qed.
Lemma alone_StoreStack st s : alone (StoreStack st) s = CassandraStorage.StoreStack st s.
Proof.
  apply alone_bind_eq; [apply alone_exists|]. intros [] s1; [done|].
  apply alone_bind_eq; [intros s2|].
  - destruct (String.eqb _ ""); [done|]. apply alone_bind_eq; [|by intros [|[]]].
    intros s3. rewrite alone_attempt. apply catch_ext, alone_exists.
  - intros _ s2. apply alone_bind_eq; [done|]. intros t s3. apply alone_stmt.
Qed.
Lemma alone_remove_loop rec rec' force names : (∀ n s, alone (rec n) s = rec' n s) →
  ∀ children s, alone (remove_loop rec force names children) s =
    CassandraStorage.remove_loop rec' force names children s.
Proof.
  intros Hrec. induction names as [|n names IH]; intros children s; [done|]. simpl.
  destruct force; [|done]. apply alone_bind_eq; [done|]. by intros [].
Qed.
Lemma alone_remove fuel force : ∀ n s,
  alone (remove fuel n force) s = CassandraStorage.remove fuel n force s.
Proof.
  induction fuel as [|fuel IH]; intros n s; [done|]. cbn [remove CassandraStorage.remove].
  apply alone_bind_eq; [apply alone_stmt|]. intros names s1.
  apply alone_bind_eq; [by apply alone_remove_loop|]. intros children s2.
  destruct (0 <? length children); [done|apply alone_stmt].
Qed.
Lemma alone_RemoveStack fuel n force s :
  alone (RemoveStack fuel n force) s = CassandraStorage.RemoveStack fuel n force s.
Proof.
  apply alone_bind_eq; [apply alone_exists|]. intros [] s1; [apply alone_remove|done].
Qed.
End alone.

(** ** Readers *)
Section readers.
Context `{ord : MapOrder} `{Yaml} {db : Type} `{StacksTableLaws db}.
Abbreviation code := (prog Empty_set db).
Implicit Types (s : db).

(** Whatever the others do, the table is as they left it. *)
Definition reads {A} (p : code A) : Prop :=
  quiet (λ _ _, True) eq (λ _ _, True) p (λ _, True).

Lemma reads_bind {A B} (p : code A) (f : A → code B) :
  reads p → (∀ x, reads (f x)) → reads (p ≫= f).
Proof. intros Hp Hf. apply (quiet_bind _ _ _ (λ _, True)); [done|]. intros x _. apply Hf. Qed.
Lemma reads_halt {A} (o : result A) : reads (Halt o).
Proof. by apply quiet_halt. Qed.
Lemma reads_stmt {A} (q : M db error A) : (∀ s, (q s).2 = s) → reads (stmt q).
Proof. intros Hq. apply quiet_read; [done|done|intros t v; apply Hq|intros x; apply reads_halt]. Qed.

Lemma select_stack_same n s : (select_stack n s).2 = s.
Proof.
  destruct (decide (n = "")) as [->|Hn]; [by destruct (select_stack_empty s) as [e ->]|].
  by rewrite select_stack_law.
Qed.
Lemma select_all_same s : (iter select_all s).2 = s.
Proof.
  rewrite /iter. pose proof (proj1 (select_all_law s)) as Hs. by destruct (select_all s).
Qed.

Lemma GetAll_reads : reads GetAll.
Proof. apply reads_bind; [apply reads_stmt, select_all_same|intros l; apply reads_halt]. Qed.
Lemma GetStack_reads fuel : ∀ n, reads (GetStack fuel n).
Proof.
  induction fuel as [|fuel IH]; intros n; [apply reads_halt|]. cbn [GetStack].
  apply reads_bind; [apply reads_stmt, select_stack_same|]. intros [[name parent] apps].
  apply reads_bind; [apply reads_halt|]. intros m. cbv zeta.
  destruct (String.eqb parent ""); [apply reads_halt|].
  apply reads_bind; [apply IH|intros pst; apply reads_halt].
Qed.
Lemma GetLayer_reads fuel n : reads (GetLayer fuel n).
Proof.
  apply reads_bind; [apply GetStack_reads|]. intros st. by destruct (NewLayer _ _); apply reads_halt.
Qed.
Lemma GetLayersStack_reads fuel n : reads (GetLayersStack fuel n).
Proof.
  apply reads_bind; [apply GetLayer_reads|]. intros zone.
  destruct (String.eqb _ ""); [apply reads_halt|].
  apply reads_bind; [apply GetLayer_reads|]. intros cluster.
  destruct (String.eqb _ ""); [apply reads_halt|].
  apply reads_bind; [apply GetLayer_reads|]. intros datacenter.
  do 2 (apply reads_bind; [apply reads_halt|intros ?]). apply reads_halt.
Qed.

(** Others that leave the rows of [P] as they are. *)
Definition kept (P : string → Prop) s s' : Prop := ∀ k, P k → rows s' !! k = rows s !! k.
#[export] Instance kept_preorder P : PreOrder (kept P).
Proof. split; [by intros s k|]. intros s1 s2 s3 H12 H23 k Hk. by rewrite H23 // H12. Qed.

(** When they keep the rows [GetStack] needs, they do not show. *)
Lemma GetStack_undisturbed (P : string → Prop) s0 fuel :
  (∀ n p, P n → parents s0 !! n = Some p → P p) →
  ∀ n s, P n → n ≠ "" → kept P s0 s →
  safe (kept P) eq (λ o _ _, o = (CassandraStorage.GetStack fuel n s0).1) (GetStack fuel n) [] s.
Proof.
  intros Hup. induction fuel as [|fuel IH]; intros n s HP Hn Hs; [done|].
  cbn [GetStack CassandraStorage.GetStack]. rewrite /stmt.
  split; [by rewrite select_stack_same|]. rewrite select_stack_same => s1 Hs1.
  rewrite !select_stack_law // (Hs n HP). run_m. rewrite select_stack_law //.
  destruct (rows s0 !! n) as [r|] eqn:Hr; simpl; [|done].
  destruct (CassandraStorage.decode n (row_applications r)) as [m|e|q]; simpl; [|done..].
  destruct (String.eqb_spec (row_parent r) "") as [Hp|Hp]; simpl; [done|].
  apply safe_bind. eapply safe_mono; [|apply (IH (row_parent r) s1); [|done|by etrans]].
  - intros o t v ->. by destruct (CassandraStorage.GetStack fuel (row_parent r) s0) as [[] ?].
  - apply (Hup n); [done|]. by rewrite /parents lookup_fmap Hr.
Qed.
End readers.

(** ** Writers

    One writes at a time ([Sessions]), so what it reads stays true until it
    writes. After each single statement the table is well stored: a row is
    inserted below a stored parent and deleted after its children. *)
Section writers.
Context `{ord : MapOrder} `{Yaml} `{!YamlLaws} {db : Type} `{StacksTableLaws db}.
Abbreviation code := (prog Empty_set db).
Implicit Types (s v : db).

(** What one statement of a writer may do to the table. *)
Definition adds (n : string) v v' : Prop :=
  rows v' = rows v ∨
  n ≠ "" ∧ rows v !! n = None ∧ ∃ r, rows v' = <[n := r]> (rows v).
Definition erases (m : string) v v' : Prop :=
  rows v' = rows v ∨ ∃ x, under (parents v) m x ∧ rows v' = delete x (rows v).
Lemma adds_refl n v : adds n v v.
Proof. by left. Qed.
Lemma erases_refl n v : erases n v v.
Proof. by left. Qed.

Section rules.
Context (E : db → db → Prop).

Definition keeps_stored {A} (Q : result A → db → Prop) (p : code A) s : Prop :=
  safe eq (λ v v', well_stored v → well_stored v' ∧ E v v') (λ o _ v, Q o v) p [] s.
Lemma no_log (t : list Empty_set) : t = [].
Proof. by destruct t as [|[]]. Qed.

Lemma stores_bind {A B} (Q : result B → db → Prop) (Q' : result A → db → Prop)
    (p : code A) (f : A → code B) s :
  keeps_stored Q' p s →
  (∀ o v, Q' o v → match o with
                   | Ret x => keeps_stored Q (f x) v
                   | Err e => Q (Err e) v
                   | Panic m => Q (Panic m) v
                   end) →
  keeps_stored Q (p ≫= f) s.
Proof.
  intros Hp Hf. apply safe_bind. eapply safe_mono; [|apply Hp]. cbv beta.
  intros o t' v HQ. rewrite (no_log t'). specialize (Hf o v HQ). destruct o; [apply Hf|done..].
Qed.
Lemma stores_halt {A} (Q : result A → db → Prop) o s : Q o s → keeps_stored Q (Halt o) s.
Proof. done. Qed.
Lemma stores_stmt {A} (Q : result A → db → Prop) (q : M db error A) s :
  (well_stored s → well_stored (q s).2 ∧ E s (q s).2) → Q (q s).1 (q s).2 →
  keeps_stored Q (stmt q) s.
Proof. intros Hq HQ. split; [done|]. by intros v' <-. Qed.
Lemma stores_mono {A} (Q Q' : result A → db → Prop) (p : code A) s :
  (∀ o v, Q o v → Q' o v) → keeps_stored Q p s → keeps_stored Q' p s.
Proof. intros HQ Hp. eapply safe_mono; [|apply Hp]. intros o t' v. apply HQ. Qed.

(** A question, and the answer it gets. *)
Context (HE : ∀ v, E v v).
Lemma stores_ask {A} (q : M db error A) s r :
  q s = (r, s) → keeps_stored (λ o v, o = r ∧ v = s) (stmt q) s.
Proof. intros Hq. by apply stores_stmt; rewrite Hq. Qed.
Lemma stores_exists n s :
  keeps_stored (λ o v, v = s ∧ if decide (n = "") then is_ret o = false
                         else o = Ret (bool_decide (is_Some (rows s !! n)))) (exists_ n) s.
Proof.
  case_decide as Hn.
  - subst n. destruct (count_stack_empty s) as [e He].
    eapply stores_bind; [by apply stores_ask|]. by intros o v [-> ->].
  - eapply stores_bind; [by apply stores_ask, count_stack_law|]. intros o v [-> ->].
    apply stores_halt. split; [done|]. by destruct (rows s !! n).
Qed.
End rules.

Lemma delete_leaf_stored s s' n :
  well_stored s → (∀ d, parents s !! d ≠ Some n) → rows s' = delete n (rows s) → well_stored s'.
Proof.
  intros Hw Hleaf Hs'.
  apply (well_stored_sub s s' (n =.)); [done|rewrite Hs'; apply delete_subseteq|].
  rewrite /parents Hs' fmap_delete. eapply pruned_finish; [apply pruned_none|].
  intros d. split; [apply Hleaf|done].
Qed.

(** What is left of a sub-tree has its ancestors with it. *)
Lemma under_left s v m n :
  well_stored s → well_stored v → rows v ⊆ rows s → m ≠ "" →
  under (parents s) m n → is_Some (rows v !! n) → under (parents v) m n.
Proof.
  intros Hs Hv Hsub Hm. induction 1 as [|n p Hn Hu IH]; intros Hin; [constructor|].
  rewrite -parents_is_Some in Hin. destruct Hin as [p' Hp'].
  pose proof (lookup_weaken _ _ _ _ Hp' (parents_mono _ _ Hsub)) as Hsame.
  rewrite Hn in Hsame. injection Hsame as <-. eapply under_child; [done|]. apply IH.
  rewrite -parents_is_Some. eapply wf_parent; [apply Hv|done|]. intros ->.
  inversion Hu as [|? ? Hempty]; subst; [done|].
  by rewrite (wf_no_empty_name _ (ws_forest _ Hs)) in Hempty.
Qed.

(** How a removal of [names] leaves the table. *)
Definition cleared s (names : list string) v : Prop :=
  well_stored v ∧ rows v ⊆ rows s ∧ ∀ n, n ∈ names → rows v !! n = None.

Lemma cleared_nothing s v : well_stored v → rows v ⊆ rows s → cleared s [] v.
Proof. intros Hw Hs. split_and!; [done..|]. by intros n ?%elem_of_nil. Qed.

Section removal.
Context (m : string) (Hm : m ≠ "").
Abbreviation removes := (keeps_stored (erases m)).
(** [n], if it is still there, is in the sub-tree of [m]. *)
Definition below n s : Prop := is_Some (rows s !! n) → under (parents s) m n.

Lemma remove_loop_stores (rec : string → code unit) names children :
  (∀ n s, n ∈ names → well_stored s → below n s →
     removes (λ o v, cleared s (if is_ret o then [n] else []) v) (rec n) s) →
  ∀ s, well_stored s → (∀ n, n ∈ names → below n s) →
  removes (λ o v, cleared s (if is_ret o then names else []) v ∧ ∀ l, o = Ret l → l = children)
    (remove_loop rec true names children) s.
Proof.
  induction names as [|n names IH]; intros Hrec s Hw Hb; simpl.
  - apply stores_halt. split; [by apply cleared_nothing|by intros l [= ->]].
  - eapply stores_bind; [apply Hrec; [constructor|done|apply Hb; constructor]|].
    intros [[]|e|q] v (Hwv & Hsub & Hn).
    2,3: split; [done|by intros ?]. simpl in Hn.
    eapply stores_mono; [|apply IH; [|done|]].
    + intros o v' [(Hwv' & Hsub' & Hn') Hl]. split; [|done].
      split_and!; [done|by etrans|]. destruct (is_ret o); [|done]. intros n' [->|Hin]%elem_of_cons.
      * eapply lookup_weaken_None; [|exact Hsub']. apply Hn. constructor.
      * by apply Hn'.
    + intros n' s' Hin. apply Hrec. by constructor.
    + intros n' Hin Hv. eapply (under_left s); [done..| |done]. apply Hb; [by constructor|].
      destruct Hv as [r Hr]. exists r. by eapply lookup_weaken.
Qed.

Lemma remove_loop_collects (rec : string → code unit) names : ∀ children,
  remove_loop rec false names children = Halt (Ret (children ++ names)).
Proof.
  induction names as [|n names IH]; intros children; simpl; [by rewrite app_nil_r|].
  by rewrite IH -app_assoc.
Qed.

(** The last statement of a removal, when the children are gone. *)
Lemma delete_stores n s v :
  n ≠ "" → well_stored s → below n s → cleared s (select_children n s).1 v →
  removes (λ o v, cleared s (if is_ret o then [n] else []) v) (stmt (delete_stack n)) v.
Proof.
  intros Hn Hw Hb (Hwv & Hsub & Hgone). destruct (delete_stack_law n v Hn) as (v' & Hv & Hrows).
  assert (well_stored v') as Hwv'.
  { apply (delete_leaf_stored v v' n Hwv); [|done]. intros d Hd.
    assert (rows v !! d = None) as Hnone.
    { apply Hgone. rewrite children_spec. eapply lookup_weaken; [done|by apply parents_mono]. }
    by rewrite /parents lookup_fmap Hnone in Hd. }
  apply stores_stmt; rewrite Hv.
  - intros _. split; [done|]. simpl. destruct (rows v !! n) as [r|] eqn:Hr.
    + right. exists n. split; [|done].
      apply (under_left s); [done..| |by eexists]. apply Hb. exists r. by eapply lookup_weaken.
    + left. by rewrite Hrows delete_id.
  - split_and!; [done| |].
    + rewrite Hrows. etrans; [apply delete_subseteq|done].
    + intros n' ->%list_elem_of_singleton. by rewrite Hrows lookup_delete_eq.
Qed.

Lemma remove_stores fuel force : ∀ n s, n ≠ "" → well_stored s → below n s →
  removes (λ o v, cleared s (if is_ret o then [n] else []) v) (remove fuel n force) s.
Proof.
  induction fuel as [|fuel IH]; intros n s Hn Hw Hb; cbn [remove].
  { by apply stores_halt, cleared_nothing. }
  eapply stores_bind; [apply stores_ask; [apply erases_refl|apply iter_children]|]. intros o v [-> ->].
  destruct force.
  - eapply stores_bind; [apply remove_loop_stores; [|exact Hw|]|].
    + intros c s' Hc. apply IH. intros ->. apply children_spec in Hc.
      by rewrite (wf_no_empty_name _ (ws_forest _ Hw)) in Hc.
    + intros c Hc%children_spec _. apply (under_child _ _ c n); [done|]. apply Hb.
      rewrite -parents_is_Some. by apply (wf_parent _ (ws_forest _ Hw) c).
    + intros [l|e|q] v [Hcl Hl]; [|done..]. rewrite (Hl l) //=. by apply delete_stores.
  - rewrite remove_loop_collects.
    eapply (stores_bind _ _ (λ o v, o = Ret (select_children n s).1 ∧ v = s)); [by apply stores_halt|].
    intros o v [-> ->]. destruct (select_children n s).1 as [|c l] eqn:Hc; simpl.
    + apply delete_stores; [done..|]. rewrite Hc. by apply cleared_nothing.
    + by apply stores_halt, cleared_nothing.
Qed.
End removal.

Lemma RemoveStack_stores fuel n force s :
  well_stored s → keeps_stored (erases n) (λ _, well_stored) (RemoveStack fuel n force) s.
Proof.
  intros Hw. eapply stores_bind; [apply stores_exists, erases_refl|]. intros o v [-> Ho].
  case_decide as Hn; [by destruct o|]. subst o. case_bool_decide; [|by apply stores_halt].
  eapply stores_mono; [|apply (remove_stores n); [done..|]].
  - by intros o v (? & _).
  - intros _. constructor.
Qed.

(** All statements of [StoreStack] but the last one are questions. *)
Lemma StoreStack_stores st s :
  well_stored s → keeps_stored (adds (Stk.Name st)) (λ _, well_stored) (StoreStack st) s.
Proof.
  intros Hw. eapply stores_bind; [apply stores_exists, adds_refl|]. intros o v [-> Ho].
  case_decide as Hn; [by destruct o|]. subst o.
  case_bool_decide as Hrow; [by apply stores_halt|]. apply eq_None_not_Some in Hrow.
  eapply (stores_bind _ _
    (λ o v, v = s ∧ (o = Ret tt → Stk.From st ≠ "" → is_Some (rows s !! Stk.From st)))).
  - destruct (String.eqb_spec (Stk.From st) "") as [Hf|Hf]; [by apply stores_halt|].
    eapply (stores_bind _ _ (λ o v, v = s ∧ (o = Ret (inr true) → is_Some (rows s !! Stk.From st)))).
    + apply safe_attempt.
      eapply safe_mono; [|exact (stores_exists _ (adds_refl _) (Stk.From st) s)].
      intros o t' v' [-> Ho]. rewrite decide_False // in Ho. rewrite Ho. split; [done|].
      intros [= Hb]. by apply bool_decide_eq_true in Hb.
    + intros [[e|[]]|e|q] v [-> Hp]; try by apply stores_halt.
      * apply stores_halt. split; [done|]. intros _ _. by apply Hp.
      * done.
      * done.
  - intros [[]|e|q] v [-> Hp]; [|done..].
    eapply (stores_bind _ _ (λ o v, o = marshal_apps (Stk.Applications st) ∧ v = s));
      [by apply stores_halt|].
    intros o v [-> ->]. destruct (marshal_apps (Stk.Applications st)) as [text|e|q] eqn:Ht; [|done..].
    destruct (insert_stack_law (Stk.Name st) (Stk.From st) text s Hn) as (s' & Hs' & Hrows).
    assert (well_stored s') by (eapply (well_stored_insert s s'); eauto).
    apply stores_stmt; rewrite Hs' //. intros _. split; [done|]. right. eauto.
Qed.
End writers.
End Statements.

(** ** The storage as requests use it *)
Module Sessions.
Import Statements.

(** The methods of the interface [Storage] but [Init]; [GetStackRunner] is
    [GetStack]. *)
Inductive call : Type :=
| Get (name : string)
| All
| Layers (name : string)
| Store (stack : Stack)
| Remove (name : string) (force : bool).
Inductive reply : Type :=
| OneStack (stack : Stack)
| Stacks (stacks : list Stack)
| Done.

(** [StoreStack] and [RemoveStack] start with [cs.lock.Lock()]. *)
Definition exclusive (c : call) : bool :=
  match c with Store _ | Remove _ _ => true | _ => false end.

(** Where a call is: a reader is nowhere else than in its statements; a writer
    waits for the lock, holds it, or has given it back. *)
Inductive phase : Type := Reading | Blocked | Inside | Left.
#[export] Instance phase_eq_dec : EqDecision phase.
Proof. solve_decision. Defined.

Record thread (db : Type) : Type := MkThread {
  asked : call;
  at_ : phase;
  todo : prog Empty_set db reply
}.
Arguments MkThread {db}.
Arguments asked {db}.
Arguments at_ {db}.
Arguments todo {db}.

(** [turns]: the calls that took the lock, in that order. *)
Record sessions (db : Type) : Type := MkSessions {
  table : db;
  locked : bool;
  threads : list (thread db);
  turns : list (nat * call)
}.
Arguments MkSessions {db}.
Arguments table {db}.
Arguments locked {db}.
Arguments threads {db}.
Arguments turns {db}.

Inductive move : Type :=
| Arrive (c : call)
| Lock (i : nat)
| Run (i : nat)
| Unlock (i : nat).

Section steps.
Context `{ord : MapOrder} `{Yaml} {db : Type} `{StacksTable db}.
Context (fuel : nat).
Abbreviation code := (prog Empty_set db).

Definition begin_call (c : call) : code reply :=
  match c with
  | Get n => st ← GetStack fuel n; mret (OneStack st)
  | All => l ← GetAll; mret (Stacks l)
  | Layers n => st ← GetLayersStack fuel n; mret (OneStack st)
  | Store st => StoreStack st ;; mret Done
  | Remove n force => RemoveStack fuel n force ;; mret Done
  end.
(** The same calls, each in one go. *)
Definition at_once (c : call) : M db error reply :=
  match c with
  | Get n => st ← CassandraStorage.GetStack fuel n; mret (OneStack st)
  | All => l ← CassandraStorage.GetAll; mret (Stacks l)
  | Layers n => st ← CassandraStorage.GetLayersStack fuel n; mret (OneStack st)
  | Store st => CassandraStorage.StoreStack st ;; mret Done
  | Remove n force => CassandraStorage.RemoveStack fuel n force ;; mret Done
  end.

Definition arrival (c : call) : thread db :=
  MkThread c (if exclusive c then Blocked else Reading) (begin_call c).

(** A deferred [Unlock] runs when the body has returned, or panics. *)
Definition make_move (m : move) (e : sessions db) : option (sessions db) :=
  match m with
  | Arrive c => Some (MkSessions (table e) (locked e) (threads e ++ [arrival c]) (turns e))
  | Lock i =>
      th ← threads e !! i;
      guard (at_ th = Blocked ∧ locked e = false);;
      Some (MkSessions (table e) true
              (<[i := MkThread (asked th) Inside (todo th)]> (threads e)) (turns e ++ [(i, asked th)]))
  | Run i =>
      th ← threads e !! i;
      guard (at_ th = Reading ∨ at_ th = Inside);;
      '(_, p, s) ← advance (todo th) [] (table e);
      Some (MkSessions s (locked e) (<[i := MkThread (asked th) (at_ th) p]> (threads e)) (turns e))
  | Unlock i =>
      th ← threads e !! i;
      guard (at_ th = Inside);;
      match todo th with
      | Halt _ => Some (MkSessions (table e) false
                          (<[i := MkThread (asked th) Left (todo th)]> (threads e)) (turns e))
      | _ => None
      end
  end.
Definition step (e e' : sessions db) : Prop := ∃ m, make_move m e = Some e'.

Inductive stepped (e : sessions db) : sessions db → Prop :=
| stepped_arrive c :
    stepped e (MkSessions (table e) (locked e) (threads e ++ [arrival c]) (turns e))
| stepped_lock i th :
    threads e !! i = Some th → at_ th = Blocked → locked e = false →
    stepped e (MkSessions (table e) true
      (<[i := MkThread (asked th) Inside (todo th)]> (threads e)) (turns e ++ [(i, asked th)]))
| stepped_run i th t p s :
    threads e !! i = Some th → at_ th = Reading ∨ at_ th = Inside →
    advance (todo th) [] (table e) = Some (t, p, s) →
    stepped e (MkSessions s (locked e) (<[i := MkThread (asked th) (at_ th) p]> (threads e)) (turns e))
| stepped_unlock i th o :
    threads e !! i = Some th → at_ th = Inside → todo th = Halt o →
    stepped e (MkSessions (table e) false
      (<[i := MkThread (asked th) Left (todo th)]> (threads e)) (turns e)).

Lemma step_stepped e e' : step e e' → stepped e e'.
Proof.
  intros [[c|i|i|i] Hm]; simpl in Hm; [injection Hm as <-; constructor|..];
    apply bind_Some in Hm as (th & Hi & Hm); case_guard as Hg; try done; simpl in Hm.
  - injection Hm as <-. by apply stepped_lock; destruct Hg.
  - apply bind_Some in Hm as ([[t p] s] & Hp & [= <-]). by eapply stepped_run.
  - destruct (todo th) as [o|[]|] eqn:Hp; [|done]. injection Hm as <-. rewrite -Hp.
    by eapply stepped_unlock.
Qed.

(** The states a schedule goes through; a move that is not possible is skipped. *)
Fixpoint visited (ms : list move) (e : sessions db) : list (sessions db) :=
  e :: match ms with [] => [] | m :: ms' => visited ms' (default e (make_move m e)) end.
Definition plays (ms : list move) (e : sessions db) : sessions db :=
  foldl (λ e m, default e (make_move m e)) e ms.

(** The table after some calls, one after the other. *)
Definition serial (s : db) (l : list (nat * call)) : db := foldl (λ s c, (at_once c.2 s).2) s l.

Definition idle (s : db) : sessions db := MkSessions s false [] [].
Definition reached (s : db) (e : sessions db) : Prop := rtc step (idle s) e.

(** The call has its answer. *)
Definition answered (th : thread db) : option (result reply) :=
  match at_ th, todo th with
  | Reading, Halt o | Left, Halt o => Some o
  | _, _ => None
  end.

Lemma alone_start c s : alone (begin_call c) s = at_once c s.
Proof.
  destruct c; apply alone_bind_eq; try done.
  - intros s1. apply alone_GetStack.
  - intros s1. apply alone_GetAll.
  - intros s1. apply alone_GetLayersStack.
  - intros s1. apply alone_StoreStack.
  - intros s1. apply alone_RemoveStack.
Qed.
Lemma plays_reached ms e : rtc step e (plays ms e).
Proof.
  revert e. induction ms as [|m ms IH]; intros e; [done|]. simpl.
  destruct (make_move m e) as [e'|] eqn:Hm; simpl; [|apply IH].
  eapply rtc_l; [by exists m|apply IH].
Qed.
End steps.

(** ** The invariant *)
Section invariant.
Context `{ord : MapOrder} `{Yaml} `{!YamlLaws} {db : Type} `{StacksTableLaws db}.
Context (fuel : nat) (s0 : db).
Implicit Types (e : sessions db) (th : thread db).

(** What a statement of a call may do to the table. *)
Definition effect (c : call) : db → db → Prop :=
  match c with
  | Store st => adds (Stk.Name st)
  | Remove n _ => erases n
  | _ => λ v v', rows v' = rows v
  end.

(** What is known of a call, by where it is. *)
Definition thread_ok (s : db) (held : bool) (tn : list (nat * call)) (i : nat) th : Prop :=
  match at_ th with
  | Reading => exclusive (asked th) = false ∧
      ∀ v, safe (λ _ _, True) eq (λ _ _ _, True) (todo th) [] v
  | Blocked => exclusive (asked th) = true ∧ todo th = begin_call fuel (asked th) ∧ i ∉ tn.*1
  | Inside => held = true ∧
      (∃ l, tn = l ++ [(i, asked th)] ∧
         alone (todo th) s = at_once fuel (asked th) (serial fuel s0 l)) ∧
      keeps_stored (effect (asked th)) (λ _ _, True) (todo th) s
  | Left => ∃ l1 l2, tn = l1 ++ (i, asked th) :: l2 ∧
      todo th = Halt (at_once fuel (asked th) (serial fuel s0 l1)).1
  end.
Record sessions_ok e : Prop := {
  ok_stored : well_stored (table e);
  ok_threads i th : threads e !! i = Some th → thread_ok (table e) (locked e) (turns e) i th;
  ok_free : locked e = false → table e = serial fuel s0 (turns e);
  ok_held : locked e = true → ∃ i th, threads e !! i = Some th ∧ at_ th = Inside;
  ok_turns : NoDup (turns e).*1;
  ok_asked i c : (i, c) ∈ turns e →
    ∃ th, threads e !! i = Some th ∧ asked th = c ∧ (at_ th = Inside ∨ at_ th = Left)
}.

Lemma start_reads c : exclusive c = false → reads (begin_call fuel c).
Proof.
  destruct c; try done; intros _; (apply reads_bind; [|intros ?; apply reads_halt]).
  - apply GetStack_reads.
  - apply GetAll_reads.
  - apply GetLayersStack_reads.
Qed.
Lemma start_stores c s : exclusive c = true → well_stored s →
  keeps_stored (effect c) (λ _ _, True) (begin_call fuel c) s.
Proof.
  destruct c as [| | |st|n force]; try done; intros _ Hw.
  - eapply stores_bind; [by apply StoreStack_stores|]. intros [] v Hv; [|done..].
    by apply stores_halt.
  - eapply stores_bind; [by apply RemoveStack_stores|]. intros [] v Hv; [|done..].
    by apply stores_halt.
Qed.

(** Who is inside has the last turn, so two are not. *)
Lemma inside_unique e i j th th' :
  sessions_ok e → threads e !! i = Some th → threads e !! j = Some th' →
  at_ th = Inside → at_ th' = Inside → i = j.
Proof.
  intros He Hi Hj Hai Haj. pose proof (ok_threads e He i th Hi) as Hti.
  pose proof (ok_threads e He j th' Hj) as Htj. rewrite /thread_ok Hai in Hti.
  rewrite /thread_ok Haj in Htj. destruct Hti as (_ & (l & Hl & _) & _).
  destruct Htj as (_ & (l' & Hl' & _) & _). rewrite Hl in Hl'.
  by apply app_inj_tail in Hl' as [_ [= -> _]].
Qed.

Lemma idle_ok : well_stored s0 → sessions_ok (idle s0).
Proof. intros Hw. split; simpl; [done|done|done|done|constructor|by intros i c ?%elem_of_nil]. Qed.

Lemma arrive_ok e c :
  sessions_ok e →
  sessions_ok (MkSessions (table e) (locked e) (threads e ++ [arrival fuel c]) (turns e)).
Proof.
  intros He. split; simpl; [apply He| |apply He| |apply He|].
  - intros i th [Hi|[Hlen Hi]]%lookup_app_Some; [by apply (ok_threads e He)|].
    apply list_lookup_singleton_Some in Hi as [Hi <-]. rewrite /thread_ok /arrival /=.
    destruct (exclusive c) eqn:Hc.
    + split_and!; [done|done|]. intros ([j c'] & Hj & Hin)%list_elem_of_fmap. simpl in Hj. subst j.
      destruct (ok_asked e He i c' Hin) as (th & Hth & _). apply lookup_lt_Some in Hth. lia.
    + split; [done|]. intros v. eapply safe_mono; [|by apply (start_reads c Hc [] v)]. done.
  - intros Hl. destruct (ok_held e He Hl) as (i & th & Hi & Ha). exists i, th. split; [|done].
    by apply lookup_app_l_Some.
  - intros i c' Hin. destruct (ok_asked e He i c' Hin) as (th & Hi & Ha). exists th. split; [|done].
    by apply lookup_app_l_Some.
Qed.

Lemma lock_ok e i th :
  sessions_ok e → threads e !! i = Some th → at_ th = Blocked → locked e = false →
  sessions_ok (MkSessions (table e) true
    (<[i := MkThread (asked th) Inside (todo th)]> (threads e)) (turns e ++ [(i, asked th)])).
Proof.
  intros He Hi Ha Hl. pose proof (ok_threads e He i th Hi) as Hth. rewrite /thread_ok Ha in Hth.
  destruct Hth as (Hex & Htodo & Hnew). pose proof (lookup_lt_Some _ _ _ Hi) as Hlt.
  split; simpl; [apply He| |done| | |].
  - intros j th' [(<- & <- & _)|[Hij Hj]]%list_lookup_insert_Some; rewrite /thread_ok /=.
    + split_and!; [done| |].
      * exists (turns e). split; [done|]. by rewrite Htodo alone_start (ok_free e He Hl).
      * rewrite Htodo. apply (start_stores _ _ Hex (ok_stored e He)).
    + pose proof (ok_threads e He j th' Hj) as Hth'. rewrite /thread_ok in Hth'.
      destruct (at_ th'); [done| | |].
      * destruct Hth' as (? & ? & Hnj). split_and!; [done..|]. rewrite fmap_app /=. set_solver.
      * destruct Hth' as [Hheld _]. congruence.
      * destruct Hth' as (l1 & l2 & -> & Ht). exists l1, (l2 ++ [(i, asked th)]).
        by rewrite -app_assoc.
  - intros _. eexists i, _. by rewrite list_lookup_insert_eq.
  - rewrite fmap_app /=. apply NoDup_app. split_and!; [apply He|set_solver|apply NoDup_singleton].
  - intros j c [Hin|[= -> ->]%list_elem_of_singleton]%elem_of_app.
    + destruct (ok_asked e He j c Hin) as (th' & Hj & Hc). exists th'. split; [|done].
      rewrite list_lookup_insert_ne //. intros ->. apply Hnew.
      apply list_elem_of_fmap. by exists (j, c).
    + eexists. rewrite list_lookup_insert_eq //. by auto.
Qed.

Lemma run_reader_ok e i th p t s :
  sessions_ok e → threads e !! i = Some th → at_ th = Reading →
  advance (todo th) [] (table e) = Some (t, p, s) →
  sessions_ok (MkSessions s (locked e) (<[i := MkThread (asked th) (at_ th) p]> (threads e)) (turns e)).
Proof.
  intros He Hi Ha Hp. pose proof (ok_threads e He i th Hi) as Hth. rewrite /thread_ok Ha in Hth.
  destruct Hth as [Hex Hsafe]. pose proof (lookup_lt_Some _ _ _ Hi) as Hlt.
  assert (s = table e ∧ ∀ v, safe (λ _ _, True) eq (λ _ _ _, True) p [] v) as [-> Hp'].
  { specialize (Hsafe (table e)). destruct (todo th) as [o|[]|X f k]; [done|].
    simpl in Hp, Hsafe. destruct (f [] (table e)) as [x s']. injection Hp as _ <- <-.
    destruct Hsafe as [Hs Hk]. split; [done|]. intros v. by apply Hk. }
  split; simpl; [apply He| |apply He| |apply He|].
  - intros j th' [(<- & <- & _)|[Hij Hj]]%list_lookup_insert_Some; [|by apply (ok_threads e He)].
    by rewrite /thread_ok /= Ha.
  - intros Hl. destruct (ok_held e He Hl) as (j & th' & Hj & Ha'). exists j, th'. split; [|done].
    rewrite list_lookup_insert_ne //. intros ->. congruence.
  - intros j c Hin. destruct (ok_asked e He j c Hin) as (th' & Hj & Hc & Ha'). exists th'.
    split; [|done]. rewrite list_lookup_insert_ne //. intros ->. destruct Ha'; congruence.
Qed.

Lemma stores_advance (E : db → db → Prop) (p q : prog Empty_set db reply) v t v' :
  well_stored v → keeps_stored E (λ _ _, True) p v → advance p [] v = Some (t, q, v') →
  well_stored v' ∧ E v v' ∧ keeps_stored E (λ _ _, True) q v'.
Proof.
  intros Hw Hp Hq. destruct p as [o|[]|X f k]; [done|]. destruct Hp as [HG Hk]. simpl in Hq.
  destruct (f [] v) as [x s']. injection Hq as <- <- <-. destruct (HG Hw) as [Hw' HE].
  split_and!; [done..|by apply Hk].
Qed.

Lemma run_writer_ok e i th p t s :
  sessions_ok e → threads e !! i = Some th → at_ th = Inside →
  advance (todo th) [] (table e) = Some (t, p, s) →
  sessions_ok (MkSessions s (locked e) (<[i := MkThread (asked th) (at_ th) p]> (threads e)) (turns e)).
Proof.
  intros He Hi Ha Hp. pose proof (ok_threads e He i th Hi) as Hth. rewrite /thread_ok Ha in Hth.
  destruct Hth as (Hl & (l & Hturns & Halone) & Hsafe). pose proof (lookup_lt_Some _ _ _ Hi) as Hlt.
  rewrite (alone_advance _ _ _ _ _ Hp) in Halone.
  destruct (stores_advance _ _ _ _ _ _ (ok_stored e He) Hsafe Hp) as (Hs & _ & Hp').
  split; simpl; [done| |congruence| |apply He|].
  - intros j th' [(<- & <- & _)|[Hij Hj]]%list_lookup_insert_Some; rewrite /thread_ok /=.
    + rewrite Ha. split_and!; [done| |done]. by exists l.
    + pose proof (ok_threads e He j th' Hj) as Hth'. rewrite /thread_ok in Hth'.
      destruct (at_ th') eqn:Ha'; [done|done| |done].
      destruct Hij. by apply (inside_unique e i j th th').
  - intros _. eexists i, _. by rewrite list_lookup_insert_eq.
  - intros j c Hin. destruct (ok_asked e He j c Hin) as (th' & Hj & Hc & Ha').
    destruct (decide (i = j)) as [<-|Hij].
    + eexists. rewrite list_lookup_insert_eq //. simpl. split_and!; [done| |by left]. simpl. congruence.
    + exists th'. by rewrite list_lookup_insert_ne.
Qed.

Lemma unlock_ok e i th o :
  sessions_ok e → threads e !! i = Some th → at_ th = Inside → todo th = Halt o →
  sessions_ok (MkSessions (table e) false
    (<[i := MkThread (asked th) Left (todo th)]> (threads e)) (turns e)).
Proof.
  intros He Hi Ha Hp. pose proof (ok_threads e He i th Hi) as Hth. rewrite /thread_ok Ha in Hth.
  destruct Hth as (Hl & (l & Hturns & Halone) & _). pose proof (lookup_lt_Some _ _ _ Hi) as Hlt.
  rewrite Hp in Halone. simpl in Halone.
  split; simpl; [apply He| | |done|apply He|].
  - intros j th' [(<- & <- & _)|[Hij Hj]]%list_lookup_insert_Some; rewrite /thread_ok /=.
    + exists l, []. by rewrite Hturns Hp -Halone.
    + pose proof (ok_threads e He j th' Hj) as Hth'. rewrite /thread_ok in Hth'.
      destruct (at_ th') eqn:Ha'; [done|done| |done].
      destruct Hij. by apply (inside_unique e i j th th').
  - intros _. by rewrite Hturns /serial foldl_app /= -/(serial fuel s0 l) -Halone.
  - intros j c Hin. destruct (ok_asked e He j c Hin) as (th' & Hj & Hc & Ha').
    destruct (decide (i = j)) as [<-|Hij].
    + eexists. rewrite list_lookup_insert_eq //. simpl. split_and!; [done| |by right]. simpl. congruence.
    + exists th'. by rewrite list_lookup_insert_ne.
Qed.

Lemma step_ok e e' : sessions_ok e → step fuel e e' → sessions_ok e'.
Proof.
  intros He Hs%step_stepped. destruct Hs as [c|i th Hi Ha Hl|i th t p s Hi [Ha|Ha] Hp|i th o Hi Ha Hp].
  - by apply arrive_ok.
  - by apply lock_ok.
  - by eapply run_reader_ok.
  - by eapply run_writer_ok.
  - by eapply unlock_ok.
Qed.
Lemma reached_ok e : well_stored s0 → reached fuel s0 e → sessions_ok e.
Proof.
  intros Hw. rewrite /reached. apply (rtc_ind_r sessions_ok); [by apply idle_ok|].
  intros e1 e2 _ Hs He. by eapply step_ok.
Qed.
End invariant.
End Sessions.
