(* ===== verification/StorageConcurrencyFacts.v ===== *)
(** What [StorageConcurrency] is good for: writers take turns and the table is
    what they make of it one after the other, no statement leaves a row without
    its parent, every call ends, and which calls a reader does not notice. *)
From S2P Require Import Prelude GoStrings Errors Data Forest Stacks CassandraStorage Goroutine.
From S2P Require Import StorageConcurrency.
From Stdlib Require Import Lia.
Open Scope string_scope.
Open Scope list_scope.
Open Scope nat_scope.
Import Statements Sessions.

(** ** One step *)
Section step.
Context `{ord : MapOrder} `{Yaml} {db : Type} `{StacksTable db}.
Context (fuel : nat).
Implicit Types (e : sessions db) (th : thread db).

Lemma step_turns e e' : step fuel e e' → turns e `prefix_of` turns e'.
Proof. intros Hs%step_stepped. destruct Hs; simpl; [done|by eexists|done..]. Qed.
Lemma steps_turns e e' : rtc (step fuel) e e' → turns e `prefix_of` turns e'.
Proof.
  induction 1 as [|e1 e2 e3 Hs _ IH]; [done|]. etrans; [by apply step_turns|done].
Qed.

(** A call that has left, or only reads, goes on as it is but for a statement of its own. *)
Lemma step_thread e e' i th : step fuel e e' → threads e !! i = Some th →
  ∃ th', threads e' !! i = Some th' ∧ asked th' = asked th ∧
    (at_ th = Left → th' = th) ∧
    (at_ th = Reading → at_ th' = Reading ∧
       (todo th' = todo th ∨
        ∃ t, advance (todo th) [] (table e) = Some (t, todo th', table e'))).
Proof.
  intros Hs%step_stepped Hi. pose proof (lookup_lt_Some _ _ _ Hi) as Hlt.
  assert (∀ s, asked th = asked th ∧ (at_ th = Left → th = th) ∧
    (at_ th = Reading → at_ th = Reading ∧
      (todo th = todo th ∨ ∃ t, advance (todo th) [] (table e) = Some (t, todo th, s)))) as Hsame.
  { intros s. split_and!; [done..|]. intros ->. by split; [|left]. }
  destruct Hs as [c|j tj Hj Ha Hl|j tj t p s Hj Ha Hp|j tj o Hj Ha Hp]; simpl.
  { exists th. split; [by apply lookup_app_l_Some|apply Hsame]. }
  all: destruct (decide (i = j)) as [<-|Hij];
    [|exists th; split; [by rewrite list_lookup_insert_ne|apply Hsame]].
  all: assert (tj = th) as -> by congruence; rewrite list_lookup_insert_eq //;
    eexists; split; [done|]; simpl; split; [done|]; split; intros Ha'.
  all: try (exfalso; intuition congruence).
  by split; [|right; exists t].
Qed.
End step.

(** ** The others, as a reader sees them *)
Section others.
Context `{ord : MapOrder} `{Yaml} `{!YamlLaws} {db : Type} `{StacksTableLaws db}.
Context (fuel : nat) (s0 : db).
Implicit Types (e : sessions db) (th : thread db).
Abbreviation ok := (sessions_ok fuel s0).

(** Only the call inside writes, and only what its statements may. *)
Lemma step_table e e' : ok e → step fuel e e' →
  table e' = table e ∨
  ∃ i th, threads e !! i = Some th ∧ at_ th = Inside ∧ effect (asked th) (table e) (table e').
Proof.
  intros He Hs%step_stepped.
  destruct Hs as [c|i th Hi Ha Hl|i th t p s Hi Ha Hp|i th o Hi Ha Hp]; simpl; try by left.
  pose proof (ok_threads _ _ _ He i th Hi) as Hth. rewrite /thread_ok in Hth.
  destruct Ha as [Ha|Ha]; rewrite Ha in Hth.
  - left. destruct Hth as [_ Hsafe]. specialize (Hsafe (table e)).
    destruct (todo th) as [o|[]|X f k]; [done|]. simpl in Hp, Hsafe.
    destruct (f [] (table e)) as [x s']. injection Hp as _ _ <-. by destruct Hsafe.
  - right. exists i, th. split_and!; [done..|]. destruct Hth as (_ & _ & Hst).
    by destruct (stores_advance _ _ _ _ _ _ (ok_stored _ _ _ He) Hst Hp) as (_ & ? & _).
Qed.
Lemma step_kept P e e' : ok e → step fuel e e' →
  (∀ i th, threads e !! i = Some th → at_ th = Inside → effect (asked th) (table e) (table e') →
     kept P (table e) (table e')) →
  kept P (table e) (table e').
Proof.
  intros He Hs Hp. destruct (step_table e e' He Hs) as [->|(i & th & Hi & Ha & Heff)]; [done|].
  by eapply Hp.
Qed.

(** [above s n]: the names of the rows the stack [n] of the table [s] is made of. *)
Definition above (s : db) (n k : string) : Prop := under (parents s) k n.
Lemma above_up s n k p : above s n k → parents s !! k = Some p → above s n p.
Proof. intros Hk Hp. eapply under_trans; [|exact Hk]. econstructor; [done|constructor]. Qed.
Lemma above_stored s n k :
  well_stored s → is_Some (rows s !! n) → above s n k → k ≠ "" → is_Some (rows s !! k).
Proof.
  intros Hw Hn Hk Hne. rewrite /above in Hk. rewrite -parents_is_Some in Hn. rewrite -parents_is_Some.
  induction Hk as [|n p Hp Hu IH]; [done|]. destruct (decide (p = "")) as [->|Hpe].
  - inversion Hu as [|? ? He]; subst; [done|].
    by rewrite (wf_no_empty_name _ (ws_forest _ Hw)) in He.
  - apply IH. by eapply wf_parent; [apply Hw|..].
Qed.

Lemma adds_kept s v v' n m : well_stored s → is_Some (rows s !! n) →
  kept (above s n) s v → adds m v v' → kept (above s n) v v'.
Proof.
  intros Hw Hn Hk [Hrows|(Hm & Hnew & r & Hrows)] k Ha; rewrite Hrows //.
  rewrite lookup_insert_ne //. intros ->. rewrite (Hk k Ha) in Hnew.
  destruct (above_stored s n k Hw Hn Ha Hm) as [r' Hr']. congruence.
Qed.
Lemma erases_kept s v v' n m :
  ¬ above s n m → kept (above s n) s v → erases m v v' → kept (above s n) v v'.
Proof.
  intros Hm Hk [Hrows|(x & Hx & Hrows)] k Ha; rewrite Hrows //.
  rewrite lookup_delete_ne //. intros ->. apply Hm. clear Hrows.
  induction Hx as [|x p Hp Hx IH]; [done|]. apply IH. eapply above_up; [done|].
  rewrite -Hp /parents !lookup_fmap. by rewrite (Hk x Ha).
Qed.

Lemma ok_well_stored e : ok e → well_stored (table e).
Proof. apply ok_stored. Qed.

(** Call [i] reads the stack [n] since [e], and got nowhere else than it would
    have with nobody beside. *)
Record watched e n i e1 : Prop := {
  watched_ok : ok e1;
  watched_kept : kept (above (table e) n) (table e) (table e1);
  watched_reader : ∃ th, threads e1 !! i = Some th ∧ at_ th = Reading ∧
    safely (kept (above (table e) n)) eq
      (λ o _ _, o = (at_once fuel (Get n) (table e)).1) (todo th) [] (table e1);
  watched_left j th : threads e !! j = Some th → at_ th = Left → threads e1 !! j = Some th
}.

Lemma watched_start e n i :
  ok e → is_Some (rows (table e) !! n) → threads e !! i = Some (arrival fuel (Get n)) →
  watched e n i e.
Proof.
  intros He Hn Hi. split; [done|done| |done]. exists (arrival fuel (Get n)).
  split_and!; [done..|]. intros v Hv. apply safe_bind. eapply safe_mono.
  2:{ apply (GetStack_undisturbed (above (table e) n) (table e)); [apply above_up|constructor| |done].
      intros ->. destruct Hn as [r Hr]. pose proof (ws_forest _ (ok_well_stored _ He)) as Hf.
      apply wf_no_empty_name in Hf. by rewrite /parents lookup_fmap Hr in Hf. }
  intros o t v' ->. rewrite /at_once. run_m.
  by destruct (CassandraStorage.GetStack fuel n (table e)) as [[] ?].
Qed.

Lemma watched_step e n i e1 e2 :
  ok e → is_Some (rows (table e) !! n) → watched e n i e1 → step fuel e1 e2 →
  (∀ j m force, (j, Remove m force) ∈ turns e1 →
     ¬ above (table e) n m ∨ ∃ th, threads e !! j = Some th ∧ at_ th = Left) →
  watched e n i e2.
Proof.
  intros He Hn [He1 Hk (th & Hi & Ha & Hsafe) Hleft] Hs Hothers.
  assert (kept (above (table e) n) (table e1) (table e2)) as Hk12.
  { apply step_kept; [done..|]. intros j tj Hj Haj Heff.
    pose proof (ok_threads _ _ _ He1 j tj Hj) as Htj. rewrite /thread_ok Haj in Htj.
    destruct Htj as (_ & (l & Hl & _) & _). destruct (asked tj) as [| | |st|m force]; simpl in Heff.
    1-3: by intros k _; rewrite Heff.
    - eapply adds_kept; [by apply ok_well_stored|done..].
    - eapply erases_kept; [|done..]. destruct (Hothers j m force) as [Hm|(tj' & Hj' & Hlj)]; [|done|].
      + rewrite Hl. set_solver.
      + pose proof (Hleft j tj' Hj' Hlj). congruence. }
  split.
  - by eapply step_ok.
  - by etrans.
  - destruct (step_thread fuel e1 e2 i th Hs Hi) as (th' & Hi' & _ & _ & Hread).
    destruct (Hread Ha) as [Ha' Htodo]. exists th'. split_and!; [done..|].
    destruct Htodo as [->|[t Hadv]].
    + exact (safely_stable _ _ _ _ _ _ _ Hsafe Hk12).
    + rewrite (no_log t) in Hadv. exact (proj2 (safely_advance _ _ _ _ _ _ _ _ _ Hsafe Hadv)).
  - intros j tj Hj Hlj. pose proof (Hleft j tj Hj Hlj) as Hj1.
    destruct (step_thread fuel e1 e2 j tj Hs Hj1) as (tj' & Hj2 & _ & Hsame & _).
    by rewrite Hj2 (Hsame Hlj).
Qed.

Lemma watched_steps e n i e1 e2 :
  ok e → is_Some (rows (table e) !! n) → rtc (step fuel) e1 e2 → watched e n i e1 →
  (∀ j m force, (j, Remove m force) ∈ turns e2 →
     ¬ above (table e) n m ∨ ∃ th, threads e !! j = Some th ∧ at_ th = Left) →
  watched e n i e2.
Proof.
  intros He Hn. induction 1 as [e1|e1 e2 e3 Hs Hsteps IH]; intros Hwatch Hothers; [done|].
  apply IH; [|done]. eapply watched_step; [done..|]. intros j m force Hj. apply (Hothers j m force).
  assert (turns e1 `prefix_of` turns e3) as [l ->]
    by (etrans; [by eapply step_turns|by eapply steps_turns]).
  apply elem_of_app. by left.
Qed.
End others.

(** ** Every call ends *)
Section ending.
Context `{ord : MapOrder} `{Yaml} `{!YamlLaws} {db : Type} `{StacksTableLaws db}.
Context (fuel : nat) (s0 : db).
Implicit Types (e : sessions db) (th : thread db).

(** A step that is not an arrival. *)
Definition goes_on e' e : Prop := step fuel e e' ∧ length (threads e') = length (threads e).

(** How often a call has to do with the lock. *)
Definition visits (a : phase) : nat :=
  match a with Blocked => 2 | Inside => 1 | Reading | Left => 0 end.
Definition all_visits e : nat := sum_list_with (λ th, visits (at_ th)) (threads e).
Definition code_left e : list (prog Empty_set db reply) := todo <$> threads e.

Lemma sum_list_with_insert {A} (f : A → nat) (l : list A) i x y :
  l !! i = Some x → sum_list_with f (<[i := y]> l) + f x = sum_list_with f l + f y.
Proof.
  revert i. induction l as [|z l IH]; intros [|i] Hi; simpl in *; [done..| |].
  - injection Hi as ->. lia.
  - specialize (IH i Hi). lia.
Qed.

Lemma goes_on_measure e e' : goes_on e' e →
  all_visits e' < all_visits e ∨
  all_visits e' = all_visits e ∧ pool_step (code_left e') (code_left e).
Proof.
  intros [Hs%step_stepped Hlen]. rewrite /all_visits.
  destruct Hs as [c|i th Hi Ha Hl|i th t p s Hi Ha Hp|i th o Hi Ha Hp]; simpl in *.
  - rewrite length_app /= in Hlen. lia.
  - left. pose proof (sum_list_with_insert (λ th, visits (at_ th)) (threads e) i th
      (MkThread (asked th) Inside (todo th)) Hi) as Hsum. simpl in Hsum. rewrite Ha /= in Hsum. lia.
  - right. split.
    + pose proof (sum_list_with_insert (λ th, visits (at_ th)) (threads e) i th
        (MkThread (asked th) (at_ th) p) Hi) as Hsum. simpl in Hsum. lia.
    + exists i, (todo th), p. rewrite /code_left /= list_fmap_insert list_lookup_fmap Hi.
      split_and!; [done| |done]. by eapply advance_rest.
  - left. pose proof (sum_list_with_insert (λ th, visits (at_ th)) (threads e) i th
      (MkThread (asked th) Left (todo th)) Hi) as Hsum. simpl in Hsum. rewrite Ha /= in Hsum. lia.
Qed.

Lemma goes_on_wf : well_founded goes_on.
Proof.
  assert (∀ n ps e, all_visits e = n → code_left e = ps → Acc goes_on e) as Hacc;
    [|intros e; by eapply Hacc].
  intros n. induction (lt_wf n) as [n _ IHn]. intros ps.
  induction (pool_wf ps) as [ps _ IHps]. intros e <- <-. constructor. intros e' Hg.
  destruct (goes_on_measure e e' Hg) as [Hlt|[Heq Hpool]].
  - by eapply IHn.
  - by eapply IHps.
Qed.

Lemma advance_not_done {A} (p : prog Empty_set db A) s :
  (∃ o, p = Halt o) ∨ ∃ t q s', advance p [] s = Some (t, q, s').
Proof.
  destruct p as [o|[]|X f k]; [left; by exists o|right]. simpl. destruct (f [] s). eauto.
Qed.

Lemma inside_goes_on e i th :
  threads e !! i = Some th → at_ th = Inside → ∃ e', goes_on e' e.
Proof.
  intros Hi Ha. destruct (advance_not_done (todo th) (table e)) as [[o Ho]|(t & p & s & Hp)].
  - eexists. split; [exists (Unlock i); by rewrite /= Hi /= option_guard_True // Ho|].
    by rewrite /= length_insert.
  - eexists. split; [exists (Run i); rewrite /= Hi /= option_guard_True; [|by right]; by rewrite Hp|].
    by rewrite /= length_insert.
Qed.

Lemma unanswered_goes_on e i th :
  sessions_ok fuel s0 e → threads e !! i = Some th → answered th = None → ∃ e', goes_on e' e.
Proof.
  intros He Hi Hans. rewrite /answered in Hans. destruct (at_ th) eqn:Ha.
  - destruct (advance_not_done (todo th) (table e)) as [[o Ho]|(t & p & s & Hp)];
      [by rewrite Ho in Hans|].
    eexists. split; [exists (Run i); rewrite /= Hi /= option_guard_True; [|by left]; by rewrite Hp|].
    by rewrite /= length_insert.
  - destruct (locked e) eqn:Hl.
    + destruct (ok_held _ _ _ He Hl) as (j & tj & Hj & Haj). by eapply inside_goes_on.
    + eexists. split; [exists (Lock i); by rewrite /= Hi /= option_guard_True|].
      by rewrite /= length_insert.
  - by eapply inside_goes_on.
  - pose proof (ok_threads _ _ _ He i th Hi) as Hth. rewrite /thread_ok Ha in Hth.
    destruct Hth as (l1 & l2 & _ & Ht). by rewrite Ht in Hans.
Qed.
End ending.

(** ** The theorems *)
Section theorems.
Context `{ord : MapOrder} `{Yaml} `{!YamlLaws} {db : Type} `{StacksTableLaws db}.
Implicit Types (e : sessions db).

(** C31. The writers of the table of stacks take turns: whatever the interleaving
    of their statements, with each other and with readers, the table, when the
    lock is free, is what the calls make of it one after the other in the order
    in which they got the lock, and each of them is answered as if it had run
    at its turn. A call takes one turn, between its arrival and its answer. *)
Theorem writers_take_turns fuel s0 e :
  well_stored s0 → reached fuel s0 e →
  NoDup (turns e).*1 ∧
  (locked e = false → table e = serial fuel s0 (turns e)) ∧
  (∀ i th o, threads e !! i = Some th → exclusive (asked th) = true → answered th = Some o →
     ∃ l1 l2, turns e = l1 ++ (i, asked th) :: l2 ∧
       o = (at_once fuel (asked th) (serial fuel s0 l1)).1) ∧
  (∀ e', rtc (step fuel) e e' → turns e `prefix_of` turns e').
Proof.
  intros Hw Hr. pose proof (reached_ok fuel s0 e Hw Hr) as He.
  split_and!; [apply He|apply He| |apply steps_turns].
  intros i th o Hi Hex Hans. pose proof (ok_threads _ _ _ He i th Hi) as Hth.
  rewrite /thread_ok in Hth. rewrite /answered in Hans. destruct (at_ th); [|done..|].
  - destruct Hth as [Hnex _]. congruence.
  - destruct Hth as (l1 & l2 & Hl & Ht). rewrite Ht in Hans. injection Hans as <-. by exists l1, l2.
Qed.

(** C32. Between any two statements of any calls: at most one call is in the part
    that the lock protects, every parent named in the table is stored, no stack
    inherits from itself, and every text decodes. *)
Theorem table_always_stored fuel s0 e :
  well_stored s0 → reached fuel s0 e →
  well_stored (table e) ∧
  ∀ i j thi thj, threads e !! i = Some thi → threads e !! j = Some thj →
    at_ thi = Inside → at_ thj = Inside → i = j.
Proof.
  intros Hw Hr. pose proof (reached_ok fuel s0 e Hw Hr) as He. split; [apply He|].
  intros i j thi thj. by eapply inside_unique.
Qed.


(** C33. A stack that is stored when [GetStack] is called is found as it was then,
    however long the call takes and whatever is stored meanwhile, unless a
    removal of the stack itself or of one of its ancestors had its turn before
    the answer and was not over at the call. *)
Theorem undisturbed_get fuel s0 e e' i n th o :
  well_stored s0 → reached fuel s0 e →
  threads e !! i = Some (arrival fuel (Get n)) → is_Some (rows (table e) !! n) →
  rtc (step fuel) e e' →
  (∀ j m force, (j, Remove m force) ∈ turns e' →
     ¬ above (table e) n m ∨ ∃ thj, threads e !! j = Some thj ∧ at_ thj = Left) →
  threads e' !! i = Some th → answered th = Some o →
  o = (at_once fuel (Get n) (table e)).1.
Proof.
  intros Hw Hr Hi Hn Hsteps Hothers Hi' Hans.
  pose proof (reached_ok fuel s0 e Hw Hr) as He.
  destruct (watched_steps fuel s0 e n i e e' He Hn Hsteps) as [_ _ (th' & Hth' & Ha & Hsafe) _].
  { by apply watched_start. }
  { done. }
  rewrite Hth' in Hi'. injection Hi' as ->. rewrite /answered Ha in Hans.
  destruct (todo th) as [o'|[]|]; [|done]. injection Hans as ->.
  by apply (Hsafe (table e')).
Qed.
End theorems.

(** ** An execution

    While [leaf] is being read, [mid] is removed with everything that inherits
    from it and stored anew. *)
Section examples.
Import Concrete.
#[local] Existing Instance canonical_order.

Definition new_mid : Stack := Stk.MkStack "" "mid" "" (Some {["new" := bare "new"]}) LayerStack.
Definition ex_call : list move := [Arrive (Get "leaf")].
Definition ex_moves : list move :=
  [Run 0;
   Arrive (Remove "mid" true); Lock 1; Run 1; Run 1; Run 1; Run 1; Run 1; Unlock 1;
   Arrive (Store new_mid); Lock 2; Run 2; Run 2; Unlock 2;
   Run 0].
Definition ex_start : sessions table := plays (db := table) 5 ex_call (idle ex_table).
Definition ex_end : sessions table := plays (db := table) 5 ex_moves ex_start.

Definition found (r : outcome error reply) : option (list string) :=
  match r with Ret (OneStack st) => Some (map_to_list (Stk.apps st)).*1 | _ => None end.

Lemma ex_stored : well_stored (db := table) ex_table.
Proof. exact (reachable_well_stored _ ex_table_reachable). Qed.
Lemma ex_start_reached : reached (db := table) 5 ex_table ex_start.
Proof. exact (plays_reached 5 ex_call (idle ex_table)). Qed.
Lemma ex_end_steps : rtc (step (db := table) 5) ex_start ex_end.
Proof. exact (plays_reached 5 ex_moves ex_start). Qed.
Lemma ex_end_reached : reached (db := table) 5 ex_table ex_end.
Proof. exact (transitivity ex_start_reached ex_end_steps). Qed.

(** What a reader gets may be the stack of no moment at all: [leaf] as it was,
    below [mid] as it is. *)
Lemma reads_may_mix :
  (answered <$> threads ex_end !! 0) ≫= id = Some (Ret (OneStack (Stk.MkStack "" "leaf" ""
    (Some (<["new" := bare "new"]> {["leaf" := bare "leaf"]})) LayerZone))) ∧
  Forall (λ e : sessions table,
    found (at_once (db := table) 5 (Get "leaf") (Sessions.table e)).1 ≠ Some ["new"; "leaf"])
    (visited (db := table) 5 ex_moves ex_start).
Proof. split; [by vm_compute|]. by apply (bool_decide_unpack _); vm_compute. Qed.

Lemma writers_take_turns_witness :
  locked ex_end = false ∧
  Sessions.table ex_end = serial (db := table) 5 ex_table
    [(1, Remove "mid" true); (2, Store new_mid)] ∧
  ∃ l1 l2, turns ex_end = l1 ++ (2, Store new_mid) :: l2 ∧
    Ret Done = (at_once (db := table) 5 (Store new_mid) (serial (db := table) 5 ex_table l1)).1.
Proof.
  destruct (writers_take_turns (db := table) 5 ex_table ex_end ex_stored ex_end_reached)
    as (_ & Hfree & Hans & _).
  assert (locked ex_end = false) as Hl by by vm_compute.
  split_and!; [exact Hl|exact (Hfree Hl)|].
  exact (Hans 2 (MkThread (Store new_mid) Left (Halt (Ret Done))) (Ret Done)
    ltac:(by vm_compute) eq_refl eq_refl).
Defined.

(** In the middle of the removal. *)
Definition ex_middle : sessions table := plays (db := table) 5 (take 7 ex_moves) ex_start.
Lemma ex_middle_reached : reached (db := table) 5 ex_table ex_middle.
Proof. exact (transitivity ex_start_reached (plays_reached 5 (take 7 ex_moves) ex_start)). Qed.

Lemma ex_middle_waits : answered <$> threads ex_middle !! 0 = Some None.
Proof. by vm_compute. Qed.

Lemma table_always_stored_witness :
  locked ex_middle = true ∧
  dom (Sessions.table ex_middle) = dom (Sessions.table ex_start) ∖ {["leaf"]} ∧
  well_stored (db := table) (Sessions.table ex_middle).
Proof.
  split_and!; [by vm_compute|by vm_compute|].
  apply (table_always_stored (db := table) 5 ex_table ex_middle ex_stored ex_middle_reached).
Defined.


(** [twig] is stored below [leaf], and removed, while [leaf] is read. *)
Definition ex_beside : list move :=
  [Run 0; Arrive (Store (ex_stack "twig" "leaf")); Lock 1; Run 1; Run 1; Run 1; Unlock 1;
   Run 0; Arrive (Remove "twig" false); Lock 2; Run 2; Run 2; Run 2; Unlock 2; Run 0].
Definition ex_read : sessions table := plays (db := table) 5 ex_beside ex_start.
Lemma ex_read_steps : rtc (step (db := table) 5) ex_start ex_read.
Proof. exact (plays_reached 5 ex_beside ex_start). Qed.
Lemma ex_read_turns : turns ex_read = [(1, Store (ex_stack "twig" "leaf")); (2, Remove "twig" false)].
Proof. by vm_compute. Qed.
Lemma ex_read_answer : answered <$> threads ex_read !! 0 =
  Some (Some (at_once (db := table) 5 (Get "leaf") ex_table).1).
Proof. by vm_compute. Qed.
Lemma ex_get_arrived : threads ex_start !! 0 = Some (arrival (db := table) 5 (Get "leaf")).
Proof. done. Qed.
Lemma ex_leaf_stored : is_Some (rows (db := table) ex_table !! "leaf").
Proof. exists (MkRow "mid" "leaf"). by vm_compute. Qed.
Lemma twig_not_above : ¬ above (db := table) (Sessions.table ex_start) "leaf" "twig".
Proof.
  intros Hu.
  destruct (above_stored (db := table) ex_table "leaf" "twig" ex_stored ex_leaf_stored Hu ltac:(done))
    as [r Hr].
  by vm_compute in Hr.
Qed.

Lemma undisturbed_get_witness :
  ∃ th, threads ex_read !! 0 = Some th ∧
    ∀ o, answered th = Some o → o = (at_once (db := table) 5 (Get "leaf") ex_table).1.
Proof.
  destruct (proj1 (fmap_Some _ _ _) ex_read_answer) as (th & Hth & _).
  exists th. split; [exact Hth|]. intros o Ho.
  apply (undisturbed_get (db := table) 5 ex_table ex_start ex_read 0 "leaf" th o
    ex_stored ex_start_reached ex_get_arrived ex_leaf_stored ex_read_steps); [|exact Hth|exact Ho].
  intros j m force Hj. left. rewrite ex_read_turns in Hj.
  apply elem_of_cons in Hj as [[=]|[= -> -> ->]%list_elem_of_singleton]. exact twig_not_above.
Defined.
End examples.
