(* ===== verification/UserConcurrency.v ===== *)
(** [CassandraUserStorage] of [framework/user_storage.go] as several requests use
    it at the same time: every operation as the tree of its statements, without
    a lock. What survives any interleaving, and what does not. *)
From S2P Require Import Prelude GoStrings Errors Sha1 UserStorage Goroutine StorageConcurrency.
From Stdlib Require Import Lia.
Open Scope string_scope.
Open Scope list_scope.

Module UserStatements.
Section statements.
Context {db : Type} `{UserTable db}.
Abbreviation code := (prog Empty_set db).
Abbreviation stmt := Statements.stmt.

Definition userExist (name : string) : code bool :=
  count ← stmt (count_user name); mret (0 <? count)%Z.
Definition SaveUser (user : User) : code unit :=
  stmt (insert_user (u_Name user) (sha (u_Key user)) (u_Role user)).
Definition GetUser (name : string) : code (option User) :=
  row ← stmt (select_user name);
  let '(name', key, role) := row in mret (Some (MkUser name' key role)).
Definition deref (user : option User) : code User :=
  match user with Some u => mret u | None => Halt (Panic nil_dereference) end.
Definition CheckKey (name key : string) : code bool :=
  user ← GetUser name;
  user ← deref user;
  mret (String.eqb (u_Key user) (sha key)).
Definition IsAdmin (name : string) : code bool :=
  user ← GetUser name;
  user ← deref user;
  mret (u_Role user =? UserAdmin)%Z.
Definition CreateUser (name : string) (role : Z) : code string :=
  present ← userExist name;
  if present : bool then Halt (Err (Errorf ("User '" +:+ name +:+ "' already exists"))) else
  key ← stmt CassandraUserStorage.new_key;
  SaveUser (MkUser name key role) ;;
  mret key.
Definition RefreshToken (name : string) : code string :=
  present ← userExist name;
  if negb present then Halt (Err (Errorf ("User '" +:+ name +:+ "' does not exist"))) else
  user ← GetUser name;
  newKey ← stmt CassandraUserStorage.new_key;
  user ← deref user;
  SaveUser (MkUser (u_Name user) newKey (u_Role user)) ;;
  mret newKey.

(** What requests ask for; a key or a yes or no is the answer. *)
Inductive call : Type :=
| CallCreateUser (name : string) (role : Z)
| CallRefreshToken (name : string)
| CallCheckKey (name key : string)
| CallIsAdmin (name : string).
Definition about (c : call) : string :=
  match c with
  | CallCreateUser n _ | CallRefreshToken n | CallCheckKey n _ | CallIsAdmin n => n
  end.
Definition body (c : call) : code (string + bool) :=
  match c with
  | CallCreateUser n r => k ← CreateUser n r; mret (inl k)
  | CallRefreshToken n => k ← RefreshToken n; mret (inl k)
  | CallCheckKey n k => b ← CheckKey n k; mret (inr b)
  | CallIsAdmin n => b ← IsAdmin n; mret (inr b)
  end.
Definition in_one_go (c : call) : M db error (string + bool) :=
  match c with
  | CallCreateUser n r => k ← CassandraUserStorage.CreateUser n r; mret (inl k)
  | CallRefreshToken n => k ← CassandraUserStorage.RefreshToken n; mret (inl k)
  | CallCheckKey n k => b ← CassandraUserStorage.CheckKey n k; mret (inr b)
  | CallIsAdmin n => b ← CassandraUserStorage.IsAdmin n; mret (inr b)
  end.

(** The calls that were made, with what is left of them to do. *)
Record pool : Type := MkPool { table : db; calls : list (call * code (string + bool)) }.
Inductive pool_move : Type :=
| Called (c : call)
| Goes (i : nat).
Definition pool_play (m : pool_move) (e : pool) : option pool :=
  match m with
  | Called c => Some (MkPool (table e) (calls e ++ [(c, body c)]))
  | Goes i =>
      '(c, p) ← calls e !! i;
      '(_, p', s) ← advance p [] (table e);
      Some (MkPool s (<[i := (c, p')]> (calls e)))
  end.
Definition pool_next (e e' : pool) : Prop := ∃ m, pool_play m e = Some e'.
Definition pool_plays (ms : list pool_move) (e : pool) : pool :=
  foldl (λ e m, default e (pool_play m e)) e ms.
Lemma pool_plays_reached ms e : rtc pool_next e (pool_plays ms e).
Proof.
  revert e. induction ms as [|m ms IH]; intros e; [done|]. simpl.
  destruct (pool_play m e) as [e'|] eqn:Hm; simpl; [|apply IH].
  eapply rtc_l; [by exists m|apply IH].
Qed.

(** ** With nobody beside *)
Import Statements.
Lemma alone_userExist n s : alone (userExist n) s = CassandraUserStorage.userExist n s.
Proof. apply alone_bind_eq; [apply alone_stmt|done]. Qed.
Lemma alone_SaveUser u s : alone (SaveUser u) s = CassandraUserStorage.SaveUser u s.
Proof. apply alone_stmt. Qed.
Lemma alone_GetUser n s : alone (GetUser n) s = CassandraUserStorage.GetUser n s.
Proof. apply alone_bind_eq; [apply alone_stmt|]. by intros [[n' k] r]. Qed.
Lemma alone_deref u s : alone (deref u) s = CassandraUserStorage.deref u s.
Proof. by destruct u. Qed.
Lemma alone_body c s : alone (body c) s = in_one_go c s.
Proof.
  destruct c as [n r|n|n k|n]; apply alone_bind_eq; try done; intros s1;
    repeat first
      [ apply alone_userExist | apply alone_SaveUser | apply alone_GetUser | apply alone_deref
      | apply alone_stmt | done
      | match goal with |- context[if ?b then _ else _] => destruct b end
      | apply alone_bind_eq; intros ].
Qed.
End statements.
Arguments MkPool {db}.
Arguments table {db}.
Arguments calls {db}.
Arguments pool : clear implicits.
End UserStatements.
Import UserStatements.

(** ** What no interleaving breaks *)
Section facts.
Context {db : Type} `{UserTableLaws db}.
Abbreviation code := (prog Empty_set db).
Implicit Types (s v : db) (e : pool db).

(** [allowed n r]: [n] may have the role [r]. *)
Section allowed.
Context (allowed : string → Z → Prop).
Definition roles_ok s : Prop := ∀ n h r, users s !! n = Some (h, r) → allowed n r.
Definition grows s s' : Prop := (roles_ok s → roles_ok s') ∧ dom (users s) ⊆ dom (users s').
#[local] Instance grows_preorder : PreOrder grows.
Proof.
  split; [by split|]. intros s1 s2 s3 [H1 H1'] [H2 H2']. split; [naive_solver|set_solver].
Qed.
Lemma grows_same s s' : users s' = users s → grows s s'.
Proof. rewrite /grows /roles_ok => ->. done. Qed.

Definition leads {A} (I : db → Prop) (p : code A) (P : A → Prop) (I' : db → Prop) : Prop :=
  ends grows grows (λ _, I) p P (λ _, I').
Definition knows (n : string) s : Prop := roles_ok s ∧ is_Some (users s !! n).
Definition stable (I : db → Prop) : Prop := ∀ v v', I v → grows v v' → I v'.
Lemma roles_ok_stable : stable roles_ok.
Proof. intros v v' ? [? _]. auto. Qed.
Lemma knows_stable n : stable (knows n).
Proof.
  intros v v' [? Hn] [? Hd]. split; [auto|]. apply elem_of_dom, Hd, elem_of_dom, Hn.
Qed.

Lemma leads_stmt {A} (I I' : db → Prop) (q : M db error A) (P : A → Prop) :
  stable I' →
  (∀ v, I v → grows v (q v).2 ∧ ∀ x, (q v).1 = Ret x → P x ∧ I' (q v).2) →
  leads I (Statements.stmt q) P I'.
Proof.
  intros Hst Hq t v Hv. destruct (Hq v Hv) as [HG Hx]. split; [done|]. intros v' HR x Hr.
  destruct (Hx x Hr) as [? ?]. split; [done|]. by eapply Hst.
Qed.
Lemma leads_bind {A B} I I1 I2 (P : A → Prop) (P' : B → Prop) (p : code A) (f : A → code B) :
  leads I p P I1 → (∀ x, P x → leads I1 (f x) P' I2) → leads I (p ≫= f) P' I2.
Proof. apply ends_bind. Qed.
Lemma leads_ret {A} I (x : A) (P : A → Prop) : P x → leads I (mret x) P I.
Proof. intros HP t v Hv y. by intros [= <-]. Qed.
Lemma leads_fail {A} I I' er (P : A → Prop) : leads I (Halt (Err er)) P I'.
Proof. by intros t v Hv y. Qed.
Lemma leads_from {A} I I1 I' (p : code A) P : (∀ v, I v → I1 v) → leads I1 p P I' → leads I p P I'.
Proof. intros HI Hp t v Hv. apply Hp, HI, Hv. Qed.
Lemma leads_to {A} I I' (p : code A) (P P' : A → Prop) :
  (∀ x, P x → P' x) → leads I p P I' → leads I p P' I'.
Proof. intros HP Hp t v Hv. eapply safe_mono; [|by apply Hp]. naive_solver. Qed.

(** The statements. *)
Lemma leads_count n :
  leads roles_ok (userExist n) (λ _, True) roles_ok.
Proof.
  eapply leads_bind with (P := λ _, True); [|intros; by apply leads_ret].
  apply leads_stmt; [apply roles_ok_stable|]. intros v Hv. pose proof (count_user_law n v) as Hc.
  case_decide; [destruct Hc as [er ->]|rewrite Hc]; by split.
Qed.
Lemma leads_GetUser n :
  leads roles_ok (GetUser n)
    (λ u, ∃ k r, u = Some (MkUser n k r) ∧ allowed n r) (knows n).
Proof.
  eapply leads_bind with (P := λ '(n', _, r), n' = n ∧ allowed n r).
  2: { intros [[n' k] r] [-> Hr]. apply leads_ret. by exists k, r. }
  apply leads_stmt; [apply knows_stable|]. intros v Hv. pose proof (select_user_law n v) as Hs.
  case_decide; [destruct Hs as [er ->]; by split|rewrite Hs]. split; [done|].
  destruct (users v !! n) as [[k r]|] eqn:E; [|done]. intros ? [= <-].
  split; [split; [done|by eapply Hv]|]. by split.
Qed.
Lemma leads_new_key I : stable I → leads I (Statements.stmt CassandraUserStorage.new_key) (λ _, True) I.
Proof.
  intros HI. apply leads_stmt; [done|]. intros v Hv. rewrite /CassandraUserStorage.new_key.
  pose proof (UUID_law v) as Hu. destruct (UUID v) as [k v1]. simpl in *.
  pose proof (grows_same _ _ Hu). split; [done|]. intros _ _. split; [done|]. by eapply HI.
Qed.
Lemma leads_SaveUser I n k r :
  (∀ v, I v → roles_ok v) → allowed n r → leads I (SaveUser (MkUser n k r)) (λ _, True) (knows n).
Proof.
  intros HI Hr. apply leads_stmt; [apply knows_stable|]. intros v Hv%HI. simpl.
  pose proof (insert_user_law n (sha k) r v) as Hi.
  case_decide; [destruct Hi as [er ->]; by split|]. destruct Hi as (v1 & -> & Hv1). simpl.
  assert (roles_ok v1) as Hok.
  { intros m h r'. rewrite Hv1. intros [[<- [= _ <-]]|[_ Hm]]%lookup_insert_Some; [done|].
    by eapply Hv. }
  split; [split; [done|rewrite Hv1; set_solver]|]. intros _ _. split; [done|]. split; [done|].
  rewrite Hv1 lookup_insert_eq. by eexists.
Qed.

(** What may be asked for. *)
Definition proper (c : call) : Prop :=
  match c with CallCreateUser n r => allowed n r | _ => True end.
Lemma leads_body c : proper c → leads roles_ok (body c) (λ _, True) (knows (about c)).
Proof.
  intros Hc. destruct c as [n r|n|n k|n]; cbn [proper about body] in *;
    (eapply leads_bind with (P := λ _, True); [|intros; by apply leads_ret]).
  - rewrite /CreateUser. eapply leads_bind; [apply leads_count|]. intros [] _; [apply leads_fail|].
    eapply leads_bind; [by apply leads_new_key, roles_ok_stable|]. intros k _.
    eapply leads_bind; [by apply leads_SaveUser|]. intros. by apply leads_ret.
  - rewrite /RefreshToken. eapply leads_bind; [apply leads_count|]. intros [] _; [|apply leads_fail].
    eapply leads_bind; [apply leads_GetUser|]. intros u (k & r & -> & Hr).
    eapply leads_bind; [by apply leads_new_key, knows_stable|]. intros k' _.
    eapply leads_bind; [apply (leads_ret _ _ (λ u, u = MkUser n k r)); done|]. intros ? ->.
    eapply leads_bind; [apply leads_SaveUser; [by intros v [? _]|done]|]. intros.
    by apply leads_ret.
  - rewrite /CheckKey. eapply leads_bind; [apply leads_GetUser|]. intros u (h & r & -> & Hr).
    eapply leads_bind; [by apply (leads_ret _ _ (λ _, True))|]. intros. by apply leads_ret.
  - rewrite /IsAdmin. eapply leads_bind; [apply leads_GetUser|]. intros u (h & r & -> & Hr).
    eapply leads_bind; [by apply (leads_ret _ _ (λ _, True))|]. intros. by apply leads_ret.
Qed.

(** Every state that is reached. *)
Definition underway (v : db) (cp : call * code (string + bool)) : Prop :=
  safely grows grows (λ o _ v, ∀ a, o = Ret a → True ∧ knows (about cp.1) v) cp.2 [] v.
Record pool_ok (e : pool db) : Prop := {
  ok_roles : roles_ok (table e);
  ok_calls : Forall (underway (table e)) (calls e)
}.
Lemma underway_stable v v' cp : underway v cp → grows v v' → underway v' cp.
Proof. apply safely_stable, _. Qed.
Lemma begins v c : roles_ok v → proper c → underway v (c, body c).
Proof. intros Hv Hc v' [Hv' _]. apply (leads_body c Hc). auto. Qed.
Lemma pool_next_ok e e' :
  pool_ok e → Forall proper (calls e').*1 → pool_next e e' →
  pool_ok e' ∧ dom (users (table e)) ⊆ dom (users (table e')).
Proof.
  intros [Hr Hcs] Hp [[c|i] Hm]; simpl in Hm.
  - injection Hm as <-. simpl in *. split; [|done]. split; [done|].
    apply Forall_app. split; [done|]. constructor; [|done]. apply begins; [done|].
    rewrite fmap_app Forall_app in Hp. destruct Hp as [_ Hp]. by inversion Hp.
  - destruct (calls e !! i) as [[c p]|] eqn:Hi; [|done]. simpl in Hm.
    destruct (advance p [] (table e)) as [[[t p'] v']|] eqn:Ha; [|done]. injection Hm as <-.
    pose proof (Forall_lookup_1 _ _ _ _ Hcs Hi) as Hc.
    destruct (safely_advance grows grows _ _ _ _ _ _ _ Hc Ha) as [HG Hq].
    split; [|apply HG]. split; [by apply HG|]. simpl. apply Forall_insert.
    + eapply Forall_impl; [exact Hcs|]. intros cp Hcp. by eapply underway_stable.
    + destruct t; [done|destruct e0].
Qed.
End allowed.

Lemma pool_next_calls e e' : pool_next e e' → (calls e).*1 `prefix_of` (calls e').*1.
Proof.
  intros [[c|i] Hm]; simpl in Hm.
  - injection Hm as <-. simpl. rewrite fmap_app. by eexists.
  - destruct (calls e !! i) as [[c p]|] eqn:Hi; [|done]. simpl in Hm.
    destruct (advance p [] (table e)) as [[[t p'] v']|]; [|done]. injection Hm as <-. simpl.
    rewrite list_fmap_insert list_insert_id //. by rewrite list_lookup_fmap Hi.
Qed.
Lemma pool_reached_ok allowed e e' :
  rtc pool_next e e' → pool_ok allowed e → Forall (proper allowed) (calls e').*1 →
  pool_ok allowed e' ∧ dom (users (table e)) ⊆ dom (users (table e')).
Proof.
  intros Hr Hok. revert e' Hr. refine (rtc_ind_r _ e _ _); [done|]. intros e1 e2 Hr Hs IH Hp.
  destruct IH as [He1 Hd].
  { destruct (pool_next_calls _ _ Hs) as [k Hk]. rewrite Hk Forall_app in Hp. apply Hp. }
  destruct (pool_next_ok allowed _ _ He1 Hp Hs) as [He2 Hd2]. split; [done|set_solver].
Qed.

(** C35. Whatever requests about users are served at the same time, and however
    their statements mix: no user disappears; everyone in the table has the
    role they had at first or one that some request asked to create them with,
    so refreshing keys promotes nobody; and whatever request was answered, the
    user it is about exists. *)
Theorem users_however_mixed s e :
  rtc pool_next (MkPool s []) e →
  dom (users s) ⊆ dom (users (table e)) ∧
  (∀ n h r, users (table e) !! n = Some (h, r) →
     (∃ h0, users s !! n = Some (h0, r)) ∨ CallCreateUser n r ∈ (calls e).*1) ∧
  ∀ c a, (c, Halt (Ret a)) ∈ calls e → is_Some (users (table e) !! about c).
Proof.
  intros Hr.
  set (allowed := λ n r,
    (∃ h0, users s !! n = Some (h0, r)) ∨ CallCreateUser n r ∈ (calls e).*1).
  destruct (pool_reached_ok allowed _ _ Hr) as [[Hroles Hcalls] Hd].
  - split; [|by constructor]. intros n h r Hn. left. by exists h.
  - apply Forall_forall. intros [n r|n|n k|n] Hc; [by right|done..].
  - split_and!; [done|apply Hroles|]. intros c a [i Hi]%list_elem_of_lookup.
    pose proof (Forall_lookup_1 _ _ _ _ Hcalls Hi (table e)) as Hc.
    destruct (Hc (grows_same _ _ _ eq_refl) a eq_refl) as [_ [_ Hin]]. exact Hin.
Qed.
End facts.

(** ** Two requests for one name *)
Module TwoRequests.
Import ConcreteUsers.
Definition moves : list pool_move :=
  [Called (CallCreateUser "bob" UserRegular); Called (CallCreateUser "bob" UserAdmin);
   Goes 0; Goes 1; Goes 0; Goes 1; Goes 0; Goes 1].
Definition before : table := MkTable ∅ 1.
Definition after : pool table := pool_plays moves (MkPool before []).

(** Both are told that they created the user, each with a key of its own; the
    key of the first does not work, and the role is the second's. One after
    the other the second is refused ([CreateUser_correct]). *)
Lemma one_name_created_twice :
  calls after =
    [(CallCreateUser "bob" UserRegular, Halt (Ret (inl "key-1")));
     (CallCreateUser "bob" UserAdmin, Halt (Ret (inl "key-2")))] ∧
  (CassandraUserStorage.CheckKey "bob" "key-1" (UserStatements.table after)).1 = Ret false ∧
  (CassandraUserStorage.CheckKey "bob" "key-2" (UserStatements.table after)).1 = Ret true ∧
  (CassandraUserStorage.IsAdmin "bob" (UserStatements.table after)).1 = Ret true.
Proof. by vm_compute. Qed.

(** Two refreshes of one key that mix: both are answered, one key works. *)
Definition refreshes : list pool_move :=
  [Called (CallRefreshToken "bob"); Called (CallRefreshToken "bob");
   Goes 2; Goes 3; Goes 2; Goes 3; Goes 2; Goes 3; Goes 3; Goes 2].
Lemma refreshed_twice :
  let e := pool_plays refreshes after in
  snd <$> drop 2 (calls e) = [Halt (Ret (inl "key-3")); Halt (Ret (inl "key-4"))] ∧
  (CassandraUserStorage.CheckKey "bob" "key-3" (UserStatements.table e)).1 = Ret true ∧
  (CassandraUserStorage.CheckKey "bob" "key-4" (UserStatements.table e)).1 = Ret false.
Proof. by vm_compute. Qed.

Lemma users_however_mixed_witness :
  is_Some (users (UserStatements.table after) !! "bob").
Proof.
  destruct (users_however_mixed before after (pool_plays_reached moves (MkPool before [])))
    as (_ & _ & Hanswered).
  apply (Hanswered (CallCreateUser "bob" UserRegular) (inl "key-1")).
  rewrite (proj1 one_name_created_twice). apply list_elem_of_here.
Defined.
End TwoRequests.
