(* ===== verification/RunOnce.v ===== *)
(** The run-once runner of [mesosrunners/]: it launches the tasks of an
    application on offers that fit ([run_once_application_context.go]), keeps
    the applications it is running ([run_once_runner.go]) and schedules
    applications with cron ([time_scheduler.go]).

    All operations hold one lock from their first to their last statement, so
    they are atomic. Every channel has a receiver that waits on it once. *)
From S2P Require Import Prelude GoStrings Errors Data Constraints MesosState MesosRunner.
From S2P Require Import Application.
From Stdlib Require Import Lia.
Open Scope string_scope.
Open Scope list_scope.

Record runOnceTask : Type := MkTask {
  rt_State : TaskState;
  rt_Attributes : gmap string string;
  rt_TaskID : string
}.
Definition newRunOnceTask (offer : Offer) (taskID : string) : runOnceTask :=
  MkTask TASK_STAGING (OfferAttributes offer) taskID.

(** [RunOnceApplicationContext]. *)
Record context : Type := MkContext {
  cx_Application : Application;
  StatusChan : nat;
  InstancesLeftToRun : Z;
  cx_tasks : list runOnceTask
}.

(** [RunOnceRunner]; [channels] is the number of channels made so far, [sent]
    are the sends. *)
Record run_once : Type := MkRunOnce {
  applications : gmap string context;
  channels : nat;
  sent : list (nat * option error)
}.
Definition NewRunOnceRunner : run_once := MkRunOnce ∅ 0 [].

(** ** Task identifiers *)
Definition pipe : string := "|".
Definition unexpected_task_id (taskID : string) : string := "Unexpected task ID " +:+ taskID.
Definition applicationIDFromTaskID (taskID : string) : result string :=
  match Index taskID pipe with
  | None => Panic (unexpected_task_id taskID)
  | Some pipeIndex => Ret (take_str pipeIndex taskID)
  end.
Definition hostnameFromTaskID (taskID : string) : result string :=
  match Index taskID pipe with
  | None => Panic (unexpected_task_id taskID)
  | Some pipeIndex =>
      let hostnameAndUUID := drop_str (pipeIndex + 1) taskID in
      match Index hostnameAndUUID pipe with
      | None => Panic (unexpected_task_id taskID)
      | Some pipeIndex => Ret (take_str pipeIndex hostnameAndUUID)
      end
  end.

(** ** One application *)
Section context.
Context `{ord : MapOrder} `{rx : Regexp}.

Definition otherTasksAttributes (ctx : context) (name : string) : list string :=
  omap (λ task,
    if decide (rt_State task = TASK_STARTING) then None else
    let value := default "" (rt_Attributes task !! name) in
    if String.eqb value "" then None else Some value) (cx_tasks ctx).

(** The two loops of [CheckConstraints]. *)
Fixpoint check_attribute (ctx : context) (offerAttributes : gmap string string) (name : string)
    (constraints : list Constraint) : string :=
  match constraints with
  | [] => ""
  | constraint :: l =>
      match offerAttributes !! name with
      | Some attribute =>
          if negb (Matches constraint attribute (otherTasksAttributes ctx name))
          then name +:+ " doesn't match " +:+ constraint_String constraint
          else check_attribute ctx offerAttributes name l
      | None => "no " +:+ name
      end
  end.
Fixpoint check_attributes (ctx : context) (offerAttributes : gmap string string)
    (l : list (string * list Constraint)) : string :=
  match l with
  | [] => ""
  | (name, constraints) :: l' =>
      let reason := check_attribute ctx offerAttributes name constraints in
      if String.eqb reason "" then check_attributes ctx offerAttributes l' else reason
  end.
Definition CheckConstraints (ctx : context) (offer : Offer) : result string :=
  constraints ← GetConstraints (cx_Application ctx);
  Ret (check_attributes ctx (OfferAttributes offer) (range 0 constraints)).

(** [Matches] of a context: why the offer is declined, [""] if it is not. *)
Definition context_Matches (ctx : context) (offer : Offer) : result string :=
  if (InstancesLeftToRun ctx =? 0)%Z then Ret "all instances are staged/running" else
  declineReason ← CheckConstraints ctx offer;
  if negb (String.eqb declineReason "") then Ret declineReason
  else if float_gt (App.Cpu (cx_Application ctx)) (GetScalarResources offer "cpus")
  then Ret "no cpus"
  else if float_gt (App.Mem (cx_Application ctx)) (GetScalarResources offer "mem")
  then Ret "no mem"
  else Ret "".

Definition newTaskInfo (ctx : context) (offer : Offer) (uuid : string) : TaskInfo :=
  let app := cx_Application ctx in
  MkTaskInfo (App.ID app +:+ "." +:+ GetHostname offer)
    (App.ID app +:+ pipe +:+ GetHostname offer +:+ pipe +:+ uuid) (off_SlaveId offer)
    (App.Cpu app) (App.Mem app) (App.LaunchCommand app)
    (if (0 <? length (App.ArtifactURLs app))%nat || (0 <? length (App.AdditionalArtifacts app))%nat
     then Some (App.ArtifactURLs app ++ App.AdditionalArtifacts app) else None).

(** The context after [LaunchTask], whatever the driver answered. *)
Definition launched (ctx : context) (offer : Offer) (info : TaskInfo) : context :=
  MkContext (cx_Application ctx) (StatusChan ctx) (wrap_int64 (InstancesLeftToRun ctx - 1))
    (cx_tasks ctx ++ [newRunOnceTask offer (ti_TaskId info)]).

(** [updateTaskState]: the first task with the identifier. *)
Fixpoint update_tasks (taskID : string) (state : TaskState) (l : list runOnceTask) :
    list runOnceTask :=
  match l with
  | [] => []
  | task :: l' =>
      if String.eqb (rt_TaskID task) taskID
      then MkTask state (rt_Attributes task) (rt_TaskID task) :: l'
      else task :: update_tasks taskID state l'
  end.
Definition updateTaskState (ctx : context) (status : TaskStatus) : context :=
  MkContext (cx_Application ctx) (StatusChan ctx) (InstancesLeftToRun ctx)
    (update_tasks (ts_TaskId status) (ts_State status) (cx_tasks ctx)).

Definition task_finished (task : runOnceTask) : bool :=
  bool_decide (rt_State task = TASK_FINISHED ∨ rt_State task = TASK_KILLED).
Definition allTasksFinished (ctx : context) : bool :=
  (InstancesLeftToRun ctx =? 0)%Z && forallb task_finished (cx_tasks ctx).

Definition failure (app : Application) (hostname : string) (status : TaskStatus) : error :=
  Errorf ("Application " +:+ App.ID app +:+ " failed to run on host " +:+ hostname +:+
          " with status " +:+ TaskState_String (ts_State status) +:+ ": " +:+ ts_Message status).

(** [StatusUpdate] of a context: what it becomes, and the status it sends when
    it is done. *)
Definition context_StatusUpdate (ctx : context) (status : TaskStatus) :
    result (context * option (option error)) :=
  hostname ← hostnameFromTaskID (ts_TaskId status);
  let ctx := updateTaskState ctx status in
  Ret (ctx,
    match ts_State status with
    | TASK_LOST | TASK_FAILED | TASK_ERROR =>
        Some (Some (failure (cx_Application ctx) hostname status))
    | TASK_FINISHED | TASK_KILLED => if allTasksFinished ctx then Some None else None
    | TASK_RUNNING | TASK_STAGING | TASK_STARTING => None
    end).
End context.

(** ** The runner *)
Section runner.
Context `{ord : MapOrder} `{rx : Regexp} `{Driver}.

Definition StageApplication (application : Application) (state : MesosState) :
    M run_once error nat := λ r,
  match GetInstances application state with
  | Ret instances =>
      let ch := channels r in
      (Ret ch,
       if (instances =? 0)%Z
       then MkRunOnce (applications r) (ch + 1) (sent r ++ [(ch, None)])
       else MkRunOnce (<[App.ID application := MkContext application ch instances []]>
                         (applications r)) (ch + 1) (sent r))
  | Err e => (Err e, r)
  | Panic p => (Panic p, r)
  end.

Definition LaunchTask (id : string) (ctx : context) (offer : Offer) :
    M (run_once * driver) error unit := λ '(r, d),
  let info := newTaskInfo ctx offer (new_UUID d) in
  (match LaunchTasks_error d with Some e => Err e | None => Ret tt end,
   (MkRunOnce (<[id := launched ctx offer info]> (applications r)) (channels r) (sent r),
    d ++ [LaunchTasks (off_Id offer) info])).

Fixpoint offer_loop (offer : Offer) (l : list (string * context)) (declineReasons : list string) :
    M (run_once * driver) error string :=
  match l with
  | [] => mret (Join declineReasons ", ")
  | (id, ctx) :: l' =>
      declineReason ← lift (context_Matches ctx offer);
      if String.eqb declineReason "" then LaunchTask id ctx offer ;; mret ""
      else offer_loop offer l' (declineReasons ++ [declineReason])
  end.
Definition ResourceOffer (offer : Offer) : M (run_once * driver) error string := λ '(r, d),
  if decide (applications r = ∅) then (Ret "all tasks are running", (r, d))
  else offer_loop offer (range 0 (applications r)) [] (r, d).

Definition StatusUpdate (status : TaskStatus) : M run_once error bool := λ r,
  match applicationIDFromTaskID (ts_TaskId status) with
  | Ret applicationID =>
      match applications r !! applicationID with
      | None => (Ret false, r)
      | Some ctx =>
          match context_StatusUpdate ctx status with
          | Ret (ctx', None) =>
              (Ret true, MkRunOnce (<[applicationID := ctx']> (applications r)) (channels r)
                           (sent r))
          | Ret (ctx', Some result) =>
              (Ret true, MkRunOnce (delete applicationID (applications r)) (channels r)
                           (sent r ++ [(StatusChan ctx', result)]))
          | Err e => (Err e, r)
          | Panic p => (Panic p, r)
          end
      end
  | Err e => (Err e, r)
  | Panic p => (Panic p, r)
  end.
End runner.

(** ** Scheduling ([time_scheduler.go]) *)
Section cron.
Context `{CronScheduler C}.

Definition add_func (spec : string) (j : job) (c : C) : Z * C :=
  let '(id, _, c) := AddFunc spec j c in (id, c).
Definition StartWithSchedule (application : Application) (c : C) : Z * C :=
  add_func (App.StartTime application)
    (AddJob (App.TimeSchedule application) (StageJob application)) c.
Definition StartOnly (application : Application) (c : C) : Z * C :=
  add_func (App.StartTime application) (StageJob application) c.
Definition ScheduleOnly (application : Application) (c : C) : Z * C :=
  add_func (App.TimeSchedule application) (StageJob application) c.
Definition ScheduleApplication (application : Application) (c : C) : Z * C :=
  match String.eqb (App.StartTime application) "", String.eqb (App.TimeSchedule application) "" with
  | false, false => StartWithSchedule application c
  | false, true => StartOnly application c
  | true, false => ScheduleOnly application c
  | true, true => (0%Z, c)
  end.
Definition DeleteSchedule (id : Z) (c : C) : C := DeleteJob id c.
(** A job's time has come: what it does to the cron service; staging is the
    runner's. *)
Definition fire (j : job) (c : C) : C :=
  match j with
  | StageJob _ => c
  | AddJob spec j' => (add_func spec j' c).2
  end.
End cron.

#[export] Instance run_once_ops `{MapOrder} `{Regexp} `{Driver} : MesosTaskRunner run_once := {
  StageApplication := StageApplication;
  ResourceOffer := ResourceOffer;
  StatusUpdate := StatusUpdate;
  statuses := sent
}.
#[export] Instance run_once_cron `{CronScheduler C} : MesosCronRunner run_once C := {
  ScheduleApplication _ := ScheduleApplication;
  DeleteSchedule _ := DeleteSchedule
}.
