(* ===== verification/RunOnceFacts.v ===== *)
(** What the run-once runner guarantees: which offers it uses, that the tasks
    of an application satisfy its constraints and are as many as were asked
    for, and what the status it reports for an application means. *)
From S2P Require Import Prelude GoStrings Errors Data Constraints MesosState MesosRunner.
From S2P Require Import Application RunOnce.
From Stdlib Require Import Lia Ascii.
Open Scope string_scope.
Open Scope list_scope.
Open Scope nat_scope.

Section facts.
Context `{ord : MapOrder} `{rx : Regexp} `{drv : Driver}.

(** ** Constraints against an offer *)

(** An offer that has every constrained attribute, with a value each
    constraint accepts next to the tasks there are. *)
Definition fits (ctx : context) (offer : Offer) (C : gmap string (list Constraint)) : Prop :=
  ∀ name cs c, C !! name = Some cs → c ∈ cs → ∃ v, OfferAttributes offer !! name = Some v ∧
    Matches c v (otherTasksAttributes ctx name) = true.

Lemma app_not_empty (s t : string) : s ≠ "" → s +:+ t ≠ "".
Proof. by destruct s. Qed.

Lemma not_empty_app (s t : string) : t ≠ "" → s +:+ t ≠ "".
Proof. by destruct s. Qed.

Lemma check_attribute_spec ctx attributes name cs :
  check_attribute ctx attributes name cs = "" ↔
    ∀ c, c ∈ cs → ∃ v, attributes !! name = Some v ∧
      Matches c v (otherTasksAttributes ctx name) = true.
Proof.
  induction cs as [|c cs IH]; simpl.
  { split; [|done]. intros _ c Hc. by apply elem_of_nil in Hc. }
  destruct (attributes !! name) as [v|] eqn:Hv.
  - destruct (Matches c v (otherTasksAttributes ctx name)) eqn:Hm; simpl.
    + rewrite IH. split.
      * intros Hall c' [->|Hc]%elem_of_cons; [by exists v|by apply Hall].
      * intros Hall c' Hc. apply Hall. by apply list_elem_of_further.
    + split; [intros Hbad; by destruct name|].
      intros Hall. destruct (Hall c (list_elem_of_here _ _)) as (v' & [= <-] & ?). congruence.
  - split; [done|]. intros Hall. by destruct (Hall c (list_elem_of_here _ _)) as (v & ? & _).
Qed.

Lemma check_attributes_spec ctx offer C :
  check_attributes ctx (OfferAttributes offer) (range 0 C) = "" ↔ fits ctx offer C.
Proof.
  trans (∀ name cs, (name, cs) ∈ range 0 C →
    check_attribute ctx (OfferAttributes offer) name cs = "").
  - induction (range 0 C) as [|[name cs] l IH]; simpl.
    { split; [|done]. intros _ name cs Hn. by apply elem_of_nil in Hn. }
    destruct (String.eqb_spec (check_attribute ctx (OfferAttributes offer) name cs) "") as [He|Hne].
    + rewrite IH. split.
      * intros Hall n k [[= -> ->]|Hin]%elem_of_cons; [done|by apply Hall].
      * intros Hall n k Hin. apply Hall. by apply list_elem_of_further.
    + split; [done|]. intros Hall. destruct Hne. apply Hall, list_elem_of_here.
  - rewrite /fits. split.
    + intros Hall name cs c HC Hc.
      by apply (proj1 (check_attribute_spec _ _ _ _) (Hall name cs (proj2 (elem_of_range _ _ _ _) HC))).
    + intros Hall name cs Hin%elem_of_range. apply check_attribute_spec.
      intros c Hc. by eapply Hall.
Qed.

(** When a context uses an offer. *)
Definition usable (ctx : context) (offer : Offer) : Prop :=
  InstancesLeftToRun ctx ≠ 0%Z ∧
  (∃ C, ParseConstraints (App.Constraints (cx_Application ctx)) = Ret C ∧ fits ctx offer C) ∧
  float_gt (App.Cpu (cx_Application ctx)) (GetScalarResources offer "cpus") = false ∧
  float_gt (App.Mem (cx_Application ctx)) (GetScalarResources offer "mem") = false.

Lemma context_Matches_usable ctx offer :
  context_Matches ctx offer = Ret "" ↔ usable ctx offer.
Proof.
  rewrite /context_Matches /usable.
  destruct (Z.eqb_spec (InstancesLeftToRun ctx) 0) as [Hz|Hz]; [split; [done|naive_solver]|].
  rewrite /CheckConstraints /GetConstraints.
  destruct (ParseConstraints (App.Constraints (cx_Application ctx))) as [C|e|p]; simpl;
    [|split; [done|naive_solver]..].
  destruct (String.eqb_spec (check_attributes ctx (OfferAttributes offer) (range 0 C)) "") as [He|He].
  - simpl. apply check_attributes_spec in He.
    destruct (float_gt _ _); [split; [done|by intros (_ & _ & ? & _)]|].
    destruct (float_gt _ _); [split; [done|by intros (_ & _ & _ & ?)]|].
    split; [|done]. intros _. split_and!; [done|by exists C|done|done].
  - simpl. split; [intros [= ?]; congruence|].
    intros (_ & (C' & [= <-] & Hf) & _). destruct He. by apply check_attributes_spec.
Qed.

(** ** Offers *)

(** The states of the runner and of the driver after a launch. *)
Definition after_launch (id : string) (ctx : context) (offer : Offer) (r : run_once) (d : driver) :
    run_once * driver :=
  let info := newTaskInfo ctx offer (new_UUID d) in
  (MkRunOnce (<[id := launched ctx offer info]> (applications r)) (channels r) (sent r),
   d ++ [LaunchTasks (off_Id offer) info]).

Definition declines (ctx : context) (offer : Offer) : Prop :=
  ∃ reason, reason ≠ "" ∧ context_Matches ctx offer = Ret reason.

Lemma app_cons_not_nil' {A} (l : list A) x k : l ++ x :: k ≠ [].
Proof. by destruct l. Qed.

Lemma Join_not_empty l sep :
  l ≠ [] → (∀ s, s ∈ l → s ≠ "") → Join l sep ≠ "".
Proof.
  destruct l as [|s l]; [done|]. intros _ Hall. rewrite /Join /=.
  assert (s ≠ "") as Hs by (apply Hall; constructor).
  destruct l; [done|]. by apply app_not_empty.
Qed.

Lemma offer_loop_run offer l : ∀ reasons r d,
  (∀ s, s ∈ reasons → s ≠ "") → reasons ≠ [] ∨ l ≠ [] →
  match offer_loop offer l reasons (r, d) with
  | (Panic _, s) => s = (r, d) ∧
      ∃ id ctx p, (id, ctx) ∈ l ∧ context_Matches ctx offer = Panic p
  | (o, s) =>
      (∃ id ctx, (id, ctx) ∈ l ∧ usable ctx offer ∧ s = after_launch id ctx offer r d ∧
         o = match LaunchTasks_error d with Some e => Err e | None => Ret "" end) ∨
      (s = (r, d) ∧ (∃ reason, reason ≠ "" ∧ o = Ret reason) ∧
         ∀ id ctx, (id, ctx) ∈ l → declines ctx offer)
  end.
Proof.
  induction l as [|[id ctx] l IH]; intros reasons r d Hall Hne; simpl.
  { right. split_and!; [done| |by intros ? ? ?%elem_of_nil]. eexists. split; [|done].
    apply Join_not_empty; [by destruct Hne|done]. }
  rewrite /mbind /M_mbind /lift.
  destruct (context_Matches ctx offer) as [reason|e|p] eqn:Hm.
  - destruct (String.eqb_spec reason "") as [->|Hr].
    + rewrite /LaunchTask /after_launch. apply context_Matches_usable in Hm.
      destruct (LaunchTasks_error d) eqn:He; left; exists id, ctx;
        (split_and!; [constructor|done|done|done]).
    + specialize (IH (reasons ++ [reason]) r d).
      assert (∀ s, s ∈ reasons ++ [reason] → s ≠ "") as Hall' by set_solver.
      specialize (IH Hall' (or_introl (app_cons_not_nil' _ _ _))).
      assert ((∀ id' ctx', (id', ctx') ∈ l → declines ctx' offer) →
        ∀ id' ctx', (id', ctx') ∈ (id, ctx) :: l → declines ctx' offer) as Hcons.
      { intros Hd id' ctx' [[= -> ->]|Hin]%elem_of_cons; [by exists reason|by eapply Hd]. }
      destruct (offer_loop offer l (reasons ++ [reason]) (r, d)) as [[o|e|p] s].
      3: destruct IH as (? & id' & ctx' & p' & ? & ?); split; [done|];
         exists id', ctx', p'; split; [by right|done].
      all: destruct IH as [(id' & ctx' & ? & ?)|(? & ? & Hd)];
        [left; exists id', ctx'; split; [by right|done]|right; split_and!; [done|done|by apply Hcons]].
  - exfalso. revert Hm. rewrite /context_Matches /CheckConstraints /GetConstraints.
    destruct (_ =? 0)%Z; [done|]. destruct (ParseConstraints _); simpl; [|done..].
    repeat case_match; done.
  - split; [done|]. exists id, ctx, p. split; [constructor|done].
Qed.

Lemma ResourceOffer_run offer r d :
  match ResourceOffer offer (r, d) with
  | (Panic _, s) => s = (r, d) ∧
      ∃ id ctx p, applications r !! id = Some ctx ∧ context_Matches ctx offer = Panic p
  | (o, s) =>
      (∃ id ctx, applications r !! id = Some ctx ∧ usable ctx offer ∧
         s = after_launch id ctx offer r d ∧
         o = match LaunchTasks_error d with Some e => Err e | None => Ret "" end) ∨
      (s = (r, d) ∧ (∃ reason, reason ≠ "" ∧ o = Ret reason) ∧
         ∀ id ctx, applications r !! id = Some ctx → ¬ usable ctx offer)
  end.
Proof.
  rewrite /ResourceOffer. case_decide as He.
  { right. split_and!; [done|by exists "all tasks are running"|]. intros id ctx. by rewrite He lookup_empty. }
  assert (range 0 (applications r) ≠ []) as Hne by by rewrite range_nil.
  pose proof (offer_loop_run offer (range 0 (applications r)) [] r d
    (λ s Hs, False_ind _ (not_elem_of_nil s Hs)) (or_intror Hne)) as Hl.
  assert ((∀ id ctx, (id, ctx) ∈ range 0 (applications r) → declines ctx offer) →
    ∀ id ctx, applications r !! id = Some ctx → ¬ usable ctx offer) as Hd.
  { intros Hall id ctx Hin%(elem_of_range 0) Hu%context_Matches_usable.
    destruct (Hall id ctx Hin) as (reason & Hr & Hm). congruence. }
  destruct (offer_loop offer (range 0 (applications r)) [] (r, d)) as [[o|e|p] s].
  3: destruct Hl as (Hs & id & ctx & p' & Hin%elem_of_range & Hm); split; [done|];
     by exists id, ctx, p'.
  all: destruct Hl as [(id & ctx & Hin%elem_of_range & Hrest)|(Hs & Hr & Hall)];
    [left; by exists id, ctx|right; split_and!; [done|done|by apply Hd]].
Qed.

#[export] Instance run_once_laws : MesosTaskRunnerLaws run_once.
Proof.
  split. intros offer r d. change (MesosRunner.ResourceOffer offer) with (ResourceOffer offer).
  pose proof (ResourceOffer_run offer r d) as Hr.
  destruct (ResourceOffer offer (r, d)) as [[s|e|p] [r' d']].
  - destruct Hr as [(id & ctx & _ & _ & Hs & Ho)|(Hs & (reason & Hne & Ho) & _)];
      injection Hs as _ ->.
    + destruct (LaunchTasks_error d); [done|]. injection Ho as ->. by eexists.
    + injection Ho as ->. by destruct reason.
  - destruct Hr as [(id & ctx & _ & _ & Hs & Ho)|(_ & (reason & _ & Ho) & _)]; [|done].
    injection Hs as _ ->. by eexists.
  - destruct Hr as [Hs _]. by injection Hs as _ ->.
Qed.

(** ** Histories

    [runs allowed g r d]: a runner and a driver can be in the states [r] and
    [d]; [g] says for every channel which application was staged for it, and
    how many instances. [allowed] bounds the status updates that came. *)
Inductive runs (allowed : TaskStatus → Prop) :
    gmap nat (Application * Z) → run_once → driver → Prop :=
| runs_new : runs allowed ∅ NewRunOnceRunner []
| runs_stage g r d app mesos n ch r' :
    runs allowed g r d → GetInstances app mesos = Ret n → (0 ≤ n ≤ max_int64)%Z →
    StageApplication app mesos r = (Ret ch, r') → runs allowed (<[ch := (app, n)]> g) r' d
| runs_offer g r d offer o r' d' :
    runs allowed g r d → ResourceOffer offer (r, d) = (o, (r', d')) → (∀ p, o ≠ Panic p) →
    runs allowed g r' d'
| runs_update g r d status b r' :
    runs allowed g r d → allowed status → StatusUpdate status r = (Ret b, r') →
    runs allowed g r' d.

Record context_ok (g : gmap nat (Application * Z)) (r : run_once) (id : string) (ctx : context) :
    Prop := {
  ok_staged : ∃ n, g !! StatusChan ctx = Some (cx_Application ctx, n) ∧
    (n = InstancesLeftToRun ctx + Z.of_nat (length (cx_tasks ctx)))%Z ∧ (n ≤ max_int64)%Z ∧ n ≠ 0%Z;
  ok_left : (0 ≤ InstancesLeftToRun ctx)%Z;
  ok_id : App.ID (cx_Application ctx) = id;
  ok_open : StatusChan ctx ∉ (sent r).*1
}.
Record runner_ok (g : gmap nat (Application * Z)) (r : run_once) : Prop := {
  ok_contexts id ctx : applications r !! id = Some ctx → context_ok g r id ctx;
  ok_channels ch : is_Some (g !! ch) ↔ ch < channels r;
  ok_sent ch : ch ∈ (sent r).*1 → is_Some (g !! ch);
  ok_once : NoDup (sent r).*1
}.

Lemma runner_ok_stage g r app mesos n ch r' :
  runner_ok g r → GetInstances app mesos = Ret n → (0 ≤ n ≤ max_int64)%Z →
  StageApplication app mesos r = (Ret ch, r') → runner_ok (<[ch := (app, n)]> g) r'.
Proof.
  intros [Hc Hch Hs Ho] Hn Hrange. rewrite /StageApplication Hn. intros [= <- <-].
  assert (g !! channels r = None) as Hnew by (apply eq_None_not_Some; rewrite Hch; lia).
  assert (channels r ∉ (sent r).*1) as Hns by (intros [x Hx]%Hs; congruence).
  assert (∀ ch, is_Some (<[channels r:=(app, n)]> g !! ch) ↔ ch < channels r + 1) as Hch'.
  { intros ch. rewrite lookup_insert. case_decide as He; [subst; split; [lia|by eexists]|].
    rewrite Hch. lia. }
  assert (∀ id ctx, applications r !! id = Some ctx →
    StatusChan ctx ≠ channels r) as Hne.
  { intros id ctx Hin He. destruct (ok_staged _ _ _ _ (Hc id ctx Hin)) as (m & Hm & _). congruence. }
  destruct (Z.eqb_spec n 0) as [->|Hz]; split; simpl; try done.
  - intros id ctx Hin. destruct (Hc id ctx Hin) as [Hst ? ? Hop]. split; [|done|done|].
    + rewrite lookup_insert_ne //. by apply not_eq_sym, (Hne id).
    + rewrite /= fmap_app not_elem_of_app /=. split; [done|]. intros ?%list_elem_of_singleton.
      by apply (Hne id ctx).
  - intros ch'. rewrite fmap_app elem_of_app list_elem_of_singleton /= Hch'.
    intros [?%Hs%Hch| ->]; lia.
  - rewrite fmap_app. apply NoDup_app. split_and!; [done| |apply NoDup_singleton].
    intros ch' Hin ->%list_elem_of_singleton. done.
  - intros id ctx [[<- <-]|[_ Hin]]%lookup_insert_Some.
    + split; simpl; [|lia|done|done]. exists n. rewrite lookup_insert_eq. split_and!; [done|lia|lia|done].
    + destruct (Hc id ctx Hin) as [Hst ? ? Hop]. split; [|done..].
      rewrite lookup_insert_ne //. by apply not_eq_sym, (Hne id).
  - intros ch' ?%Hs%Hch. apply Hch'. lia.
Qed.

(** A context that is only worked on. *)
Lemma runner_ok_insert g r ctx ctx' id :
  runner_ok g r → applications r !! id = Some ctx →
  cx_Application ctx' = cx_Application ctx → StatusChan ctx' = StatusChan ctx →
  (InstancesLeftToRun ctx' + Z.of_nat (length (cx_tasks ctx')) =
   InstancesLeftToRun ctx + Z.of_nat (length (cx_tasks ctx)))%Z → (0 ≤ InstancesLeftToRun ctx')%Z →
  runner_ok g (MkRunOnce (<[id := ctx']> (applications r)) (channels r) (sent r)).
Proof.
  intros [Hc Hch Hs Ho] Hin Ha Hchan Hsum Hleft. split; simpl; [|done..].
  intros id' c [[<- <-]|[_ Hin']]%lookup_insert_Some; destruct (Hc _ _ Hin) as [Hst ? ? ?].
  - split; rewrite ?Ha ?Hchan /=; [|done..]. by rewrite Hsum.
  - by destruct (Hc _ _ Hin').
Qed.

(** The status of a context is sent, and the context forgotten. *)
Lemma runner_ok_close g r ctx id result :
  runner_ok g r → applications r !! id = Some ctx →
  runner_ok g (MkRunOnce (delete id (applications r)) (channels r)
                 (sent r ++ [(StatusChan ctx, result)])).
Proof.
  intros [Hc Hch Hs Ho] Hin. destruct (Hc _ _ Hin) as [(n & Hn & _) _ Hid Hop]. split; simpl; [|done|..].
  - intros id' c [Hne Hin']%lookup_delete_Some. destruct (Hc _ _ Hin') as [Hst Hl Hid' Hop'].
    split; [done|done|done|]. rewrite /= fmap_app not_elem_of_app /=. split; [done|].
    intros He%list_elem_of_singleton. destruct Hst as (m & Hm & _). rewrite He Hn in Hm.
    injection Hm as Happ _. congruence.
  - intros ch. rewrite fmap_app elem_of_app list_elem_of_singleton. intros [?| ->]; [by apply Hs|].
    by eexists.
  - rewrite fmap_app. apply NoDup_app. split_and!; [done| |apply NoDup_singleton].
    intros ch Hch' ->%list_elem_of_singleton. done.
Qed.

Lemma wrap_small n : (0 ≤ n ≤ max_int64)%Z → wrap_int64 n = n.
Proof. rewrite /wrap_int64 /max_int64. intros Hn. rewrite Z.mod_small; lia. Qed.

Lemma launched_left g r id ctx offer info :
  context_ok g r id ctx → InstancesLeftToRun ctx ≠ 0%Z →
  InstancesLeftToRun (launched ctx offer info) = (InstancesLeftToRun ctx - 1)%Z ∧
  (0 < InstancesLeftToRun ctx)%Z.
Proof.
  intros [(n & _ & Hn & Hmax & _) Hl _ _] Hz. simpl. rewrite wrap_small; lia.
Qed.

Lemma runner_ok_offer g r d offer o r' d' :
  runner_ok g r → ResourceOffer offer (r, d) = (o, (r', d')) → runner_ok g r'.
Proof.
  intros Hok Hrun. pose proof (ResourceOffer_run offer r d) as Hr. rewrite Hrun in Hr.
  assert (∀ id ctx, applications r !! id = Some ctx → usable ctx offer →
    runner_ok g (after_launch id ctx offer r d).1) as Hl.
  { intros id ctx Hin (Hz & _).
    destruct (launched_left g r id ctx offer (newTaskInfo ctx offer (new_UUID d))
                (ok_contexts _ _ Hok _ _ Hin) Hz) as [Heq Hpos].
    apply (runner_ok_insert g r ctx); [done|done|done|done| |rewrite Heq; lia].
    rewrite Heq /= length_app /=. lia. }
  destruct o as [s|e|p].
  - destruct Hr as [(id & ctx & Hin & Hu & Hs & _)|(Hs & _)]; [|by injection Hs as -> ->].
    change r' with (r', d').1. rewrite Hs. by apply Hl.
  - destruct Hr as [(id & ctx & Hin & Hu & Hs & _)|(Hs & _)]; [|by injection Hs as -> ->].
    change r' with (r', d').1. rewrite Hs. by apply Hl.
  - destruct Hr as [Hs _]. by injection Hs as -> ->.
Qed.

Lemma update_tasks_spec taskID state l :
  rt_Attributes <$> update_tasks taskID state l = rt_Attributes <$> l ∧
  rt_TaskID <$> update_tasks taskID state l = rt_TaskID <$> l ∧
  ∀ t, t ∈ update_tasks taskID state l → rt_State t = state ∨ t ∈ l.
Proof.
  induction l as [|t l (Ha & Hi & Hs)]; cbn [update_tasks];
    [split_and!; [done|done|by intros t ?%elem_of_nil]|].
  destruct (String.eqb _ _).
  - split_and!; [done|done|]. intros t' [->|?]%elem_of_cons; [by left|by right; right].
  - rewrite !fmap_cons Ha Hi. split_and!; [done|done|].
    intros t' [->|[?|?]%Hs]%elem_of_cons; [right; constructor|by left|by right; right].
Qed.

Lemma length_update_tasks taskID state l : length (update_tasks taskID state l) = length l.
Proof.
  rewrite -(length_fmap rt_Attributes) (proj1 (update_tasks_spec taskID state l)). apply length_fmap.
Qed.

(** What an update does: nothing, work on its context, or close it. *)
Lemma StatusUpdate_run status r b r' :
  StatusUpdate status r = (Ret b, r') →
  (b = false ∧ r' = r) ∨
  ∃ id ctx result, b = true ∧ applicationIDFromTaskID (ts_TaskId status) = Ret id ∧
    applications r !! id = Some ctx ∧
    context_StatusUpdate ctx status = Ret (updateTaskState ctx status, result) ∧
    r' = match result with
         | None => MkRunOnce (<[id := updateTaskState ctx status]> (applications r)) (channels r)
                     (sent r)
         | Some x => MkRunOnce (delete id (applications r)) (channels r)
                       (sent r ++ [(StatusChan ctx, x)])
         end.
Proof.
  rewrite /StatusUpdate. destruct (applicationIDFromTaskID (ts_TaskId status)) as [id|e|p]; [|done..].
  destruct (applications r !! id) as [ctx|] eqn:Hin; [|intros [= <- <-]; by left].
  destruct (context_StatusUpdate ctx status) as [[ctx' result]|e|p] eqn:Hu; [|done..].
  assert (ctx' = updateTaskState ctx status) as ->.
  { revert Hu. rewrite /context_StatusUpdate.
    destruct (hostnameFromTaskID (ts_TaskId status)); simpl; [|done..]. by intros [= <- _]. }
  destruct result as [x|]; intros [= <- <-]; right; exists id, ctx; eexists; by split_and!.
Qed.

Lemma runner_ok_update g r status b r' :
  runner_ok g r → StatusUpdate status r = (Ret b, r') → runner_ok g r'.
Proof.
  intros Hok Hrun.
  apply StatusUpdate_run in Hrun as [[_ ->]|(id & ctx & result & _ & _ & Hin & _ & ->)]; [done|].
  destruct result; [by eapply runner_ok_close|].
  apply (runner_ok_insert g r ctx); [done|done|done|done| |].
  - by rewrite /= length_update_tasks.
  - apply (ok_contexts _ _ Hok _ _ Hin).
Qed.

Lemma runs_ok allowed g r d : runs allowed g r d → runner_ok g r.
Proof.
  induction 1.
  - split; simpl; [done| |by intros ch ?%elem_of_nil|constructor].
    intros ch. rewrite lookup_empty. split; [by intros []|lia].
  - by eapply runner_ok_stage.
  - by eapply runner_ok_offer.
  - by eapply runner_ok_update.
Qed.

(** ** Where the tasks are *)

(** The values an attribute has on the slaves of the tasks. *)
Definition attribute_values (name : string) (tasks : list runOnceTask) : list string :=
  filter (λ v, v ≠ "") ((λ t, default "" (rt_Attributes t !! name)) <$> tasks).

Definition not_starting (t : runOnceTask) : Prop := rt_State t ≠ TASK_STARTING.

Lemma other_is_all ctx name :
  Forall not_starting (cx_tasks ctx) →
  otherTasksAttributes ctx name = attribute_values name (cx_tasks ctx).
Proof.
  rewrite /otherTasksAttributes /attribute_values. induction 1 as [|t l Ht _ IH]; [done|].
  rewrite fmap_cons filter_cons /=. destruct (decide (rt_State t = TASK_STARTING)); [done|].
  destruct (String.eqb_spec (default "" (rt_Attributes t !! name)) "") as [He|He].
  - rewrite decide_False; [exact IH|]. intros Hne. by rewrite He in Hne.
  - rewrite decide_True; [|done]. by f_equal.
Qed.

Lemma attribute_values_update name taskID state l :
  attribute_values name (update_tasks taskID state l) = attribute_values name l.
Proof.
  rewrite /attribute_values. f_equal.
  pose proof (proj1 (update_tasks_spec taskID state l)) as Ha.
  change (λ t, default "" (rt_Attributes t !! name))
    with ((λ m : gmap string string, default "" (m !! name)) ∘ rt_Attributes).
  by rewrite !list_fmap_compose Ha.
Qed.

(** What the constraints ask of the tasks: every task has every constrained
    attribute, and each constraint accepts the values in the order the tasks
    were launched. *)
Definition placed (ctx : context) : Prop :=
  ∀ C name cs c, ParseConstraints (App.Constraints (cx_Application ctx)) = Ret C →
    C !! name = Some cs → c ∈ cs →
    (∀ t, t ∈ cx_tasks ctx → is_Some (rt_Attributes t !! name)) ∧
    accepted c (attribute_values name (cx_tasks ctx)).

Record placed_ok (ctx : context) : Prop := {
  placed_states : Forall not_starting (cx_tasks ctx);
  placed_constraints : placed ctx
}.

Lemma placed_ok_launched ctx offer info :
  placed_ok ctx → usable ctx offer → placed_ok (launched ctx offer info).
Proof.
  intros [Hst Hp] (_ & (C' & HC' & Hfits) & _). split; simpl.
  { apply Forall_app. split; [done|]. by constructor. }
  intros C name cs c HC Hcs Hc. simpl in HC. assert (C' = C) as -> by congruence.
  destruct (Hp C name cs c HC Hcs Hc) as [Hall Hacc].
  destruct (Hfits name cs c Hcs Hc) as (v & Hv & Hm). rewrite other_is_all // in Hm. simpl. split.
  - intros t [Ht| ->%list_elem_of_singleton]%elem_of_app; [by apply Hall|by exists v].
  - rewrite /attribute_values fmap_app filter_app -/(attribute_values name (cx_tasks ctx)) /= Hv /=.
    rewrite filter_cons. case_decide as Hne; simpl.
    + by apply accepted_snoc.
    + by rewrite app_nil_r.
Qed.

Lemma placed_ok_update ctx status :
  ts_State status ≠ TASK_STARTING → placed_ok ctx → placed_ok (updateTaskState ctx status).
Proof.
  intros Hs [Hst Hp].
  destruct (update_tasks_spec (ts_TaskId status) (ts_State status) (cx_tasks ctx)) as (Ha & _ & Hu).
  split; simpl.
  - apply Forall_forall. intros t [Ht|Ht]%Hu; [by rewrite /not_starting Ht|].
    by eapply (proj1 (Forall_forall _ _) Hst).
  - intros C name cs c HC Hcs Hc. destruct (Hp C name cs c HC Hcs Hc) as [Hall Hacc]. simpl.
    rewrite attribute_values_update. split; [|done]. intros t Ht.
    assert (rt_Attributes t ∈ rt_Attributes <$> cx_tasks ctx) as Hin
      by (rewrite -Ha; by apply list_elem_of_fmap_2).
    apply list_elem_of_fmap in Hin as (t' & -> & Ht'). by apply Hall.
Qed.

Lemma runs_placed allowed g r d :
  runs allowed g r d → (∀ s, allowed s → ts_State s ≠ TASK_STARTING) →
  map_Forall (λ _, placed_ok) (applications r).
Proof.
  intros Hruns Hst.
  induction Hruns as [|g r d app mesos n ch r' _ IH Hn Hrange Hrun|g r d offer o r' d' _ IH Hrun Hp
                     |g r d status b r' _ IH Hal Hrun].
  - apply map_Forall_empty.
  - revert Hrun. rewrite /StageApplication Hn. intros [= _ <-].
    destruct (n =? 0)%Z; simpl; [exact IH|]. apply map_Forall_insert_2; [|exact IH].
    split; simpl; [constructor|]. intros C name cs c _ _ _. split; [by intros t ?%elem_of_nil|constructor].
  - pose proof (ResourceOffer_run offer r d) as Hr. rewrite Hrun in Hr.
    assert (∀ id ctx, applications r !! id = Some ctx → usable ctx offer →
      map_Forall (λ _, placed_ok) (applications (after_launch id ctx offer r d).1)) as Hl.
    { intros id ctx Hin Hu. apply map_Forall_insert_2; [|exact IH].
      apply placed_ok_launched; [by eapply IH|done]. }
    change r' with (r', d').1. destruct o as [s|e|p].
    + destruct Hr as [(id & ctx & Hin & Hu & -> & _)|(-> & _)]; [by apply Hl|exact IH].
    + destruct Hr as [(id & ctx & Hin & Hu & -> & _)|(-> & _)]; [by apply Hl|exact IH].
    + by destruct (Hp p).
  - apply StatusUpdate_run in Hrun as [[_ ->]|(id & ctx & result & _ & _ & Hin & _ & ->)]; [exact IH|].
    destruct result; simpl; [by apply map_Forall_delete|]. apply map_Forall_insert_2; [|exact IH].
    apply placed_ok_update; [by apply Hst|by eapply IH].
Qed.

(** ** Identifiers of tasks *)
Definition no_pipe (s : string) : Prop := Index s pipe = None.

Lemma Index_pipe_cons c s :
  Index (String c s) pipe = if Ascii.eqb "|"%char c then Some 0 else S <$> Index s pipe.
Proof. cbn [Index]. rewrite /pipe str_prefix_cons. by destruct (Ascii.eqb "|"%char c), s. Qed.

Lemma no_pipe_cons c s : no_pipe (String c s) ↔ Ascii.eqb "|"%char c = false ∧ no_pipe s.
Proof.
  rewrite /no_pipe Index_pipe_cons. destruct (Ascii.eqb "|"%char c); [naive_solver|].
  destruct (Index s pipe); naive_solver.
Qed.

Lemma Index_before_pipe s t : no_pipe s → Index (s +:+ pipe +:+ t) pipe = Some (String.length s).
Proof.
  induction s as [|c s IH]; intros Hs; [by destruct t|]. apply no_pipe_cons in Hs as [Hc Hs].
  change (String c s +:+ pipe +:+ t) with (String c (s +:+ pipe +:+ t)).
  by rewrite Index_pipe_cons Hc IH.
Qed.

Lemma drop_str_pipe s t : drop_str (String.length s + 1) (s +:+ pipe +:+ t) = t.
Proof. induction s as [|c s IH]; [by destruct t|done]. Qed.

Lemma Index_pipe_early s t i :
  Index s pipe = Some i → Index (s +:+ t) pipe = Some i ∧ i < String.length s.
Proof.
  revert i. induction s as [|c s IH]; intros i; [done|].
  change (String c s +:+ t) with (String c (s +:+ t)). rewrite !Index_pipe_cons.
  destruct (Ascii.eqb "|"%char c); [intros [= <-]; split; [done|simpl; lia]|].
  destruct (Index s pipe) as [j|]; [|done]. intros [= <-].
  destruct (IH j eq_refl) as [-> ?]. split; [done|simpl; lia].
Qed.

Lemma length_take_str i s : i ≤ String.length s → String.length (take_str i s) = i.
Proof.
  revert i. induction s as [|c s IH]; intros [|i]; simpl; [done|lia|done|].
  intros Hi. f_equal. apply IH. lia.
Qed.

(** The identifier of a task names its application and its host: an update
    for a task finds its application exactly when the identifier of the
    application has no ["|"] in it, and its host when neither has. *)
Theorem task_ids_parse ctx offer uuid :
  let id := ti_TaskId (newTaskInfo ctx offer uuid) in
  (applicationIDFromTaskID id = Ret (App.ID (cx_Application ctx)) ↔
     no_pipe (App.ID (cx_Application ctx))) ∧
  (no_pipe (App.ID (cx_Application ctx)) → no_pipe (GetHostname offer) →
     hostnameFromTaskID id = Ret (GetHostname offer)).
Proof.
  simpl. set (app := App.ID (cx_Application ctx)). split.
  - rewrite /applicationIDFromTaskID. split.
    + rewrite /no_pipe. destruct (Index app pipe) as [i|] eqn:Hi; [|done]. intros Heq. exfalso. revert Heq.
      destruct (Index_pipe_early app (pipe +:+ GetHostname offer +:+ pipe +:+ uuid) i Hi) as [Hidx Hlt].
      rewrite Hidx. intros [= Heq].
      assert (String.length (take_str i (app +:+ pipe +:+ GetHostname offer +:+ pipe +:+ uuid)) = i)
        as Hlen; [|rewrite Heq in Hlen; lia].
      apply length_take_str. rewrite str_length_app. lia.
    + intros Hn. by rewrite Index_before_pipe // take_str_app.
  - intros Ha Hh. rewrite /hostnameFromTaskID Index_before_pipe // drop_str_pipe.
    by rewrite Index_before_pipe // take_str_app.
Qed.

(** ** Status updates *)
Lemma allTasksFinished_spec ctx :
  allTasksFinished ctx = true ↔ InstancesLeftToRun ctx = 0%Z ∧
    ∀ t, t ∈ cx_tasks ctx → rt_State t ∈ [TASK_FINISHED; TASK_KILLED].
Proof.
  rewrite /allTasksFinished andb_true_iff Z.eqb_eq forallb_forall. f_equiv.
  split; intros Hall t Ht.
  - specialize (Hall t (proj1 (list_elem_of_In _ _) Ht)). apply bool_decide_eq_true in Hall. set_solver.
  - apply list_elem_of_In, Hall in Ht. apply bool_decide_eq_true. set_solver.
Qed.

Lemma context_StatusUpdate_result ctx status ctx' result :
  context_StatusUpdate ctx status = Ret (ctx', result) →
  ((∃ e, result = Some (Some e)) ↔ ts_State status ∈ [TASK_LOST; TASK_FAILED; TASK_ERROR]) ∧
  (result = Some None ↔ ts_State status ∈ [TASK_FINISHED; TASK_KILLED] ∧
     allTasksFinished ctx' = true).
Proof.
  rewrite /context_StatusUpdate. destruct (hostnameFromTaskID _); simpl; [|done..].
  intros [= <- <-].
  rewrite !elem_of_cons !elem_of_nil.
  destruct (ts_State status); try destruct (allTasksFinished _); naive_solver.
Qed.

(** ** The theorems *)

(** C21. What becomes of an offer, whatever applications are waiting: it is used
    for one task of one application that it is usable for - instances left to
    launch, constraints satisfied next to the tasks that run, enough cpus and
    memory - and the outcome is the driver's; or nothing changes, the
    offer is declined with a reason, and no application could have used it. A
    panic comes from constraints that do not parse, which [Validate]
    excludes. *)
Theorem ResourceOffer_correct offer r d :
  match ResourceOffer offer (r, d) with
  | (Panic _, s) => s = (r, d) ∧ ∃ id ctx, applications r !! id = Some ctx ∧
      ∀ C, ParseConstraints (App.Constraints (cx_Application ctx)) ≠ Ret C
  | (o, s) =>
      (∃ id ctx, applications r !! id = Some ctx ∧ usable ctx offer ∧
         s = after_launch id ctx offer r d ∧
         o = match LaunchTasks_error d with Some e => Err e | None => Ret "" end) ∨
      (s = (r, d) ∧ (∃ reason, reason ≠ "" ∧ o = Ret reason) ∧
         ∀ id ctx, applications r !! id = Some ctx → ¬ usable ctx offer)
  end.
Proof.
  pose proof (ResourceOffer_run offer r d) as Hr.
  destruct (ResourceOffer offer (r, d)) as [[o|e|p] s]; [exact Hr|exact Hr|].
  destruct Hr as (Hs & id & ctx & p' & Hin & Hm). split; [done|]. exists id, ctx. split; [done|].
  intros C HC. revert Hm. rewrite /context_Matches /CheckConstraints /GetConstraints HC /=.
  repeat case_match; done.
Qed.

(** C17. Whatever offers and status updates come, in any order - as long as no
    task is reported as starting - an application that is running has
    launched exactly the instances that are not left to launch, and its tasks
    satisfy its constraints: each one was accepted next to the ones before
    it. *)
Theorem placements_respect_constraints allowed g r d id ctx :
  runs allowed g r d → (∀ s, allowed s → ts_State s ≠ TASK_STARTING) →
  applications r !! id = Some ctx →
  App.ID (cx_Application ctx) = id ∧
  (∃ n, g !! StatusChan ctx = Some (cx_Application ctx, n) ∧
     n = (InstancesLeftToRun ctx + Z.of_nat (length (cx_tasks ctx)))%Z) ∧
  (0 ≤ InstancesLeftToRun ctx)%Z ∧ placed ctx.
Proof.
  intros Hr Hst Hin. destruct (ok_contexts _ _ (runs_ok _ _ _ _ Hr) _ _ Hin) as [(n & Hn & Hs & _) ? ? _].
  split_and!; [done|by exists n|done|]. by eapply (runs_placed _ _ _ _ Hr Hst).
Qed.

(** What an application's run is told, and when, in every history: a status
    is sent on a channel at most once; the update of a task of a running
    application sends an error exactly if the task was lost, failed or was in
    error, and success exactly if the task finished or was killed, all
    instances that were asked for have been launched and every task has
    finished or been killed; sending ends the application, and nothing else
    does. *)
Theorem status_reports allowed g r d status b r' :
  runs allowed g r d → StatusUpdate status r = (Ret b, r') →
  NoDup (sent r').*1 ∧
  if b then ∃ id ctx n, applications r !! id = Some ctx ∧
    g !! StatusChan ctx = Some (cx_Application ctx, n) ∧
    let ctx' := updateTaskState ctx status in
    let closed result := applications r' = delete id (applications r) ∧
      sent r' = sent r ++ [(StatusChan ctx, result)] in
    ((∃ e, closed (Some e)) ↔ ts_State status ∈ [TASK_LOST; TASK_FAILED; TASK_ERROR]) ∧
    (closed None ↔ ts_State status ∈ [TASK_FINISHED; TASK_KILLED] ∧
       Z.of_nat (length (cx_tasks ctx)) = n ∧
       ∀ t, t ∈ cx_tasks ctx' → rt_State t ∈ [TASK_FINISHED; TASK_KILLED]) ∧
    ((∃ result, closed result) ∨
     applications r' = <[id := ctx']> (applications r) ∧ sent r' = sent r)
  else r' = r.
Proof.
  intros Hruns%runs_ok Hrun. split; [by apply (runner_ok_update _ _ _ _ _ Hruns Hrun)|].
  apply StatusUpdate_run in Hrun as [[-> ->]|(id & ctx & result & -> & _ & Hin & Hctx & ->)]; [done|].
  destruct (ok_staged _ _ _ _ (ok_contexts _ _ Hruns _ _ Hin)) as (n & Hn & Hsum & _).
  exists id, ctx, n. split; [done|]. split; [done|].
  intros ctx' closed.
  assert (∀ x, closed x ↔ result = Some x) as Hclosed.
  { intros x. rewrite /closed. destruct result as [y|]; simpl.
    - split; [intros [_ [= ->]%app_inj_tail%proj2]; done|by intros [= ->]].
    - split; [|done]. intros [_ Hs%(f_equal length)]. rewrite length_app /= in Hs. lia. }
  destruct (context_StatusUpdate_result _ _ _ _ Hctx) as [Herr Hok]. split_and!.
  - setoid_rewrite Hclosed. exact Herr.
  - rewrite Hclosed Hok allTasksFinished_spec. rewrite /= Hsum.
    split; [intros (? & ? & ?); split_and!; [done|lia|done]|].
    intros (? & ? & ?). split_and!; [done|lia|done].
  - destruct result as [x|]; [left; exists x; by apply Hclosed|by right].
Qed.
End facts.

(** ** One application on two hosts *)
Section examples.
#[local] Instance ex_driver : Driver :=
  {| LaunchTasks_error _ := None; new_UUID d := "uuid" +:+ Itoa (Z.of_nat (length d)) |}.
#[local] Existing Instance ex_regexp.
#[local] Instance ex_order : MapOrder := canonical_order.

Definition ex_job : Application :=
  App.MkApplication "run-once" "job" "" (float_of 1 0) (float_of 512 0) [] "2"
    [["hostname"; "UNIQUE"]] "" "" "./job" [] ∅ [] [] ∅ [] [] None "" "" [] [] [] [] [].
Definition ex_offer (host : string) : Offer := {|
  off_Id := "offer-" +:+ host; off_SlaveId := "slave-" +:+ host; off_Hostname := Some host;
  off_Attributes := [];
  off_Resources := [{| res_Name := Some "cpus"; res_Scalar := Some (float_of 4 0) |};
                    {| res_Name := Some "mem"; res_Scalar := Some (float_of 1024 0) |}] |}.

(** The runner and the driver after staging and after an offer. *)
Definition ex_staged : run_once := (StageApplication ex_job ex_mesos NewRunOnceRunner).2.
Definition ex_first : run_once * driver := (ResourceOffer (ex_offer "h1") (ex_staged, [])).2.
Definition ex_id : string := "job|h1|uuid0".
Definition ex_ctx (r : run_once) : context :=
  default (MkContext ex_job 0 0 []) (applications r !! "job").

Lemma ex_runs_first allowed : runs allowed {[0 := (ex_job, 2%Z)]} ex_first.1 ex_first.2.
Proof.
  eapply (runs_offer _ _ ex_staged [] (ex_offer "h1")); [|by vm_compute|by intros p].
  eapply (runs_stage _ ∅ NewRunOnceRunner [] ex_job ex_mesos 2%Z 0);
    [constructor|by vm_compute|split; by vm_compute|by vm_compute].
Qed.

Lemma placements_respect_constraints_witness :
  (∃ n, n = 2%Z ∧ n = (InstancesLeftToRun (ex_ctx ex_first.1) + 1)%Z) ∧ placed (ex_ctx ex_first.1).
Proof.
  pose proof (placements_respect_constraints (λ _, False) _ _ _ "job" (ex_ctx ex_first.1)
    (ex_runs_first _) (λ _ Hs, match Hs with end)) as Hp.
  destruct Hp as (_ & (n & Hn & Hs) & _ & Hpl); [by vm_compute|].
  split; [|exact Hpl]. exists n. split; [|exact Hs].
  vm_compute in Hn. congruence.
Defined.

(** The first task finished while the second instance is not launched. *)
Definition ex_done : TaskStatus := MkTaskStatus ex_id TASK_FINISHED "".
Lemma status_reports_witness :
  NoDup (sent (StatusUpdate ex_done ex_first.1).2).*1 ∧
  sent (StatusUpdate ex_done ex_first.1).2 = [].
Proof.
  split; [|by vm_compute].
  apply (status_reports (λ _, True) _ _ _ ex_done true _ (ex_runs_first _)). by vm_compute.
Defined.

Lemma task_ids_parse_witness :
  applicationIDFromTaskID (ti_TaskId (newTaskInfo (ex_ctx ex_staged) (ex_offer "h1") "u")) =
    Ret "job" ∧
  hostnameFromTaskID (ti_TaskId (newTaskInfo (ex_ctx ex_staged) (ex_offer "h1") "u")) = Ret "h1".
Proof.
  destruct (task_ids_parse (ex_ctx ex_staged) (ex_offer "h1") "u") as [Ha Hh].
  split; [apply Ha; by vm_compute|apply Hh; by vm_compute].
Defined.

(** The first task is reported as starting; then the same host is offered
    again. *)
Definition ex_starting : run_once :=
  (StatusUpdate (MkTaskStatus ex_id TASK_STARTING "") ex_first.1).2.
Definition ex_second : run_once * driver :=
  (ResourceOffer (ex_offer "h1") (ex_starting, ex_first.2)).2.

(** Tasks that are starting do not count when constraints are checked: with
    [hostname] to be unique, two tasks of an application end up on one host. *)
Theorem starting_tasks_share_a_host :
  ∃ g r d ctx C, runs (λ _, True) g r d ∧ applications r !! "job" = Some ctx ∧
    ParseConstraints (App.Constraints (cx_Application ctx)) = Ret C ∧
    C !! "hostname" = Some [Unique] ∧ attribute_values "hostname" (cx_tasks ctx) = ["h1"; "h1"].
Proof.
  exists {[0 := (ex_job, 2%Z)]}, ex_second.1, ex_second.2, (ex_ctx ex_second.1), ex_constraints.
  split; [|by vm_compute].
  eapply (runs_offer _ _ ex_starting ex_first.2 (ex_offer "h1")); [|by vm_compute|by intros p].
  eapply (runs_update _ _ ex_first.1 _ (MkTaskStatus ex_id TASK_STARTING ""));
    [apply ex_runs_first|done|by vm_compute].
Qed.
End examples.
