(* ===== verification/RunOnceHistory.v ===== *)
(** What becomes of a run-once application from its staging to the status its
    run waits for, whatever else the runner is asked to do in between. *)
From S2P Require Import Prelude GoStrings Errors Data Constraints MesosState MesosRunner.
From S2P Require Import Application RunOnce RunOnceFacts.
From Stdlib Require Import Lia.
Open Scope string_scope.
Open Scope list_scope.
Open Scope nat_scope.

Section history.
Context `{ord : MapOrder} `{rx : Regexp} `{drv : Driver}.

(** A call of the runner by the scheduler. *)
Inductive request : Type :=
| Staged (app : Application) (n : Z) (ch : nat)
| Offered (offer : Offer)
| Updated (status : TaskStatus).
Inductive serves : request → run_once * driver → run_once * driver → Prop :=
| serves_stage r d app mesos n ch r' :
    GetInstances app mesos = Ret n → (0 ≤ n ≤ max_int64)%Z →
    StageApplication app mesos r = (Ret ch, r') → serves (Staged app n ch) (r, d) (r', d)
| serves_offer r d offer o r' d' :
    ResourceOffer offer (r, d) = (o, (r', d')) → (∀ p, o ≠ Panic p) →
    serves (Offered offer) (r, d) (r', d')
| serves_update r d status b r' :
    StatusUpdate status r = (Ret b, r') → serves (Updated status) (r, d) (r', d).
Inductive history : list request → run_once * driver → run_once * driver → Prop :=
| history_nil s : history [] s s
| history_snoc h q s0 s1 s2 : history h s0 s1 → serves q s1 s2 → history (h ++ [q]) s0 s2.

Abbreviation all_runs := (runs (λ _, True)).

Lemma stage_channel g r app mesos ch r' n :
  runner_ok g r → GetInstances app mesos = Ret n → StageApplication app mesos r = (Ret ch, r') →
  g !! ch = None ∧ (ch ∉ (sent r).*1) ∧ ch = channels r ∧
  ∀ id ctx, applications r !! id = Some ctx → StatusChan ctx ≠ ch.
Proof.
  intros Hok Hn. rewrite /StageApplication Hn. intros [= <- _].
  assert (g !! channels r = None) as Hnew.
  { apply eq_None_not_Some. rewrite (ok_channels _ _ Hok). lia. }
  split_and!; [done| |done|].
  - intros [x Hx]%(ok_sent _ _ Hok). congruence.
  - intros id ctx Hin He. destruct (ok_staged _ _ _ _ (ok_contexts _ _ Hok id ctx Hin)) as (m & Hm & _).
    congruence.
Qed.
Lemma serves_runs q g r d r' d' :
  all_runs g r d → serves q (r, d) (r', d') →
  ∃ g', all_runs g' r' d' ∧ ∀ ch x, g !! ch = Some x → g' !! ch = Some x.
Proof.
  intros Hr Hs. inversion Hs as
     [r0 d0 app mesos n ch' r1 Hn Hrange Hst|r0 d0 offer o r1 d1 Ho Hp|r0 d0 status b r1 Hu];
    subst.
  - exists (<[ch' := (app, n)]> g). split; [by eapply runs_stage|]. intros ch x Hx.
    destruct (stage_channel _ _ _ _ _ _ _ (runs_ok _ _ _ _ Hr) Hn Hst) as [Hnew _].
    rewrite lookup_insert_ne //. congruence.
  - exists g. split; [by eapply runs_offer|done].
  - exists g. split; [by eapply runs_update|done].
Qed.
Lemma history_runs h g s s' :
  all_runs g s.1 s.2 → history h s s' →
  ∃ g', all_runs g' s'.1 s'.2 ∧ ∀ ch x, g !! ch = Some x → g' !! ch = Some x.
Proof.
  intros Hr Hh. induction Hh as [s|h q s0 [r1 d1] [r2 d2] Hh IH Hs]; [by exists g|].
  destruct (IH Hr) as (g1 & Hr1 & Hg1). destruct (serves_runs q _ _ _ _ _ Hr1 Hs) as (g2 & Hr2 & Hg2).
  exists g2. split; [done|]. intros ch x Hx. by apply Hg2, Hg1.
Qed.

(** ** Runs that are forgotten *)

(** Nobody will ever send on the channel. *)
Definition orphaned (ch : nat) (r : run_once) : Prop :=
  ch < channels r ∧ (ch ∉ (sent r).*1) ∧
  ∀ id ctx, applications r !! id = Some ctx → StatusChan ctx ≠ ch.
Lemma orphaned_serves g ch q r d r' d' :
  all_runs g r d → orphaned ch r → serves q (r, d) (r', d') → orphaned ch r'.
Proof.
  intros Hr (Hch & Hns & Hctx) Hs. inversion Hs as
     [r0 d0 app mesos n ch' r1 Hn Hrange Hst|r0 d0 offer o r1 d1 Ho Hp|r0 d0 status b r1 Hu];
    subst.
  - rewrite /StageApplication Hn in Hst. injection Hst as <- <-. case_match; split_and!; simpl.
    + lia.
    + rewrite fmap_app not_elem_of_app. split; [done|]. intros ?%list_elem_of_singleton. simpl in *. lia.
    + done.
    + lia.
    + done.
    + intros id ctx [[_ <-]|[_ Hin]]%lookup_insert_Some; [simpl; lia|by eapply Hctx].
  - pose proof (ResourceOffer_run offer r d) as Hr'. rewrite Ho in Hr'.
    destruct o as [reason|e|p]; [| |by destruct (Hp p)];
      (destruct Hr' as [(id & ctx & Hin & _ & [= -> ->] & _)|([= -> ->] & _)]; [|done]);
      (split_and!; [done|done|]; intros id' ctx' Hin'; simpl in Hin'; apply lookup_insert_Some in Hin' as [[_ <-]|[_ Hin']];
        [by apply (Hctx id ctx)|by eapply Hctx]).
  - apply StatusUpdate_run in Hu as [[_ ->]|(id & ctx & result & _ & _ & Hin & _ & ->)]; [done|].
    destruct result as [x|]; split_and!; simpl; try done.
    + rewrite fmap_app not_elem_of_app. split; [done|]. intros He%list_elem_of_singleton. simpl in He.
      by apply (Hctx id ctx Hin).
    + intros id' ctx' [_ Hin']%lookup_delete_Some. by eapply Hctx.
    + intros id' ctx' [[_ <-]|[_ Hin']]%lookup_insert_Some; [by apply (Hctx id ctx)|by eapply Hctx].
Qed.
Lemma orphaned_history g ch h s s' :
  all_runs g s.1 s.2 → orphaned ch s.1 → history h s s' → orphaned ch s'.1.
Proof.
  intros Hr Ho Hh. induction Hh as [s|h q s0 [r1 d1] [r2 d2] Hh IH Hs]; [done|].
  destruct (history_runs _ _ _ _ Hr Hh) as (g1 & Hr1 & _).
  by eapply orphaned_serves; [exact Hr1|apply IH|].
Qed.

(** ** What a status means *)
Definition launches (d : driver) : list TaskInfo :=
  omap (λ c, match c with LaunchTasks _ info => Some info | _ => None end) d.
Lemma launches_app d d' : launches (d ++ d') = launches d ++ launches d'.
Proof. apply omap_app. Qed.

(** An update that says so came in the history. *)
Definition updated (h : list request) (taskID : string) (states : list TaskState) : Prop :=
  ∃ status, Updated status ∈ h ∧ ts_TaskId status = taskID ∧ ts_State status ∈ states.
Definition runs_command (app : Application) (info : TaskInfo) : Prop :=
  ti_Command info = App.LaunchCommand app ∧ ti_Cpus info = App.Cpu app ∧ ti_Mem info = App.Mem app.

(** The tasks of a context are among the tasks launched in [d], and are in the
    states the updates say. *)
Definition accounted (h : list request) (d : driver) (ctx : context) : Prop :=
  (∃ infos, infos `sublist_of` launches d ∧ ti_TaskId <$> infos = rt_TaskID <$> cx_tasks ctx ∧
     Forall (runs_command (cx_Application ctx)) infos) ∧
  ∀ t, t ∈ cx_tasks ctx → rt_State t = TASK_STAGING ∨ updated h (rt_TaskID t) [rt_State t].
Definition explained (h : list request) (d : driver) (app : Application) (n : Z)
    (result : option error) : Prop :=
  match result with
  | None => ∃ infos, infos `sublist_of` launches d ∧ Z.of_nat (length infos) = n ∧
      Forall (runs_command app) infos ∧
      ∀ info, info ∈ infos → updated h (ti_TaskId info) [TASK_FINISHED; TASK_KILLED]
  | Some e => ∃ status host, Updated status ∈ h ∧
      ts_State status ∈ [TASK_LOST; TASK_FAILED; TASK_ERROR] ∧
      hostnameFromTaskID (ts_TaskId status) = Ret host ∧ e = failure app host status
  end.

Lemma updated_snoc h q taskID states : updated h taskID states → updated (h ++ [q]) taskID states.
Proof. intros (status & Hin & ?). exists status. split; [apply elem_of_app; by left|done]. Qed.
Lemma accounted_mono h q d d' ctx : accounted h d ctx → accounted (h ++ [q]) (d ++ d') ctx.
Proof.
  intros [(infos & Hs & ? & ?) Hst]. split.
  - exists infos. rewrite launches_app. split; [by apply sublist_inserts_r|done].
  - intros t Ht. destruct (Hst t Ht) as [?|?]; [by left|right; by apply updated_snoc].
Qed.
Lemma explained_mono h q d d' app n result :
  explained h d app n result → explained (h ++ [q]) (d ++ d') app n result.
Proof.
  destruct result as [e|].
  - intros (status & host & Hin & ?). exists status, host. split; [apply elem_of_app; by left|done].
  - intros (infos & Hs & ? & ? & Hu). exists infos. rewrite launches_app.
    split_and!; [by apply sublist_inserts_r|done|done|]. intros info Hi. by apply updated_snoc, Hu.
Qed.
Lemma accounted_launched h d offer ctx info :
  accounted h d ctx → runs_command (cx_Application ctx) info →
  accounted h (d ++ [LaunchTasks (off_Id offer) info]) (launched ctx offer info).
Proof.
  intros [(infos & Hs & Hids & Hc) Hst] Hinfo. split.
  - exists (infos ++ [info]). rewrite launches_app /= !fmap_app Hids. split_and!; [|done|].
    + by apply sublist_app.
    + apply Forall_app. split; [done|by constructor].
  - intros t [Ht|Ht%list_elem_of_singleton]%elem_of_app; [by apply Hst|left; by subst].
Qed.
Lemma update_tasks_state taskID state l t :
  t ∈ update_tasks taskID state l → t ∈ l ∨ (rt_TaskID t = taskID ∧ rt_State t = state).
Proof.
  induction l as [|t' l IH]; simpl; [by left|].
  destruct (String.eqb_spec (rt_TaskID t') taskID) as [He|_]; rewrite !elem_of_cons; [|naive_solver].
  intros [->|?]; [by right; split|by left; right].
Qed.
Lemma update_tasks_ids taskID state l :
  rt_TaskID <$> update_tasks taskID state l = rt_TaskID <$> l.
Proof.
  induction l as [|t l IH]; simpl; [done|].
  destruct (String.eqb _ _); by rewrite !fmap_cons ?IH.
Qed.
Lemma accounted_updated h d ctx status :
  accounted h d ctx → accounted (h ++ [Updated status]) d (updateTaskState ctx status).
Proof.
  intros Ha. apply (accounted_mono _ (Updated status) _ []) in Ha. rewrite app_nil_r in Ha.
  destruct Ha as [(infos & Hs & Hids & Hc) Hst]. split.
  - exists infos. by rewrite /= update_tasks_ids.
  - intros t [Ht|[Hid Hs']]%update_tasks_state; [by apply Hst|right]. exists status. rewrite Hid Hs'.
    split_and!; [apply elem_of_app; right; left|done|left].
Qed.

(** ** From the staging on *)
Definition following (app : Application) (n : Z) (ch : nat) (h : list request) (d : driver)
    (r : run_once) : Prop :=
  (∀ id ctx, applications r !! id = Some ctx → StatusChan ctx = ch →
     cx_Application ctx = app ∧ accounted h d ctx) ∧
  ∀ result, (ch, result) ∈ sent r → explained h d app n result.

Lemma following_mono app n ch h q d d' r :
  following app n ch h d r → following app n ch (h ++ [q]) (d ++ d') r.
Proof.
  intros [Hc Hs]. split.
  - intros id ctx Hin Hch. destruct (Hc id ctx Hin Hch). split; [done|]. by apply accounted_mono.
  - intros result Hin. by apply explained_mono, Hs.
Qed.
Lemma runs_command_new ctx offer uuid : runs_command (cx_Application ctx) (newTaskInfo ctx offer uuid).
Proof. done. Qed.

(** A status that is sent now. *)
Lemma explained_now g r h d id ctx status result n app :
  runner_ok g r → applications r !! id = Some ctx → g !! StatusChan ctx = Some (app, n) →
  accounted h d ctx → cx_Application ctx = app →
  context_StatusUpdate ctx status = Ret (updateTaskState ctx status, Some result) →
  explained (h ++ [Updated status]) d app n result.
Proof.
  intros Hok Hin Hg Hacc Happ Hu.
  destruct (context_StatusUpdate_result _ _ _ _ Hu) as [Herr Hsucc].
  destruct result as [e|].
  - assert (ts_State status ∈ [TASK_LOST; TASK_FAILED; TASK_ERROR]) as Hst by (apply Herr; by eexists).
    revert Hu. rewrite /context_StatusUpdate.
    destruct (hostnameFromTaskID (ts_TaskId status)) as [host|e'|p] eqn:Hhost; simpl; [|done..].
    intros Hu. exists status, host. split_and!; [apply elem_of_app; right; left|done|done|].
    rewrite -Happ. destruct (ts_State status); try destruct (allTasksFinished _); naive_solver.
  - destruct (proj1 Hsucc eq_refl) as [_ [Hleft Hall]%allTasksFinished_spec].
    apply (accounted_updated _ _ _ status) in Hacc as [(infos & Hs & Hids & Hc) Hst].
    destruct (ok_staged _ _ _ _ (ok_contexts _ _ Hok _ _ Hin)) as (m & Hm & Hsum & _).
    assert (m = n) as -> by congruence. exists infos.
    assert (length infos = length (cx_tasks ctx)) as Hlen.
    { rewrite -(length_fmap ti_TaskId) Hids length_fmap. apply length_update_tasks. }
    simpl in Hleft. split_and!; [done|lia|by rewrite -Happ|]. intros info Hi.
    assert (ti_TaskId info ∈ rt_TaskID <$> cx_tasks (updateTaskState ctx status)) as Hin'.
    { rewrite -Hids. by apply list_elem_of_fmap_2. }
    apply list_elem_of_fmap in Hin' as (t & -> & Ht). specialize (Hall t Ht).
    destruct (Hst t Ht) as [He|(u & Hu' & Hid & Hu2)].
    { rewrite He in Hall. set_solver. }
    exists u. apply list_elem_of_singleton in Hu2. by rewrite Hu2.
Qed.
Lemma following_launch app n ch h d r id ctx offer uuid :
  following app n ch h d r → applications r !! id = Some ctx →
  let info := newTaskInfo ctx offer uuid in
  following app n ch (h ++ [Offered offer]) (d ++ [LaunchTasks (off_Id offer) info])
    (MkRunOnce (<[id := launched ctx offer info]> (applications r)) (channels r) (sent r)).
Proof.
  intros Hf Hin info. pose proof Hf as [Hc _].
  pose proof (following_mono _ _ _ _ (Offered offer) _ [LaunchTasks (off_Id offer) info] _ Hf) as [Hc' Hs].
  split; simpl; [|done]. intros id' ctx' [[_ <-]|[_ Hin']]%lookup_insert_Some; [|by apply (Hc' id')].
  intros Hch. destruct (Hc id ctx Hin Hch) as [Happ Hacc]. split; [done|].
  apply (accounted_mono _ (Offered offer) _ []) in Hacc. rewrite app_nil_r in Hacc.
  by apply accounted_launched.
Qed.
Lemma following_quiet app n ch h q d r : following app n ch h d r → following app n ch (h ++ [q]) d r.
Proof. intros Hf. rewrite -(app_nil_r d). by apply following_mono. Qed.

Lemma following_stage app n ch g h q d r app' mesos n' ch' r' :
  runner_ok g r → g !! ch = Some (app, n) → following app n ch h d r →
  GetInstances app' mesos = Ret n' → StageApplication app' mesos r = (Ret ch', r') →
  following app n ch (h ++ [q]) d r'.
Proof.
  intros Hr Hg Hf Hn Hst. destruct (stage_channel _ _ _ _ _ _ _ Hr Hn Hst) as (Hnew & _ & -> & _).
  apply (following_quiet _ _ _ _ q) in Hf as [Hc Hse].
  rewrite /StageApplication Hn in Hst. injection Hst as <-.
  case_match; split; simpl; [done| |..|done].
  - intros result [Hin|[= -> ->]%list_elem_of_singleton]%elem_of_app; [by apply Hse|congruence].
  - intros id ctx [[_ <-]|[_ Hin]]%lookup_insert_Some; [simpl; congruence|by apply (Hc id)].
Qed.
Lemma following_update app n ch g h d r status b r' :
  runner_ok g r → g !! ch = Some (app, n) → following app n ch h d r →
  StatusUpdate status r = (Ret b, r') → following app n ch (h ++ [Updated status]) d r'.
Proof.
  intros Hr Hg Hf [[_ ->]|(id & ctx & result & _ & _ & Hin & Hctx & ->)]%StatusUpdate_run;
    [by apply following_quiet|].
  pose proof Hf as [Hc _]. apply (following_quiet _ _ _ _ (Updated status)) in Hf as [Hc' Hs'].
  destruct result as [x|]; split; simpl.
  - intros id' ctx' [_ Hin']%lookup_delete_Some. by apply (Hc' id').
  - intros result [Hin'|[= -> ->]%list_elem_of_singleton]%elem_of_app; [by apply Hs'|].
    destruct (Hc id ctx Hin eq_refl) as [Happ Hacc]. by eapply explained_now.
  - intros id' ctx' [[_ <-]|[_ Hin']]%lookup_insert_Some; [|by apply (Hc' id')].
    intros Hch. destruct (Hc id ctx Hin Hch) as [Happ Hacc]. split; [done|]. by apply accounted_updated.
  - done.
Qed.
Lemma following_serves app n ch g h d0 q r d r' d' :
  all_runs g r (d0 ++ d) → g !! ch = Some (app, n) → following app n ch h d r →
  serves q (r, d0 ++ d) (r', d') →
  ∃ l, d' = d0 ++ l ∧ following app n ch (h ++ [q]) l r'.
Proof.
  intros Hr%runs_ok Hg Hf Hs. inversion Hs as
    [r0 d1 app' mesos n' ch' r1 Hn Hrange Hst|r0 d1 offer o r1 d2 Ho Hp|r0 d1 status b r1 Hu]; subst.
  - exists d. split; [done|]. by eapply following_stage.
  - pose proof (ResourceOffer_run offer r (d0 ++ d)) as Hr'. rewrite Ho in Hr'.
    destruct o as [reason|e|p]; [| |by destruct (Hp p)].
    all: destruct Hr' as [(id & ctx & Hin & _ & [= -> ->] & _)|([= -> ->] & _)];
      [|exists d; split; [done|by apply following_quiet]].
    all: rewrite -app_assoc; eexists; split; [reflexivity|by apply following_launch].
  - exists d. split; [done|]. by eapply following_update.
Qed.
Lemma following_history app n ch g h s s' :
  all_runs g s.1 s.2 → g !! ch = Some (app, n) → following app n ch [] [] s.1 →
  history h s s' → ∃ l, s'.2 = s.2 ++ l ∧ following app n ch h l s'.1.
Proof.
  intros Hr Hg Hf Hh. induction Hh as [s|h q s0 [r1 d1] [r2 d2] Hh IH Hs].
  { exists []. by rewrite app_nil_r. }
  destruct (IH Hr Hf) as (l & Hd & Hf1). simpl in Hd, Hf1 |- *. subst d1.
  destruct (history_runs _ _ _ _ Hr Hh) as (g1 & Hr1 & Hg1).
  by eapply following_serves; [exact Hr1|apply Hg1|..].
Qed.

(** C18. The run of a run-once application from its staging to the status its run
    waits for, whatever else is staged, offered and reported in between: a
    success means that as many tasks with its command, cpus and memory as it
    has instances were launched since it was staged, and that each of them was
    reported as finished or killed; an error carries the state and the message
    of a task that was reported as lost, failed or in error. *)
Theorem run_once_outcome g r d app mesos n ch r1 h r2 d2 :
  all_runs g r d → GetInstances app mesos = Ret n → (0 < n ≤ max_int64)%Z →
  StageApplication app mesos r = (Ret ch, r1) → history h (r1, d) (r2, d2) →
  ∃ l, d2 = d ++ l ∧ ∀ result, (ch, result) ∈ sent r2 → explained h l app n result.
Proof.
  intros Hr Hn Hrange Hst Hh. pose proof (runs_ok _ _ _ _ Hr) as Hok.
  destruct (stage_channel _ _ _ _ _ _ _ Hok Hn Hst) as (Hnew & Hns & Hch & Hctx).
  assert (following app n ch [] [] r1) as Hf.
  { revert Hst. rewrite /StageApplication Hn. destruct (Z.eqb_spec n 0); [lia|]. intros [= <- <-].
    split; simpl; [|by intros result ?%(list_elem_of_fmap_2 fst)].
    intros id ctx [[_ <-]|[_ Hin]]%lookup_insert_Some Hc; [|by destruct (Hctx id ctx)].
    split; [done|]. split; [by exists []|by intros t ?%elem_of_nil]. }
  destruct (following_history app n ch (<[ch := (app, n)]> g) h (r1, d) (r2, d2)) as (l & Hd & Hl);
    [|by rewrite lookup_insert_eq|done|done|].
  - eapply runs_stage; [done..| |done]. lia.
  - exists l. split; [done|]. apply Hl.
Qed.

(** C19. An application is known to the runner by its ID alone: when one is
    staged while another with its ID waits for a status - the same stack run in
    another zone, or started by cron again before it is done - the run of the
    first is never told anything, whatever happens afterwards, and waits for
    ever. *)
Theorem restaged_waits_forever g r d app mesos n ctx ch r1 h r2 d2 :
  all_runs g r d → applications r !! App.ID app = Some ctx →
  GetInstances app mesos = Ret n → (0 < n ≤ max_int64)%Z →
  StageApplication app mesos r = (Ret ch, r1) → history h (r1, d) (r2, d2) →
  StatusChan ctx ∉ (sent r2).*1.
Proof.
  intros Hr Hin Hn Hrange Hst Hh. pose proof (runs_ok _ _ _ _ Hr) as Hok.
  assert (all_runs (<[ch := (app, n)]> g) r1 d) as Hr1 by (eapply runs_stage; [done..| |done]; lia).
  apply (orphaned_history (<[ch := (app, n)]> g) (StatusChan ctx) h (r1, d) (r2, d2)); [done| |done].
  destruct (ok_contexts _ _ Hok _ _ Hin) as [(m & Hm & _) _ _ Hopen].
  destruct (stage_channel _ _ _ _ _ _ _ Hok Hn Hst) as (_ & _ & Hch & Hctx).
  revert Hst. rewrite /StageApplication Hn. destruct (Z.eqb_spec n 0); [lia|]. intros [= _ <-].
  assert (StatusChan ctx < channels r) as Hlt by (apply (ok_channels _ _ Hok); by eexists).
  split_and!; simpl; [lia|done|]. intros id ctx' [[_ <-]|[Hne Hin']]%lookup_insert_Some; simpl.
  - lia.
  - intros He. destruct (ok_contexts _ _ Hok _ _ Hin') as [(m' & Hm' & _) _ Hid' _].
    pose proof (ok_id _ _ _ _ (ok_contexts _ _ Hok _ _ Hin)) as Hid. congruence.
Qed.
End history.

(** ** Two instances on two hosts, and the same application staged twice *)
Section examples.
#[local] Existing Instance ex_driver.
#[local] Existing Instance ex_regexp.
#[local] Existing Instance ex_order.

Definition ex_offers : run_once * driver := (ResourceOffer (ex_offer "h2") ex_first).2.
Definition ex_second_done : TaskStatus := MkTaskStatus "job|h2|uuid1" TASK_KILLED "".
Definition ex_half : run_once := (StatusUpdate ex_done ex_offers.1).2.
Definition ex_over : run_once := (StatusUpdate ex_second_done ex_half).2.
Definition ex_requests : list request :=
  [Offered (ex_offer "h1"); Offered (ex_offer "h2"); Updated ex_done; Updated ex_second_done].

Lemma ex_history : history ex_requests (ex_staged, []) (ex_over, ex_offers.2).
Proof.
  apply (history_snoc [_; _; _] _ _ (ex_half, ex_offers.2)); [|by apply (serves_update _ _ _ true); vm_compute].
  apply (history_snoc [_; _] _ _ ex_offers); [|by apply (serves_update _ _ _ true); vm_compute].
  apply (history_snoc [_] _ _ ex_first);
    [|by apply (serves_offer _ _ _ (Ret "")); [by vm_compute|intros p]].
  apply (history_snoc [] _ _ (ex_staged, [])); [constructor|].
  by apply (serves_offer _ _ _ (Ret "")); [by vm_compute|intros p].
Qed.
Lemma ex_job_instances : GetInstances ex_job ex_mesos = Ret 2%Z.
Proof. by vm_compute. Qed.
Lemma ex_over_sent : sent ex_over = [(0, None)].
Proof. by vm_compute. Qed.
Lemma run_once_outcome_witness :
  ∃ infos, infos `sublist_of` launches ex_offers.2 ∧ length infos = 2 ∧
    Forall (runs_command ex_job) infos.
Proof.
  destruct (run_once_outcome ∅ NewRunOnceRunner [] ex_job ex_mesos 2 0 ex_staged ex_requests ex_over
    ex_offers.2) as (l & Hl & Hs).
  - constructor.
  - exact ex_job_instances.
  - by vm_compute.
  - by vm_compute.
  - exact ex_history.
  - destruct (Hs None) as (infos & Hsub & Hlen & Hc & _); [rewrite ex_over_sent; left|].
    exists infos. simpl in Hl. rewrite Hl. split_and!; [exact Hsub|lia|exact Hc].
Defined.

(** Staged again while its first task runs: what becomes of that task is told
    to the second run. *)
Definition ex_restaged : run_once := (StageApplication ex_job ex_mesos ex_first.1).2.
Definition ex_failed : TaskStatus := MkTaskStatus ex_id TASK_FAILED "".
Lemma restaged_waits_forever_witness :
  let r := (StatusUpdate ex_failed ex_restaged).2 in
  (0 ∉ (sent r).*1) ∧ (sent r).*1 = [1].
Proof.
  intros r. split; [|by vm_compute].
  apply (restaged_waits_forever {[0 := (ex_job, 2%Z)]} ex_first.1 ex_first.2 ex_job ex_mesos 2
    (ex_ctx ex_first.1) 1 ex_restaged [Updated ex_failed] r ex_first.2).
  - apply ex_runs_first.
  - by vm_compute.
  - exact ex_job_instances.
  - by vm_compute.
  - by vm_compute.
  - apply (history_snoc [] _ _ (ex_restaged, ex_first.2)); [constructor|].
    by apply (serves_update _ _ _ true); vm_compute.
Defined.
End examples.
