(* ===== verification/ApplicationRun.v ===== *)
(** Running one application: [Application.Run] of [framework/application.go]
    and what it calls.

    The outside world is a log of what the program did to it and a set of
    oracles that answer each action from the log so far: scripts may fail,
    Marathon may answer anything, and the variables, which all applications
    of a stack share, may change at every action.

    The code is a tree of actions ([Goroutine]). [exec] runs it with the other
    applications as one more oracle; [StackExecution] runs the trees of all
    applications of a stack together. *)
From S2P Require Import Prelude GoStrings Errors Json Variables Data Constraints.
From S2P Require Import MesosState Application Templates Goroutine.
From Stdlib Require Import Lia.
Open Scope string_scope.
Open Scope list_scope.

Inductive event : Type :=
| EWrite (file : string) (commands : list string)
| ESh (file : string)
| ERemove (file : string)
| ECreate (a : Application) (app : MarathonApplication)
| EGetApplication (id : string)
| ESleep
| EMesos (a : Application)
| ETasks (id : string)
| EFill (typ : string)
| ETask (key : yaml_value) (arguments : gmap string string).

Record world : Type := MkWorld { trace : list event; vars : Variables }.

(** What is not the program's: [Task] is Marathon's description of a task. *)
Class Outside := {
  Task : Type;
  (** writing, running and removing a script; creating an application; the
      status a Mesos runner sends *)
  o_do : list event → event → error + unit;
  (** the running and the healthy tasks of an application, [None] for nil *)
  o_application : list event → string → error + option (Z * Z);
  o_tasks : list event → string → error + option (list Task);
  (** [FillContext] and [RunTask] of the task runner of the application's type;
      they also set variables, and may panic *)
  o_fill : list event → Variables → Application → Task → result unit * Variables;
  o_task : list event → Variables → Application → gmap string string → result unit * Variables;
  (** the other applications of the stack *)
  o_interference : list event → Variables → Variables;
  (** the text of a JSON value *)
  MarshalIndent : json → string;
  o_mesos_state : list event → MesosState
}.

Section run.
Context `{ord : MapOrder} `{rx : Regexp} `{rs : Runners} `{out : Outside}.

Abbreviation code := (prog event Variables).
Abbreviation fail e := (Halt (Err e)).
Abbreviation panic m := (Halt (Panic m)).

(** Log the action, then look at the answer. *)
Definition emit (e : event) : code unit := Emit e (mret tt).
Definition ask {A} (o : list event → error + A) : code A :=
  Act (λ t v, (o t, v)) (λ r, Halt (from_sum r)).
Definition ask_vars (o : list event → Variables → result unit * Variables) : code unit := Act o Halt.
Definition do (e : event) : code unit := emit e ;; ask (λ t, o_do t e).
Definition get_vars : code Variables := Act (λ _ v, (v, v)) mret.

Definition executeCommands (commands : list string) (fileName : string) : code unit :=
  match commands with
  | [] => mret tt
  | _ =>
      do (EWrite fileName commands) ;;
      r ← attempt (do (ESh fileName));
      attempt (do (ERemove fileName)) ;;
      Halt (from_sum r)
  end.

Definition resolve_now (a : Application) : code Application :=
  v ← get_vars; Halt (resolveVariables v a).
Definition ensure_now (values : list checked_value) : code unit :=
  v ← get_vars; Halt (ensureVariablesResolved MarshalIndent v values).

(** Resolving, checking and running one hook, as [Run] does it. *)
Definition script_name (a : Application) (suffix : string) : string := App.ID a +:+ suffix.

Definition checkRunningAndHealthy (a : Application) : code unit :=
  emit (EGetApplication (App.ID a)) ;;
  app ← ask (λ t, o_application t (App.ID a));
  match app with
  | None => fail ErrApplicationDoesNotExist
  | Some (running, healthy) =>
      if (running =? 0)%Z then fail ErrTaskNotRunning
      else if negb (String.eqb (App.Healthcheck a) "") && (healthy =? 0)%Z
      then fail ErrHealthcheckNotPassing
      else mret tt
  end.

Fixpoint await_loop (a : Application) (retries : Z) (n : nat) : code unit :=
  match n with
  | O => fail (Errorf ("Failed to await until the task is running and healthy within " +:+
                       Itoa retries +:+ " retries"))
  | S n' =>
      r ← attempt (checkRunningAndHealthy a);
      match r with
      | inr _ => mret tt
      | inl _ => emit ESleep ;; await_loop a retries n'
      end
  end.
(** [for i := 0; i <= retries; i++] *)
Definition awaitRunningAndHealthy (a : Application) (retries : Z) : code unit :=
  await_loop a retries (Z.to_nat (retries + 1)).

Definition runMarathon (a : Application) (maxWait : Z) : code unit :=
  v ← get_vars;
  mesos ← ask (λ t, inr (o_mesos_state t));
  application ← Halt (createApplication a v mesos);
  do (ECreate a application) ;;
  awaitRunningAndHealthy a maxWait.

(** The status the scheduler's channel delivers; a run that waits for it
    forever has no outcome. *)
Definition runMesos (a : Application) : code unit := do (EMesos a).

Definition fillContext (a : Application) : code unit :=
  emit (ETasks (App.ID a)) ;;
  tasks ← ask (λ t, o_tasks t (App.ID a));
  match tasks with
  | None | Some [] => fail ErrTaskNotRunning
  | Some (task :: _) =>
      emit (EFill (App.Typ a)) ;;
      ask_vars (λ t v, o_fill t v a task)
  end.

(** One task: its arguments are read after the variables were resolved. *)
Definition run_task (i : nat) (a : Application) : code Application :=
  a ← resolve_now a;
  ensure_now [CStrings (App.BeforeTask a); COther] ;;
  executeCommands (App.BeforeTask a) (script_name a "_before_task.sh") ;;
  match App.Tasks a !! i with
  | Some (key, YMap items) =>
      let arguments := MapSliceToMap items in
      emit (ETask key arguments) ;;
      ask_vars (λ t v, o_task t v a arguments) ;;
      a ← resolve_now a;
      ensure_now [CStrings (App.AfterTask a)] ;;
      executeCommands (App.AfterTask a) (script_name a "_after_task.sh") ;;
      mret a
  | Some _ => panic not_a_MapSlice
  | None => panic index_out_of_range
  end.
Fixpoint run_tasks (i n : nat) (a : Application) : code Application :=
  match n with
  | O => mret a
  | S n' => a ← run_task i a; run_tasks (S i) n' a
  end.

(** [Application.Run]; the result is the application with its variables
    resolved. *)
Definition Run (a : Application) (maxWait : Z) : code Application :=
  a ← resolve_now a;
  ensure_now [CStrings (App.BeforeScheduler a); CString (App.LaunchCommand a);
              CMap (App.Scheduler a); CStrings (App.Args a); CMap (App.Env a)] ;;
  executeCommands (App.BeforeScheduler a) (script_name a "_before_scheduler.sh") ;;
  (if bool_decide (App.Typ a ∈ MesosTaskRunners) then runMesos a else runMarathon a maxWait) ;;
  a ← resolve_now a;
  ensure_now [CStrings (App.AfterScheduler a)] ;;
  executeCommands (App.AfterScheduler a) (script_name a "_after_scheduler.sh") ;;
  a ← (if bool_decide (App.Typ a ∈ TaskRunners) then
         fillContext a ;; run_tasks 0 (length (App.Tasks a)) a
       else mret a);
  a ← resolve_now a;
  ensure_now [CStrings (App.AfterTasks a)] ;;
  executeCommands (App.AfterTasks a) (script_name a "_after_tasks.sh") ;;
  mret a.

(** A run beside others that act when an action is logged. *)
Fixpoint exec {A} (p : code A) : M world error A := λ w,
  match p with
  | Halt o => (o, w)
  | Emit e k =>
      let t := trace w ++ [e] in exec k (MkWorld t (o_interference t (vars w)))
  | Act f k =>
      let '(x, v) := f (trace w) (vars w) in exec (k x) (MkWorld (trace w) v)
  end.

Lemma exec_bind {A B} (p : code A) (f : A → code B) w :
  exec (p ≫= f) w = (exec p ≫= λ x, exec (f x)) w.
Proof.
  rewrite {2}/mbind /M_mbind.
  revert w. induction p as [[x|e|m]|e k IH|X g k IH]; intros w; simpl; [done..|apply IH|].
  destruct (g (trace w) (vars w)) as [x v]. apply IH.
Qed.
Lemma exec_attempt {A} (p : code A) w : exec (attempt p) w = catch (exec p) w.
Proof.
  rewrite /catch.
  revert w. induction p as [[x|e|m]|e k IH|X g k IH]; intros w; simpl; [done..|apply IH|].
  destruct (g (trace w) (vars w)) as [x v]. apply IH.
Qed.
Lemma exec_bind_inv {A B} (p : code A) (f : A → code B) w b w' :
  exec (p ≫= f) w = (Ret b, w') → ∃ a w1, exec p w = (Ret a, w1) ∧ exec (f a) w1 = (Ret b, w').
Proof. rewrite exec_bind. apply M_bind_ret_inv. Qed.
(** What holds of a run beside others, when the others are the oracle. *)
Lemma exec_safe {A} (R G : Variables → Variables → Prop) I `{!PreOrder I}
    (Q : result A → list event → Variables → Prop) p w :
  (∀ v v', G v v' → I v v') → (∀ v v', R v v' → I v v') → (∀ v, R v v) →
  (∀ t v, R v (o_interference t v)) →
  safe R G Q p (trace w) (vars w) →
  let '(o, w') := exec p w in Q o (trace w') (vars w') ∧ I (vars w) (vars w').
Proof.
  intros HG HR Hrefl Hint. revert w. induction p as [o|e k IH|X f k IH]; intros w; simpl.
  - by split.
  - intros Hk. set (w1 := MkWorld _ _). specialize (IH w1 (Hk _ (Hint _ _))).
    destruct (exec k w1) as [o w']. destruct IH as [? HI]. split; [done|].
    etrans; [|exact HI]. apply HR, Hint.
  - destruct (f (trace w) (vars w)) as [x v] eqn:Ef. simpl. intros [Hg Hk].
    specialize (IH x (MkWorld (trace w) v) (Hk v (Hrefl v))).
    destruct (exec (k x) _) as [o w']. destruct IH as [? HI]. split; [done|].
    etrans; [|exact HI]. by apply HG.
Qed.
End run.
Abbreviation anything := (λ _ _ : Variables, True).
#[export] Instance anything_preorder : PreOrder (λ _ _ : Variables, True).
Proof. by split. Qed.
Abbreviation code := (prog event Variables).


(** ** The order of the phases *)
Inductive phase : Type :=
| PScript (file : string)
| PLaunch
| PFill
| PTask (key : yaml_value).

Definition phase_of (e : event) : option phase :=
  match e with
  | EWrite file _ => Some (PScript file)
  | ECreate _ _ | EMesos _ => Some PLaunch
  | EFill _ => Some PFill
  | ETask key _ => Some (PTask key)
  | _ => None
  end.
Definition phases (t : list event) : list phase := omap phase_of t.

(** A hook without commands is no phase. *)
Definition hook (a : Application) (suffix : string) (commands : list string) : list phase :=
  match commands with [] => [] | _ => [PScript (script_name a suffix)] end.

(** What a complete run goes through. *)
Definition expected_phases `{Runners} (a : Application) : list phase :=
  hook a "_before_scheduler.sh" (App.BeforeScheduler a) ++ [PLaunch] ++
  hook a "_after_scheduler.sh" (App.AfterScheduler a) ++
  (if bool_decide (App.Typ a ∈ TaskRunners) then
     PFill :: (App.Tasks a).*1 ≫= λ key,
       hook a "_before_task.sh" (App.BeforeTask a) ++ [PTask key] ++
       hook a "_after_task.sh" (App.AfterTask a)
   else []) ++
  hook a "_after_tasks.sh" (App.AfterTasks a).

(** No variable is left in a string. *)
Definition resolved (s : string) : Prop := find_variable s = "".
(** What is handed to a shell, to Marathon and to Mesos has no unresolved
    variables. *)
Definition event_resolved (e : event) : Prop :=
  match e with
  | EWrite _ commands => Forall resolved commands
  | ECreate a _ | EMesos a =>
      resolved (App.LaunchCommand a) ∧ Forall resolved (App.Args a) ∧
      map_Forall (λ _, resolved) (App.Scheduler a) ∧ map_Forall (λ _, resolved) (App.Env a)
  | _ => True
  end.

Ltac in_hooks := rewrite /hooks !elem_of_cons; tauto.

Section order.
Context `{ord : MapOrder} `{rx : Regexp} `{rs : Runners} `{out : Outside}.

(** [follows m L Q]: beside others that do anything to the variables, [m] goes
    through a prefix of [L], through all of it with a result in [Q] if it
    succeeds, and every event on the way is resolved. *)
Definition follows {A} (m : code A) (L : list phase) (Q : A → Prop) : Prop :=
  ∀ t v, safe anything anything (λ r t' _,
    ∃ t1, t' = t ++ t1 ∧ Forall event_resolved t1 ∧ phases t1 `prefix_of` L ∧
      ∀ x, r = Ret x → phases t1 = L ∧ Q x) m t v.

Lemma follows_bind {A B} (m : code A) (f : A → code B) L1 L2 Q Q' :
  follows m L1 Q → (∀ x, Q x → follows (f x) L2 Q') → follows (m ≫= f) (L1 ++ L2) Q'.
Proof.
  intros Hm Hf t v. apply safe_bind. eapply safe_mono; [|apply (Hm t v)].
  intros [x|e|p] t' v' (t1 & -> & Hr1 & Hp1 & Hx1).
  - destruct (Hx1 x eq_refl) as [Hph Hx]. eapply safe_mono; [|apply (Hf x Hx)].
    intros r t2 v2 (t3 & -> & Hr2 & Hp2 & Hx2).
    exists (t1 ++ t3). rewrite -app_assoc /phases omap_app -!/(phases _) Hph.
    split_and!; [done|by apply Forall_app|by apply prefix_app|].
    intros y Hy. destruct (Hx2 y Hy) as [-> ?]. done.
  - exists t1. split_and!; [done|done|by apply prefix_app_r|done].
  - exists t1. split_and!; [done|done|by apply prefix_app_r|done].
Qed.

(** A step that is no phase. *)
Lemma follows_bind_nil {A B} (m : code A) (f : A → code B) L Q Q' :
  follows m [] Q → (∀ x, Q x → follows (f x) L Q') → follows (m ≫= f) L Q'.
Proof. apply (follows_bind m f [] L). Qed.

Lemma follows_weaken {A} (m : code A) L (Q Q' : A → Prop) :
  (∀ x, Q x → Q' x) → follows m L Q → follows m L Q'.
Proof.
  intros HQ Hm t v. eapply safe_mono; [|apply (Hm t v)].
  intros r t' _ (t1 & ? & ? & ? & Hx). exists t1. split_and!; [done..|]. naive_solver.
Qed.

Lemma follows_lift {A} (r : result A) (Q : A → Prop) :
  (∀ x, r = Ret x → Q x) → follows (Halt r) [] Q.
Proof.
  intros Hr t v. exists []. rewrite app_nil_r. split_and!; [done|done|done|]. naive_solver.
Qed.
Lemma follows_ret {A} (x : A) (Q : A → Prop) : Q x → follows (mret x) [] Q.
Proof. intros Hx. apply follows_lift. by intros y [= <-]. Qed.
(** A failure or a panic, whatever should have come next. *)
Lemma follows_stop {A} (r : result A) L (Q : A → Prop) : (∀ x, r ≠ Ret x) → follows (Halt r) L Q.
Proof.
  intros Hr t v. exists []. rewrite app_nil_r. split_and!; [done|done|apply prefix_nil|naive_solver].
Qed.

(** A step that only reads or changes variables. *)
Lemma follows_act {A X} (f : list event → Variables → X * Variables) (k : X → code A) L Q :
  (∀ t v, follows (k (f t v).1) L Q) → follows (Act f k) L Q.
Proof. intros Hk t v. split; [done|]. intros v' _. apply Hk. Qed.
Lemma follows_ask {A} (o : list event → error + A) : follows (ask o) [] (λ _, True).
Proof. apply follows_act. intros t v. by apply follows_lift. Qed.
Lemma follows_ask_vars o : follows (ask_vars o) [] (λ _, True).
Proof. apply follows_act. intros t v. by apply follows_lift. Qed.
Lemma follows_get_vars {A} (f : Variables → code A) L Q :
  (∀ v, follows (f v) L Q) → follows (get_vars ≫= f) L Q.
Proof. intros Hf. apply follows_act. intros t v. apply Hf. Qed.

Lemma follows_emit e :
  event_resolved e → follows (emit e) (option_list (phase_of e)) (λ _, True).
Proof.
  intros He t v v' _. exists [e]. split_and!; [done|by constructor| |].
  - rewrite /phases /=. by destruct (phase_of e).
  - intros x _. rewrite /phases /=. by destruct (phase_of e).
Qed.

Lemma follows_do e :
  event_resolved e → follows (do e) (option_list (phase_of e)) (λ _, True).
Proof.
  intros He. rewrite /do -(app_nil_r (option_list _)). eapply follows_bind; [by apply follows_emit|].
  intros _ _. apply follows_ask.
Qed.

Lemma follows_catch {A} (m : code A) (Q : A → Prop) :
  follows m [] Q → follows (attempt m) [] (λ _, True).
Proof.
  intros Hm t v. apply safe_attempt. eapply safe_mono; [|apply (Hm t v)].
  intros r t' _ (t1 & -> & Hr & Hp%prefix_nil_inv & _). exists t1. rewrite Hp. by split_and!.
Qed.

Lemma follows_executeCommands commands file :
  Forall resolved commands →
  follows (executeCommands commands file)
    (match commands with [] => [] | _ => [PScript file] end) (λ _, True).
Proof.
  intros Hc. destruct commands as [|c l]; [by apply follows_ret|].
  apply (follows_bind _ _ [PScript file] []) with (Q := λ _, True).
  { by apply (follows_do (EWrite file (c :: l))). }
  intros _ _. eapply follows_bind_nil.
  { eapply follows_catch. by apply (follows_do (ESh file)). }
  intros r _. eapply follows_bind_nil.
  { eapply follows_catch. by apply (follows_do (ERemove file)). }
  intros _ _. by apply follows_lift.
Qed.

(** ** The shape of an application, which resolving variables keeps *)
Definition same_shape (a a' : Application) : Prop :=
  App.Typ a' = App.Typ a ∧ App.ID a' = App.ID a ∧
  (App.Tasks a').*1 = (App.Tasks a).*1 ∧
  ∀ f, f ∈ hooks → length (f a') = length (f a).

Lemma same_shape_refl a : same_shape a a.
Proof. rewrite /same_shape. by split_and!. Qed.

Lemma same_shape_trans a b c : same_shape a b → same_shape b c → same_shape a c.
Proof.
  intros (? & ? & ? & Hh) (? & ? & ? & Hh'). split_and!; try congruence.
  intros f Hf. by rewrite Hh' // Hh.
Qed.

Lemma resolve_same_shape v a a' : resolveVariables v a = Ret a' → same_shape a a'.
Proof.
  intros Hr%resolve_loop_by. destruct Hr as [_ _ _ _ Ht Hh [? [? _]]].
  split_and!; [done|done| |].
  - clear -Ht. induction Ht as [|t t' l l' [Hk _] _ IH]; [done|].
    rewrite !fmap_cons Hk. by f_equal.
  - intros f Hf. destruct (Hh f Hf) as (ls & -> & _). apply length_fmap.
Qed.

Lemma hook_same_shape a a' suffix f :
  f ∈ hooks → same_shape a a' → hook a' suffix (f a') = hook a suffix (f a).
Proof.
  intros Hf (_ & Hid & _ & Hlen). specialize (Hlen f Hf). rewrite /hook /script_name Hid.
  by destruct (f a), (f a').
Qed.

Lemma follows_resolve_now a : follows (resolve_now a) [] (same_shape a).
Proof.
  apply follows_get_vars. intros v. apply follows_lift. intros a' Ha.
  by apply (resolve_same_shape v).
Qed.

(** ** What a passed check says *)
Lemma ensure_string_ok v s : ensureStringVariableResolved MarshalIndent v s = Ret tt → resolved s.
Proof.
  rewrite /ensureStringVariableResolved /resolved.
  by destruct (String.eqb_spec (find_variable s) "").
Qed.

Lemma ensure_strings_ok v l :
  ensure_strings MarshalIndent v l = Ret tt → Forall resolved l.
Proof.
  induction l as [|s l IH]; simpl; [by constructor|].
  destruct (ensureStringVariableResolved MarshalIndent v s) as [[]|e|p] eqn:E; [|done..].
  intros H. constructor; [by eapply ensure_string_ok|by apply IH].
Qed.

Definition value_resolved (c : checked_value) : Prop :=
  match c with
  | CString s => resolved s
  | CStrings l => Forall resolved l
  | CMap m => map_Forall (λ _, resolved) m
  | _ => True
  end.

Lemma ensure_value_ok v c : ensure_value MarshalIndent v c = Ret tt → value_resolved c.
Proof.
  destruct c as [s|l|m|y|]; simpl; [apply ensure_string_ok|apply ensure_strings_ok| |done..].
  intros Hm%ensure_strings_ok. intros k x Hk. rewrite Forall_forall in Hm. apply Hm.
  apply list_elem_of_fmap. exists (k, x). by rewrite elem_of_range.
Qed.

Lemma ensure_ok v values :
  ensureVariablesResolved MarshalIndent v values = Ret tt → Forall value_resolved values.
Proof.
  induction values as [|c l IH]; simpl; [by constructor|].
  destruct (ensure_value MarshalIndent v c) as [[]|e|p] eqn:E; [|done..].
  intros H. constructor; [by eapply ensure_value_ok|by apply IH].
Qed.

Lemma follows_ensure_now values :
  follows (ensure_now values) [] (λ _, Forall value_resolved values).
Proof.
  apply follows_get_vars. intros v. apply follows_lift. intros [] H. by apply (ensure_ok v).
Qed.

(** Resolving, checking and running a hook, then going on. *)
Lemma follows_hook {B} f suffix values (k : Application → code B) a a0 L Q :
  f ∈ hooks → same_shape a0 a →
  (∀ a', same_shape a0 a' → Forall value_resolved (CStrings (f a') :: values a') →
    follows (k a') L Q) →
  follows (a' ← resolve_now a;
           ensure_now (CStrings (f a') :: values a') ;;
           executeCommands (f a') (script_name a' suffix) ;;
           k a') (hook a0 suffix (f a0) ++ L) Q.
Proof.
  intros Hf Hs Hk. eapply follows_bind_nil; [apply follows_resolve_now|]. intros a' Ha'.
  assert (same_shape a0 a') as Hs' by by eapply same_shape_trans.
  eapply follows_bind_nil; [apply follows_ensure_now|].
  intros x Hv. cbv beta in Hv. destruct (proj1 (Forall_cons _ _ _) Hv) as [Hc Hrest].
  rewrite -(hook_same_shape a0 a') //. eapply follows_bind; [by apply follows_executeCommands|].
  intros _ _. by apply Hk.
Qed.

(** ** The pieces of [Run] *)
Lemma follows_check a : follows (checkRunningAndHealthy a) [] (λ _, True).
Proof.
  rewrite /checkRunningAndHealthy. eapply follows_bind_nil.
  { by apply (follows_emit (EGetApplication (App.ID a))). }
  intros _ _. eapply follows_bind_nil; [apply follows_ask|].
  intros [[running healthy]|] _; [|by apply follows_stop].
  case_match; [by apply follows_stop|]. case_match; [by apply follows_stop|by apply follows_ret].
Qed.

Lemma follows_await a retries n : follows (await_loop a retries n) [] (λ _, True).
Proof.
  induction n as [|n IH]; [by apply follows_stop|]. cbn [await_loop].
  eapply follows_bind_nil; [eapply follows_catch, follows_check|].
  intros [e|[]] _; [|by apply follows_ret].
  eapply follows_bind_nil; [by apply (follows_emit ESleep)|]. intros _ _. exact IH.
Qed.

Definition launch_resolved (a : Application) : Prop :=
  resolved (App.LaunchCommand a) ∧ Forall resolved (App.Args a) ∧
  map_Forall (λ _, resolved) (App.Scheduler a) ∧ map_Forall (λ _, resolved) (App.Env a).

Lemma follows_launch a maxWait :
  launch_resolved a →
  follows (if bool_decide (App.Typ a ∈ MesosTaskRunners) then runMesos a
           else runMarathon a maxWait) [PLaunch] (λ _, True).
Proof.
  intros Ha. case_bool_decide; [by apply (follows_do (EMesos a))|].
  rewrite /runMarathon. apply follows_get_vars. intros v.
  eapply follows_bind_nil; [apply follows_ask|]. intros mesos _.
  eapply follows_bind_nil; [by apply (follows_lift _ (λ _, True))|]. intros app _.
  apply (follows_bind _ _ [PLaunch] []) with (Q := λ _, True).
  { by apply (follows_do (ECreate a app)). }
  intros _ _. apply follows_await.
Qed.

Lemma follows_fillContext a : follows (fillContext a) [PFill] (λ _, True).
Proof.
  rewrite /fillContext. eapply follows_bind_nil; [by apply (follows_emit (ETasks (App.ID a)))|].
  intros _ _. eapply follows_bind_nil; [apply follows_ask|]. intros tasks _.
  destruct tasks as [[|task tasks]|]; [by apply follows_stop| |by apply follows_stop].
  apply (follows_bind _ _ [PFill] []) with (Q := λ _, True).
  { by apply (follows_emit (EFill (App.Typ a))). }
  intros _ _. apply follows_ask_vars.
Qed.

(** The phases of one task. *)
Definition task_phases (a : Application) (key : yaml_value) : list phase :=
  hook a "_before_task.sh" (App.BeforeTask a) ++ [PTask key] ++
  hook a "_after_task.sh" (App.AfterTask a).

Lemma task_phases_same_shape a a' key :
  same_shape a a' → task_phases a' key = task_phases a key.
Proof.
  intros Hs. rewrite /task_phases (hook_same_shape a a') // 1?(hook_same_shape a a') //;
    in_hooks.
Qed.

Lemma follows_run_task i a key :
  (App.Tasks a).*1 !! i = Some key →
  follows (run_task i a) (task_phases a key) (same_shape a).
Proof.
  intros Hkey. apply (follows_hook App.BeforeTask _ (λ _, [COther])); [in_hooks|apply same_shape_refl|].
  intros a1 Hs _. pose proof Hs as (_ & _ & Hkeys & _). rewrite -Hkeys in Hkey.
  apply list_lookup_fmap_Some in Hkey as ([key' y] & -> & Hi). rewrite Hi.
  destruct y; try by apply follows_stop. cbn [fst].
  apply (follows_bind _ _ [PTask key']) with (Q := λ _, True).
  { by apply (follows_emit (ETask key' (MapSliceToMap items))). }
  intros _ _. eapply follows_bind_nil; [apply follows_ask_vars|]. intros _ _.
  rewrite -(app_nil_r (hook a _ _)).
  apply (follows_hook App.AfterTask _ (λ _, [])); [in_hooks|done|].
  intros a2 Hs2 _. by apply follows_ret.
Qed.

Lemma follows_run_tasks n : ∀ i a,
  length (App.Tasks a) = (i + n)%nat →
  follows (run_tasks i n a) (drop i (App.Tasks a).*1 ≫= task_phases a) (same_shape a).
Proof.
  induction n as [|n IH]; intros i a Hlen; cbn [run_tasks].
  - rewrite drop_ge; [|rewrite length_fmap; lia]. apply follows_ret, same_shape_refl.
  - assert (is_Some ((App.Tasks a).*1 !! i)) as [key Hkey].
    { apply lookup_lt_is_Some_2. rewrite length_fmap. lia. }
    rewrite (drop_S _ _ _ Hkey) bind_cons. eapply follows_bind; [by apply follows_run_task|].
    intros a' Hs. pose proof Hs as (_ & _ & Hkeys & _).
    assert (length (App.Tasks a') = (S i + n)%nat) as Hlen'.
    { rewrite -(length_fmap fst (App.Tasks a')) Hkeys length_fmap. lia. }
    apply (follows_weaken _ _ (same_shape a')); [intros x; by apply same_shape_trans|].
    rewrite -Hkeys (list_bind_ext _ (task_phases a') _ (drop (S i) (App.Tasks a').*1)) //;
      [by apply IH|]. intros key'. by rewrite (task_phases_same_shape a a').
Qed.

Lemma follows_Run a maxWait : follows (Run a maxWait) (expected_phases a) (same_shape a).
Proof.
  pose proof (same_shape_refl a) as Hrefl.
  apply (follows_hook App.BeforeScheduler _ (λ a, [CString (App.LaunchCommand a);
    CMap (App.Scheduler a); CStrings (App.Args a); CMap (App.Env a)])); [in_hooks|done|].
  intros a1 Hs1 Hv. rewrite !Forall_cons /= in Hv. destruct Hv as (_ & Hl & Hsc & Har & He & _).
  apply (follows_bind _ _ [PLaunch]) with (Q := λ _, True); [by apply follows_launch|]. intros _ _.
  apply (follows_hook App.AfterScheduler _ (λ _, [])); [in_hooks|done|]. intros a2 Hs2 _.
  eapply follows_bind with (Q := same_shape a).
  - pose proof Hs2 as (Htyp & _ & Hkeys & _). rewrite Htyp.
    case_bool_decide; [|by apply follows_ret].
    apply (follows_bind _ _ [PFill]) with (Q := λ _, True); [apply follows_fillContext|].
    intros _ _. apply (follows_weaken _ _ (same_shape a2)); [intros x; by apply same_shape_trans|].
    rewrite -Hkeys (list_bind_ext _ (task_phases a2) _ (App.Tasks a2).*1) //.
    + rewrite -(drop_0 (App.Tasks a2).*1). by apply follows_run_tasks.
    + intros key. symmetry. by apply task_phases_same_shape.
  - intros a3 Hs3. rewrite -(app_nil_r (hook a _ _)).
    apply (follows_hook App.AfterTasks _ (λ _, [])); [in_hooks|done|].
    intros a4 Hs4 _. by apply follows_ret.
Qed.

End order.

(** ** Waiting for an application *)
Section waiting.
Context `{ord : MapOrder} `{rx : Regexp} `{rs : Runners} `{out : Outside}.
Open Scope nat_scope.

(** What the poll made after the log [t] finds. *)
Definition healthy (a : Application) (t : list event) : bool :=
  match o_application (t ++ [EGetApplication (App.ID a)]) (App.ID a) with
  | inr (Some (running, healthy)) =>
      negb (running =? 0)%Z && (String.eqb (App.Healthcheck a) "" || negb (healthy =? 0)%Z)
  | _ => false
  end.
(** The log after [n] polls that failed. *)
Fixpoint poll_trace (a : Application) (n : nat) (t : list event) : list event :=
  match n with
  | O => t
  | S n' => poll_trace a n' (t ++ [EGetApplication (App.ID a); ESleep])
  end.

Lemma check_run a w :
  let '(r, w') := exec (checkRunningAndHealthy a) w in
  trace w' = trace w ++ [EGetApplication (App.ID a)] ∧
  if healthy a (trace w) then r = Ret tt else ∃ e, r = Err e.
Proof.
  rewrite /healthy /=. destruct (o_application _ _) as [e|[[running h]|]]; simpl; [by split; eauto| |by split; eauto].
  destruct (running =? 0)%Z; simpl; [by split; eauto|].
  destruct (String.eqb_spec (App.Healthcheck a) ""); simpl; [done|].
  destruct (h =? 0)%Z; simpl; by split; eauto.
Qed.

Lemma await_loop_run a retries n : ∀ w,
  let '(r, w') := exec (await_loop a retries n) w in
  (∀ i, i < n → healthy a (poll_trace a i (trace w)) = true →
     (∀ j, j < i → healthy a (poll_trace a j (trace w)) = false) →
     r = Ret tt ∧ trace w' = poll_trace a i (trace w) ++ [EGetApplication (App.ID a)]) ∧
  ((∀ i, i < n → healthy a (poll_trace a i (trace w)) = false) →
     r = Err (Errorf ("Failed to await until the task is running and healthy within " +:+
                      Itoa retries +:+ " retries")) ∧
     trace w' = poll_trace a n (trace w)).
Proof.
  induction n as [|n IH]; intros w; cbn [await_loop]; [by split; [lia|]|].
  rewrite exec_bind /mbind /M_mbind exec_attempt /catch. pose proof (check_run a w) as Hc.
  destruct (exec (checkRunningAndHealthy a) w) as [r w1]. destruct Hc as [Ht Hr].
  destruct (healthy a (trace w)) eqn:Hh.
  - subst r. simpl. split.
    + intros [|i] Hi Hok Hbad; [done|]. specialize (Hbad 0 ltac:(lia)). simpl in Hbad. congruence.
    + intros Hbad. specialize (Hbad 0 ltac:(lia)). simpl in Hbad. congruence.
  - destruct Hr as [e ->]. simpl.
    specialize (IH (MkWorld (trace w1 ++ [ESleep]) (o_interference (trace w1 ++ [ESleep]) (vars w1)))).
    simpl in IH. rewrite Ht -app_assoc /= in IH. rewrite Ht -app_assoc /=.
    destruct (exec (await_loop a retries n) _) as [r' w2]. destruct IH as [IHok IHbad]. split.
    + intros [|i] Hi Hok Hbad; [simpl in Hok; congruence|].
      apply (IHok i); [lia|done|]. intros j Hj. apply (Hbad (S j)). lia.
    + intros Hbad. apply IHbad. intros i Hi. apply (Hbad (S i)). lia.
Qed.

(** Waiting for an application takes [retries + 1] polls at most (none
    when [retries] is negative), one pause after every poll that failed: it
    succeeds right after the first poll that finds a running task, a healthy
    one when there is a health check, and reports a failure after the last
    pause when no poll does. *)
Theorem await_polls a retries w :
  let n := Z.to_nat (retries + 1) in
  let '(r, w') := exec (awaitRunningAndHealthy a retries) w in
  (∀ i, i < n → healthy a (poll_trace a i (trace w)) = true →
     (∀ j, j < i → healthy a (poll_trace a j (trace w)) = false) →
     r = Ret tt ∧ trace w' = poll_trace a i (trace w) ++ [EGetApplication (App.ID a)]) ∧
  ((∀ i, i < n → healthy a (poll_trace a i (trace w)) = false) →
     r = Err (Errorf ("Failed to await until the task is running and healthy within " +:+
                      Itoa retries +:+ " retries")) ∧
     trace w' = poll_trace a n (trace w)).
Proof. apply await_loop_run. Qed.
End waiting.

(** ** A run with a perfect outside *)
Section examples.
Definition ex_outside : Outside := {|
  Task := string;
  o_do _ _ := inr tt;
  o_application _ _ := inr (Some (1, 1)%Z);
  o_tasks _ _ := inr (Some ["task"]);
  o_fill _ v _ _ := (Ret tt, SetStackVariable "broker" "h1:9092" v);
  o_task _ v _ _ := (Ret tt, v);
  o_interference _ v := v;
  MarshalIndent _ := "";
  o_mesos_state _ := ex_mesos
|}.

Definition ex_task_app : Application :=
  App.MkApplication "kafka" "broker" "" (float_of 1 0) (float_of 512 0) [] "1" [] "" ""
    "./run" [] ∅ [] [] ∅
    [(YString "add", YMap [(YString "at", YString "${broker}"); (YString "to", YString "${missing}")])]
    [] None "" "" [] [] [] [] [].

Definition ex_arguments : gmap string string :=
  <["at" := "h1:9092"]> {["to" := "${missing}"]}.
Lemma ex_arguments_lookup :
  ex_arguments !! "at" = Some "h1:9092" ∧ ex_arguments !! "to" = Some "${missing}".
Proof. by vm_compute. Qed.

Lemma ex_run_logs :
  let out := exec (out := ex_outside) (Run (ord := canonical_order) (rx := ex_regexp)
    (rs := ex_runners) (out := ex_outside) ex_task_app 0) (MkWorld [] NewVariables) in
  is_ret out.1 = true ∧ trace out.2 !! 4%nat = Some (ETask (YString "add") ex_arguments).
Proof. by vm_compute. Qed.

(** The variables of a task's arguments are resolved but, unlike all
    others, never checked: [Run] hands the runner the argument with the
    reference still in it. *)
Theorem unresolved_task_arguments_run :
  let ord := canonical_order in let rx := ex_regexp in let rs := ex_runners in
  let out := ex_outside in
  let '(r, w) := exec (Run ex_task_app 0) (MkWorld [] NewVariables) in
  is_ret r = true ∧
  ∃ arguments, ETask (YString "add") arguments ∈ trace w ∧
    arguments !! "at" = Some "h1:9092" ∧ arguments !! "to" = Some "${missing}".
Proof.
  intros ord rx rs out. pose proof ex_run_logs as [Hr Hl].
  destruct (exec (Run ex_task_app 0) (MkWorld [] NewVariables)) as [r w]. simpl in Hr, Hl.
  split; [exact Hr|]. exists ex_arguments.
  split; [exact (list_elem_of_lookup_2 _ _ _ Hl)|exact ex_arguments_lookup].
Qed.


(** An outside where the application is up at the third poll. *)
Definition ex_slow : Outside := {|
  Task := string;
  o_do _ _ := inr tt;
  o_application t _ := inr (Some (if (length t <? 5)%nat then 0 else 1, 1)%Z);
  o_tasks _ _ := inr None;
  o_fill _ v _ _ := (Ret tt, v);
  o_task _ v _ _ := (Ret tt, v);
  o_interference _ v := v;
  MarshalIndent _ := "";
  o_mesos_state _ := ex_mesos
|}.
Lemma await_polls_witness :
  let out := ex_slow in
  let '(r, w) := exec (awaitRunningAndHealthy ex_task_app 10) (MkWorld [] NewVariables) in
  r = Ret tt ∧ length (trace w) = 5%nat.
Proof.
  intros out.
  pose proof (await_polls ex_task_app 10 (MkWorld [] NewVariables)) as Hp.
  destruct (exec (awaitRunningAndHealthy ex_task_app 10) (MkWorld [] NewVariables)) as [r w].
  destruct Hp as [Hok _].
  destruct (Hok 2%nat) as [Hr Ht]; [vm_compute; lia|by vm_compute| |].
  - intros j Hj. assert (j = 0 ∨ j = 1)%nat as [->| ->] by lia; by vm_compute.
  - split; [exact Hr|]. rewrite Ht. by vm_compute.
Defined.
End examples.
