(* ===== verification/Deployment.v ===== *)
(** An application deployed with the task runners of [main.go]:
    [ApplicationRun] with the runners of [TaskRunners] in place of its
    oracles for them. *)
From S2P Require Import Prelude GoStrings Errors Json Variables Data Constraints.
From S2P Require Import MesosState Application Templates Goroutine ApplicationRun Strconv Http TaskRunners TaskRunnersFacts.
From Stdlib Require Import Ascii Lia.
Open Scope string_scope.
Open Scope list_scope.

(** The tables of [main.go]. *)
Definition main_runners : Runners := {|
  Application.TaskRunners := dom taskRunners;
  Application.MesosTaskRunners := mesosTaskRunners
|}.

(** ** Which variables the runners set *)
Lemma foreign_spared id k : owned id k = false → ∀ x, k = id +:+ String "."%char x → x = "api".
Proof. intros Hk x ->. by rewrite owned_app in Hk. Qed.
Section variables.
Context `{ord : MapOrder} `{Network} (id k : string).
(** Nobody else sets the variable [k]. *)
Context (Hothers : ∀ t v, Get k (others t v) = Get k v).

Definition value_of (s : session) : result string := Get k (context s).
Abbreviation keeps_value := (keeps (E := error) value_of).

Lemma value_set k' v : k ≠ k' → keeps_value (set_stack_variable k' v).
Proof. intros Hne s. by apply Get_set_ne. Qed.
Lemma value_call c : keeps_value (call_out c).
Proof. intros s. apply Hothers. Qed.
#[local] Hint Resolve value_call : keepdb.
#[local] Hint Extern 2 (keeps _ (must_get _)) => done : keepdb.
#[local] Hint Extern 2 (keeps _ timer_fired) => done : keepdb.
#[local] Hint Extern 2 (keeps _ (read_all _)) => done : keepdb.

Lemma value_get url query : keeps_value (http_get url query).
Proof. rewrite /http_get. keep. Qed.
Lemma value_post url body : keeps_value (http_post url body).
Proof. rewrite /http_post. keep. Qed.
Lemma value_sleep : keeps_value sleep.
Proof. rewrite /sleep. keep. Qed.
Lemma value_set_indexed prefix idx hosts :
  (∀ i, k ≠ prefix +:+ i) → keeps_value (set_indexed prefix idx hosts).
Proof.
  intros Hne. revert idx. induction hosts as [|h l IH]; intros idx; cbn [set_indexed]; [keep|].
  apply keeps_bind; [by apply value_set|keep].
Qed.
#[local] Hint Resolve value_get value_post value_sleep : keepdb.
#[local] Hint Extern 2 (keeps _ (check_status _)) => rewrite /check_status; keep : keepdb.
#[local] Hint Extern 2 (keeps _ (check_Success _ _)) => rewrite /check_Success /read_all; keep : keepdb.
#[local] Hint Extern 2 (keeps _ (check_success _)) => rewrite /check_success /read_all; keep : keepdb.

Lemma value_await fuel api : keeps_value (Exhibitor.AwaitZookeeperRunning fuel api).
Proof.
  induction fuel as [|fuel IH]; cbn [Exhibitor.AwaitZookeeperRunning];
    rewrite /Exhibitor.poll /Exhibitor.Status /Exhibitor.checkResponse; keep.
Qed.
Lemma value_GetTasks api : keeps_value (Elasticsearch.GetTasks api).
Proof. rewrite /Elasticsearch.GetTasks. keep. Qed.
#[local] Hint Resolve value_await value_GetTasks : keepdb.
Lemma value_AwaitRunning d fuel api : keeps_value (Elasticsearch.AwaitRunning d fuel api).
Proof.
  induction fuel as [|fuel IH]; cbn [Elasticsearch.AwaitRunning]; rewrite /Elasticsearch.poll; keep.
Qed.
#[local] Hint Resolve value_AwaitRunning : keepdb.

(** A task sets variables of its application, but for the address. *)
Section run_task.
Context (Hspared : ∀ x, k = id +:+ String "."%char x → x = "api").

Lemma spared_ne x : x ≠ "api" → k ≠ id +:+ String "."%char x.
Proof. intros Hx Hk. by apply Hx, Hspared. Qed.
#[local] Hint Extern 2 (keeps _ (set_stack_variable _ _)) =>
  apply value_set; rewrite -?str_app_assoc; by apply spared_ne : keepdb.
#[local] Hint Extern 2 (keeps _ (set_indexed _ _ _)) =>
  apply value_set_indexed; intros ?; rewrite -?str_app_assoc; by apply spared_ne : keepdb.

Lemma value_RunTask r fuel task : keeps_value (RunTask r fuel id task).
Proof.
  destruct r; cbn [RunTask]; rewrite /returned.
  - rewrite /Kafka.RunTask /Kafka.Add /Kafka.Start /Kafka.checkResponse. keep.
  - rewrite /Exhibitor.RunTask /Exhibitor.Add /Exhibitor.Update /Exhibitor.Start
      /Exhibitor.cluster_call /Exhibitor.checkResponse /Exhibitor.fillTaskContext. keep.
  - rewrite /DSE.RunTask /DSE.Add /DSE.Start /DSE.doPost /DSE.checkResponse /DSE.fillTaskContext. keep.
  - rewrite /DSE02x.RunTask /DSE02x.AddCluster /DSE02x.Add /DSE02x.Start /DSE02x.doGet
      /DSE02x.checkResponse /DSE02x.fillTaskContext /DSE02x.fill_node. keep.
  - rewrite /Statsd.RunTask /Statsd.Update /Statsd.Start /Statsd.checkResponse. keep.
  - rewrite /Syslog.RunTask /Syslog.Update /Syslog.Start /Syslog.checkResponse. keep.
  - rewrite /Zipkin.RunTask /Zipkin.Add /Zipkin.Start /Zipkin.checkResponse /Zipkin.fillTaskContext. keep.
  - rewrite /GoKafkaClient.RunTask /GoKafkaClient.Add /GoKafkaClient.Update /GoKafkaClient.Start
      /GoKafkaClient.checkResponse. keep.
  - keep.
Qed.
End run_task.

(** Filling the context sets no variable of another application. *)
Section fill_context.
Context (Hforeign : owned id k = false).

#[local] Hint Extern 2 (keeps _ (set_stack_variable _ _)) =>
  intros ?; rewrite -?str_app_assoc; by apply set_owned : keepdb.
Lemma value_set_ports idx ports : keeps_value (set_ports id idx ports).
Proof. revert idx. induction ports as [|p l IH]; intros idx; cbn [set_ports]; keep. Qed.
#[local] Hint Resolve value_set_ports : keepdb.
Lemma value_fill_context task : keeps_value (fill_context id task).
Proof. rewrite /fill_context. keep. Qed.
Lemma value_set_addresses idx tasks : keeps_value (Elasticsearch.set_addresses id idx tasks).
Proof. revert idx. induction tasks as [|t l IH]; intros idx; cbn [Elasticsearch.set_addresses]; keep. Qed.
#[local] Hint Resolve value_fill_context value_set_addresses : keepdb.

Lemma value_FillContext r fuel task : keeps_value (FillContext r fuel id task).
Proof.
  destruct r; cbn [FillContext]; rewrite /returned;
    [rewrite /Kafka.FillContext|rewrite /Exhibitor.FillContext|rewrite /DSE.FillContext
    |rewrite /DSE02x.FillContext|rewrite /Statsd.FillContext|rewrite /Syslog.FillContext
    |rewrite /Zipkin.FillContext|rewrite /GoKafkaClient.FillContext
    |rewrite /Elasticsearch.FillContext]; keep.
Qed.
End fill_context.

End variables.

(** The variable [k] is left as it is. *)
Definition same (k : string) (v v' : Variables) : Prop := Get k v' = Get k v.
#[export] Instance same_preorder k : PreOrder (same k).
Proof. split; [done|intros v1 v2 v3; unfold same; congruence]. Qed.
Section deployment.
Context `{ord : MapOrder} `{rx : Regexp} (out : Outside).
(** The services the runners talk to, which depend on what happened so far;
    Marathon's description of a task; the fuel of the runners that wait. *)
Context (net : list event → Network) (describe : Task (Outside := out) → marathon_task) (fuel : nat).
#[local] Existing Instance main_runners.

(** The result of a call that may wait for ever; the goroutine is then stuck. *)
Definition settled (o : result progress) : result unit :=
  match o with
  | Ret Returned => Ret tt
  | Ret Waiting => Panic "waits for ever"
  | Err e => Err e
  | Panic p => Panic p
  end.
Definition by_runner (v : Variables) (a : Application)
    (m : runner → M session error progress) : result unit * Variables :=
  match taskRunners !! App.Typ a with
  | Some r => let '(o, s) := m r (MkSession [] v) in (settled o, context s)
  | None => (Panic nil_dereference, v)
  end.

#[local] Instance deployed : Outside := {|
  Task := Task (Outside := out);
  o_do := o_do (Outside := out);
  o_application := o_application (Outside := out);
  o_tasks := o_tasks (Outside := out);
  o_fill t v a task := by_runner v a (λ r,
    FillContext (H := net t) r fuel (App.ID a) (describe task));
  o_task t v a arguments := by_runner v a (λ r, RunTask (H := net t) r fuel (App.ID a) arguments);
  o_interference := o_interference (Outside := out);
  MarshalIndent := MarshalIndent (Outside := out);
  o_mesos_state := o_mesos_state (Outside := out)
|}.

(** ** The variables of a deployed application *)
Context (a0 : Application).
Abbreviation id := (App.ID a0).


(** Nobody sets the variable [k] while a task runner works. *)
Definition alone (k : string) : Prop := ∀ t c v, same k v (others (Network := net t) c v).

Section one_variable.
Context (k : string) (Hk : alone k).
Context (Hspared : ∀ x, k = id +:+ String "."%char x → x = "api").
Context (G : Variables → Variables → Prop) (HG : ∀ v v', same k v v' → G v v').
Context (R : Variables → Variables → Prop) (I : list event → Variables → Prop).
Context (Hsame : ∀ t v v', I t v → same k v v' → I t v').
Context (Hstable : ∀ t v v', I t v → R v v' → I t v') (Hlog : ∀ t e v, I t v → I (t ++ [e]) v).

(** The code leaves [k] as it is. *)
Abbreviation calm p P := (quiet R G I p P).
Abbreviation any := (λ _, True).
Create HintDb calmdb.
Ltac calm :=
  intros; cbv beta zeta;
  lazymatch goal with
  | |- quiet _ _ _ (_ ≫= _) _ => apply (quiet_bind _ _ _ any); [calm|calm]
  | |- quiet _ _ _ (match ?x with _ => _ end) _ => destruct x; calm
  | |- quiet _ _ _ (attempt _) _ => apply (quiet_attempt _ _ _ any); calm
  | |- quiet _ _ _ (Halt _) _ => by apply quiet_halt
  | |- _ => eauto with calmdb
  end.

Lemma same_refl v : G v v.
Proof. by apply HG. Qed.
Lemma calm_ret {A} (x : A) (P : A → Prop) : P x → calm (mret x) P.
Proof. intros Hx. apply quiet_halt. by intros y [= <-]. Qed.
Lemma calm_emit e : calm (emit e) any.
Proof. apply (quiet_emit _ _ _ Hstable Hlog). by apply calm_ret. Qed.
Lemma calm_ask {A} (o : list event → error + A) : calm (ask o) any.
Proof. apply (quiet_read _ _ _ Hstable same_refl); [done|]. intros x. by apply quiet_halt. Qed.
Lemma calm_get_vars : calm get_vars any.
Proof. apply (quiet_read _ _ _ Hstable same_refl); [done|]. intros x. by apply calm_ret. Qed.
#[local] Hint Resolve calm_ret calm_emit calm_ask calm_get_vars : calmdb.
Lemma calm_do e : calm (do e) any.
Proof. rewrite /do. calm. Qed.
#[local] Hint Resolve calm_do : calmdb.

Lemma calm_executeCommands commands file : calm (executeCommands commands file) any.
Proof. rewrite /executeCommands. calm. Qed.
Lemma calm_resolve_now a : same_shape a0 a → calm (resolve_now a) (same_shape a0).
Proof.
  intros Ha. apply (quiet_bind _ _ _ any); [calm|]. intros v _. apply quiet_halt.
  intros a' Ha'%resolve_same_shape. by eapply same_shape_trans.
Qed.
Lemma calm_ensure_now values : calm (ensure_now values) any.
Proof. rewrite /ensure_now. calm. Qed.
#[local] Hint Resolve calm_executeCommands calm_resolve_now calm_ensure_now : calmdb.

(** A call of a runner that leaves [k] as it is. *)
Lemma calm_ask_vars o : (∀ t v, same k v (o t v).2) → calm (ask_vars o) any.
Proof.
  intros Ho. apply (quiet_act _ _ _ Hstable).
  - intros t v Hv. split; [by apply HG|by eapply Hsame].
  - intros x. by apply quiet_halt.
Qed.
Lemma same_by_runner v a m :
  (∀ r, keeps (E := error) (value_of k) (m r)) → same k v (by_runner v a m).2.
Proof.
  intros Hm. rewrite /by_runner. destruct (taskRunners !! App.Typ a) as [r|]; [|done].
  specialize (Hm r (MkSession [] v)). by destruct (m r _) as [o s].
Qed.
Lemma calm_ask_task a arguments :
  App.ID a = id → calm (ask_vars (λ t v, o_task t v a arguments)) any.
Proof.
  intros Hid. apply calm_ask_vars. intros t v. apply same_by_runner. intros r. rewrite Hid.
  by apply value_RunTask; [apply Hk|].
Qed.

Lemma calm_run_task i a : same_shape a0 a → calm (run_task i a) (same_shape a0).
Proof.
  intros Ha. apply (quiet_bind _ _ _ (same_shape a0)); [calm|].
  intros a1 Ha1. do 2 (apply (quiet_bind _ _ _ any); [calm|intros _ _]).
  destruct (App.Tasks a1 !! i) as [[key []]|]; try by apply quiet_halt.
  apply (quiet_bind _ _ _ any); [calm|intros _ _].
  apply (quiet_bind _ _ _ any); [apply calm_ask_task, Ha1|intros _ _].
  apply (quiet_bind _ _ _ (same_shape a0)); [calm|]. intros a2 Ha2.
  do 2 (apply (quiet_bind _ _ _ any); [calm|intros _ _]). by apply calm_ret.
Qed.
Lemma calm_run_tasks i n a : same_shape a0 a → calm (run_tasks i n a) (same_shape a0).
Proof.
  revert i a. induction n as [|n IH]; intros i a Ha; cbn [run_tasks]; [by apply calm_ret|].
  eapply quiet_bind; [by apply calm_run_task|]. intros a1 Ha1. by apply IH.
Qed.
Lemma calm_check a : calm (checkRunningAndHealthy a) any.
Proof. rewrite /checkRunningAndHealthy. calm. Qed.
#[local] Hint Resolve calm_check : calmdb.
Lemma calm_await a retries n : calm (await_loop a retries n) any.
Proof. induction n as [|n IH]; cbn [await_loop]; calm. Qed.
#[local] Hint Resolve calm_await : calmdb.
Lemma calm_launch a maxWait :
  calm (if bool_decide (App.Typ a ∈ MesosTaskRunners) then runMesos a else runMarathon a maxWait) any.
Proof. rewrite /runMesos /runMarathon /awaitRunningAndHealthy. calm. Qed.

(** Resolving the variables, checking them and running a hook. *)
Lemma calm_hook {B} values f suffix (K : Application → code B) P a :
  same_shape a0 a → (∀ a, same_shape a0 a → calm (K a) P) →
  calm (a ← resolve_now a; ensure_now (values a) ;; executeCommands (f a) (script_name a suffix) ;; K a) P.
Proof.
  intros Ha HK. apply (quiet_bind _ _ _ (same_shape a0)); [calm|]. intros a1 Ha1.
  do 2 (apply (quiet_bind _ _ _ any); [calm|intros _ _]). by apply HK.
Qed.
Lemma calm_ask_fill a task :
  owned id k = false → App.ID a = id → calm (ask_vars (λ t v, o_fill t v a task)) any.
Proof.
  intros Hforeign Hid. apply calm_ask_vars. intros t v. apply same_by_runner. intros r. rewrite Hid.
  by apply value_FillContext; [apply Hk|].
Qed.
Lemma calm_fillContext a : owned id k = false → App.ID a = id → calm (fillContext a) any.
Proof.
  intros Hforeign Hid. rewrite /fillContext. do 2 (apply (quiet_bind _ _ _ any); [calm|intros ? _]).
  case_match; [|by apply quiet_halt]. case_match; [by apply quiet_halt|].
  apply (quiet_bind _ _ _ any); [calm|intros _ _]. by apply calm_ask_fill.
Qed.
Lemma calm_Run maxWait : owned id k = false → calm (Run a0 maxWait) (same_shape a0).
Proof.
  intros Hforeign. apply (calm_hook (λ a, CStrings (App.BeforeScheduler a) :: _) App.BeforeScheduler);
    [apply same_shape_refl|]. intros a1 Ha1.
  apply (quiet_bind _ _ _ any); [apply calm_launch|intros _ _].
  apply (calm_hook (λ a, [CStrings (App.AfterScheduler a)]) App.AfterScheduler); [done|].
  intros a2 Ha2. apply (quiet_bind _ _ _ (same_shape a0)).
  - destruct (bool_decide _); [|by apply calm_ret].
    apply (quiet_bind _ _ _ any); [apply calm_fillContext; [done|apply Ha2]|intros _ _].
    by apply calm_run_tasks.
  - intros a3 Ha3. apply (calm_hook (λ a, [CStrings (App.AfterTasks a)]) App.AfterTasks); [done|].
    intros a4 Ha4. by apply calm_ret.
Qed.
End one_variable.

(** Whatever the others do, the code leaves the variables of others as they
    are. *)
Lemma Run_spares k maxWait :
  alone k → owned id k = false →
  quiet (λ _ _, True) (same k) (λ _ _, True) (Run a0 maxWait) (same_shape a0).
Proof. intros Hk Hf. by apply (calm_Run k Hk (foreign_spared _ _ Hf)). Qed.

(** What the application's task runner publishes of the first task Marathon
    lists after [start]. *)
Definition api : string := id +:+ ".api".
Definition published (start t : list event) (v : Variables) : Prop :=
  ∃ t0 task tasks port, start `prefix_of` t0 ∧ t0 `prefix_of` t ∧ last t0 = Some (ETasks id) ∧
    o_tasks (Outside := out) t0 id = inr (Some (task :: tasks)) ∧
    head (Ports (describe task)) = Some port ∧
    Get api v = Ret ("http://" +:+ Host (describe task) +:+ ":" +:+ Itoa port).
Lemma published_stable start t v v' : published start t v → same api v v' → published start t v'.
Proof. intros (t0 & task & tasks & port & ? & ? & ? & ? & ? & Hg) Hs. exists t0, task, tasks, port. by rewrite Hs. Qed.
Lemma published_log start t e v : published start t v → published start (t ++ [e]) v.
Proof.
  intros (t0 & task & tasks & port & ? & ? & ?). exists t0, task, tasks, port.
  split_and!; [done|by apply prefix_app_r|naive_solver..].
Qed.
Lemma api_spared x : api = id +:+ String "."%char x → x = "api".
Proof. intros Hx%str_app_inv. by injection Hx. Qed.

(** The others leave the address alone; the application itself may set it. *)
Abbreviation leads I p P I' := (ends (same api) (λ _ _, True) I p P I').

Lemma fillContext_published start a :
  (∀ d, taskRunners !! App.Typ a ≠ Some (ElasticsearchTaskRunner d)) → App.ID a = id →
  leads (λ t _, start `prefix_of` t) (fillContext a) (λ _, True) (published start).
Proof.
  intros Htyp Hid t v Hstart. rewrite /fillContext Hid. intros v1 Hv1. split; [done|].
  intros v2 Hv2. destruct (o_tasks _ _) as [e|[[|task tasks]|]] eqn:Ho; [done..| |done].
  intros v3 Hv3. split; [done|]. intros v4 Hv4 [] Hret. split; [done|].
  apply (published_stable _ _ (o_fill ((t ++ [ETasks id]) ++ [EFill (App.Typ a)]) v3 a task).2); [|done].
  revert Hret. simpl. rewrite /by_runner. destruct (taskRunners !! App.Typ a) as [r|] eqn:Hr; [|done].
  pose proof (FillContext_correct (H := net ((t ++ [ETasks id]) ++ [EFill (App.Typ a)])) r fuel id
    (describe task) (MkSession [] v3)) as Hf.
  rewrite Hid. destruct (FillContext r fuel id (describe task) (MkSession [] v3)) as [o s]. simpl.
  destruct (Ports (describe task)) as [|port ports] eqn:Hp; [by destruct Hf as [-> _]|].
  destruct Hf as (-> & _ & Hg & _); [intros d ->; by apply (Htyp d)|]. intros _.
  exists (t ++ [ETasks id]), task, tasks, port. rewrite Hp.
  split_and!; [by apply prefix_app_r|by apply prefix_app_r|apply last_snoc|done..].
Qed.

Lemma elasticsearch_only typ d :
  taskRunners !! typ = Some (ElasticsearchTaskRunner d) → typ = "elasticsearch".
Proof.
  intros Hd%elem_of_list_to_map_2.
  repeat (apply elem_of_cons in Hd as [Heq|Hd]; [by injection Heq|]). by apply elem_of_nil in Hd.
Qed.

Lemma Run_published maxWait start :
  alone api → App.Typ a0 ∈ dom taskRunners → App.Typ a0 ≠ "elasticsearch" →
  leads (λ t _, start `prefix_of` t) (Run a0 maxWait) (λ _, True) (published start).
Proof.
  intros Hk Htyp Hne. pose (I1 := λ (t : list event) (_ : Variables), start `prefix_of` t).
  assert (∀ t v v', I1 t v → same api v v' → I1 t v') as Hs1 by done.
  assert (∀ t e v, I1 t v → I1 (t ++ [e]) v) as Hl1 by (intros ???; apply prefix_app_r).
  eapply ends_bind; [eapply quiet_ends, (calm_resolve_now api (λ _ _, True));
    [done..|apply same_shape_refl]|]. intros a1 Ha1.
  do 2 (eapply ends_bind; [eapply quiet_ends; first
    [apply (calm_ensure_now api)|apply (calm_executeCommands api)]; done|intros _ _]).
  eapply ends_bind; [eapply quiet_ends, (calm_launch api); done|intros _ _].
  eapply ends_bind; [eapply quiet_ends, (calm_resolve_now api); done|]. intros a2 Ha2.
  do 2 (eapply ends_bind; [eapply quiet_ends; first
    [apply (calm_ensure_now api)|apply (calm_executeCommands api)]; done|intros _ _]).
  pose proof Ha2 as (Htyp2 & Hid2 & _).
  eapply ends_bind with (P := same_shape a0) (I1 := published start).
  - rewrite bool_decide_true; [|by rewrite Htyp2].
    eapply ends_bind; [apply fillContext_published; [|done]|intros _ _].
    { rewrite Htyp2. by intros d Hd%elasticsearch_only. }
    eapply quiet_ends, (calm_run_tasks api Hk api_spared); 
      [done|apply published_stable|apply published_stable|apply published_log|done].
  - intros a3 Ha3. eapply quiet_ends, (calm_hook api (λ _ _, True)) with
      (values := λ a, [CStrings (App.AfterTasks a)]) (f := App.AfterTasks);
      [done|apply published_stable|apply published_log|done|].
    intros a4 Ha4. by apply quiet_halt.
Qed.

(** ** Beside others that act when an action is logged *)
Definition undisturbed (k : string) : Prop :=
  (∀ t v, same k v (o_interference (Outside := out) t v)) ∧ alone k.

(** A deployment of an Elasticsearch application with tasks never succeeds:
    its type has a task runner, so it is accepted, but the runner refuses to
    run any task. *)
Theorem elasticsearch_tasks_fail maxWait w a' :
  App.Typ a0 = "elasticsearch" → App.Tasks a0 ≠ [] → (exec (Run a0 maxWait) w).1 ≠ Ret a'.
Proof.
  intros Htyp Htasks Hr. destruct (exec (Run a0 maxWait) w) as [o w'] eqn:E. simpl in Hr. subst o.
  rewrite /Run in E. apply exec_bind_inv in E as (a1 & w1 & E1 & E).
  assert (same_shape a0 a1) as Hs1 by by apply (resolve_same_shape (vars w)); injection E1.
  apply exec_bind_inv in E as (? & w2 & _ & E). apply exec_bind_inv in E as (? & w3 & _ & E).
  apply exec_bind_inv in E as (? & w4 & _ & E). apply exec_bind_inv in E as (a2 & w5 & E2 & E).
  assert (same_shape a0 a2) as (Htyp2 & _ & Hkeys & _).
  { apply (same_shape_trans _ a1); [done|]. apply (resolve_same_shape (vars w4)). by injection E2. }
  apply exec_bind_inv in E as (? & w6 & _ & E). apply exec_bind_inv in E as (? & w7 & _ & E).
  apply exec_bind_inv in E as (a3 & w8 & E3 & E).
  rewrite Htyp2 Htyp bool_decide_true in E3; [|by vm_compute].
  apply exec_bind_inv in E3 as (? & w9 & _ & E3).
  destruct (App.Tasks a2) as [|p l] eqn:Et.
  { apply Htasks. apply (f_equal length) in Hkeys. rewrite !length_fmap in Hkeys.
    by apply nil_length_inv. }
  cbn [length run_tasks] in E3. apply exec_bind_inv in E3 as (? & w10 & E3 & _).
  rewrite /run_task in E3. apply exec_bind_inv in E3 as (a4 & w11 & E4 & E3).
  assert (same_shape a2 a4) as (Htyp4 & _) by by apply (resolve_same_shape (vars w9)); injection E4.
  apply exec_bind_inv in E3 as (? & w12 & _ & E3). apply exec_bind_inv in E3 as (? & w13 & _ & E3).
  destruct (App.Tasks a4 !! 0) as [[key []]|]; try done.
  apply exec_bind_inv in E3 as (? & w14 & _ & E3). apply exec_bind_inv in E3 as (? & w15 & E5 & _).
  by rewrite /ask_vars /= /by_runner Htyp4 Htyp2 Htyp in E5.
Qed.
End deployment.

(** ** A concrete deployment *)
Section examples.
#[local] Existing Instance canonical_order.
#[local] Existing Instance main_runners.

Definition ex_marathon : Outside := {|
  Task := marathon_task;
  o_do _ _ := inr tt;
  o_application _ _ := inr (Some (1, 1)%Z);
  o_tasks _ _ := inr (Some [ex_task]);
  o_fill _ v _ _ := (Ret tt, v);
  o_task _ v _ _ := (Ret tt, v);
  o_interference _ v := v;
  MarshalIndent _ := "";
  o_mesos_state _ := ex_mesos
|}.
Definition ex_deployed (typ : string) : Application :=
  App.MkApplication typ "kafka" "" (float_of 1 0) (float_of 512 0) [] "1" [] "" ""
    "./run" [] ∅ [] [] ∅
    [(YString "broker", YMap [(YString "id", YString "0")])]
    [] None "" "" [] [] [] [] [].

Definition ex_world : world := MkWorld [] (SetStackVariable "zone" "z1" NewVariables).
Lemma ex_undisturbed k : undisturbed ex_marathon (λ _, ex_kafka) k.
Proof. split; [intros t v|intros t c v]; exact eq_refl. Qed.

Lemma elasticsearch_tasks_fail_witness :
  let out := deployed ex_marathon (λ _, ex_elasticsearch) id 20 in
  is_ret (exec (out := out) (Run (rx := ex_regexp) (out := out) (ex_deployed "elasticsearch") 0)
            (MkWorld [] NewVariables)).1 = false.
Proof.
  intros out. destruct (exec (out := out) (Run (rx := ex_regexp) (out := out)
    (ex_deployed "elasticsearch") 0) (MkWorld [] NewVariables)).1 as [a'|e|p] eqn:E; [|reflexivity..].
  exfalso. revert E. apply elasticsearch_tasks_fail; [reflexivity|discriminate].
Defined.
End examples.
