(* ===== verification/StackRun.v ===== *)
(** Running a stack: [Stack.Run] of [framework/stack.go], a main loop that
    starts a goroutine per application as its dependencies come up and reads
    what became of them from a channel.

    The goroutines are [Application.Run] ([ApplicationRun]), reduced here to
    the error they end with; the interleaving is a step relation. *)
From S2P Require Import Prelude GoStrings Errors Variables Data Constraints Application.
From S2P Require Import StateStorage.
From Stdlib Require Import Lia.
Open Scope string_scope.
Open Scope list_scope.
Open Scope nat_scope.

(** [Stack.Validate]. *)
Section validate.
Context `{ord : MapOrder} `{rx : Regexp} `{rs : Runners}.

Fixpoint validate_all (l : list (string * Application)) : result unit :=
  match l with
  | [] => Ret tt
  | (name, app) :: l' =>
      match Validate app with
      | Ret _ => validate_all l'
      | Err e => Err (Errorf ("Invalid application " +:+ name +:+ ": " +:+ Error e))
      | Panic p => Panic p
      end
  end.
Definition Stack_Validate (s : Stack) : result unit := validate_all (range 0 (Stk.apps s)).
End validate.

(** The state shared by the main loop and the goroutines. [started] is the
    history of the applications that were started; [main] is what [Run]
    returned, if it did. *)
Record run_state (S : Type) : Type := MkRun {
  runningApps : gmap string ApplicationStatus;
  statuses : list (string * option error);
  closed : bool;
  goroutines : list Application;
  started : list Application;
  storage : S;
  main : option (result unit);
  crashed : bool
}.
Arguments MkRun {S}.
Arguments runningApps {S}.
Arguments statuses {S}.
Arguments closed {S}.
Arguments goroutines {S}.
Arguments started {S}.
Arguments storage {S}.
Arguments main {S}.
Arguments crashed {S}.

Section run.
Context `{ord : MapOrder} `{rx : Regexp} {S : Type} `{StateStorage S}.
Context (apps : gmap string Application) (stackName zone : string).
Implicit Types (st : run_state S).

(** The channel's buffer. *)
Definition capacity : nat := size apps.

(** One iteration of [runApplications]. *)
Definition launch (st : run_state S) (app : Application) : run_state S :=
  match runningApps st !! App.ID app with
  | Some _ => st
  | None =>
      if IsDependencySatisfied app (runningApps st) then
        MkRun (<[App.ID app := ApplicationStatusStaging]> (runningApps st)) (statuses st)
          (closed st) (goroutines st ++ [app]) (started st ++ [app]) (storage st) (main st)
          (crashed st)
      else st
  end.
Definition runApplications (d : nat) st : run_state S := foldl launch st (range d apps).*2.

Definition allApplicationsRunning (running : gmap string ApplicationStatus) : bool :=
  forallb (λ app, bool_decide (running !! App.ID app = Some ApplicationStatusRunning))
    (range 0 apps).*2.

(** [markSkippedApps]. Nobody receives yet, so a send into a full buffer waits
    forever: [Ret None]. *)
Fixpoint skip_apps (pattern : string → bool) (l : list Application)
    (running : gmap string ApplicationStatus) (sent : list (string * option error)) :
    option (gmap string ApplicationStatus * list (string * option error)) :=
  match l with
  | [] => Some (running, sent)
  | app :: l' =>
      if pattern (App.ID app) then
        if length sent <? capacity then
          skip_apps pattern l' (<[App.ID app := ApplicationStatusRunning]> running)
            (sent ++ [(App.ID app, None)])
        else None
      else skip_apps pattern l' running sent
  end.
Fixpoint markSkippedApps (skipApplications : list string)
    (running : gmap string ApplicationStatus) (sent : list (string * option error)) :
    result (option (gmap string ApplicationStatus * list (string * option error))) :=
  match skipApplications with
  | [] => Ret (Some (running, sent))
  | skipRegex :: l =>
      pattern ← Compile skipRegex;
      match skip_apps pattern (range 0 apps).*2 running sent with
      | None => Ret None
      | Some (running', sent') => markSkippedApps l running' sent'
      end
  end.

(** The state in which the loop over the statuses begins. *)
Definition begin (running : gmap string ApplicationStatus) (sent : list (string * option error))
    (s : S) : run_state S :=
  runApplications 0 (MkRun running sent false [] [] s None false).

(** One iteration of that loop: [None] while there is nothing to receive. [v]
    are the variables at that moment. *)
Definition returned st (s : S) (r : result unit) : run_state S :=
  MkRun (runningApps st) (statuses st) (closed st) (goroutines st) (started st) s (Some r)
    (crashed st).
Definition receive (d : nat) (v : Variables) st : option (run_state S) :=
  match main st, statuses st with
  | None, (id, Some e) :: rest =>
      let '(_, s) := SaveApplicationStatus stackName zone id ApplicationStatusFailed (storage st) in
      Some (returned (MkRun (runningApps st) rest (closed st) (goroutines st) (started st)
              (storage st) None (crashed st)) s (Err (Errorf (id +:+ ": " +:+ Error e))))
  | None, (id, None) :: rest =>
      let running := <[id := ApplicationStatusRunning]> (runningApps st) in
      let st1 := MkRun running rest (closed st) (goroutines st) (started st) (storage st) None
                   (crashed st) in
      match SaveApplicationStatus stackName zone id ApplicationStatusRunning (storage st) with
      | (Ret _, s1) =>
          match SaveStackVariables stackName zone v s1 with
          | (Ret _, s2) =>
              if allApplicationsRunning running then
                Some (MkRun running rest true (goroutines st) (started st) s2 (Some (Ret tt))
                        (crashed st))
              else
                Some (runApplications d (MkRun running rest (closed st) (goroutines st)
                        (started st) s2 None (crashed st)))
          | (r, s2) => Some (returned st1 s2 r)
          end
      | (r, s1) => Some (returned st1 s1 r)
      end
  | None, [] => if closed st then Some (returned st (storage st) (Ret tt)) else None
  | Some _, _ => None
  end.

(** A goroutine is done with its application and sends its status; a send on a
    closed channel panics, which ends the process. *)
Fixpoint remove_app (id : string) (l : list Application) : list Application :=
  match l with
  | [] => []
  | a :: l' => if String.eqb (App.ID a) id then l' else a :: remove_app id l'
  end.
Definition finish (app : Application) (r : option error) st : option (run_state S) :=
  if closed st then
    Some (MkRun (runningApps st) (statuses st) true (remove_app (App.ID app) (goroutines st))
            (started st) (storage st) (main st) true)
  else if length (statuses st) <? capacity then
    Some (MkRun (runningApps st) (statuses st ++ [(App.ID app, r)]) false
            (remove_app (App.ID app) (goroutines st)) (started st) (storage st) (main st)
            (crashed st))
  else None.

Inductive step : run_state S → run_state S → Prop :=
| step_receive d v st st' : receive d v st = Some st' → step st st'
| step_finish app r st st' : app ∈ goroutines st → finish app r st = Some st' → step st st'.

(** [Run] up to the loop: it returned, it waits forever, or it loops. *)
Inductive launched : Type :=
| Returned (r : result unit)
| Blocked
| Looping (st : run_state S).
End run.

Section start.
Context `{ord : MapOrder} `{rx : Regexp} `{rs : Runners} {S : Type} `{StateStorage S}.

(** The variables [Run] sets; [master] is what Marathon's [Info] answered. *)
Definition run_variables (master zone stackName : string) (v : Variables) : Variables :=
  SetStackVariable "stack" stackName
    (SetStackVariable "zone" zone (SetStackVariable "mesos.master" master v)).

(** [Stack.Run] before its loop. *)
Definition start (s : Stack) (info : error + string) (skipApplications : list string)
    (store : S) : launched (S := S) :=
  match Stack_Validate s with
  | Ret _ =>
      match info with
      | inl e => Returned (Err e)
      | inr _ =>
          match markSkippedApps (Stk.apps s) skipApplications ∅ [] with
          | Ret (Some (running, sent)) => Looping (begin (Stk.apps s) running sent store)
          | Ret None => Blocked
          | Err e => Returned (Err e)
          | Panic p => Returned (Panic p)
          end
      end
  | r => Returned r
  end.

(** Outcomes of [Stack.Run] and of what it did to the storage. *)
Definition run_ends (stack : Stack) (skip : list string) (stackName zone : string)
    (s : S) (r : result unit) (s' : S) : Prop :=
  ∃ info, (start stack info skip s = Returned r ∧ s' = s) ∨
    ∃ st0 st, start stack info skip s = Looping st0 ∧
      rtc (step (Stk.apps stack) stackName zone) st0 st ∧ main st = Some r ∧ storage st = s'.
End start.
