(* ===== verification/StackRunFacts.v ===== *)
(** What holds while a stack runs: the invariant of [StackRun]'s steps and the
    theorems about [Stack.Run] - order of starts, absence of crashes, what a
    nil error means, termination, and when it waits forever. *)
From S2P Require Import Prelude GoStrings Errors Variables Data Constraints Application.
From S2P Require Import StateStorage StackRun.
From Stdlib Require Import Lia.
Open Scope string_scope.
Open Scope list_scope.
Open Scope nat_scope.

Section facts.
Context `{ord : MapOrder} `{rx : Regexp} {S : Type} `{StateStorageLaws S}.
Context (apps : gmap string Application) (stackName zone : string).
Implicit Types (st : run_state S) (running : gmap string ApplicationStatus).

Definition is_running running (id : string) : Prop :=
  running !! id = Some ApplicationStatusRunning.

Lemma IsDependencySatisfied_spec a running :
  IsDependencySatisfied a running = true ↔ ∀ d, d ∈ App.Dependencies a → is_running running d.
Proof.
  rewrite /IsDependencySatisfied forallb_forall /is_running. split.
  - intros Hall d Hd%list_elem_of_In. specialize (Hall d Hd).
    destruct (running !! d) as [status|]; [|done]. apply bool_decide_eq_true in Hall. congruence.
  - intros Hall d Hd%list_elem_of_In. rewrite (Hall d Hd). by apply bool_decide_eq_true.
Qed.

Lemma allApplicationsRunning_spec running :
  allApplicationsRunning apps running = true ↔
    ∀ k a, apps !! k = Some a → is_running running (App.ID a).
Proof.
  rewrite /allApplicationsRunning forallb_forall. split.
  - intros Hall k a Hk. specialize (Hall a). apply bool_decide_eq_true in Hall; [done|].
    apply list_elem_of_In, list_elem_of_fmap. exists (k, a). by rewrite elem_of_range.
  - intros Hall a Hin%list_elem_of_In. apply list_elem_of_fmap in Hin as ([k b] & -> & Hk%elem_of_range).
    apply bool_decide_eq_true. by eapply Hall.
Qed.

(** ** The invariant

    [running0] are the statuses the loop starts with: the skipped
    applications. *)
Context (running0 : gmap string ApplicationStatus).

Record inv st : Prop := {
  inv_goroutine a : a ∈ goroutines st → a ∈ started st ∧
    runningApps st !! App.ID a = Some ApplicationStatusStaging ∧ App.ID a ∉ (statuses st).*1;
  inv_goroutines : NoDup (App.ID <$> goroutines st);
  inv_statuses id : id ∈ (statuses st).*1 → is_Some (runningApps st !! id);
  inv_once : NoDup (App.ID <$> started st);
  inv_started a : a ∈ started st → is_Some (runningApps st !! App.ID a) ∧
    (∀ d, d ∈ App.Dependencies a → is_running (runningApps st) d) ∧ ∃ k, apps !! k = Some a;
  inv_order i a d : started st !! i = Some a → d ∈ App.Dependencies a →
    is_Some (running0 !! d) ∨ d ∈ App.ID <$> take i (started st);
  inv_known id : is_Some (runningApps st !! id) →
    is_Some (running0 !! id) ∨ id ∈ App.ID <$> started st;
  inv_staging id : main st = None → runningApps st !! id = Some ApplicationStatusStaging →
    id ∈ App.ID <$> goroutines st ∨ id ∈ (statuses st).*1;
  inv_values id : runningApps st !! id ≠ Some ApplicationStatusFailed;
  inv_saved id : main st = None ∨ main st = Some (Ret tt) → is_running (runningApps st) id →
    is_Some (running0 !! id) ∨
    app_status (storage st) stackName zone id = Some (ApplicationStatus_code ApplicationStatusRunning);
  inv_closed : closed st = true ↔ main st = Some (Ret tt);
  inv_done : main st = Some (Ret tt) → allApplicationsRunning apps (runningApps st) = true;
  inv_crashed : crashed st = false
}.

(** After every application had its turn nothing more can be started. *)
Definition saturated st : Prop :=
  ∀ k a, apps !! k = Some a → runningApps st !! App.ID a = None →
    IsDependencySatisfied a (runningApps st) = false.

Lemma NoDup_fmap_snoc (l : list Application) a :
  NoDup (App.ID <$> l) → App.ID a ∉ App.ID <$> l → NoDup (App.ID <$> l ++ [a]).
Proof.
  intros Hl Ha. rewrite fmap_app. apply NoDup_app. split_and!; [done| |apply NoDup_singleton].
  by intros id Hin ->%list_elem_of_singleton.
Qed.
Lemma insert_staging st id id' :
  runningApps st !! id = None →
  is_running (<[id := ApplicationStatusStaging]> (runningApps st)) id' ↔
  is_running (runningApps st) id'.
Proof.
  intros Hnew. rewrite /is_running. destruct (decide (id = id')) as [<-|Hne].
  - by rewrite lookup_insert_eq Hnew.
  - by rewrite lookup_insert_ne.
Qed.

Lemma inv_launch st a k :
  inv st → main st = None → apps !! k = Some a → inv (launch st a).
Proof.
  intros Hi Hmain Hk. rewrite /launch.
  destruct (runningApps st !! App.ID a) eqn:Hnew; [done|].
  destruct (IsDependencySatisfied a (runningApps st)) eqn:Hdep; [|done].
  pose proof (λ id, insert_staging st (App.ID a) id Hnew) as Hrun.
  assert (∀ id, is_Some (runningApps st !! id) →
    <[App.ID a := ApplicationStatusStaging]> (runningApps st) !! id = runningApps st !! id) as Hold.
  { intros id [x Hx]. apply lookup_insert_ne. intros <-. congruence. }
  assert (App.ID a ∉ App.ID <$> started st) as Hns.
  { intros (b & Hid & Hb)%list_elem_of_fmap. destruct (inv_started _ Hi b Hb) as [[x Hx] _].
    rewrite -Hid in Hx. congruence. }
  destruct Hi. split; simpl; try done.
  - intros b [Hb| ->%list_elem_of_singleton]%elem_of_app.
    + destruct (inv_goroutine0 b Hb) as (? & Hst & ?). rewrite Hold; [|by eexists].
      split_and!; [by apply elem_of_app; left|done|done].
    + rewrite lookup_insert_eq. split_and!; [set_solver|done|].
      intros Hin. destruct (inv_statuses0 _ Hin) as [x Hx]. congruence.
  - apply NoDup_fmap_snoc; [done|]. intros (b & Hid & Hb)%list_elem_of_fmap.
    destruct (inv_goroutine0 b Hb) as (_ & Hst & _). rewrite -Hid in Hst. congruence.
  - intros id Hin. rewrite Hold; by apply inv_statuses0.
  - by apply NoDup_fmap_snoc.
  - intros b [Hb| ->%list_elem_of_singleton]%elem_of_app.
    + destruct (inv_started0 b Hb) as (Hs & Hd & Hap). split_and!; [by rewrite Hold| |done].
      intros d Hin. by apply Hrun, Hd.
    + split_and!; [rewrite lookup_insert_eq; by eexists| |by eexists].
      intros d Hin. apply Hrun. by apply (proj1 (IsDependencySatisfied_spec _ _) Hdep) in Hin.
  - intros i b d [Hb|[Hi Hb]]%lookup_app_Some Hd.
    + rewrite take_app_le; [|by apply lookup_lt_Some in Hb; lia]. by eapply inv_order0.
    + apply list_lookup_singleton_Some in Hb as [Hi' <-].
      rewrite take_app_ge // (_ : i - length (started st) = 0) // app_nil_r.
      apply inv_known0. eexists. by apply (proj1 (IsDependencySatisfied_spec _ _) Hdep).
  - intros id. rewrite fmap_app elem_of_app lookup_insert_is_Some.
    intros [<-|[_ [?|?]%inv_known0]]; [right; right; constructor|by left|by right; left].
  - intros id _. rewrite fmap_app elem_of_app lookup_insert_Some.
    intros [[<- _]|[_ [?|?]%inv_staging0]]; [left; right; constructor|by left; left|by right|done].
  - intros id [[_ ?]|[_ ?]]%lookup_insert_Some; [done|by eapply inv_values0].
  - intros id Hm Hr%Hrun. by apply inv_saved0.
  - intros Hd. congruence.
Qed.

(** What [runApplications] changes, and what it leaves. *)
Lemma launch_running st a id :
  is_running (runningApps (launch st a)) id ↔ is_running (runningApps st) id.
Proof.
  rewrite /launch. destruct (runningApps st !! App.ID a) eqn:Hnew; [done|].
  destruct (IsDependencySatisfied a (runningApps st)); [|done]. by apply insert_staging.
Qed.

Lemma launch_same st a :
  main (launch st a) = main st ∧ statuses (launch st a) = statuses st ∧
  (∀ id, is_Some (runningApps st !! id) → is_Some (runningApps (launch st a) !! id)) ∧
  (runningApps (launch st a) !! App.ID a = None → IsDependencySatisfied a (runningApps st) = false).
Proof.
  rewrite /launch. destruct (runningApps st !! App.ID a) eqn:Hnew; [split_and!; congruence|].
  destruct (IsDependencySatisfied a (runningApps st)); [|done]. split_and!; [done|done| |].
  - intros id Hs. simpl. rewrite lookup_insert. case_decide; [by eexists|done].
  - by rewrite /= lookup_insert_eq.
Qed.

Lemma satisfied_ext a running running' :
  (∀ id, is_running running id ↔ is_running running' id) →
  IsDependencySatisfied a running = IsDependencySatisfied a running'.
Proof.
  intros Hr. apply eq_bool_prop_intro. rewrite !Is_true_true !IsDependencySatisfied_spec.
  split; intros Hall d Hd; by apply Hr, Hall.
Qed.

Lemma fold_launch l : ∀ st,
  inv st → main st = None → (∀ a, a ∈ l → ∃ k, apps !! k = Some a) →
  let st' := foldl launch st l in
  inv st' ∧ main st' = None ∧ statuses st' = statuses st ∧
  (∀ id, is_running (runningApps st') id ↔ is_running (runningApps st) id) ∧
  (∀ id, is_Some (runningApps st !! id) → is_Some (runningApps st' !! id)) ∧
  (∀ a, a ∈ l → runningApps st' !! App.ID a = None →
     IsDependencySatisfied a (runningApps st) = false).
Proof.
  induction l as [|a l IH]; intros st Hi Hm Hl; simpl.
  { split_and!; try done. by intros a ?%elem_of_nil. }
  destruct (Hl a (list_elem_of_here _ _)) as [k Hk].
  destruct (launch_same st a) as (Hmain & Hsts & Hmono & Hsat).
  destruct (IH (launch st a)) as (Hi' & Hm' & Hs' & Hr' & Hd' & Hsat').
  { by eapply inv_launch. }
  { by rewrite Hmain. }
  { intros b Hb. apply Hl. by constructor. }
  split_and!; [done|done|by rewrite Hs'| | |].
  - intros id. by rewrite Hr' launch_running.
  - intros id Hid. by apply Hd', Hmono.
  - intros b [->|Hb]%elem_of_cons Hnone.
    + apply Hsat. apply eq_None_not_Some. intros Hsome. apply Hd' in Hsome as [x Hx]. congruence.
    + rewrite (satisfied_ext b _ (runningApps (launch st a))); [by apply Hsat'|].
      intros id. by rewrite launch_running.
Qed.

Lemma runApplications_inv d st :
  inv st → main st = None →
  let st' := runApplications apps d st in
  inv st' ∧ saturated st' ∧ main st' = None ∧ statuses st' = statuses st ∧
  (∀ id, is_running (runningApps st') id ↔ is_running (runningApps st) id).
Proof.
  intros Hi Hm. destruct (fold_launch (range d apps).*2 st Hi Hm) as (? & ? & ? & Hr & ? & Hsat).
  { intros a ([k b] & -> & Hk%elem_of_range)%list_elem_of_fmap. by exists k. }
  split_and!; [done| |done|done|done].
  intros k a Hk Hnone. rewrite (satisfied_ext a _ (runningApps st)); [|done].
  apply Hsat; [|done]. apply list_elem_of_fmap. exists (k, a). by rewrite elem_of_range.
Qed.

(** ** The steps *)
Lemma remove_app_elem l a b :
  NoDup (App.ID <$> l) → a ∈ l → b ∈ remove_app (App.ID a) l ↔ b ∈ l ∧ App.ID b ≠ App.ID a.
Proof.
  induction l as [|c l IH]; intros Hnd Ha; [by apply elem_of_nil in Ha|].
  rewrite fmap_cons in Hnd. apply NoDup_cons in Hnd as [Hc Hnd]. simpl.
  destruct (String.eqb_spec (App.ID c) (App.ID a)) as [He|Hne].
  - rewrite elem_of_cons. split.
    + intros Hb. split; [by right|]. intros Hba. apply Hc. rewrite He -Hba. by apply list_elem_of_fmap_2.
    + intros [[->|Hb] Hba]; [congruence|done].
  - apply elem_of_cons in Ha as [->|Ha]; [done|]. rewrite !elem_of_cons IH //. naive_solver.
Qed.

Lemma remove_app_sublist l id : remove_app id l `sublist_of` l.
Proof.
  induction l as [|a l IH]; simpl; [done|].
  destruct (String.eqb _ _); [by apply sublist_cons|by apply sublist_skip].
Qed.

Lemma remove_app_length l a : a ∈ l → length l = 1 + length (remove_app (App.ID a) l).
Proof.
  induction l as [|b l IH]; intros Ha; [by apply elem_of_nil in Ha|]. simpl.
  destruct (String.eqb_spec (App.ID b) (App.ID a)); [done|].
  apply elem_of_cons in Ha as [->|Ha]; [done|]. simpl. by rewrite IH.
Qed.

Lemma inv_open st a : inv st → a ∈ goroutines st → closed st = false.
Proof.
  intros Hi Ha. apply not_true_is_false. intros Hc%(inv_closed _ Hi).
  pose proof (proj1 (allApplicationsRunning_spec _) (inv_done _ Hi Hc)) as Hall.
  destruct (inv_goroutine _ Hi a Ha) as (Hs & Hst & _).
  destruct (inv_started _ Hi a Hs) as (_ & _ & k & Hk).
  specialize (Hall k a Hk). rewrite /is_running in Hall. congruence.
Qed.

(** The state after the goroutine of [a] sent [r]. *)
Definition sent st (a : Application) (r : option error) : run_state S :=
  MkRun (runningApps st) (statuses st ++ [(App.ID a, r)]) false
    (remove_app (App.ID a) (goroutines st)) (started st) (storage st) (main st) (crashed st).

Lemma finish_sent st a r st' :
  inv st → a ∈ goroutines st → finish apps a r st = Some st' → st' = sent st a r.
Proof.
  intros Hi Ha. rewrite /finish (inv_open st a) //. case_match; [|done]. by intros [= <-].
Qed.

Lemma inv_sent st a r : inv st → a ∈ goroutines st → inv (sent st a r).
Proof.
  intros Hi Ha. pose proof (inv_open st a Hi Ha) as Hopen. destruct Hi. split; simpl; try done.
  - intros b [Hb Hne]%remove_app_elem; [|done..].
    destruct (inv_goroutine0 b Hb) as (? & ? & Hns). split_and!; [done|done|].
    rewrite fmap_app not_elem_of_app. split; [done|]. by intros ?%list_elem_of_singleton.
  - eapply sublist_NoDup; [exact inv_goroutines0|]. apply fmap_sublist, remove_app_sublist.
  - intros id. rewrite fmap_app elem_of_app. intros [?| ->%list_elem_of_singleton].
    + by apply inv_statuses0.
    + destruct (inv_goroutine0 a Ha) as (_ & Hx & _). exact (mk_is_Some _ _ Hx).
  - intros id Hm Hst. rewrite fmap_app elem_of_app.
    destruct (inv_staging0 id Hm Hst) as [(b & -> & Hb)%list_elem_of_fmap|?]; [|by right; left].
    destruct (decide (App.ID b = App.ID a)) as [->|Hne]; [right; right; constructor|left].
    apply list_elem_of_fmap_2. by apply remove_app_elem.
  - by rewrite -inv_closed0 Hopen.
Qed.

(** A status was received and [m] is what the run returned because of it, if
    it did. *)
Definition popped st rest running (s : S) (m : option (result unit)) : run_state S :=
  MkRun running rest (closed st) (goroutines st) (started st) s m (crashed st).

Lemma inv_popped st id rest s m :
  inv st → main st = None → statuses st = (id, None) :: rest → m ≠ Some (Ret tt) →
  (m = None → ∀ id', app_status s stackName zone id' =
     if decide (id' = id) then Some (ApplicationStatus_code ApplicationStatusRunning)
     else app_status (storage st) stackName zone id') →
  inv (popped st rest (<[id := ApplicationStatusRunning]> (runningApps st)) s m).
Proof.
  intros Hi Hm Hs Hne Happ. destruct Hi. rewrite Hs in inv_goroutine0 inv_statuses0 inv_staging0.
  assert (∀ d, is_running (runningApps st) d →
    is_running (<[id := ApplicationStatusRunning]> (runningApps st)) d) as Hkeep.
  { intros d Hd. rewrite /is_running lookup_insert. by case_decide. }
  split; simpl; try done.
  - intros a Ha. destruct (inv_goroutine0 a Ha) as (? & ? & [Hn ?]%not_elem_of_cons).
    split_and!; [done| |done]. by rewrite lookup_insert_ne.
  - intros id' Hid'. rewrite lookup_insert. case_decide; [by eexists|].
    apply inv_statuses0. by right.
  - intros a Ha. destruct (inv_started0 a Ha) as ([x Hx] & Hd & Hk). split_and!; [| |done].
    + rewrite lookup_insert. case_decide; by eexists.
    + intros d Hd'. by apply Hkeep, Hd.
  - intros id'. rewrite lookup_insert. case_decide as He; [|apply inv_known0].
    intros _. rewrite -He. apply inv_known0, inv_statuses0. left.
  - intros id' _. rewrite lookup_insert. case_decide as He; [done|]. intros Hst.
    destruct (inv_staging0 id' Hm Hst) as [?|[?|?]%elem_of_cons];
      [by left|simpl in *; congruence|by right].
  - intros id'. rewrite lookup_insert. by case_decide.
  - intros id' [Hnone|?] Hr; [|done]. rewrite Happ //. case_decide as He; [by right|].
    apply inv_saved0; [by left|]. revert Hr. rewrite /is_running lookup_insert_ne //.
  - rewrite inv_closed0 Hm. by split.
Qed.

(** An error status ends the run. *)
Lemma inv_failed st id e rest s r :
  inv st → main st = None → statuses st = (id, Some e) :: rest → r ≠ Ret tt →
  inv (popped st rest (runningApps st) s (Some r)).
Proof.
  intros Hi Hm Hs Hr. destruct Hi. rewrite Hs in inv_goroutine0 inv_statuses0 inv_staging0.
  split; simpl; try done.
  - intros a Ha. by destruct (inv_goroutine0 a Ha) as (? & ? & [? ?]%not_elem_of_cons).
  - intros id' Hid'. apply inv_statuses0. by right.
  - intros id' [?|[= ?]]; done.
  - rewrite inv_closed0 Hm. split; [done|]. by intros [= ?].
  - by intros [= ?].
Qed.

(** The last status closes the channel. *)
Lemma inv_close st rest running s :
  inv (popped st rest running s None) → allApplicationsRunning apps running = true →
  inv (MkRun running rest true (goroutines st) (started st) s (Some (Ret tt)) (crashed st)).
Proof.
  intros Hi Hall. destruct Hi. split; simpl in *; try done.
  intros id _. apply inv_saved0. by left.
Qed.

(** ** Receiving *)
Lemma inv_receive d v st st' :
  inv st → receive apps stackName zone d v st = Some st' →
  inv st' ∧
  (main st' = None → saturated st' ∧ allApplicationsRunning apps (runningApps st') = false).
Proof.
  intros Hi. rewrite /receive. destruct (main st) as [r|] eqn:Hm; [done|].
  destruct (statuses st) as [|[id [e|]] rest] eqn:Hs.
  - assert (closed st = false) as ->; [|done].
    apply not_true_is_false. rewrite (inv_closed _ Hi) Hm. done.
  - destruct (SaveApplicationStatus stackName zone id ApplicationStatusFailed (storage st)) as [r s].
    intros [= <-]. split; [by apply (inv_failed st id e)|done].
  - pose proof (save_app_law stackName zone id ApplicationStatusRunning (storage st)) as Hsave.
    destruct (SaveApplicationStatus stackName zone id ApplicationStatusRunning (storage st))
      as [[[]|e|p] s1]; destruct Hsave as (Hsave & _ & Hnp);
      [|intros [= <-]; split; [by apply (inv_popped st id)|done]|by destruct (Hnp p)].
    pose proof (save_vars_law stackName zone v s1) as Hvars.
    destruct (SaveStackVariables stackName zone v s1) as [[[]|e|p] s2];
      destruct Hvars as (Happ & _ & Hnp');
      [|intros [= <-]; split; [by apply (inv_popped st id)|done]|by destruct (Hnp' p)].
    assert (inv (popped st rest (<[id := ApplicationStatusRunning]> (runningApps st)) s2 None))
      as Hpop.
    { apply (inv_popped st id rest s2 None Hi Hm Hs); [done|]. intros _ id'.
      rewrite Happ Hsave. repeat case_decide; naive_solver. }
    destruct (allApplicationsRunning apps _) eqn:Hall; intros [= <-].
    + split; [by apply inv_close|done].
    + destruct (runApplications_inv d _ Hpop eq_refl) as (? & ? & _ & _ & Hr).
      split; [done|]. intros _. split; [done|]. rewrite -Hall.
      apply eq_bool_prop_intro. rewrite !Is_true_true !allApplicationsRunning_spec.
      split; intros Hap k a Hk; by eapply Hr, Hap.
Qed.

(** ** The number of steps *)
Definition pending running : nat :=
  length (filter (λ p : string * Application, running !! App.ID p.2 = None) (map_to_list apps)).

Lemma filter_length_mono {A} (P Q : A → Prop) `{∀ x, Decision (P x), ∀ x, Decision (Q x)} l :
  (∀ x, P x → Q x) → length (filter P l) ≤ length (filter Q l).
Proof.
  intros HPQ. induction l as [|x l IH]; [done|]. rewrite !filter_cons.
  destruct (decide (P x)) as [HP|HP].
  - rewrite decide_True; [|by apply HPQ]. simpl. lia.
  - case_decide; simpl; lia.
Qed.

Lemma pending_mono running running' :
  (∀ id, is_Some (running !! id) → is_Some (running' !! id)) → pending running' ≤ pending running.
Proof.
  intros Hr. apply filter_length_mono. intros [k a] Hnone. simpl in *.
  apply eq_None_not_Some. intros Hs%Hr. rewrite Hnone in Hs. by destruct Hs.
Qed.

Lemma pending_insert running k a x :
  apps !! k = Some a → running !! App.ID a = None →
  pending (<[App.ID a := x]> running) < pending running.
Proof.
  intros Hk%elem_of_map_to_list Hnone. rewrite /pending.
  apply list_elem_of_split in Hk as (l1 & l2 & ->). rewrite !filter_app !length_app !filter_cons /=.
  rewrite decide_False; [|by rewrite lookup_insert_eq]. rewrite (decide_True _ _ Hnone) /=.
  assert (∀ l : list (string * Application),
    length (filter (λ p, <[App.ID a := x]> running !! App.ID p.2 = None) l) ≤
    length (filter (λ p, running !! App.ID p.2 = None) l)) as Hle.
  { intros l. apply filter_length_mono. intros p. rewrite lookup_insert. by case_decide. }
  pose proof (Hle l1). pose proof (Hle l2). lia.
Qed.

Definition weight st : nat :=
  3 * pending (runningApps st) + 2 * length (goroutines st) + length (statuses st).

Lemma weight_launch st a k : apps !! k = Some a → weight (launch st a) ≤ weight st.
Proof.
  intros Hk. rewrite /launch. destruct (runningApps st !! App.ID a) eqn:Hnew; [done|].
  destruct (IsDependencySatisfied a (runningApps st)); [|done].
  rewrite /weight /= length_app /=.
  pose proof (pending_insert (runningApps st) k a ApplicationStatusStaging Hk Hnew). lia.
Qed.

Lemma weight_runApplications d st : weight (runApplications apps d st) ≤ weight st.
Proof.
  rewrite /runApplications.
  assert (∀ a, a ∈ (range d apps).*2 → ∃ k, apps !! k = Some a) as Hl.
  { intros a ([k b] & -> & Hk%elem_of_range)%list_elem_of_fmap. by exists k. }
  revert st Hl. generalize (range d apps).*2 as l. intros l.
  induction l as [|a l IH]; intros st Hl; simpl; [done|].
  destruct (Hl a (list_elem_of_here _ _)) as [k Hk].
  etrans; [apply IH; intros b Hb; apply Hl; by constructor|by eapply weight_launch].
Qed.

Lemma weight_receive d v st st' :
  inv st → receive apps stackName zone d v st = Some st' → weight st' < weight st.
Proof.
  intros Hi. rewrite /receive. destruct (main st) as [r|] eqn:Hm; [done|].
  destruct (statuses st) as [|[id [e|]] rest] eqn:Hs.
  - assert (closed st = false) as ->; [|done].
    apply not_true_is_false. rewrite (inv_closed _ Hi) Hm. done.
  - destruct (SaveApplicationStatus _ _ _ _ _) as [r s]. intros [= <-].
    rewrite /weight /= Hs /=. lia.
  - assert (pending (<[id := ApplicationStatusRunning]> (runningApps st)) ≤
            pending (runningApps st)) as Hp.
    { apply pending_mono. intros id' Hid'. rewrite lookup_insert. by case_decide. }
    destruct (SaveApplicationStatus _ _ _ _ _) as [[[]|e|p] s1];
      [|intros [= <-]; rewrite /weight /= Hs /=; lia..].
    destruct (SaveStackVariables _ _ _ _) as [[[]|e|p] s2];
      [|intros [= <-]; rewrite /weight /= Hs /=; lia..].
    destruct (allApplicationsRunning apps _); intros [= <-].
    + rewrite /weight /= Hs /=. lia.
    + eapply Nat.le_lt_trans; [apply weight_runApplications|]. rewrite /weight /= Hs /=. lia.
Qed.

Lemma weight_sent st a r : a ∈ goroutines st → weight (sent st a r) < weight st.
Proof.
  intros Ha. rewrite /weight /= length_app (remove_app_length (goroutines st) a Ha) /=. lia.
Qed.
End facts.

(** ** The start of the loop *)
Section begin.
Context `{ord : MapOrder} `{rx : Regexp} `{rs : Runners} {S : Type} `{StateStorageLaws S}.
Context (apps : gmap string Application) (stackName zone : string).
Implicit Types (st : run_state S) (running : gmap string ApplicationStatus).

(** The statuses and the messages of skipped applications. *)
Record skips running (sent : list (string * option error)) : Prop := {
  skips_values id x : running !! id = Some x → x = ApplicationStatusRunning;
  skips_sent id : is_Some (running !! id) ↔ id ∈ sent.*1
}.

Lemma skips_snoc running sent id :
  skips running sent →
  skips (<[id := ApplicationStatusRunning]> running) (sent ++ [(id, None)]).
Proof.
  intros [Hv Hs]. split.
  - intros id' x [[_ <-]|[_ Hx]]%lookup_insert_Some; [done|by eapply Hv].
  - intros id'. rewrite fmap_app elem_of_app list_elem_of_singleton /= -Hs lookup_insert.
    case_decide as He; [|naive_solver]. split; [by right|by eexists].
Qed.

Lemma skip_apps_skips pattern l : ∀ running sent r,
  skips running sent → skip_apps apps pattern l running sent = Some r → skips r.1 r.2.
Proof.
  induction l as [|a l IH]; intros running sent r Hs; simpl; [by intros [= <-]|].
  destruct (pattern (App.ID a)); [|by apply IH].
  case_match; [|done]. by apply IH, skips_snoc.
Qed.

Lemma markSkippedApps_skips l : ∀ running sent r,
  skips running sent → markSkippedApps apps l running sent = Ret (Some r) → skips r.1 r.2.
Proof.
  induction l as [|regex l IH]; intros running sent r Hs; simpl; [by intros [= <-]|].
  destruct (Compile regex) as [pattern|e|p]; [|done..]. simpl.
  destruct (skip_apps apps pattern (range 0 apps).*2 running sent) as [[running' sent']|] eqn:E; [|done].
  apply IH. by apply (skip_apps_skips _ _ _ _ _ Hs E).
Qed.

Lemma skips_empty : skips ∅ [].
Proof.
  split; [done|]. intros id. rewrite lookup_empty. split; [by intros []|by intros ?%elem_of_nil].
Qed.

Context (running0 : gmap string ApplicationStatus) (sent0 : list (string * option error)).
Context (Hskips : skips running0 sent0).
Abbreviation Inv := (inv apps stackName zone running0).

(** While the loop runs, nothing can be started at once and there is something
    to wait for. *)
Definition good st : Prop :=
  Inv st ∧ (main st = None → saturated apps st ∧
    (apps ≠ ∅ → statuses st ≠ [] ∨ allApplicationsRunning apps (runningApps st) = false)).

Lemma inv_initial (s : S) : Inv (MkRun running0 sent0 false [] [] s None false).
Proof.
  split; simpl; try done.
  - by intros a ?%elem_of_nil.
  - constructor.
  - intros id. by rewrite (skips_sent _ _ Hskips).
  - constructor.
  - by intros a ?%elem_of_nil.
  - by left.
  - intros id _ Hst. by apply (skips_values _ _ Hskips) in Hst.
  - intros id Hst. by apply (skips_values _ _ Hskips) in Hst.
  - intros id _ Hr. left. by eexists.
Qed.

Lemma good_begin (s : S) : good (begin apps running0 sent0 s).
Proof.
  pose proof (inv_initial s) as Hi.
  destruct (runApplications_inv apps stackName zone running0 0 _ Hi eq_refl)
    as (Hi' & Hsat & _ & Hsts & Hr).
  split; [exact Hi'|]. intros _. split; [exact Hsat|]. intros Hne.
  rewrite Hsts /=. destruct sent0 as [|m l] eqn:Es; [right|by left].
  apply not_true_is_false. intros Hall.
  destruct (map_choose apps Hne) as (k & a & Hk).
  pose proof (proj1 (allApplicationsRunning_spec _ _) Hall k a Hk) as Hrun.
  apply Hr in Hrun. rewrite /is_running /= in Hrun.
  assert (App.ID a ∈ ([] : list (string * option error)).*1) as Hin.
  { apply (skips_sent _ _ Hskips). by eexists. }
  by apply elem_of_nil in Hin.
Qed.

Lemma good_step st st' : good st → step apps stackName zone st st' → good st'.
Proof.
  intros [Hi Hg] Hstep. destruct Hstep as [d v st st' Hrec|a r st st' Ha Hfin].
  - destruct (inv_receive apps stackName zone running0 d v st st' Hi Hrec) as [Hi' Hsat].
    split; [done|]. intros Hm. destruct (Hsat Hm). split; [done|]. by right.
  - apply (finish_sent apps stackName zone running0) in Hfin as ->; [|done..].
    split; [by apply inv_sent|]. simpl. intros Hm. destruct (Hg Hm) as [Hs _].
    split; [done|]. intros _. left. by destruct (statuses st).
Qed.

Lemma good_reachable (s : S) st : rtc (step apps stackName zone) (begin apps running0 sent0 s) st → good st.
Proof.
  intros Hr. pose proof (good_begin s) as Hg. revert Hg. induction Hr as [st|st st1 st2 Hs _ IH]; [done|].
  intros Hg. apply IH. by eapply good_step.
Qed.

Lemma weight_begin (s : S) : weight apps (begin apps running0 sent0 s) ≤ 3 * size apps + length sent0.
Proof.
  etrans; [apply weight_runApplications|]. rewrite /weight /pending /=.
  pose proof (length_filter (λ p : string * Application, running0 !! App.ID p.2 = None)
    (map_to_list apps)) as Hf. rewrite length_map_to_list in Hf. lia.
Qed.

Lemma steps_weight n : ∀ st st',
  good st → nsteps (step apps stackName zone) n st st' → n + weight apps st' ≤ weight apps st.
Proof.
  induction n as [|n IH]; intros st st' Hg Hn; inversion Hn as [|? ? st1 ? Hstep Hrest]; subst; [lia|].
  pose proof (IH st1 st' (good_step st st1 Hg Hstep) Hrest) as Hw. destruct Hg as [Hi _].
  destruct Hstep as [d v st st1 Hrec|a r st st1 Ha Hfin].
  - pose proof (weight_receive apps stackName zone running0 d v st st1 Hi Hrec). lia.
  - apply (finish_sent apps stackName zone running0) in Hfin as ->; [|done..].
    pose proof (weight_sent apps st a r Ha). lia.
Qed.

(** Dependencies that can be satisfied one after the other. *)
Definition well_founded_dependencies : Prop :=
  ∃ rank : string → nat, ∀ k a d, apps !! k = Some a → d ∈ App.Dependencies a →
    ∃ k' b, apps !! k' = Some b ∧ App.ID b = d ∧ rank d < rank (App.ID a).

(** The application of least rank that does not run could be started. *)
Lemma all_running_or_startable st :
  well_founded_dependencies → Inv st → main st = None → saturated apps st →
  goroutines st = [] → statuses st = [] → allApplicationsRunning apps (runningApps st) = true.
Proof.
  intros [rank Hrank] Hi Hm Hsat Hg Hs. apply allApplicationsRunning_spec.
  assert (∀ n k a, rank (App.ID a) < n → apps !! k = Some a →
    is_running (runningApps st) (App.ID a)) as Hn; [|by intros k a; apply (Hn (1 + rank (App.ID a))); lia].
  induction n as [|n IH]; intros k a Hlt Hk; [lia|].
  destruct (runningApps st !! App.ID a) as [[]|] eqn:Ha.
  - apply (inv_staging _ _ _ _ _ Hi) in Ha; [|done]. rewrite Hg Hs in Ha.
    by destruct Ha as [?%elem_of_nil|?%elem_of_nil].
  - done.
  - by apply (inv_values _ _ _ _ _ Hi) in Ha.
  - exfalso. specialize (Hsat k a Hk Ha).
    assert (IsDependencySatisfied a (runningApps st) = true); [|congruence].
    apply IsDependencySatisfied_spec. intros d Hd.
    destruct (Hrank k a d Hk Hd) as (k' & b & Hb & <- & Hlt'). apply (IH k' b); [lia|done].
Qed.

Lemma receive_total v st m l :
  main st = None → statuses st = m :: l → ∃ st', receive apps stackName zone 0 v st = Some st'.
Proof.
  intros Hm Hs. rewrite /receive Hm Hs. destruct m as [id [e|]].
  - destruct (SaveApplicationStatus _ _ _ _ _). by eexists.
  - destruct (SaveApplicationStatus _ _ _ _ _) as [[[]|e|p] s1]; [|by eexists..].
    destruct (SaveStackVariables _ _ _ _) as [[[]|e|p] s2]; [|by eexists..].
    destruct (allApplicationsRunning apps _); by eexists.
Qed.

(** With nothing to receive, it waits for an application whose goroutine can
    send. *)
Lemma good_awaits st :
  well_founded_dependencies → apps ≠ ∅ → good st → main st = None → statuses st = [] →
  ∃ a, a ∈ goroutines st ∧ ∀ r, finish apps a r st = Some (sent st a r).
Proof.
  intros Hwf Hne [Hi Hg] Hm Hs. destruct (Hg Hm) as [Hsat Hwait]. specialize (Hwait Hne).
  destruct (goroutines st) as [|a gs] eqn:Hgo.
  - exfalso. pose proof (all_running_or_startable st Hwf Hi Hm Hsat Hgo Hs).
    destruct Hwait; congruence.
  - exists a. split; [constructor|]. intros r.
    assert (a ∈ goroutines st) as Ha by (rewrite Hgo; constructor).
    rewrite /finish (inv_open apps stackName zone running0 st a) //. rewrite Hs /=.
    destruct (Nat.ltb_spec 0 (capacity apps)) as [|Hc]; [by rewrite /sent Hs|].
    exfalso. apply Hne, map_size_empty_inv. rewrite /capacity in Hc. lia.
Qed.
Lemma good_progress st :
  well_founded_dependencies → apps ≠ ∅ → good st → main st = None →
  ∃ st', step apps stackName zone st st'.
Proof.
  intros Hwf Hne Hg Hm. destruct (statuses st) as [|m l] eqn:Hs.
  - destruct (good_awaits st Hwf Hne Hg Hm Hs) as (a & Ha & Hf).
    exists (sent st a None). by eapply step_finish.
  - destruct (receive_total NewVariables st m l Hm Hs) as [st' Hst'].
    exists st'. by eapply step_receive.
Qed.
End begin.

(** ** The theorems *)
Section theorems.
Context `{ord : MapOrder} `{rx : Regexp} `{rs : Runners} {S : Type} `{StateStorageLaws S}.
Context (stackName zone : string).
Implicit Types (st : run_state S) (stack : Stack).

(** [st0] is a state [Stack.Run] enters its loop in, [skipped] the statuses
    of the skipped applications. *)
Lemma start_looping stack info skip (s : S) st0 :
  start stack info skip s = Looping st0 →
  ∃ running sent, markSkippedApps (Stk.apps stack) skip ∅ [] = Ret (Some (running, sent)) ∧
    skips running sent ∧ st0 = begin (Stk.apps stack) running sent s.
Proof.
  rewrite /start. destruct (Stack_Validate stack) as [u|e|p]; [|done..].
  destruct info as [e|master]; [done|].
  destruct (markSkippedApps (Stk.apps stack) skip ∅ []) as [[[running sent]|]|e|p] eqn:E; [|done..].
  intros [= <-]. exists running, sent. split_and!; [done| |done].
  by apply (markSkippedApps_skips _ _ _ _ _ skips_empty E).
Qed.

Definition skipped stack skip (id : string) : Prop :=
  ∃ running sent, markSkippedApps (Stk.apps stack) skip ∅ [] = Ret (Some (running, sent)) ∧
    is_Some (running !! id).

(** C1. Safety of [Stack.Run] under every interleaving: no goroutine ever sends
    on the closed channel; no application is started twice; and whenever an
    application has been started, each of its dependencies runs - it was
    skipped, or its own run ended without an error and, as long as the run
    has not failed, is saved as running. *)
Theorem Run_safety stack info skip (s : S) st0 st :
  start stack info skip s = Looping st0 →
  rtc (step (Stk.apps stack) stackName zone) st0 st →
  crashed st = false ∧ NoDup (App.ID <$> started st) ∧
  ∀ a, a ∈ started st → (∃ k, Stk.apps stack !! k = Some a) ∧
    ∀ d, d ∈ App.Dependencies a → is_running (runningApps st) d ∧
      (main st = None → skipped stack skip d ∨
         app_status (storage st) stackName zone d =
           Some (ApplicationStatus_code ApplicationStatusRunning)).
Proof.
  intros (running & sent & Hmark & Hsk & ->)%start_looping Hr.
  destruct (good_reachable _ stackName zone running sent Hsk s st Hr) as [Hi _].
  split_and!; [apply Hi|apply Hi|]. intros a Ha.
  destruct (inv_started _ _ _ _ _ Hi a Ha) as (_ & Hd & Hk). split; [done|].
  intros d Hin. split; [by apply Hd|]. intros Hm.
  destruct (inv_saved _ _ _ _ _ Hi d (or_introl Hm) (Hd d Hin)) as [Hs|Hs]; [left|by right].
  by exists running, sent.
Qed.

(** What a run that succeeded leaves. *)
Lemma finished_run stack info skip (s : S) st0 st :
  start stack info skip s = Looping st0 →
  rtc (step (Stk.apps stack) stackName zone) st0 st → main st = Some (Ret tt) →
  goroutines st = [] ∧
  ∀ k a, Stk.apps stack !! k = Some a → skipped stack skip (App.ID a) ∨
    App.ID a ∈ App.ID <$> started st ∧
    app_status (storage st) stackName zone (App.ID a) =
      Some (ApplicationStatus_code ApplicationStatusRunning).
Proof.
  intros (running & sent & Hmark & Hsk & ->)%start_looping Hr Hm.
  destruct (good_reachable _ stackName zone running sent Hsk s st Hr) as [Hi _]. split.
  - destruct (goroutines st) as [|a l] eqn:Hg; [done|].
    assert (a ∈ goroutines st) as Ha by (rewrite Hg; constructor).
    pose proof (inv_open _ _ _ _ st a Hi Ha) as Hopen.
    rewrite (proj2 (inv_closed _ _ _ _ _ Hi) Hm) in Hopen. done.
  - intros k a Hk.
    pose proof (proj1 (allApplicationsRunning_spec _ _) (inv_done _ _ _ _ _ Hi Hm) k a Hk) as Hrun.
    destruct (inv_known _ _ _ _ _ Hi (App.ID a) ltac:(by eexists)) as [Hs|Hs];
      [left; by exists running, sent|].
    destruct (inv_saved _ _ _ _ _ Hi (App.ID a) (or_intror Hm) Hrun) as [Hs'|Hs'];
      [left; by exists running, sent|by right].
Qed.

(** C3. A nil error from [Stack.Run] means what it says: every application of
    the stack was skipped or started and ended without an error, its status
    is saved as running, and no goroutine is left behind. *)
Theorem Run_success stack info skip (s : S) st0 st :
  start stack info skip s = Looping st0 →
  rtc (step (Stk.apps stack) stackName zone) st0 st → main st = Some (Ret tt) →
  goroutines st = [] ∧
  ∀ k a, Stk.apps stack !! k = Some a → skipped stack skip (App.ID a) ∨
    App.ID a ∈ App.ID <$> started st ∧
    app_status (storage st) stackName zone (App.ID a) =
      Some (ApplicationStatus_code ApplicationStatusRunning).
Proof. apply finished_run. Qed.


(** C9. What [Validate] does not look for: applications that wait for each
    other, or for an ID no application of the stack has, are never started
    and [Run] never returns a nil error. *)
Theorem Run_never_succeeds stack info skip (s : S) st0 st (C : string → Prop) k a :
  start stack info skip s = Looping st0 →
  rtc (step (Stk.apps stack) stackName zone) st0 st →
  (∀ id, C id → ¬ skipped stack skip id) →
  (∀ k a, Stk.apps stack !! k = Some a → C (App.ID a) → ∃ d, d ∈ App.Dependencies a ∧ C d) →
  Stk.apps stack !! k = Some a → C (App.ID a) →
  main st ≠ Some (Ret tt) ∧ ∀ b, b ∈ started st → ¬ C (App.ID b).
Proof.
  intros (running & sent & Hmark & Hsk & ->)%start_looping Hr Hns HC Hk Ha.
  pose proof (good_reachable _ stackName zone running sent Hsk s st Hr) as [Hi _].
  assert (∀ i b, started st !! i = Some b → ¬ C (App.ID b)) as Hnone.
  { intros i. induction (lt_wf i) as [i _ IH]. intros b Hb HCb.
    destruct (inv_started _ _ _ _ _ Hi b) as (_ & _ & k' & Hk'); [by eapply list_elem_of_lookup_2|].
    destruct (HC k' b Hk' HCb) as (d & Hd & HCd).
    destruct (inv_order _ _ _ _ _ Hi i b d Hb Hd) as [Hs|Hin].
    - apply (Hns d HCd). by exists running, sent.
    - apply list_elem_of_fmap in Hin as (c & -> & Hc). apply list_elem_of_lookup_1 in Hc as [j Hj].
      apply lookup_take_Some in Hj as [Hj Hlt]. by eapply (IH j). }
  split; [|intros b [i Hb]%list_elem_of_lookup_1; by eapply Hnone].
  intros Hm.
  pose proof (proj1 (allApplicationsRunning_spec _ _) (inv_done _ _ _ _ _ Hi Hm) k a Hk) as Hrun.
  destruct (inv_known _ _ _ _ _ Hi (App.ID a) ltac:(by eexists)) as [Hs|Hs].
  - apply (Hns _ Ha). by exists running, sent.
  - apply list_elem_of_fmap in Hs as (b & Hid & [i Hb]%list_elem_of_lookup_1).
    apply (Hnone i b Hb). by rewrite -Hid.
Qed.

(** ** Outcomes *)
Lemma start_not_ok stack info skip (s : S) : start stack info skip s ≠ Returned (Ret tt).
Proof.
  rewrite /start. destruct (Stack_Validate stack) as [u|e|p]; [|done..].
  destruct info as [e|master]; [done|].
  by destruct (markSkippedApps (Stk.apps stack) skip ∅ []) as [[[running sent]|]|e|p].
Qed.

Lemma run_ends_saved stack skip (s s' : S) :
  run_ends stack skip stackName zone s (Ret tt) s' →
  ∀ k a, Stk.apps stack !! k = Some a → skipped stack skip (App.ID a) ∨
    app_status s' stackName zone (App.ID a) =
      Some (ApplicationStatus_code ApplicationStatusRunning).
Proof.
  intros (info & [[Hs _]|(st0 & st & Hs & Hr & Hm & <-)]) k a Hk; [by apply start_not_ok in Hs|].
  destruct (finished_run _ _ _ _ _ _ Hs Hr Hm) as [_ Hall].
  destruct (Hall k a Hk) as [?|[_ ?]]; [by left|by right].
Qed.

(** A run does not touch the status of any stack. *)
Lemma runApplications_storage apps d st : storage (runApplications apps d st) = storage st.
Proof.
  rewrite /runApplications. revert st. induction (range d apps).*2 as [|a l IH]; intros st; [done|].
  simpl. rewrite IH /launch. destruct (runningApps st !! App.ID a); [done|].
  by destruct (IsDependencySatisfied a (runningApps st)).
Qed.

Lemma runApplications_keeps apps d st :
  closed (runApplications apps d st) = closed st ∧ main (runApplications apps d st) = main st.
Proof.
  rewrite /runApplications. revert st. induction (range d apps).*2 as [|a l IH]; intros st; [done|].
  simpl. destruct (IH (launch st a)) as [-> ->]. rewrite /launch.
  destruct (runningApps st !! App.ID a); [done|]. by destruct (IsDependencySatisfied a (runningApps st)).
Qed.

Lemma step_stack_status apps st st' n z :
  step apps stackName zone st st' → stack_status (storage st') n z = stack_status (storage st) n z.
Proof.
  intros Hstep. destruct Hstep as [d v st st' Hrec|a r st st' _ Hfin].
  - revert Hrec. rewrite /receive. destruct (main st); [done|].
    destruct (statuses st) as [|[id [e|]] rest]; [destruct (closed st); [by intros [= <-]|done]| |].
    + pose proof (save_app_law stackName zone id ApplicationStatusFailed (storage st)) as Hsave.
      destruct (SaveApplicationStatus stackName zone id ApplicationStatusFailed (storage st)).
      intros [= <-]. by destruct Hsave as (_ & Hs & _).
    + pose proof (save_app_law stackName zone id ApplicationStatusRunning (storage st)) as Hsave.
      destruct (SaveApplicationStatus stackName zone id ApplicationStatusRunning (storage st))
        as [[[]|e|p] s1]; destruct Hsave as (_ & Hs & _); [|by intros [= <-]..].
      pose proof (save_vars_law stackName zone v s1) as Hvars.
      destruct (SaveStackVariables stackName zone v s1) as [[[]|e|p] s2];
        destruct Hvars as (_ & Hv & _); rewrite -Hs -Hv; [|by intros [= <-]..].
      destruct (allApplicationsRunning apps _); intros [= <-]; [done|].
      by rewrite runApplications_storage.
  - revert Hfin. rewrite /finish. destruct (closed st); [by intros [= <-]|].
    case_match; [by intros [= <-]|done].
Qed.

Lemma run_ends_stack_status stack skip (s s' : S) r n z :
  run_ends stack skip stackName zone s r s' → stack_status s' n z = stack_status s n z.
Proof.
  intros (info & [[_ ->]|(st0 & st & Hs & Hr & _ & <-)]); [done|].
  apply start_looping in Hs as (running & sent & _ & _ & ->).
  assert (storage (begin (Stk.apps stack) running sent s) = s) as <-
    by apply runApplications_storage.
  induction Hr as [|st1 st2 st3 Hstep _ IH]; [done|]. rewrite IH. by eapply step_stack_status.
Qed.

(** The number of sends of [markSkippedApps]. *)
Fixpoint matches (apps : gmap string Application) (patterns : list (string → bool)) : nat :=
  match patterns with
  | [] => 0
  | p :: ps => length (filter (λ a, p (App.ID a) = true) (range 0 apps).*2) + matches apps ps
  end.

Lemma skip_apps_sends apps p l : ∀ running sent,
  match skip_apps apps p l running sent with
  | Some (_, sent') => length sent' = length sent + length (filter (λ a, p (App.ID a) = true) l)
  | None => capacity apps < length sent + length (filter (λ a, p (App.ID a) = true) l)
  end.
Proof.
  induction l as [|a l IH]; intros running sent; simpl; [lia|]. rewrite filter_cons.
  destruct (p (App.ID a)) eqn:Hp; simpl.
  - destruct (Nat.ltb_spec (length sent) (capacity apps)) as [Hlt|Hge].
    + specialize (IH (<[App.ID a := ApplicationStatusRunning]> running) (sent ++ [(App.ID a, None)])).
      rewrite length_app /= in IH. destruct (skip_apps _ _ _ _ _) as [[r s]|]; lia.
    + lia.
  - apply IH.
Qed.

Lemma skip_apps_bounded apps p l : ∀ running sent r sent',
  length sent ≤ capacity apps → skip_apps apps p l running sent = Some (r, sent') →
  length sent' ≤ capacity apps.
Proof.
  induction l as [|a l IH]; intros running sent r sent' Hle; simpl; [by intros [= _ <-]|].
  destruct (p (App.ID a)); [|by apply IH].
  destruct (Nat.ltb_spec (length sent) (capacity apps)) as [Hlt|Hge]; [|done].
  apply IH. rewrite length_app /=. lia.
Qed.

Lemma markSkippedApps_blocks_from apps skip patterns :
  Forall2 (λ regex p, Compile regex = Ret p) skip patterns →
  ∀ running sent, length sent ≤ capacity apps →
    markSkippedApps apps skip running sent = Ret None ↔
      capacity apps < length sent + matches apps patterns.
Proof.
  intros Hp. induction Hp as [|regex p skip patterns Hc _ IH]; intros running sent Hle; simpl.
  { split; [done|lia]. }
  rewrite Hc /=. pose proof (skip_apps_sends apps p (range 0 apps).*2 running sent) as Hn.
  pose proof (skip_apps_bounded apps p (range 0 apps).*2 running sent) as Hb.
  destruct (skip_apps _ _ _ _ _) as [[running' sent']|].
  - rewrite IH; [|by eapply Hb]. lia.
  - split; [lia|done].
Qed.

Lemma markSkippedApps_blocks apps skip patterns :
  Forall2 (λ regex p, Compile regex = Ret p) skip patterns →
  markSkippedApps apps skip ∅ [] = Ret None ↔ size apps < matches apps patterns.
Proof. intros Hp. by apply (markSkippedApps_blocks_from apps skip patterns Hp ∅ []), Nat.le_0_l. Qed.

(** When [Stack.Run] waits forever before or in its loop: the skip patterns
    block it exactly if, counted together, they match more often than the
    stack has applications, for the statuses of the skipped applications do
    not fit into the channel; and a stack without applications is never
    done. *)
Theorem Run_waits_forever apps skip patterns (s : S) :
  (Forall2 (λ regex p, Compile regex = Ret p) skip patterns →
   (markSkippedApps apps skip ∅ [] = Ret None ↔ size apps < matches apps patterns)) ∧
  (apps = ∅ → main (begin apps ∅ [] s) = None ∧
     ∀ st, ¬ step apps stackName zone (begin apps ∅ [] s) st).
Proof.
  split; [apply markSkippedApps_blocks|]. intros ->.
  assert (begin ∅ ∅ [] s = MkRun ∅ [] false [] [] s None false) as ->.
  { by rewrite /begin /runApplications (proj2 (range_nil 0 ∅) eq_refl). }
  split; [done|]. intros st Hstep. inversion Hstep as [d v st1 st2 Hrec|a r st1 st2 Ha Hfin]; subst.
  - done.
  - by apply elem_of_nil in Ha.
Qed.
End theorems.

(** ** Two applications in memory *)
Section examples.
#[local] Existing Instance InMemoryStateStorage.ops.
#[local] Existing Instance InMemoryStateStorage.laws.
Implicit Types (st : run_state InMemoryStateStorage.states).
Abbreviation memory_ops := InMemoryStateStorage.ops.
Abbreviation memory_laws := InMemoryStateStorage.laws.

Definition ex_zk : Application :=
  App.MkApplication "zookeeper" "zk" "" (float_of 1 0) (float_of 512 0) [] "1" [] "" ""
    "./zk" [] ∅ [] [] ∅ [] [] None "" "" [] [] [] [] [].
Definition ex_kafka : Application :=
  App.MkApplication "kafka" "broker" "" (float_of 1 0) (float_of 512 0) [] "1" [] "" ""
    "./kafka" [] ∅ [] [] ∅ [] ["zk"] None "" "" [] [] [] [] [].
Definition ex_stack : Stack :=
  Stk.MkStack "stack" "dev" "" (Some {["a" := ex_kafka; "b" := ex_zk]}) 0.
(** [ex_kafka] again, waiting for an application no stack has. *)
Definition ex_waiting : Application :=
  App.MkApplication "kafka" "broker" "" (float_of 1 0) (float_of 512 0) [] "1" [] "" ""
    "./kafka" [] ∅ [] [] ∅ [] ["nobody"] None "" "" [] [] [] [] [].
Definition ex_bad_stack : Stack := Stk.MkStack "stack" "dev" "" (Some {["a" := ex_waiting]}) 0.
Definition ex_storage : InMemoryStateStorage.states :=
  (InMemoryStateStorage.SaveStackStatus "dev" "z" StackStatusStaging ∅).2.

Definition ex_start (skip : list string) : launched :=
  start (ord := canonical_order) (rx := ex_regexp) (rs := ex_runners) ex_stack (inr "master")
    skip ex_storage.
Definition ex_initial (l : launched (S := InMemoryStateStorage.states)) :=
  match l with
  | Looping st => st
  | _ => MkRun ∅ [] false [] [] ∅ None false
  end.

(** The run without incidents: an application finishes, the loop receives. *)
Definition ex_receive st := receive (ord := canonical_order) (Stk.apps ex_stack) "dev" "z" 0
  NewVariables st.
Definition ex_st0 := ex_initial (ex_start []).
Definition ex_st1 := default ex_st0 (finish (Stk.apps ex_stack) ex_zk None ex_st0).
Definition ex_st2 := default ex_st0 (ex_receive ex_st1).
Definition ex_st3 := default ex_st0 (finish (Stk.apps ex_stack) ex_kafka None ex_st2).
Definition ex_st4 := default ex_st0 (ex_receive ex_st3).

Lemma ex_steps :
  nsteps (step (ord := canonical_order) (Stk.apps ex_stack) "dev" "z") 4 ex_st0 ex_st4.
Proof.
  apply (nsteps_l _ _ _ ex_st1);
    [apply (step_finish _ _ _ ex_zk None);
       [apply list_elem_of_lookup_2 with 0; by vm_compute|by vm_compute]|].
  apply (nsteps_l _ _ _ ex_st2); [apply (step_receive _ _ _ 0 NewVariables); by vm_compute|].
  apply (nsteps_l _ _ _ ex_st3);
    [apply (step_finish _ _ _ ex_kafka None);
       [apply list_elem_of_lookup_2 with 0; by vm_compute|by vm_compute]|].
  apply (nsteps_l _ _ _ ex_st4); [apply (step_receive _ _ _ 0 NewVariables); by vm_compute|].
  constructor.
Qed.

Lemma ex_rank : well_founded_dependencies (Stk.apps ex_stack).
Proof.
  exists (λ id, if String.eqb id "zk" then 0 else 1). intros k a d.
  rewrite /ex_stack /= !lookup_insert. repeat case_decide; rewrite ?lookup_empty; intros [= <-]; simpl.
  - intros ->%list_elem_of_singleton. exists "b", ex_zk. split_and!; [done|done|simpl; lia].
  - by intros ?%elem_of_nil.
Qed.

Lemma Run_safety_witness :
  crashed ex_st4 = false ∧ App.ID <$> started ex_st4 = ["zk"; "broker"].
Proof.
  split; [|by vm_compute].
  pose proof (@Run_safety canonical_order ex_regexp ex_runners _ memory_ops memory_laws
    "dev" "z" ex_stack (inr "master") [] ex_storage ex_st0 ex_st4) as Hsafe.
  destruct Hsafe as [Hc _]; [by vm_compute|exact (rtc_nsteps_2 _ _ _ ex_steps)|exact Hc].
Defined.

Lemma Run_success_witness :
  main ex_st4 = Some (Ret tt) ∧ goroutines ex_st4 = [].
Proof.
  assert (main ex_st4 = Some (Ret tt)) as Hm by by vm_compute.
  split; [exact Hm|].
  pose proof (@Run_success canonical_order ex_regexp ex_runners _ memory_ops memory_laws
    "dev" "z" ex_stack (inr "master") [] ex_storage ex_st0 ex_st4) as Hs.
  destruct Hs as [Hg _]; [by vm_compute|exact (rtc_nsteps_2 _ _ _ ex_steps)|exact Hm|exact Hg].
Defined.


Definition ex_bad_st0 := ex_initial
  (start (ord := canonical_order) (rx := ex_regexp) (rs := ex_runners) ex_bad_stack
     (inr "master") [] ex_storage).
Lemma Run_never_succeeds_witness :
  main ex_bad_st0 ≠ Some (Ret tt) ∧ started ex_bad_st0 = [].
Proof.
  split; [|by vm_compute].
  apply (@Run_never_succeeds canonical_order ex_regexp ex_runners _ memory_ops memory_laws
    "dev" "z" ex_bad_stack (inr "master") [] ex_storage ex_bad_st0 ex_bad_st0 (λ _, True)
    "a" ex_waiting); [by vm_compute|apply rtc_refl| | |by vm_compute|done].
  - intros id _ (running & sent & [= <- <-] & [x Hx]). done.
  - intros k a Hk _. rewrite /ex_bad_stack /Stk.apps /= in Hk. apply lookup_singleton_Some in Hk as [_ <-].
    exists "nobody". split; [constructor|done].
Defined.

Lemma Run_waits_forever_witness :
  markSkippedApps (ord := canonical_order) (rx := ex_regexp) (Stk.apps ex_stack)
    ["zk"; "zk"; "zk"] ∅ [] = Ret None.
Proof.
  apply (@Run_waits_forever canonical_order ex_regexp _ memory_ops "dev" "z"
    (Stk.apps ex_stack) ["zk"; "zk"; "zk"] (String.eqb <$> ["zk"; "zk"; "zk"]) ∅);
    [by repeat constructor|by vm_compute; lia].
Defined.
End examples.
