(* ===== verification/StackExecution.v ===== *)
(** A stack run as a whole: the main loop of [Stack.Run] ([StackRun]) and the
    goroutines it starts, each of them in the middle of its own
    [Application.Run] ([ApplicationRun]), on the variables they all share. One
    step is one action of one of them, so every interleaving is covered. *)
From S2P Require Import Prelude GoStrings Errors Variables Data Constraints Application.
From S2P Require Import StateStorage Goroutine ApplicationRun StackRun StackRunFacts.
From S2P Require Import Strconv Http TaskRunners TaskRunnersFacts Deployment.
From Stdlib Require Import Lia.
Open Scope string_scope.
Open Scope list_scope.
Open Scope nat_scope.

(** [threads]: the log of a goroutine, by the ID of its application, and what it
    has still to do. [died]: a goroutine panicked, and with it the process. *)
Record execution (S : Type) : Type := MkExecution {
  control : run_state S;
  shared : Variables;
  threads : gmap string (list event * code Application);
  died : bool
}.
Arguments MkExecution {S}.
Arguments control {S}.
Arguments shared {S}.
Arguments threads {S}.
Arguments died {S}.

Section execution.
Context `{ord : MapOrder} `{rx : Regexp} `{rs : Runners} {S : Type} `{StateStorage S}.
(** The world as each goroutine finds it. *)
Context (outs : string → Outside).
Context (apps : gmap string Application) (stackName zone : string) (maxWait : Z).
Implicit Types (e : execution S) (st : run_state S).

(** [go s.runApplication(app, ...)]: a goroutine that did nothing yet is at the
    start of [app.Run]. *)
Definition thread_of e (app : Application) : list event * code Application :=
  default ([], Run (out := outs (App.ID app)) app maxWait) (threads e !! App.ID app).

Inductive execution_step : execution S → execution S → Prop :=
| execution_receive e d st :
    died e = false → receive apps stackName zone d (shared e) (control e) = Some st →
    execution_step e (MkExecution st (shared e) (threads e) false)
| execution_advance e app t p t' p' v :
    died e = false → app ∈ goroutines (control e) → thread_of e app = (t, p) →
    advance p t (shared e) = Some (t', p', v) →
    execution_step e (MkExecution (control e) v (<[App.ID app := (t', p')]> (threads e)) false)
| execution_success e app t a st :
    died e = false → app ∈ goroutines (control e) → thread_of e app = (t, Halt (Ret a)) →
    finish apps app None (control e) = Some st →
    execution_step e (MkExecution st (shared e) (threads e) false)
| execution_failure e app t err st :
    died e = false → app ∈ goroutines (control e) → thread_of e app = (t, Halt (Err err)) →
    finish apps app (Some err) (control e) = Some st →
    execution_step e (MkExecution st (shared e) (threads e) false)
| execution_panic e app t m :
    died e = false → app ∈ goroutines (control e) → thread_of e app = (t, Halt (Panic m)) →
    execution_step e (MkExecution (control e) (shared e) (threads e) true).
End execution.

(** A schedule: who moves next. *)
Inductive move : Type :=
| Receive (d : nat)
| Go (id : string).

Section schedule.
Context `{ord : MapOrder} `{rx : Regexp} `{rs : Runners} {S : Type} `{StateStorage S}.
Context (outs : string → Outside).
Context (apps : gmap string Application) (stackName zone : string) (maxWait : Z).
Implicit Types (e : execution S).

Definition goroutine_of e (id : string) : option Application :=
  head (filter (λ a, App.ID a = id) (goroutines (control e))).
(** The step of the one whose turn it is, if it has one. *)
Definition play e (m : move) : option (execution S) :=
  if died e then None else
  match m with
  | Receive d =>
      st ← receive apps stackName zone d (shared e) (control e);
      Some (MkExecution st (shared e) (threads e) false)
  | Go id =>
      app ← goroutine_of e id;
      let '(t, p) := thread_of outs maxWait e app in
      match p with
      | Halt (Panic _) => Some (MkExecution (control e) (shared e) (threads e) true)
      | Halt (Ret _) =>
          st ← finish apps app None (control e); Some (MkExecution st (shared e) (threads e) false)
      | Halt (Err err) =>
          st ← finish apps app (Some err) (control e);
          Some (MkExecution st (shared e) (threads e) false)
      | _ =>
          '(t', p', v) ← advance p t (shared e);
          Some (MkExecution (control e) v (<[App.ID app := (t', p')]> (threads e)) false)
      end
  end.
(** Who cannot move, misses its turn. *)
Definition plays (ms : list move) e : execution S := foldl (λ e m, default e (play e m)) e ms.

Lemma play_sound e m e' :
  play e m = Some e' → execution_step outs apps stackName zone maxWait e e'.
Proof.
  rewrite /play. destruct (died e) eqn:Hd; [done|]. destruct m as [d|id].
  - intros (st & Hr & [= <-])%bind_Some. by eapply execution_receive.
  - intros (app & Hg & Hp)%bind_Some.
    assert (app ∈ goroutines (control e)) as Happ.
    { apply head_Some_elem_of, list_elem_of_filter in Hg. apply Hg. }
    destruct (thread_of outs maxWait e app) as [t p] eqn:Ht.
    destruct p as [[x|err|m]|ev k|X f k].
    + apply bind_Some in Hp as (st & Hf & [= <-]). by eapply execution_success.
    + apply bind_Some in Hp as (st & Hf & [= <-]). by eapply execution_failure.
    + injection Hp as <-. by eapply execution_panic.
    + apply bind_Some in Hp as ([[t' p'] v] & Ha & [= <-]). by eapply execution_advance.
    + apply bind_Some in Hp as ([[t' p'] v] & Ha & [= <-]). by eapply execution_advance.
Qed.
Lemma plays_sound ms e : rtc (execution_step outs apps stackName zone maxWait) e (plays ms e).
Proof.
  rewrite /plays. revert e. induction ms as [|m ms IH]; intros e; simpl; [done|].
  destruct (play e m) as [e'|] eqn:Hp; simpl; [|apply IH].
  eapply rtc_l; [by eapply play_sound|apply IH].
Qed.
End schedule.

(** [Stack.Run] when it enters its loop. *)
Definition enter `{MapOrder} {S} (st0 : run_state S) (master zone stackName : string)
    (v : Variables) : execution S :=
  MkExecution st0 (run_variables master zone stackName v) ∅ false.

Section facts.
Context `{ord : MapOrder} `{rx : Regexp} `{rs : Runners} {S : Type} `{StateStorageLaws S}.
Context (outs : string → Outside).
Context (apps : gmap string Application) (stackName zone : string) (maxWait : Z).
Implicit Types (e : execution S) (st : run_state S).
Abbreviation steps := (execution_step outs apps stackName zone maxWait).
Abbreviation thread e a := (thread_of outs maxWait e a).

(** ** The main loop sees a run of [StackRun] *)
Lemma execution_step_refines e e' :
  steps e e' → control e' = control e ∨ step apps stackName zone (control e) (control e').
Proof.
  intros Hs. destruct Hs; simpl; [right; by eapply step_receive|by left| | |by left];
    right; by eapply step_finish.
Qed.
Lemma execution_refines e e' :
  rtc steps e e' → rtc (step apps stackName zone) (control e) (control e').
Proof.
  induction 1 as [e|e1 e2 e3 Hs _ IH]; [done|].
  destruct (execution_step_refines e1 e2 Hs) as [<-|]; [done|by eapply rtc_l].
Qed.

(** ** Termination *)
Lemma thread_insert e a t p (c : run_state S) v d b :
  thread (MkExecution c v (<[App.ID a := (t, p)]> (threads e)) d) b =
    if decide (App.ID b = App.ID a) then (t, p) else thread e b.
Proof.
  rewrite /thread_of /=. destruct (decide (App.ID b = App.ID a)) as [->|Hne].
  - by rewrite lookup_insert_eq.
  - by rewrite lookup_insert_ne.
Qed.

(** Applications with distinct IDs. *)
Lemma same_app (l : list Application) a b :
  NoDup (App.ID <$> l) → a ∈ l → b ∈ l → App.ID a = App.ID b → a = b.
Proof.
  intros Hnd [i Ha]%list_elem_of_lookup_1 [j Hb]%list_elem_of_lookup_1 Hid.
  assert (i = j) as ->; [|congruence].
  apply (NoDup_lookup (App.ID <$> l) i j (App.ID a)); [done|..];
    rewrite list_lookup_fmap ?Ha ?Hb /= ?Hid //.
Qed.

(** What the goroutines have still to do. *)
Definition pool e : list (code Application) := (λ a, (thread e a).2) <$> goroutines (control e).
Lemma pool_advance e app t p t' p' v :
  NoDup (App.ID <$> goroutines (control e)) → app ∈ goroutines (control e) →
  thread e app = (t, p) → advance p t (shared e) = Some (t', p', v) →
  pool_step (pool (MkExecution (control e) v (<[App.ID app := (t', p')]> (threads e)) false)) (pool e).
Proof.
  intros Hnd [i Hi]%list_elem_of_lookup_1 Ht Ha. exists i, p, p'. split_and!.
  - by rewrite /pool list_lookup_fmap Hi /= Ht.
  - by eapply advance_rest.
  - apply list_eq. intros j. rewrite /pool /=. destruct (decide (i = j)) as [<-|Hne].
    + rewrite list_lookup_insert_eq; [|rewrite length_fmap; by eapply lookup_lt_Some].
      by rewrite list_lookup_fmap Hi /= thread_insert decide_True.
    + rewrite list_lookup_insert_ne // !list_lookup_fmap.
      destruct (goroutines (control e) !! j) as [b|] eqn:Hj; [|done]. simpl.
      rewrite thread_insert decide_False //. intros Hid. apply Hne.
      apply (NoDup_lookup (App.ID <$> goroutines (control e)) i j (App.ID app)); [done|..];
        rewrite list_lookup_fmap ?Hi ?Hj /= ?Hid //.
Qed.

Section good.
Context (running0 : gmap string ApplicationStatus) (sent0 : list (string * option error)).
Abbreviation ok e := (good apps stackName zone running0 (control e)).

Lemma ok_step e e' : ok e → steps e e' → ok e'.
Proof. intros Hg [->|Hs]%execution_step_refines; [done|by eapply good_step]. Qed.
Lemma ok_steps e e' : ok e → rtc steps e e' → ok e'.
Proof. intros Hg. induction 1 as [|e1 e2 e3 Hs _ IH]; [done|]. by eapply IH, ok_step. Qed.

Lemma no_infinite_execution n : ∀ e, ok e → weight apps (control e) < n → Acc (flip steps) e.
Proof.
  induction n as [|n IHn]; intros e Hg Hw; [lia|].
  remember (pool e) as ps eqn:Hps. revert e Hg Hw Hps.
  induction (pool_wf ps) as [ps _ IHps]. intros e Hg Hw ->.
  constructor. intros e' Hs. unfold flip in Hs. pose proof (ok_step e e' Hg Hs) as Hg'.
  pose proof Hg as [Hi _].
  destruct Hs as [e d st Hd Hr|e a t p t' p' v Hd Ha Ht Hadv|e a t x st Hd Ha Ht Hf
    |e a t err st Hd Ha Ht Hf|e a t m Hd Ha Ht]; simpl in *.
  - apply IHn; [done|]. simpl. pose proof (weight_receive _ _ _ _ _ _ _ _ Hi Hr). lia.
  - eapply IHps; [|exact Hg'|exact Hw|reflexivity]. eapply pool_advance; [apply Hi|done..].
  - apply IHn; [done|]. simpl. apply (finish_sent _ stackName zone running0) in Hf as ->; [|done..].
    pose proof (weight_sent apps (control e) a None Ha). lia.
  - apply IHn; [done|]. simpl. apply (finish_sent _ stackName zone running0) in Hf as ->; [|done..].
    pose proof (weight_sent apps (control e) a (Some err) Ha). lia.
  - constructor. intros e' Hs. by inversion Hs.
Qed.

Lemma execution_progress e :
  well_founded_dependencies apps → apps ≠ ∅ → ok e →
  main (control e) = None → died e = false → ∃ e', steps e e'.
Proof.
  intros Hwf Hne Hg Hm Hd. destruct (statuses (control e)) as [|m l] eqn:Hs.
  - destruct (good_awaits _ _ _ _ _ Hwf Hne Hg Hm Hs) as (a & Ha & Hf).
    destruct (thread e a) as [t p] eqn:Ht. destruct p as [[x|err|m]|ev k|X f k].
    + eexists. by eapply execution_success.
    + eexists. by eapply execution_failure.
    + eexists. by eapply execution_panic.
    + eexists. by eapply execution_advance.
    + destruct (f t (shared e)) as [x v] eqn:Ef. eexists.
      eapply execution_advance; [done..|]. by rewrite /= Ef.
  - destruct (receive_total apps stackName zone (shared e) (control e) m l Hm Hs) as [st Hst].
    eexists. by eapply execution_receive.
Qed.

(** ** The goroutines of the applications that came up *)
Lemma runApplications_view d (st : run_state S) :
  (∀ id, is_running (runningApps (runApplications apps d st)) id ↔ is_running (runningApps st) id) ∧
  statuses (runApplications apps d st) = statuses st ∧
  ∀ a, a ∈ started st → a ∈ started (runApplications apps d st).
Proof.
  rewrite /runApplications. revert st. induction (range d apps).*2 as [|a l IH]; intros st; [done|].
  simpl. destruct (IH (launch st a)) as (Hr & -> & Hs). split_and!.
  - intros id. by rewrite Hr launch_running.
  - by destruct (launch_same st a) as (_ & -> & _).
  - intros b Hb. apply Hs. rewrite /launch. destruct (runningApps st !! App.ID a); [done|].
    destruct (IsDependencySatisfied a _); [|done]. simpl. apply elem_of_app. by left.
Qed.

(** What one iteration of the main loop does with the statuses. *)
Lemma receive_view d v st st' :
  closed st = true ↔ main st = Some (Ret tt) → receive apps stackName zone d v st = Some st' →
  (∀ id, is_running (runningApps st') id → is_running (runningApps st) id ∨ (id, None) ∈ statuses st) ∧
  (∀ m, m ∈ statuses st' → m ∈ statuses st) ∧ (∀ a, a ∈ started st → a ∈ started st') ∧
  (main st' = Some (Ret tt) → ∃ s, SaveStackVariables stackName zone v s = (Ret tt, storage st')).
Proof.
  intros Hc. rewrite /receive. destruct (main st) as [r|] eqn:Hm; [done|].
  destruct (statuses st) as [|[id [e|]] rest] eqn:Hs.
  - destruct (closed st); [|done]. by pose proof (proj1 Hc eq_refl).
  - destruct (SaveApplicationStatus _ _ _ _ _) as [r s]. intros [= <-]. simpl.
    split_and!; [auto|intros m Hin; by right|done|done].
  - assert (∀ id', is_running (<[id:=ApplicationStatusRunning]> (runningApps st)) id' →
      is_running (runningApps st) id' ∨ (id', None) ∈ (id, None) :: rest) as Hr.
    { intros id'. rewrite /is_running lookup_insert. case_decide as Hid; [subst; right; by left|auto]. }
    destruct (SaveApplicationStatus _ _ _ _ _) as [[[]|e|p] s1];
      [|intros [= <-]; simpl; split_and!; [done|intros m Hin; by right|done..]..].
    destruct (SaveStackVariables _ _ _ _) as [[[]|e|p] s2] eqn:Hv;
      [|intros [= <-]; simpl; split_and!; [done|intros m Hin; by right|done..]..].
    destruct (allApplicationsRunning apps _); intros [= <-].
    + simpl. split_and!; [done|intros m Hin; by right|done|by exists s1].
    + set (st1 := MkRun _ _ _ _ _ _ _ _). destruct (runApplications_view d st1) as (Hrun & -> & Hst).
      split_and!; [|intros m Hin; by right|done|].
      * intros id' Hid'. by apply Hr, (proj1 (Hrun id')).
      * rewrite (proj2 (runApplications_keeps apps d st1)) /= => Hd. done.
Qed.

(** An application that was reported to run has a goroutine at its end. *)
Definition reported (st : run_state S) (id : string) : Prop :=
  is_running (runningApps st) id ∨ (id, None) ∈ statuses st.
Definition came_up e (id : string) : Prop :=
  ∃ a t x, a ∈ started (control e) ∧ App.ID a = id ∧ thread e a = (t, Halt (Ret x)).
Definition truthful e : Prop :=
  (∀ id, reported (control e) id → is_Some (running0 !! id) ∨ came_up e id) ∧
  (main (control e) = Some (Ret tt) →
   ∃ s, SaveStackVariables stackName zone (shared e) s = (Ret tt, storage (control e))).

Lemma truthful_finish e a r x t :
  ok e → truthful e → a ∈ goroutines (control e) →
  (r = None → thread e a = (t, Halt (Ret x))) →
  truthful (MkExecution (sent (control e) a r) (shared e) (threads e) false).
Proof.
  intros [Hi _] [Ht Hv] Ha Hr. split; [|exact Hv]. intros id [Hrun|Hin].
  - by apply Ht; left.
  - apply elem_of_app in Hin as [Hin|[= -> Hn]%list_elem_of_singleton]; [by apply Ht; right|].
    right. exists a, t, x. split_and!; [by apply (inv_goroutine _ _ _ _ _ Hi)|done|by apply Hr].
Qed.
Lemma truthful_step e e' : ok e → truthful e → steps e e' → truthful e'.
Proof.
  intros Hg Hv Hs. pose proof Hg as [Hi _].
  destruct Hs as [e d st Hd Hr|e a t p t' p' v Hd Ha Ht Hadv|e a t x st Hd Ha Ht Hf
    |e a t err st Hd Ha Ht Hf|e a t m Hd Ha Ht].
  - destruct (receive_view d _ _ _ (inv_closed _ _ _ _ _ Hi) Hr) as (Hrun & Hsts & Hst & Hsave).
    split; [|exact Hsave]. intros id Hid. destruct (proj1 Hv id) as [?|(b & t & x & Hb & ? & ?)].
    + destruct Hid as [?%Hrun|?%Hsts]; [done|by right].
    + by left.
    + right. exists b, t, x. split; [by apply Hst|done].
  - destruct (inv_goroutine _ _ _ _ _ Hi a Ha) as (Hsa & Hst & Hns). split.
    + intros id Hid. destruct (proj1 Hv id Hid) as [?|(b & tb & x & Hb & <- & Htb)]; [by left|right].
      exists b, tb, x. split_and!; [done|done|]. rewrite thread_insert decide_False //.
      intros Heq. rewrite Heq in Hid. destruct Hid as [Hid|Hid].
      * rewrite /is_running Hst in Hid. done.
      * by apply Hns, (list_elem_of_fmap_2 fst _ _ Hid).
    + simpl. intros Hm%(inv_closed _ _ _ _ _ Hi).
      by rewrite (inv_open _ _ _ _ _ _ Hi Ha) in Hm.
  - apply (finish_sent _ stackName zone running0) in Hf as ->; [|done..].
    by eapply truthful_finish.
  - apply (finish_sent _ stackName zone running0) in Hf as ->; [|done..].
    by apply (truthful_finish _ _ _ a []).
  - exact Hv.
Qed.

Lemma truthful_steps e e' : ok e → truthful e → rtc steps e e' → truthful e'.
Proof.
  intros Hg Hv Hr. revert Hg Hv. induction Hr as [e|e1 e2 e3 Hstep _ IH]; [done|]. intros Hg Hv.
  pose proof (ok_step _ _ Hg Hstep) as Hg'. apply IH; [done|exact (truthful_step _ _ Hg Hv Hstep)].
Qed.

(** ** Goroutines that respect each other

    [R a] is what the goroutine of [a] relies on, [G a] what it guarantees,
    [Q a] what it ends with. *)
Section parallel.
Context (R G : string → Variables → Variables → Prop).
Context (Q : Application → result Application → list event → Variables → Prop).
Context `{!∀ id, PreOrder (R id)} `{!∀ id, Reflexive (G id)}.
Context (Hcompatible : ∀ k k' a b v v', apps !! k = Some a → apps !! k' = Some b →
  App.ID a ≠ App.ID b → G (App.ID b) v v' → R (App.ID a) v v').
Abbreviation thread_safe e a :=
  (safely (R (App.ID a)) (G (App.ID a)) (Q a) (thread e a).2 (thread e a).1 (shared e)).

(** An application whose ID another one with the same ID took is never started. *)
Definition all_safe e : Prop := ∀ k a, apps !! k = Some a →
  (∀ b, b ∈ started (control e) → App.ID b = App.ID a → b = a) → thread_safe e a.

Lemma all_safe_step e e' : ok e → ok e' → all_safe e → steps e e' → all_safe e'.
Proof.
  intros Hg Hg' Hs Hstep. pose proof Hg as [Hi _].
  assert (∀ st d, (∀ a, a ∈ started (control e) → a ∈ started st) →
    all_safe (MkExecution st (shared e) (threads e) d)) as Hcontrol.
  { intros st d Hst k a Hk Hown. apply (Hs k a Hk). intros b Hb. by apply Hown, Hst. }
  destruct Hstep as [e d st Hd Hr|e a t p t' p' v Hd Ha Ht Hadv|e a t x st Hd Ha Ht Hf
    |e a t err st Hd Ha Ht Hf|e a t m Hd Ha Ht].
  - apply Hcontrol. by eapply receive_view; [apply Hi|].
  - destruct (inv_goroutine _ _ _ _ _ Hi a Ha) as (Hsa & _).
    destruct (inv_started _ _ _ _ _ Hi a Hsa) as (_ & _ & ka & Hka).
    assert (thread_safe e a) as Hsafe.
    { apply (Hs ka a Hka). intros b Hb Hid. apply (same_app (started (control e))); [apply Hi|done..]. }
    rewrite Ht in Hsafe. destruct (safely_advance _ _ _ _ _ _ _ _ _ Hsafe Hadv) as [HG Hsafe'].
    intros k b Hk Hown. simpl in *. rewrite thread_insert. case_decide as Hid.
    + rewrite -(Hown a Hsa) //.
    + apply (safely_stable (R (App.ID b)) _ _ _ _ (shared e)); [by apply (Hs k b Hk)|].
      by apply (Hcompatible k ka b a).
  - apply Hcontrol. apply (finish_sent _ stackName zone running0) in Hf as ->; done.
  - apply Hcontrol. apply (finish_sent _ stackName zone running0) in Hf as ->; done.
  - by apply Hcontrol.
Qed.
Lemma all_safe_steps e e' : ok e → all_safe e → rtc steps e e' → all_safe e'.
Proof.
  intros Hg Hs Hr. revert Hg Hs. induction Hr as [e|e1 e2 e3 Hstep _ IH]; [done|]. intros Hg Hs.
  pose proof (ok_step _ _ Hg Hstep) as Hg'. apply IH; [done|exact (all_safe_step _ _ Hg Hg' Hs Hstep)].
Qed.

(** The goroutine of an application that was reported to run is at its end, and
    keeps to what it ends with. *)
Lemma reported_safe e id :
  ok e → truthful e → all_safe e → reported (control e) id →
  is_Some (running0 !! id) ∨
  ∃ a t x, a ∈ started (control e) ∧ App.ID a = id ∧ thread e a = (t, Halt (Ret x)) ∧
    Q a (Ret x) t (shared e).
Proof.
  intros [Hi _] [Ht _] Hs Hid.
  destruct (Ht id Hid) as [?|(a & t & x & Ha & <- & Hthread)]; [by left|right].
  destruct (inv_started _ _ _ _ _ Hi a Ha) as (_ & _ & k & Hk).
  assert (∀ b, b ∈ started (control e) → App.ID b = App.ID a → b = a) as Hown.
  { intros b Hb Hb'. apply (same_app (started (control e))); [apply Hi|done..]. }
  pose proof (Hs k a Hk Hown) as Hsafe. rewrite Hthread in Hsafe.
  exists a, t, x. split_and!; [done..|]. by apply Hsafe.
Qed.
End parallel.
End good.
End facts.

Lemma thread_enter `{MapOrder, Regexp, Runners} {S} outs maxWait (st0 : run_state S) master zone
    stackName v a :
  thread_of outs maxWait (enter st0 master zone stackName v) a =
    ([], Run (out := outs (App.ID a)) a maxWait).
Proof. done. Qed.

(** ** The theorems *)
Section theorems.
Context `{ord : MapOrder} `{rx : Regexp} `{rs : Runners} {S : Type} `{StateStorageLaws S}.
Context (outs : string → Outside) (stackName zone : string) (maxWait : Z).
Implicit Types (e : execution S) (st : run_state S) (stack : Stack).
Abbreviation steps stack := (execution_step outs (Stk.apps stack) stackName zone maxWait).

Lemma enter_good stack info skip (s : S) st0 master v :
  start stack info skip s = Looping st0 →
  ∃ running sent, markSkippedApps (Stk.apps stack) skip ∅ [] = Ret (Some (running, sent)) ∧
    good (Stk.apps stack) stackName zone running st0 ∧
    truthful outs stackName zone maxWait running (enter st0 master zone stackName v).
Proof.
  intros (running & sent & Hmark & Hsk & ->)%start_looping. exists running, sent.
  split_and!; [done|by apply (good_begin _ _ _ _ sent)|]. split; simpl.
  - intros id Hid. left. destruct (runApplications_view (Stk.apps stack) 0
      (MkRun running sent false [] [] s None false)) as (Hr & Hs & _).
    destruct Hid as [Hid|Hid]; [by eexists; apply Hr|].
    rewrite /begin Hs /= in Hid. apply (skips_sent _ _ Hsk). by apply (list_elem_of_fmap_2 fst _ _ Hid).
  - by rewrite (proj2 (runApplications_keeps _ _ _)).
Qed.


(** The run of the application with this ID is over: it went through all of its
    phases, gave nothing unresolved away, and returned no error. *)
Definition went_through e (id : string) : Prop :=
  ∃ b t x, b ∈ started (control e) ∧ App.ID b = id ∧
    thread_of outs maxWait e b = (t, Halt (Ret x)) ∧
    phases t = expected_phases b ∧ Forall event_resolved t.
Lemma reported_went_through stack info skip (s : S) st0 master v e :
  start stack info skip s = Looping st0 →
  rtc (steps stack) (enter st0 master zone stackName v) e →
  (∃ running, inv (Stk.apps stack) stackName zone running (control e)) ∧
  ∀ id, reported (control e) id → skipped stack skip id ∨ went_through e id.
Proof.
  intros Hs Hr.
  destruct (enter_good _ _ _ _ _ master v Hs) as (running & sent & Hmark & Hg & Ht).
  pose proof (truthful_steps _ _ _ _ _ running (enter st0 master zone stackName v) e Hg Ht Hr) as Ht'.
  pose proof (ok_steps _ _ _ _ _ running (enter st0 master zone stackName v) e Hg Hr) as Hg'.
  split; [exists running; apply Hg'|]. intros id Hid.
  destruct (reported_safe outs (Stk.apps stack) stackName zone maxWait running (λ _, anything)
    (λ _, anything) (λ b o t _, ∀ x, o = Ret x → phases t = expected_phases b ∧ Forall event_resolved t)
    e id Hg' Ht') as [?|(b & t & x & Hb & Hb' & Hth & Hq)]; [|done| |].
  - apply (all_safe_steps outs _ stackName zone maxWait running _ _ _)
      with (e := enter st0 master zone stackName v); [done|exact Hg| |exact Hr].
    intros k b Hk _ v' _. rewrite thread_enter. cbn [fst snd].
    eapply safe_mono; [|apply (follows_Run b maxWait [] v')].
    intros o t _ (t1 & -> & Hres & _ & Hok) x Hx. by destruct (Hok x Hx).
  - left. by exists running, sent.
  - right. exists b, t, x. by destruct (Hq x eq_refl).
Qed.
(** All applications of a stack, when its run succeeded. *)
Lemma success_went_through stack info skip (s : S) st0 master v e :
  start stack info skip s = Looping st0 →
  rtc (steps stack) (enter st0 master zone stackName v) e → main (control e) = Some (Ret tt) →
  ∀ k a, Stk.apps stack !! k = Some a → skipped stack skip (App.ID a) ∨ went_through e (App.ID a).
Proof.
  intros Hs Hr Hm k a Hk. destruct (reported_went_through _ _ _ _ _ _ _ _ Hs Hr) as [[running Hi] Hrep].
  apply Hrep. left.
  exact (proj1 (allApplicationsRunning_spec _ _) (inv_done _ _ _ _ _ Hi Hm) k a Hk).
Qed.

(** C4. The whole run, whatever the interleaving: when an application has been
    started, each of its dependencies was skipped or is an application of
    which the run is over - it went through all of its phases in their order,
    from the before-scheduler hook to the after-tasks hook, gave nothing
    unresolved to a shell or to Marathon, and returned no error. *)
Theorem dependencies_first stack info skip (s : S) st0 master v e a d :
  start stack info skip s = Looping st0 →
  rtc (steps stack) (enter st0 master zone stackName v) e →
  a ∈ started (control e) → d ∈ App.Dependencies a →
  skipped stack skip d ∨ went_through e d.
Proof.
  intros Hs Hr Ha Hd. destruct (reported_went_through _ _ _ _ _ _ _ _ Hs Hr) as [[running Hi] Hrep].
  apply Hrep. left. by apply (inv_started _ _ _ _ _ Hi a Ha).
Qed.
End theorems.

(** ** Applications with the task runners of [main.go] *)
Section deployed.
Context `{ord : MapOrder} `{rx : Regexp} {S : Type} `{StateStorageLaws S}.
#[local] Existing Instance main_runners.
Context (out : string → Outside) (net : string → list event → Network).
Context (describe : ∀ id, Task (Outside := out id) → marathon_task) (fuel : nat).
Context (stackName zone : string) (maxWait : Z).
(** A task runner's work is one action of its goroutine. *)
Context (Halone : ∀ id k, alone (net id) k).

Definition deployed_outs (id : string) : Outside := deployed (out id) (net id) (describe id) fuel.

(** The part of the rely and of the guarantee that is about the variable of
    one application. *)
Definition relies (a0 : Application) (id : string) : Variables → Variables → Prop :=
  if decide (id = App.ID a0) then same (api a0) else λ _ _, True.
Definition guarantees (a0 : Application) (id : string) : Variables → Variables → Prop :=
  if decide (id = App.ID a0) then λ _ _, True else same (api a0).
Definition ends_with (a0 a : Application) (o : result Application) (t : list event) (v : Variables) : Prop :=
  a = a0 → ∀ x, o = Ret x → True ∧ published (out (App.ID a0)) (describe (App.ID a0)) a0 [] t v.
#[local] Instance relies_preorder a0 id : PreOrder (relies a0 id).
Proof. rewrite /relies. case_decide; apply _. Qed.
#[local] Instance guarantees_reflexive a0 id : Reflexive (guarantees a0 id).
Proof. rewrite /guarantees. case_decide; by intros ?. Qed.

(** The names of one application are not those of another. *)
Definition names_apart (apps : gmap string Application) : Prop :=
  ∀ k k' a b, apps !! k = Some a → apps !! k' = Some b → App.ID a ≠ App.ID b →
    HasPrefix (App.ID a +:+ ".api") (App.ID b +:+ ".") = false.

Lemma Run_keeps_to apps k k0 a0 a v :
  names_apart apps → apps !! k0 = Some a0 → apps !! k = Some a →
  App.Typ a0 ∈ dom taskRunners → App.Typ a0 ≠ "elasticsearch" →
  safely (relies a0 (App.ID a)) (guarantees a0 (App.ID a)) (ends_with a0 a)
    (Run (out := deployed_outs (App.ID a)) a maxWait) [] v.
Proof.
  intros Hapart Hk0 Hk Htyp Hne v' _. rewrite /relies /guarantees. case_decide as Hid.
  - apply safe_impl; [done|]. intros ->.
    by apply (Run_published (out (App.ID a0)) (net (App.ID a0)) (describe (App.ID a0)) fuel).
  - eapply safe_mono; [|apply (Run_spares (out (App.ID a)) (net (App.ID a)) (describe (App.ID a)) fuel)];
      [intros o t v1 _ ->; done|apply Halone|by apply (Hapart k0 k)|done].
Qed.

End deployed.

(** ** A stack of two applications, the second one launched with the address of
    the first *)
Section examples.
#[local] Existing Instance canonical_order.
#[local] Existing Instance main_runners.
#[local] Existing Instance InMemoryStateStorage.ops.
#[local] Existing Instance InMemoryStateStorage.laws.
#[local] Instance ex_rx : Regexp := ex_regexp.

Definition ex_mirror : Application :=
  App.MkApplication "kafka-mesos-0.9.x" "mirror" "" (float_of 1 0) (float_of 512 0) [] "1" [] "" ""
    "./mirror ${kafka.api}" [] ∅ [] [] ∅ [] ["kafka"] None "" "" [] [] [] [] [].
Definition ex_apps : gmap string Application :=
  {["a" := ex_mirror; "b" := ex_deployed "kafka-mesos-0.9.x"]}.
Definition ex_pair : Stack := Stk.MkStack "stack" "dev" "" (Some ex_apps) 0.
Definition ex_entered : run_state InMemoryStateStorage.states :=
  ex_initial (start ex_pair (inr "master") [] ex_storage).
Definition ex_outs : string → Outside :=
  deployed_outs (λ _, ex_marathon) (λ _ _, TaskRunnersFacts.ex_kafka) (λ _, id) 0.
Definition ex_first : execution InMemoryStateStorage.states :=
  enter ex_entered "master" "z" "dev" NewVariables.
Definition ex_turns (n : nat) : list move := mjoin (replicate n [Go "kafka"; Go "mirror"; Receive 0]).
Definition ex_last : execution InMemoryStateStorage.states :=
  plays ex_outs (Stk.apps ex_pair) "dev" "z" 0 (ex_turns 80) ex_first.
Abbreviation ex_steps := (execution_step ex_outs (Stk.apps ex_pair) "dev" "z" 0).

Lemma ex_loops : start ex_pair (inr "master") [] ex_storage = Looping ex_entered.
Proof. by vm_compute. Qed.
Lemma ex_last_main : main (control ex_last) = Some (Ret tt).
Proof. by vm_compute. Qed.
Lemma ex_last_started :
  started (control ex_last) = [ex_deployed "kafka-mesos-0.9.x"; ex_mirror].
Proof. by vm_compute. Qed.
Lemma ex_last_reached : rtc ex_steps ex_first ex_last.
Proof. apply plays_sound. Qed.
Lemma ex_pair_apps k a :
  Stk.apps ex_pair !! k = Some a → a = ex_mirror ∨ a = ex_deployed "kafka-mesos-0.9.x".
Proof.
  change (Stk.apps ex_pair) with ex_apps. rewrite /ex_apps.
  intros [[_ <-]|[_ Hk]]%lookup_insert_Some; [by left|]. right.
  by apply lookup_singleton_Some in Hk as [_ <-].
Qed.
Lemma ex_pair_apart : names_apart (Stk.apps ex_pair).
Proof. by intros k k' a b [-> | ->]%ex_pair_apps [-> | ->]%ex_pair_apps Hne. Qed.
Lemma ex_not_skipped stack id : ¬ skipped stack [] id.
Proof. intros (running & sent & [= <- <-] & [x Hx]). by rewrite lookup_empty in Hx. Qed.


Lemma ex_pair_rank : well_founded_dependencies (Stk.apps ex_pair).
Proof.
  exists (λ id, if String.eqb id "mirror" then 1 else 0).
  intros k a d [-> | ->]%ex_pair_apps Hd; [|by apply elem_of_nil in Hd].
  apply list_elem_of_singleton in Hd as ->.
  exists "b", (ex_deployed "kafka-mesos-0.9.x"). split_and!; [by vm_compute|reflexivity|vm_compute; lia].
Qed.

Lemma dependencies_first_witness :
  ∃ b t, b ∈ started (control ex_last) ∧ App.ID b = "kafka" ∧ phases t = expected_phases b.
Proof.
  destruct (dependencies_first ex_outs "dev" "z" 0 ex_pair (inr "master") [] ex_storage ex_entered
    "master" NewVariables ex_last ex_mirror "kafka" ex_loops ex_last_reached)
    as [Hs|(b & t & x & Hb & Hid & _ & Hp & _)].
  - rewrite ex_last_started. right. left.
  - left.
  - by apply ex_not_skipped in Hs.
  - exists b, t. by split_and!.
Defined.

End examples.
