(* ===== verification/FrameworkStorage.v ===== *)
(** [framework/framework_storage.go]: the framework's identifier and the
    variables of the bootstrap stack, kept as one JSON document in a file or
    in ZooKeeper. *)
From S2P Require Import Prelude GoStrings Errors Json Variables.
Open Scope string_scope.
Open Scope list_scope.

(** The bootstrap context is a pointer. *)
Record FrameworkStorage : Type := MkFrameworkStorage {
  FrameworkID : string;
  BootstrapContext : option Variables
}.

(** A persistent storage: [put] may fail, unnoticed; [get] fails, finds nothing
    ([inr None]), or finds bytes, which are JSON or not. *)
Class DocumentStorage (T : Type) := {
  put : json → T → T;
  get : T → error + option (option json)
}.

Section storage.
Context `{ord : MapOrder} `{DocumentStorage T}.

(** [NewStorage]: which kind of storage, and with what argument. *)
Inductive storage_kind : Type := FileStorage (path : string) | ZKStorage (path : string).
Definition NewStorage (storage : string) : result storage_kind :=
  match SplitN2 storage ":" with
  | [kind; path] =>
      if String.eqb kind "file" then Ret (FileStorage path)
      else if String.eqb kind "zk" then Ret (ZKStorage path)
      else Err (Errorf "Unsupported storage")
  | _ => Err (Errorf "Unsupported storage")
  end.

Definition NewFrameworkStorage : FrameworkStorage := MkFrameworkStorage "" (Some NewVariables).

Definition encode_storage (s : FrameworkStorage) : json :=
  JObj [("FrameworkID", JStr (FrameworkID s));
        ("BootstrapContext", match BootstrapContext s with
                             | Some v => MarshalJSON v
                             | None => JNull
                             end)].
Definition Save (s : FrameworkStorage) (t : T) : T := put (encode_storage s) t.

(** Decoding into [s]: absent members leave their fields, [null] empties the
    pointer, an object goes through [UnmarshalJSON] of the variables there
    are. *)
Definition decode_storage (doc : option json) (s : FrameworkStorage) : result FrameworkStorage :=
  match doc with
  | Some JNull => Ret s
  | _ =>
      fields ← decode_object doc;
      id ← match fields !! "FrameworkID" with
           | None | Some JNull => Ret (FrameworkID s)
           | Some j => decode_string j
           end;
      context ← match fields !! "BootstrapContext" with
                | None => Ret (BootstrapContext s)
                | Some JNull => Ret None
                | Some j => Some <$> UnmarshalJSON (Some j) (default NewVariables (BootstrapContext s))
                end;
      Ret (MkFrameworkStorage id context)
  end.
Definition Load (s : FrameworkStorage) (t : T) : result FrameworkStorage :=
  match get t with
  | inl _ | inr None => Ret s
  | inr (Some doc) =>
      match decode_storage doc s with
      | Ret s' => Ret s'
      | Err e => Panic (Error e)
      | Panic p => Panic p
      end
  end.
End storage.
