(* ===== verification/Scheduler.v ===== *)
(** The Mesos scheduler of [framework/scheduler.go]: it hands offers and status
    updates to the task runners, runs or schedules applications with the
    runner of their type, and keeps the list of scheduled tasks.

    The runners are a map from application types to states of one
    implementation [R] of [MesosTaskRunner]. *)
From S2P Require Import Prelude GoStrings Errors Json Variables Data Constraints MesosState.
From S2P Require Import MesosRunner FrameworkStorage.
From Stdlib Require Import Lia.
Open Scope string_scope.
Open Scope list_scope.
Open Scope nat_scope.

Record ScheduledTask : Type := MkScheduledTask {
  st_ID : Z;
  st_Name : string;
  st_StartTime : string;
  st_TimeSchedule : string
}.

(** [connected]: the scheduler has a driver. *)
Record scheduler (R C T : Type) : Type := MkScheduler {
  MesosTaskRunners : gmap string R;
  Cron : C;
  scheduledTasks : list ScheduledTask;
  Storage : FrameworkStorage;
  document : T;
  connected : bool
}.
Arguments MkScheduler {R C T}.
Arguments MesosTaskRunners {R C T}.
Arguments Cron {R C T}.
Arguments scheduledTasks {R C T}.
Arguments Storage {R C T}.
Arguments document {R C T}.
Arguments connected {R C T}.

(** ** Introducing the framework to Mesos

    [SchedulerConfig] without the storage, which the scheduler holds; the
    timeout is in nanoseconds. *)
Record SchedulerConfig : Type := MkConfig {
  Master : string;
  cfg_User : string;
  FrameworkName : string;
  FrameworkRole : string;
  FailoverTimeout : Z
}.
Definition NewSchedulerConfig : SchedulerConfig :=
  MkConfig "" "" "stack-deploy" "*" (168 * 3600 * 10 ^ 9).
Record FrameworkInfo : Type := MkFrameworkInfo {
  fi_User : string;
  fi_Name : string;
  fi_Role : string;
  fi_FailoverTimeout : float64;
  fi_Checkpoint : bool;
  fi_Id : option string
}.
(** What [Start] registers the framework with. *)
Definition framework_info (config : SchedulerConfig) (storage : FrameworkStorage) : FrameworkInfo :=
  MkFrameworkInfo (cfg_User config) (FrameworkName config) (FrameworkRole config)
    (float_of (Z.quot (FailoverTimeout config) (10 ^ 9)) 0) true
    (if negb (String.eqb (FrameworkID storage) "") then Some (FrameworkID storage) else None).
(** The outcome of [Start]: it fails only when there is no driver. *)
Definition Start (config : SchedulerConfig) (storage : FrameworkStorage)
    (new_driver : FrameworkInfo → string → option error) : result unit :=
  match new_driver (framework_info config storage) (Master config) with
  | Some e => Err (Errorf ("Unable to create SchedulerDriver: " +:+ Error e))
  | None => Ret tt
  end.

(** A channel of one status: with the status in it or about to be sent, or one
    that a runner will send on. *)
Inductive status_channel : Type :=
| Ready (status : option error)
| FromRunner (runner : string) (channel : nat).

Section scheduler.
Context `{ord : MapOrder} `{MesosTaskRunner R} `{MesosCronRunner R C} `{CronScheduler C}
  `{DocumentStorage T}.
Implicit Types (s : scheduler R C T).

Definition set_runners (m : gmap string R) s : scheduler R C T :=
  MkScheduler m (Cron s) (scheduledTasks s) (Storage s) (document s) (connected s).

(** ** Offers and updates *)
Fixpoint accept_loop (offer : Offer) (l : list (string * R)) (declineReasons : list string)
    (m : gmap string R) (d : driver) : result string * (gmap string R * driver) :=
  match l with
  | [] => (Ret (Join declineReasons ", "), (m, d))
  | (name, runner) :: l' =>
      match ResourceOffer offer (runner, d) with
      | (Ret declineReason, (runner', d')) =>
          accept_loop offer l'
            (if String.eqb declineReason "" then declineReasons
             else declineReasons ++ [declineReason]) (<[name := runner']> m) d'
      | (Err _, (runner', d')) =>
          accept_loop offer l' declineReasons (<[name := runner']> m) d'
      | (Panic p, (runner', d')) => (Panic p, (<[name := runner']> m, d'))
      end
  end.
Definition acceptOffer (offer : Offer) (m : gmap string R) (d : driver) :
    result string * (gmap string R * driver) :=
  accept_loop offer (range 0 m) [] m d.

Fixpoint ResourceOffers (offers : list Offer) : M (scheduler R C T * driver) error unit :=
  match offers with
  | [] => mret tt
  | offer :: l => λ '(s, d),
      match acceptOffer offer (MesosTaskRunners s) d with
      | (Ret declineReason, (m, d')) =>
          ResourceOffers l
            (set_runners m s,
             if String.eqb declineReason "" then d' else d' ++ [DeclineOffer (off_Id offer)])
      | (Err e, (m, d')) => (Err e, (set_runners m s, d'))
      | (Panic p, (m, d')) => (Panic p, (set_runners m s, d'))
      end
  end.

(** The loop of [StatusUpdate]: the first runner that knows the task. *)
Fixpoint update_loop (status : TaskStatus) (l : list (string * R)) (m : gmap string R) :
    result bool * gmap string R :=
  match l with
  | [] => (Ret false, m)
  | (name, runner) :: l' =>
      match StatusUpdate status runner with
      | (Ret true, runner') => (Ret true, <[name := runner']> m)
      | (Ret false, runner') => update_loop status l' (<[name := runner']> m)
      | (Err e, runner') => (Err e, <[name := runner']> m)
      | (Panic p, runner') => (Panic p, <[name := runner']> m)
      end
  end.
Definition scheduler_StatusUpdate (status : TaskStatus) : M (scheduler R C T * driver) error unit :=
  λ '(s, d),
  let d := if decide (ts_State status = TASK_FINISHED) then d ++ [ReviveOffers] else d in
  let '(r, m) := update_loop status (range 0 (MesosTaskRunners s)) (MesosTaskRunners s) in
  (match r with Ret _ => Ret tt | Err e => Err e | Panic p => Panic p end, (set_runners m s, d)).

(** ** Running and scheduling applications *)
Definition RunApplication (application : Application) (mesos : MesosState) :
    M (scheduler R C T) error status_channel := λ s,
  match MesosTaskRunners s !! App.Typ application with
  | None => (Ret (Ready (Some (Errorf "Application already exists"))), s)
  | Some runner =>
      if negb (String.eqb (App.TimeSchedule application) "") ||
         negb (String.eqb (App.StartTime application) "") then
        let '(id, cron) := ScheduleApplication runner application (Cron s) in
        let task := MkScheduledTask id (App.ID application) (App.StartTime application)
                      (App.TimeSchedule application) in
        (Ret (Ready None),
         MkScheduler (MesosTaskRunners s) cron (scheduledTasks s ++ [task]) (Storage s)
           (document s) (connected s))
      else
        match StageApplication application mesos runner with
        | (Ret ch, runner') =>
            (Ret (FromRunner (App.Typ application) ch),
             set_runners (<[App.Typ application := runner']> (MesosTaskRunners s)) s)
        | (Err e, runner') =>
            (Err e, set_runners (<[App.Typ application := runner']> (MesosTaskRunners s)) s)
        | (Panic p, runner') =>
            (Panic p, set_runners (<[App.Typ application := runner']> (MesosTaskRunners s)) s)
        end
  end.

Definition GetScheduledTasks s : list ScheduledTask := scheduledTasks s.

(** The first task with the identifier is cut out of the slice. *)
Fixpoint remove_task (id : Z) (l : list ScheduledTask) : option (list ScheduledTask) :=
  match l with
  | [] => None
  | task :: l' =>
      if (st_ID task =? id)%Z then Some l' else cons task <$> remove_task id l'
  end.
Definition RemoveScheduled (id : Z) : M (scheduler R C T) error bool := λ s,
  match MesosTaskRunners s !! "run-once" with
  | None => (Panic nil_dereference, s)
  | Some runner =>
      let cron := DeleteSchedule runner id (Cron s) in
      let with_tasks l := MkScheduler (MesosTaskRunners s) cron l (Storage s) (document s)
                            (connected s) in
      match remove_task id (scheduledTasks s) with
      | Some l => (Ret true, with_tasks l)
      | None => (Ret false, with_tasks (scheduledTasks s))
      end
  end.

(** ** Registration *)
Definition Registered (id : string) s : scheduler R C T :=
  let storage := MkFrameworkStorage id (BootstrapContext (Storage s)) in
  MkScheduler (MesosTaskRunners s) (Cron s) (scheduledTasks s) storage
    (Save storage (document s)) true.
Definition Reregistered s : scheduler R C T :=
  MkScheduler (MesosTaskRunners s) (Cron s) (scheduledTasks s) (Storage s) (document s) true.
Definition Disconnected s : scheduler R C T :=
  MkScheduler (MesosTaskRunners s) (Cron s) (scheduledTasks s) (Storage s) (document s) false.
End scheduler.
