(* ===== verification/SchedulerFacts.v ===== *)
(** What the scheduler guarantees: how offers are answered, what running and
    removing a scheduled application do, and that the framework's state
    survives a restart. *)
From S2P Require Import Prelude GoStrings Errors Json Variables Data Constraints MesosState.
From S2P Require Import MesosRunner FrameworkStorage Application RunOnce RunOnceFacts Scheduler.
From Stdlib Require Import Lia.
Open Scope string_scope.
Open Scope list_scope.
Open Scope nat_scope.

Lemma range_singleton `{ord : MapOrder} {A} d k (x : A) : range d {[k := x]} = [(k, x)].
Proof.
  apply Permutation_singleton_r. rewrite range_perm. by rewrite map_to_list_singleton.
Qed.

(** ** Offers *)
Section offers.
Context `{ord : MapOrder} `{MesosTaskRunnerLaws R} {C T : Type}.
Implicit Types (s : scheduler R C T).

(** An offer is answered by declining it or by launching a task on it. *)
Definition answers (offer : Offer) (call : driver_call) : Prop :=
  call = DeclineOffer (off_Id offer) ∨ ∃ task, call = LaunchTasks (off_Id offer) task.

Lemma acceptOffer_one name r offer d :
  let '(o, (m, d')) := acceptOffer offer {[name := r]} d in
  (∃ r', m = {[name := r']}) ∧
  match o with
  | Ret "" => ∃ task, d' = d ++ [LaunchTasks (off_Id offer) task]
  | Err _ => False
  | Ret _ | Panic _ => d' = d
  end.
Proof.
  rewrite /acceptOffer range_singleton /=. pose proof (ResourceOffer_law offer r d) as Hlaw.
  destruct (MesosRunner.ResourceOffer offer (r, d)) as [[reason|e|p] [r' d']]; simpl;
    rewrite insert_singleton_eq.
  - split; [by exists r'|]. destruct (String.eqb_spec reason "") as [->|Hne]; [exact Hlaw|].
    simpl. by destruct reason.
  - split; [by exists r'|exact Hlaw].
  - split; [by exists r'|exact Hlaw].
Qed.

Lemma ResourceOffers_run offers : ∀ s d name r,
  MesosTaskRunners s = {[name := r]} →
  let '(o, (s', d')) := ResourceOffers offers (s, d) in
  ∃ calls k, d' = d ++ calls ∧ Forall2 answers (take k offers) calls ∧
    match o with Ret _ => length offers ≤ k | _ => k < length offers end.
Proof.
  induction offers as [|offer offers IH]; intros s d name r Hone; simpl.
  { exists [], 0. split_and!; [by rewrite app_nil_r|constructor|done]. }
  rewrite Hone. pose proof (acceptOffer_one name r offer d) as Hacc.
  destruct (acceptOffer offer {[name := r]} d) as [[reason|e|p] [m d']].
  - destruct Hacc as [[r' Hm] Hd].
    assert (∃ call, answers offer call ∧
      (if String.eqb reason "" then d' else d' ++ [DeclineOffer (off_Id offer)]) = d ++ [call])
      as (call & Hcall & ->).
    { destruct (String.eqb_spec reason "") as [->|Hne].
      - destruct Hd as [task ->]. eexists. split; [right; by eexists|done].
      - assert (d' = d) as -> by by destruct reason. eexists. split; [by left|done]. }
    specialize (IH (set_runners m s) (d ++ [call]) name r' Hm).
    destruct (ResourceOffers offers (set_runners m s, d ++ [call])) as [o [s' d'']].
    destruct IH as (calls & k & -> & Hall & Hk). exists (call :: calls), (1 + k).
    rewrite -app_assoc. split_and!; [done|by constructor|]. destruct o; lia.
  - by destruct Hacc.
  - destruct Hacc as [_ ->]. exists [], 0. split_and!; [by rewrite app_nil_r|constructor|lia].
Qed.

(** C22. With one task runner, as the program registers it, every offer gets
    exactly one answer, in the order of the offers: a task is launched on it
    or it is declined - up to the offer, if any, whose handling panics. *)
Theorem offers_answered_once s d offers name r :
  MesosTaskRunners s = {[name := r]} →
  let '(o, (s', d')) := ResourceOffers offers (s, d) in
  ∃ calls k, d' = d ++ calls ∧ Forall2 answers (take k offers) calls ∧
    match o with Ret _ => length offers ≤ k | _ => k < length offers end.
Proof. apply ResourceOffers_run. Qed.
End offers.

(** ** Scheduled applications *)
Section scheduled.
Context `{ord : MapOrder} `{rx : Regexp} `{drv : Driver} {C T : Type} `{CronSchedulerLaws C}.
Implicit Types (s : scheduler run_once C T).

(** The entry an application is scheduled with. *)
Definition scheduled_spec (a : Application) : string :=
  if String.eqb (App.StartTime a) "" then App.TimeSchedule a else App.StartTime a.
Definition scheduled_job (a : Application) : job :=
  if String.eqb (App.StartTime a) "" || String.eqb (App.TimeSchedule a) "" then StageJob a
  else AddJob (App.TimeSchedule a) (StageJob a).

Lemma add_func_run spec j (c : C) :
  let '(id, c') := add_func spec j c in
  if valid_spec spec then (id ∉ ((Entries c).*1).*1) ∧ Entries c' = Entries c ++ [(id, spec, j)]
  else id = (-1)%Z ∧ Entries c' = Entries c.
Proof.
  rewrite /add_func. pose proof (AddFunc_law spec j c) as Hlaw.
  destruct (AddFunc spec j c) as [[id e] c']. destruct (valid_spec spec); naive_solver.
Qed.

Lemma ScheduleApplication_run a (c : C) :
  App.StartTime a ≠ "" ∨ App.TimeSchedule a ≠ "" →
  let '(id, c') := RunOnce.ScheduleApplication a c in
  if valid_spec (scheduled_spec a)
  then (id ∉ ((Entries c).*1).*1) ∧ Entries c' = Entries c ++ [(id, scheduled_spec a, scheduled_job a)]
  else id = (-1)%Z ∧ Entries c' = Entries c.
Proof.
  intros Ha. rewrite /RunOnce.ScheduleApplication /scheduled_spec /scheduled_job.
  destruct (String.eqb_spec (App.StartTime a) ""), (String.eqb_spec (App.TimeSchedule a) "");
    [naive_solver|apply add_func_run..].
Qed.

(** Deleting the last entry with a fresh identifier. *)
Lemma delete_last (es more : list (Z * string * job)) id spec j :
  (id ∉ (es.*1).*1) → (id ∉ (more.*1).*1) →
  filter (λ e : Z * string * job, e.1.1 ≠ id) (es ++ (id, spec, j) :: more) = es ++ more.
Proof.
  intros Hes Hmore. rewrite filter_app filter_cons_False; [|by intros []; simpl].
  assert (∀ l : list (Z * string * job), id ∉ (l.*1).*1 →
    filter (λ e : Z * string * job, e.1.1 ≠ id) l = l) as Hall; [|by rewrite !Hall].
  induction l as [|[[i spec'] j'] l IH]; [done|]. rewrite !fmap_cons. intros [Hi Hl]%not_elem_of_cons.
  rewrite filter_cons_True; [|by apply not_eq_sym]. by rewrite IH.
Qed.

Lemma remove_last_task id task l :
  id ∉ st_ID <$> l → st_ID task = id → remove_task id (l ++ [task]) = Some l.
Proof.
  intros Hl Hid. induction l as [|t l IH]; simpl; [by rewrite Hid Z.eqb_refl|].
  rewrite fmap_cons in Hl. apply not_elem_of_cons in Hl as [Ht Hl].
  destruct (Z.eqb_spec (st_ID t) id) as [He|_]; [by destruct Ht|]. by rewrite IH.
Qed.

(** The jobs a job adds each time it is due. *)
Lemma fire_run n spec a (c : C) :
  valid_spec spec = true →
  ∃ jobs, length jobs = n ∧
    Entries (Nat.iter n (fire (AddJob spec (StageJob a))) c) = Entries c ++ jobs ∧
    Forall (λ e : Z * string * job, (e.1.1 ∉ ((Entries c).*1).*1) ∧ e.1.2 = spec ∧ e.2 = StageJob a) jobs.
Proof.
  intros Hv. induction n as [|n (jobs & Hlen & Hent & Hall)]; simpl.
  { exists []. by rewrite app_nil_r. }
  set (c' := Nat.iter n _ c) in *. pose proof (add_func_run spec (StageJob a) c') as Hadd.
  destruct (add_func spec (StageJob a) c') as [id c'']. rewrite Hv in Hadd.
  destruct Hadd as [Hid Hent']. exists (jobs ++ [(id, spec, StageJob a)]).
  rewrite /= Hent' Hent -app_assoc length_app /= Hlen. split_and!; [lia|done|].
  apply Forall_app. split; [done|]. constructor; [|done]. split_and!; [|done|done].
  rewrite Hent !fmap_app in Hid. by apply not_elem_of_app in Hid as [? _].
Qed.

Definition scheduled_task (id : Z) (a : Application) : ScheduledTask :=
  MkScheduledTask id (App.ID a) (App.StartTime a) (App.TimeSchedule a).

Lemma RunApplication_scheduled s a mesos r :
  MesosTaskRunners s !! App.Typ a = Some r → App.StartTime a ≠ "" ∨ App.TimeSchedule a ≠ "" →
  RunApplication a mesos s =
    (let '(id, cron) := RunOnce.ScheduleApplication a (Cron s) in
     (Ret (Ready None),
      MkScheduler (MesosTaskRunners s) cron (scheduledTasks s ++ [scheduled_task id a]) (Storage s)
        (document s) (connected s))).
Proof.
  intros Hr Ha. rewrite /RunApplication Hr.
  destruct (String.eqb_spec (App.StartTime a) ""), (String.eqb_spec (App.TimeSchedule a) "");
    naive_solver.
Qed.

(** Scheduling an application of the run-once runner and removing it again.
    With a schedule that parses, the application becomes an entry of the cron
    service and of the list of scheduled tasks, under one identifier, and
    removing that identifier restores both. With one that does not, nothing
    is scheduled, but the run is reported as a success and listed under the
    identifier -1. *)
Theorem schedule_then_remove s a mesos r :
  MesosTaskRunners s !! "run-once" = Some r → App.Typ a = "run-once" →
  App.StartTime a ≠ "" ∨ App.TimeSchedule a ≠ "" →
  let '(o, s1) := RunApplication a mesos s in
  o = Ret (Ready None) ∧
  ∃ id, scheduledTasks s1 = scheduledTasks s ++ [scheduled_task id a] ∧
    if valid_spec (scheduled_spec a) then
      Entries (Cron s1) = Entries (Cron s) ++ [(id, scheduled_spec a, scheduled_job a)] ∧
      (id ∉ st_ID <$> scheduledTasks s →
       let '(o', s2) := RemoveScheduled id s1 in
       o' = Ret true ∧ scheduledTasks s2 = scheduledTasks s ∧
       Entries (Cron s2) = Entries (Cron s))
    else id = (-1)%Z ∧ Entries (Cron s1) = Entries (Cron s).
Proof.
  intros Hr Ht Ha. rewrite (RunApplication_scheduled s a mesos r); [|by rewrite Ht|done].
  pose proof (ScheduleApplication_run a (Cron s) Ha) as Hs.
  destruct (RunOnce.ScheduleApplication a (Cron s)) as [id cron]. split; [done|].
  exists id. split; [done|]. destruct (valid_spec (scheduled_spec a)); [|done].
  destruct Hs as [Hid Hent]. split; [by rewrite /= Hent|].
  intros Hfresh. rewrite /RemoveScheduled /= Hr remove_last_task //=. split_and!; [done|done|].
  rewrite /RunOnce.DeleteSchedule DeleteJob_law Hent.
  rewrite delete_last //; [by rewrite app_nil_r|]. by intros ?%elem_of_nil.
Qed.

(** An application with a start time and a schedule: the identifier it is
    listed under is that of the entry for the start time. When that entry has
    been due [n] times, removing the identifier leaves the [n] entries it has
    added, which go on to stage the application. *)
Theorem recurring_entries_survive_removal s a mesos r n :
  MesosTaskRunners s !! "run-once" = Some r → App.Typ a = "run-once" →
  App.StartTime a ≠ "" → App.TimeSchedule a ≠ "" →
  valid_spec (App.StartTime a) = true → valid_spec (App.TimeSchedule a) = true →
  let '(_, s1) := RunApplication a mesos s in
  ∃ id, scheduledTasks s1 = scheduledTasks s ++ [scheduled_task id a] ∧
    let cron := Nat.iter n (fire (scheduled_job a)) (Cron s1) in
    let s2 := MkScheduler (MesosTaskRunners s1) cron (scheduledTasks s1) (Storage s1) (document s1)
                (connected s1) in
    let '(_, s3) := RemoveScheduled id s2 in
    ∃ jobs, Entries (Cron s3) = Entries (Cron s) ++ jobs ∧ length jobs = n ∧
      Forall (λ e : Z * string * job, e.1.2 = App.TimeSchedule a ∧ e.2 = StageJob a) jobs.
Proof.
  intros Hr Ht Hst Hts Hv1 Hv2.
  rewrite (RunApplication_scheduled s a mesos r); [|by rewrite Ht|by left].
  pose proof (ScheduleApplication_run a (Cron s) (or_introl Hst)) as Hs.
  destruct (RunOnce.ScheduleApplication a (Cron s)) as [id cron]. exists id. split; [done|].
  assert (scheduled_spec a = App.StartTime a ∧
          scheduled_job a = AddJob (App.TimeSchedule a) (StageJob a)) as [Hspec Hjob].
  { rewrite /scheduled_spec /scheduled_job.
    destruct (String.eqb_spec (App.StartTime a) ""), (String.eqb_spec (App.TimeSchedule a) ""); done. }
  rewrite Hspec Hv1 in Hs. destruct Hs as [Hid Hent]. rewrite Hjob. cbv zeta. cbn [Cron].
  destruct (fire_run n (App.TimeSchedule a) a cron Hv2) as (jobs & Hlen & Hall & Hjobs).
  set (cron' := Nat.iter n _ cron) in *.
  assert (Entries (RunOnce.DeleteSchedule id cron') = Entries (Cron s) ++ jobs) as Hdel.
  { rewrite /RunOnce.DeleteSchedule DeleteJob_law Hall Hent -app_assoc. apply delete_last; [done|].
    intros (e & -> & (e' & -> & He)%list_elem_of_fmap)%list_elem_of_fmap.
    destruct (proj1 (Forall_forall _ _) Hjobs e' He) as [Hfresh _]. apply Hfresh.
    rewrite Hent !fmap_app. apply elem_of_app. right. constructor. }
  rewrite /RemoveScheduled /= Hr.
  destruct (remove_task id _); exists jobs; (split_and!; [exact Hdel|done|]);
    by eapply Forall_impl; [exact Hjobs|intros e [_ ?]].
Qed.
End scheduled.

(** ** The state of the framework *)
Section storage.
Context `{ord : MapOrder} `{DocumentStorage T}.

Lemma Load_registered {R C} id (s : scheduler R C T) :
  let s' := Registered id s in
  get (document s') = inr (Some (Some (encode_storage (Storage s')))) →
  Load NewFrameworkStorage (document s') = Ret (MkFrameworkStorage id (BootstrapContext (Storage s))).
Proof.
  simpl. intros Hget. rewrite /Load Hget /decode_storage /encode_storage /=.
  set (j := match BootstrapContext (Storage s) with Some v => MarshalJSON v | None => JNull end).
  assert (∀ x, fields_map [("FrameworkID", x); ("BootstrapContext", j)] !! "FrameworkID" = Some x)
    as -> by done.
  assert (∀ x, fields_map [("FrameworkID", x); ("BootstrapContext", j)] !! "BootstrapContext" = Some j)
    as -> by done.
  rewrite /j. destruct (BootstrapContext (Storage s)) as [v|]; [|done].
  assert (∃ fs, MarshalJSON v = JObj fs) as [fs Hfs] by by eexists.
  pose proof (Unmarshal_Marshal v) as Hv. rewrite Hfs in Hv. rewrite Hfs.
  simpl in Hv |- *. by rewrite Hv.
Qed.

(** What the scheduler saves when Mesos registers it is what a later start
    loads: the identifier of the framework and the bootstrap variables - if
    the storage keeps what is put in it; and the restarted scheduler
    introduces itself to Mesos under that identifier, whatever its
    configuration. *)
Theorem registration_survives_restart {R C} id (s : scheduler R C T) config :
  let s' := Registered id s in
  get (document s') = inr (Some (Some (encode_storage (Storage s')))) →
  ∃ loaded, Load NewFrameworkStorage (document s') = Ret loaded ∧
    BootstrapContext loaded = BootstrapContext (Storage s) ∧
    fi_Id (framework_info config loaded) = if decide (id = "") then None else Some id.
Proof.
  intros s' Hget. eexists. split; [by apply Load_registered|]. split; [done|].
  rewrite /framework_info /=. by destruct (String.eqb_spec id ""); case_decide.
Qed.
End storage.

(** ** A concrete scheduler *)
Section examples.
#[local] Existing Instance ex_driver.
#[local] Existing Instance ex_regexp.
#[local] Existing Instance ex_order.

(** A cron service that numbers its entries and accepts descriptors. *)
Definition ex_cron : Type := list (Z * string * job).
Definition ex_next (c : ex_cron) : Z := (1 + foldr Z.max 0 (c.*1).*1)%Z.
#[local] Instance ex_cron_ops : CronScheduler ex_cron := {
  AddFunc spec j c :=
    if HasPrefix spec "@" then (ex_next c, None, c ++ [(ex_next c, spec, j)])
    else ((-1)%Z, Some (Errorf "Expected 5 or 6 fields"), c);
  DeleteJob id c := filter (λ e : Z * string * job, e.1.1 ≠ id) c;
  Entries c := c
}.
Lemma ex_next_fresh c : ex_next c ∉ (c.*1).*1.
Proof.
  assert (∀ i, i ∈ (c.*1).*1 → (i < ex_next c)%Z) as Hlt; [|intros Hin%Hlt; lia].
  rewrite /ex_next. induction (c.*1).*1 as [|j l IH]; [by intros i ?%elem_of_nil|].
  intros i [->|Hi]%elem_of_cons; simpl; [lia|]. apply IH in Hi. lia.
Qed.
#[local] Instance ex_cron_laws : CronSchedulerLaws ex_cron.
Proof.
  refine {| valid_spec spec := HasPrefix spec "@" |}; simpl.
  - intros spec j c. destruct (HasPrefix spec "@"); [|done].
    split_and!; [done|apply ex_next_fresh|done].
  - done.
Defined.

(** A storage that keeps its document. *)
#[local] Instance ex_storage_ops : DocumentStorage (option json) := {
  put js _ := Some js;
  get t := inr (Some <$> t)
}.

Definition ex_scheduler (r : run_once) : scheduler run_once ex_cron (option json) :=
  MkScheduler {["run-once" := r]} [] [] NewFrameworkStorage None true.

Lemma offers_answered_once_witness :
  (ResourceOffers [ex_offer "h1"; ex_offer "h1"] (ex_scheduler ex_staged, [])).2.2 !! 1 =
    Some (DeclineOffer "offer-h1") ∧
  ∃ calls k, (ResourceOffers [ex_offer "h1"; ex_offer "h1"] (ex_scheduler ex_staged, [])).2.2 =
    [] ++ calls ∧ Forall2 answers (take k [ex_offer "h1"; ex_offer "h1"]) calls.
Proof.
  split; [by vm_compute|].
  pose proof (offers_answered_once (ex_scheduler ex_staged) [] [ex_offer "h1"; ex_offer "h1"]
    "run-once" ex_staged eq_refl) as Ha.
  destruct (ResourceOffers [ex_offer "h1"; ex_offer "h1"] (ex_scheduler ex_staged, []))
    as [o [s' d']].
  destruct Ha as (calls & k & Hd & Hall & _). exists calls, k. split; [exact Hd|exact Hall].
Defined.

Definition ex_cron_job (start every : string) : Application :=
  App.MkApplication "run-once" "report" "" (float_of 1 0) (float_of 512 0) [] "1" [] "" ""
    "./report" [] ∅ [] [] ∅ [] [] None start every [] [] [] [] [].

Lemma schedule_then_remove_witness :
  (RunApplication (ex_cron_job "" "@daily") ex_mesos (ex_scheduler NewRunOnceRunner)).1 =
    Ret (Ready None) ∧
  (RunApplication (ex_cron_job "" "daily") ex_mesos (ex_scheduler NewRunOnceRunner)).1 =
    Ret (Ready None).
Proof.
  assert (∀ every, every ≠ "" →
    (RunApplication (ex_cron_job "" every) ex_mesos (ex_scheduler NewRunOnceRunner)).1 =
      Ret (Ready None)) as Hrun; [|by split; apply Hrun].
  intros every Hne.
  pose proof (schedule_then_remove (ex_scheduler NewRunOnceRunner) (ex_cron_job "" every)
    ex_mesos NewRunOnceRunner) as H1.
  specialize (H1 eq_refl). specialize (H1 eq_refl). specialize (H1 (or_intror Hne)).
  destruct (RunApplication (ex_cron_job "" every) ex_mesos (ex_scheduler NewRunOnceRunner)).
  exact (proj1 H1).
Defined.

Lemma recurring_entries_survive_removal_witness :
  let '(_, s1) := RunApplication (ex_cron_job "@monthly" "@daily") ex_mesos
                    (ex_scheduler NewRunOnceRunner) in
  ∃ id, scheduledTasks s1 = [] ++ [scheduled_task id (ex_cron_job "@monthly" "@daily")].
Proof.
  pose proof (recurring_entries_survive_removal (ex_scheduler NewRunOnceRunner)
    (ex_cron_job "@monthly" "@daily") ex_mesos NewRunOnceRunner 3) as Hr.
  specialize (Hr eq_refl). specialize (Hr eq_refl).
  specialize (Hr ltac:(discriminate)). specialize (Hr ltac:(discriminate)).
  specialize (Hr eq_refl). specialize (Hr eq_refl).
  destruct (RunApplication (ex_cron_job "@monthly" "@daily") ex_mesos
    (ex_scheduler NewRunOnceRunner)) as [o s1].
  destruct Hr as (id & Hid & _). exists id. exact Hid.
Defined.

Lemma registration_survives_restart_witness :
  ∃ loaded, Load NewFrameworkStorage (document (Registered "framework-1" (ex_scheduler NewRunOnceRunner))) =
    Ret loaded ∧ fi_Id (framework_info NewSchedulerConfig loaded) = Some "framework-1".
Proof.
  destruct (registration_survives_restart "framework-1" (ex_scheduler NewRunOnceRunner) NewSchedulerConfig)
    as (loaded & Hl & _ & Hid); [reflexivity|].
  exists loaded. split; [exact Hl|exact Hid].
Defined.

(** With a second runner an offer can get two answers: a runner launches a
    task on it and, because another has no use for it, it is declined as
    well. *)
Theorem two_runners_answer_twice :
  ∃ (s s' : scheduler run_once ex_cron (option json)) d offer task,
    ResourceOffers [offer] (s, []) = (Ret tt, (s', d)) ∧
    d = [LaunchTasks (off_Id offer) task; DeclineOffer (off_Id offer)].
Proof.
  eexists (MkScheduler {["a" := ex_staged; "b" := NewRunOnceRunner]} [] [] NewFrameworkStorage
             None true), _, _, (ex_offer "h1"), _.
  split; [by vm_compute|reflexivity].
Qed.
End examples.
