(* ===== verification/SchedulerRuns.v ===== *)
(** The scheduler with the run-once runner and the cron service as one system:
    requests, cron entries that become due, offers and status updates, in any
    order. What is staged, what is launched for it, and what a removal from the
    schedule stops. *)
From S2P Require Import Prelude GoStrings Errors Json Data Constraints MesosState.
From S2P Require Import MesosRunner FrameworkStorage Application RunOnce RunOnceFacts RunOnceHistory.
From S2P Require Import Scheduler SchedulerFacts.
From Stdlib Require Import Lia.
Open Scope string_scope.
Open Scope list_scope.
Open Scope nat_scope.

(** [Asked]: [RunApplication]; [Cancelled]: [RemoveScheduled]; [Due]: the time of
    a cron entry has come. The state of the cluster is as it is then. *)
Inductive event : Type :=
| Asked (application : Application) (mesos : MesosState)
| Cancelled (id : Z)
| Due (id : Z) (spec : string) (j : job) (mesos : MesosState)
| OffersCame (offers : list Offer)
| StatusCame (status : TaskStatus).

Section system.
Context `{ord : MapOrder} `{rx : Regexp} `{drv : Driver} {C T : Type}.
Context `{CronScheduler C} `{DocumentStorage T}.
Abbreviation state := (scheduler run_once C T).
Implicit Types (s : state) (w : state * driver).

(** The closures of [time_scheduler.go]. The runner is the one that scheduled
    them; what its channel will say is waited for by nobody else. *)
Definition due (j : job) (mesos : MesosState) : M state error unit := λ s,
  match j with
  | AddJob _ _ =>
      (Ret tt, MkScheduler (MesosTaskRunners s) (fire j (Cron s)) (scheduledTasks s) (Storage s)
                 (document s) (connected s))
  | StageJob application =>
      match MesosTaskRunners s !! "run-once" with
      | None => (Panic nil_dereference, s)
      | Some r =>
          let '(o, r') := RunOnce.StageApplication application mesos r in
          ((λ _, tt) <$> o, set_runners (<["run-once" := r']> (MesosTaskRunners s)) s)
      end
  end.

Definition handle (ev : event) : M (state * driver) error unit := λ w,
  match ev with
  | Asked a mesos =>
      let '(o, s) := RunApplication a mesos w.1 in ((λ _, tt) <$> o, (s, w.2))
  | Cancelled id => let '(o, s) := RemoveScheduled id w.1 in ((λ _, tt) <$> o, (s, w.2))
  | Due _ _ j mesos => let '(o, s) := due j mesos w.1 in (o, (s, w.2))
  | OffersCame offers => ResourceOffers offers w
  | StatusCame status => scheduler_StatusUpdate status w
  end.
Definition enabled (ev : event) s : Prop :=
  match ev with Due id spec j _ => (id, spec, j) ∈ Entries (Cron s) | _ => True end.

Definition is_scheduled (a : Application) : bool :=
  negb (String.eqb (App.TimeSchedule a) "") || negb (String.eqb (App.StartTime a) "").
(** What an event gives to the runner, and with how many instances. *)
Definition instances_of (a : Application) (mesos : MesosState) : list (Application * Z) :=
  match GetInstances a mesos with Ret n => [(a, n)] | _ => [] end.
Definition staged_by (ev : event) s : list (Application * Z) :=
  match ev with
  | Asked a mesos =>
      if MesosTaskRunners s !! App.Typ a is Some _
      then if is_scheduled a then [] else instances_of a mesos
      else []
  | Due _ _ (StageJob a) mesos => instances_of a mesos
  | _ => []
  end.

(** An event that does not take the server down. *)
Inductive occurs (ev : event) (l : list (Application * Z)) w w' : Prop :=
| occurs_intro o :
    enabled ev w.1 → handle ev w = (o, w') → (∀ p, o ≠ Panic p) → l = staged_by ev w.1 →
    Forall (λ x, (0 ≤ x.2 ≤ max_int64)%Z) l → occurs ev l w w'.
Inductive happened : list event → list (Application * Z) → state * driver → state * driver → Prop :=
| happened_nil w : happened [] [] w w
| happened_snoc h l ev l' w0 w1 w2 :
    happened h l w0 w1 → occurs ev l' w1 w2 → happened (h ++ [ev]) (l ++ l') w0 w2.

(** The program registers one runner ([main.go]). *)
Definition one_runner (r : run_once) s : Prop := MesosTaskRunners s = {["run-once" := r]}.

(** ** What one runner sees *)
Lemma acceptOffer_single offer r d :
  acceptOffer offer {["run-once" := r]} d =
    match RunOnce.ResourceOffer offer (r, d) with
    | (Ret reason, (r', d')) => (Ret reason, ({["run-once" := r']}, d'))
    | (Err _, (r', d')) => (Ret "", ({["run-once" := r']}, d'))
    | (Panic p, (r', d')) => (Panic p, ({["run-once" := r']}, d'))
    end.
Proof.
  rewrite /acceptOffer range_singleton. cbn [accept_loop].
  change (MesosRunner.ResourceOffer offer (r, d)) with (RunOnce.ResourceOffer offer (r, d)).
  destruct (RunOnce.ResourceOffer offer (r, d)) as [[reason|e|p] [r' d']];
    rewrite insert_singleton_eq; try done.
  by destruct (String.eqb_spec reason "") as [->|_].
Qed.

Lemma hostname_no_error taskID e : hostnameFromTaskID taskID ≠ Err e.
Proof.
  rewrite /hostnameFromTaskID. destruct (Index taskID pipe); [|done].
  by destruct (Index _ pipe).
Qed.
Lemma StatusUpdate_no_error status r e r' : RunOnce.StatusUpdate status r ≠ (Err e, r').
Proof.
  rewrite /RunOnce.StatusUpdate /applicationIDFromTaskID.
  destruct (Index (ts_TaskId status) pipe); [|done]. destruct (applications r !! _); [|done].
  rewrite /context_StatusUpdate. pose proof (hostname_no_error (ts_TaskId status)) as Hh.
  destruct (hostnameFromTaskID (ts_TaskId status)) as [host|e'|p]; simpl; [|by destruct (Hh e')|done].
  by destruct (ts_State status); try destruct (allTasksFinished _).
Qed.

Lemma StatusUpdate_single status r s d o w' :
  one_runner r s → scheduler_StatusUpdate status (s, d) = (o, w') → (∀ p, o ≠ Panic p) →
  ∃ b r', RunOnce.StatusUpdate status r = (Ret b, r') ∧
    w' = (set_runners {["run-once" := r']} s,
          if decide (ts_State status = TASK_FINISHED) then d ++ [ReviveOffers] else d).
Proof.
  rewrite /scheduler_StatusUpdate => ->. rewrite range_singleton. cbn [update_loop].
  change (MesosRunner.StatusUpdate status r) with (RunOnce.StatusUpdate status r).
  destruct (RunOnce.StatusUpdate status r) as [[[]|e|p] r'] eqn:Hu; rewrite insert_singleton_eq.
  1,2: intros [= _ <-] _; by eexists _, _.
  - by destruct (StatusUpdate_no_error status r e r').
  - intros [= <- _] Hp. by destruct (Hp p).
Qed.

(** ** Invariants of the runner, the driver and what was staged *)
Section invariant.
Context (I : list (Application * Z) → run_once → driver → Prop).
Context (Hstage : ∀ l r d a mesos n ch r', I l r d → GetInstances a mesos = Ret n →
  (0 ≤ n ≤ max_int64)%Z → RunOnce.StageApplication a mesos r = (Ret ch, r') →
  I (l ++ [(a, n)]) r' d).
Context (Hoffer : ∀ l r d offer o r' d', I l r d →
  RunOnce.ResourceOffer offer (r, d) = (o, (r', d')) →
  (∀ p, o ≠ Panic p) → I l r' d').
Context (Hupdate : ∀ l r d status b r', I l r d →
  RunOnce.StatusUpdate status r = (Ret b, r') → I l r' d).
Context (Hcall : ∀ l r d call, I l r d →
  (∀ offer task, call ≠ LaunchTasks offer task) → I l r (d ++ [call])).

Lemma ResourceOffers_keeps offers : ∀ l r s d o s' d',
  one_runner r s → I l r d → ResourceOffers offers (s, d) = (o, (s', d')) → (∀ p, o ≠ Panic p) →
  ∃ r', one_runner r' s' ∧ I l r' d'.
Proof.
  induction offers as [|offer offers IH]; intros l r s d o s' d' Hr HI Hrun Hp; simpl in Hrun.
  { injection Hrun as <- <- <-. by exists r. }
  rewrite Hr acceptOffer_single in Hrun.
  destruct (RunOnce.ResourceOffer offer (r, d)) as [[reason|e|p] [r1 d1]] eqn:Ho; [..|].
  - eapply IH; [| |exact Hrun|done]; [done|].
    assert (I l r1 d1) as H1 by by eapply Hoffer.
    destruct (String.eqb reason ""); [done|]. by apply Hcall.
  - eapply IH; [| |exact Hrun|done]; [done|]. by eapply Hoffer.
  - injection Hrun as <- <- <-. by destruct (Hp p).
Qed.

Lemma stage_keeps l r d a mesos o r' :
  I l r d → RunOnce.StageApplication a mesos r = (o, r') → (∀ p, o ≠ Panic p) →
  Forall (λ x, (0 ≤ x.2 ≤ max_int64)%Z) (instances_of a mesos) → I (l ++ instances_of a mesos) r' d.
Proof.
  intros HI Hst Hp Hl. pose proof Hst as Hst'. rewrite /instances_of in Hl |- *.
  rewrite /RunOnce.StageApplication in Hst'.
  destruct (GetInstances a mesos) as [n|e|p] eqn:Hn; simpl in Hst'.
  - injection Hst' as <- _. eapply Hstage; [done..| |done]. by inversion Hl.
  - injection Hst' as _ <-. by rewrite app_nil_r.
  - injection Hst' as <- _. by destruct (Hp p).
Qed.

Lemma occurs_keeps ev l l' r w w' :
  one_runner r w.1 → I l r w.2 → occurs ev l' w w' →
  ∃ r', one_runner r' w'.1 ∧ I (l ++ l') r' w'.2.
Proof.
  destruct w as [s d]. simpl. intros Hr HI [o Hen Hrun Hp -> Hrange].
  destruct ev as [a mesos|id|id spec j mesos|offers|status]; simpl in *.
  - revert Hrun. rewrite /RunApplication. destruct (MesosTaskRunners s !! App.Typ a) as [r0|] eqn:Ht.
    2:{ intros [= _ <-]. exists r. by rewrite app_nil_r. }
    rewrite Hr in Ht. apply lookup_singleton_Some in Ht as [Ht ->].
    fold (is_scheduled a). destruct (is_scheduled a).
    + destruct (MesosRunner.ScheduleApplication _ _ _) as [id cron]. intros [= _ <-].
      exists r0. by rewrite app_nil_r.
    + change (MesosRunner.StageApplication a mesos r0) with (RunOnce.StageApplication a mesos r0).
      destruct (RunOnce.StageApplication a mesos r0) as [[ch|e|p] r'] eqn:Hst; intros [= <- <-];
        [| |by destruct (Hp p)]; exists r';
        (split; [by rewrite /one_runner /= Hr -Ht insert_singleton_eq|]);
        by eapply stage_keeps.
  - revert Hrun. rewrite /RemoveScheduled Hr lookup_singleton_eq.
    destruct (remove_task id (scheduledTasks s)); intros [= _ <-]; exists r; by rewrite app_nil_r.
  - revert Hrun. destruct j as [a|spec' j']; simpl.
    + rewrite Hr lookup_singleton_eq.
      destruct (RunOnce.StageApplication a mesos r) as [o' r'] eqn:Hst. intros [= <- <-].
      exists r'. split; [by rewrite /one_runner /= insert_singleton_eq|].
      eapply stage_keeps; [done..| |done]. intros p ->. by apply (Hp p).
    + intros [= _ <-]. exists r. by rewrite app_nil_r.
  - destruct w' as [s' d']. rewrite app_nil_r. by eapply ResourceOffers_keeps.
  - destruct (StatusUpdate_single status r s d o w' Hr Hrun Hp) as (b & r' & Hu & ->).
    exists r'. split; [done|]. simpl. rewrite app_nil_r. apply (Hupdate _ _ _ _ _ _ HI) in Hu.
    case_decide; [by apply Hcall|done].
Qed.

Lemma happened_keeps h l l0 r w w' :
  happened h l w w' → one_runner r w.1 → I l0 r w.2 →
  ∃ r', one_runner r' w'.1 ∧ I (l0 ++ l) r' w'.2.
Proof.
  intros Hh Hr HI. induction Hh as [w|h l ev l' w0 w1 w2 Hh IH Ho].
  - exists r. by rewrite app_nil_r.
  - destruct (IH Hr HI) as (r1 & Hr1 & HI1). rewrite app_assoc. by eapply occurs_keeps.
Qed.
End invariant.

(** ** How many tasks are launched *)

(** The tasks launched for the application with the ID [id]. *)
Definition is_task_of (id : string) (info : TaskInfo) : bool :=
  match applicationIDFromTaskID (ti_TaskId info) with Ret id' => String.eqb id' id | _ => false end.
Definition tasks_of (id : string) (d : driver) : nat := length (filter (is_task_of id) (launches d)).
(** The instances an ID was staged with. *)
Definition staged_instances (id : string) (l : list (Application * Z)) : Z :=
  foldr Z.add 0%Z (snd <$> filter (λ x : Application * Z, App.ID x.1 = id) l).
(** The instances that are not launched yet. *)
Definition left_to_run (id : string) (r : run_once) : Z :=
  default 0%Z (InstancesLeftToRun <$> applications r !! id).

Definition no_pipes (l : list (Application * Z)) : Prop := Forall (λ x, no_pipe (App.ID x.1)) l.
Definition within_budget (l : list (Application * Z)) (r : run_once) (d : driver) : Prop :=
  ∃ g, runner_ok g r ∧
    (no_pipes l →
     (∀ id ctx, applications r !! id = Some ctx → no_pipe id) ∧
     ∀ id, (Z.of_nat (tasks_of id d) + left_to_run id r ≤ staged_instances id l)%Z).

Lemma sum_app (l k : list Z) : foldr Z.add 0%Z (l ++ k) = (foldr Z.add 0 l + foldr Z.add 0 k)%Z.
Proof. induction l as [|x l IH]; simpl; [done|]. rewrite IH. lia. Qed.
Lemma staged_instances_app id l a n :
  staged_instances id (l ++ [(a, n)]) =
    (staged_instances id l + if decide (App.ID a = id) then n else 0)%Z.
Proof.
  rewrite /staged_instances filter_app fmap_app sum_app. f_equal.
  case_decide as Ha.
  - rewrite filter_cons_True //=. lia.
  - by rewrite filter_cons_False.
Qed.
Lemma tasks_of_app id d d' : tasks_of id (d ++ d') = tasks_of id d + tasks_of id d'.
Proof. by rewrite /tasks_of launches_app filter_app length_app. Qed.
Lemma left_to_run_pos g r id : runner_ok g r → (0 ≤ left_to_run id r)%Z.
Proof.
  intros Hok. rewrite /left_to_run. destruct (applications r !! id) as [ctx|] eqn:Hin; simpl; [|done].
  by apply (ok_left _ _ _ _ (ok_contexts _ _ Hok id ctx Hin)).
Qed.
Lemma left_to_run_insert id id' ctx m ch se :
  left_to_run id (MkRunOnce (<[id' := ctx]> m) ch se) =
    if decide (id' = id) then InstancesLeftToRun ctx else left_to_run id (MkRunOnce m ch se).
Proof. rewrite /left_to_run /= lookup_insert. by case_decide. Qed.
Lemma no_pipes_app l l' : no_pipes (l ++ l') → no_pipes l ∧ no_pipes l'.
Proof. by rewrite /no_pipes Forall_app. Qed.

(** The one task of a launch. *)
Lemma tasks_of_launch id ctx offer uuid x :
  no_pipe (App.ID (cx_Application ctx)) →
  tasks_of id [LaunchTasks x (newTaskInfo ctx offer uuid)] =
    if decide (App.ID (cx_Application ctx) = id) then 1 else 0.
Proof.
  intros Hn. rewrite /tasks_of /launches. cbn [omap list_omap].
  pose proof (Index_before_pipe (App.ID (cx_Application ctx))
    (GetHostname offer +:+ pipe +:+ uuid) Hn) as Hi.
  assert (applicationIDFromTaskID (ti_TaskId (newTaskInfo ctx offer uuid)) =
    Ret (App.ID (cx_Application ctx))) as Hid.
  { by rewrite /applicationIDFromTaskID /= Hi take_str_app. }
  rewrite filter_cons /is_task_of Hid. destruct (String.eqb_spec (App.ID (cx_Application ctx)) id);
    by rewrite /= decide_bool_decide /=; case_decide.
Qed.

Lemma budget_stage l r d a mesos n ch r' :
  within_budget l r d → GetInstances a mesos = Ret n → (0 ≤ n ≤ max_int64)%Z →
  RunOnce.StageApplication a mesos r = (Ret ch, r') → within_budget (l ++ [(a, n)]) r' d.
Proof.
  intros (g & Hok & Hb) Hn Hrange Hst. exists (<[ch := (a, n)]> g).
  split; [by eapply runner_ok_stage|]. intros [Hl Ha]%no_pipes_app. destruct (Hb Hl) as [Hids Hsum].
  rewrite /no_pipes Forall_singleton /= in Ha.
  revert Hst. rewrite /RunOnce.StageApplication Hn. destruct (Z.eqb_spec n 0) as [->|Hz]; intros [= <- <-].
  - split; [done|]. intros id. specialize (Hsum id). rewrite staged_instances_app.
    rewrite /left_to_run /= in Hsum |- *. case_decide; lia.
  - split; simpl.
    + intros id ctx [[<- _]|[_ Hin]]%lookup_insert_Some; [done|by eapply Hids].
    + intros id. rewrite staged_instances_app left_to_run_insert /=. specialize (Hsum id).
      pose proof (left_to_run_pos g r id Hok). case_decide; [|rewrite /left_to_run /= in Hsum |- *]; lia.
Qed.
Lemma budget_offer l r d offer o r' d' :
  within_budget l r d → RunOnce.ResourceOffer offer (r, d) = (o, (r', d')) → (∀ p, o ≠ Panic p) →
  within_budget l r' d'.
Proof.
  intros (g & Hok & Hb) Hrun Hp. exists g. split; [by eapply runner_ok_offer|]. intros Hl.
  destruct (Hb Hl) as [Hids Hsum]. pose proof (ResourceOffer_run offer r d) as Hr. rewrite Hrun in Hr.
  destruct o as [reason|e|p]; [| |by destruct (Hp p)].
  all: destruct Hr as [(id & ctx & Hin & (Hz & _) & [= -> ->] & _)|([= -> ->] & _)]; [|done].
  all: destruct (launched_left g r id ctx offer (newTaskInfo ctx offer (new_UUID d))
                (ok_contexts _ _ Hok _ _ Hin) Hz) as [Heq _];
    pose proof (ok_id _ _ _ _ (ok_contexts _ _ Hok _ _ Hin)) as Hid.
  all: split; simpl;
    [by intros id' ctx' [[<- _]|[_ Hin']]%lookup_insert_Some; [eapply Hids|eapply Hids]|].
  all: intros id'; specialize (Hsum id'); rewrite tasks_of_app tasks_of_launch;
    [|rewrite Hid; by eapply Hids];
    rewrite left_to_run_insert Heq Hid; rewrite /left_to_run in Hsum |- *;
    case_decide; [subst id'|simpl; lia];
    rewrite Hin /= in Hsum; lia.
Qed.
Lemma budget_update l r d status b r' :
  within_budget l r d → RunOnce.StatusUpdate status r = (Ret b, r') → within_budget l r' d.
Proof.
  intros (g & Hok & Hb) Hu. exists g. split; [by eapply runner_ok_update|]. intros Hl.
  destruct (Hb Hl) as [Hids Hsum].
  apply StatusUpdate_run in Hu as [[_ ->]|(id & ctx & result & _ & _ & Hin & _ & ->)];
    [done|].
  destruct result as [x|]; split; simpl.
  - intros id' ctx' [_ Hin']%lookup_delete_Some. by eapply Hids.
  - intros id'. specialize (Hsum id'). pose proof (left_to_run_pos g r id' Hok).
    rewrite {1}/left_to_run /= lookup_delete. case_decide; simpl; [lia|done].
  - intros id' ctx' [[<- _]|[_ Hin']]%lookup_insert_Some; by eapply Hids.
  - intros id'. specialize (Hsum id'). rewrite left_to_run_insert. case_decide; [|done].
    subst id'. by rewrite /left_to_run Hin /= in Hsum |- *.
Qed.
Lemma budget_call l r d call :
  within_budget l r d → (∀ offer task, call ≠ LaunchTasks offer task) →
  within_budget l r (d ++ [call]).
Proof.
  intros (g & Hok & Hb) Hc. exists g. split; [done|]. intros Hl. destruct (Hb Hl) as [Hids Hsum].
  split; [done|]. intros id. rewrite tasks_of_app.
  assert (tasks_of id [call] = 0) as ->; [|by rewrite Nat.add_0_r].
  destruct call as [offer task| |]; [by destruct (Hc offer task)|done|done].
Qed.
End system.

(** ** Where stagings come from *)
Section cron.
Context `{ord : MapOrder} `{rx : Regexp} `{drv : Driver} {C T : Type}.
Context `{CronSchedulerLaws C} `{DocumentStorage T}.
Implicit Types (w : scheduler run_once C T * driver) (e : Z * string * job).

(** The application a job is about. *)
Fixpoint job_app (j : job) : Application :=
  match j with StageJob a => a | AddJob _ j' => job_app j' end.
Lemma job_app_scheduled a : job_app (scheduled_job a) = a.
Proof. rewrite /scheduled_job. by destruct (_ || _). Qed.

(** The events that ask for the application. *)
Definition asks_for (a : Application) (ev : event) : Prop := ∃ mesos, ev = Asked a mesos.

Lemma ResourceOffers_cron offers : ∀ w,
  Cron (ResourceOffers offers w).2.1 = Cron w.1 ∧
  scheduledTasks (ResourceOffers offers w).2.1 = scheduledTasks w.1.
Proof.
  induction offers as [|offer offers IH]; intros [s d]; [done|]. simpl.
  destruct (acceptOffer offer (MesosTaskRunners s) d) as [[reason|e|p] [m d']]; [|done..].
  apply (IH (set_runners m s, _)).
Qed.
Lemma scheduler_StatusUpdate_cron status w :
  Cron (scheduler_StatusUpdate status w).2.1 = Cron w.1.
Proof.
  destruct w as [s d]. rewrite /scheduler_StatusUpdate.
  by destruct (update_loop status _ _).
Qed.

Lemma occurs_entries (P : Z * string * job → Prop) ev l w w' :
  occurs ev l w w' →
  (∀ e, e ∈ Entries (Cron w.1) → P e) →
  (∀ a id, asks_for a ev → P (id, scheduled_spec a, scheduled_job a)) →
  (∀ i spec spec' j id, P (i, spec, AddJob spec' j) → P (id, spec', j)) →
  ∀ e, e ∈ Entries (Cron w'.1) → P e.
Proof.
  intros [o Hen Hrun Hp _ _] Hall Hask Hadd.
  assert (∀ spec j, (∀ id, P (id, spec, j)) →
    ∀ e, e ∈ Entries (add_func spec j (Cron w.1)).2 → P e)
    as Hnew.
  { intros spec j Hj e. pose proof (add_func_run spec j (Cron w.1)) as Hr.
    destruct (add_func spec j (Cron w.1)) as [id c]. simpl.
    destruct (valid_spec spec); destruct Hr as [_ ->].
    - intros [?| ->%list_elem_of_singleton]%elem_of_app; [by apply Hall|apply Hj].
    - apply Hall. }
  destruct ev as [a mesos|id|i spec j mesos|offers|status]; simpl in Hrun.
  - revert Hrun. rewrite /RunApplication. destruct (MesosTaskRunners w.1 !! App.Typ a) as [r|];
      [|by intros [= _ <-]].
    fold (is_scheduled a). destruct (is_scheduled a) eqn:Hsch.
    + change (MesosRunner.ScheduleApplication r a (Cron w.1))
        with (RunOnce.ScheduleApplication a (Cron w.1)).
      assert (App.StartTime a ≠ "" ∨ App.TimeSchedule a ≠ "") as Ha.
      { revert Hsch. rewrite /is_scheduled. destruct (String.eqb_spec (App.StartTime a) ""); [|by left].
        destruct (String.eqb_spec (App.TimeSchedule a) ""); [done|by right]. }
      pose proof (ScheduleApplication_run a (Cron w.1) Ha) as Hr.
      destruct (RunOnce.ScheduleApplication a (Cron w.1)) as [id cron]. intros [= _ <-] e. simpl.
      destruct (valid_spec (scheduled_spec a)); destruct Hr as [_ ->]; [|apply Hall].
      intros [?| ->%list_elem_of_singleton]%elem_of_app; [by apply Hall|]. apply Hask. by exists mesos.
    + by destruct (MesosRunner.StageApplication a mesos r) as [[ch|e|p] r']; intros [= _ <-].
  - revert Hrun. rewrite /RemoveScheduled. destruct (MesosTaskRunners w.1 !! "run-once");
      [|by intros [= _ <-]].
    assert (∀ e, e ∈ Entries (RunOnce.DeleteSchedule id (Cron w.1)) → P e) as Hdel.
    { intros e. rewrite /RunOnce.DeleteSchedule DeleteJob_law list_elem_of_filter.
      intros [_ ?]. by apply Hall. }
    by destruct (remove_task id (scheduledTasks w.1)); intros [= _ <-].
  - revert Hrun. destruct j as [a|spec' j']; simpl.
    + destruct (MesosTaskRunners w.1 !! "run-once") as [r|]; [|by intros [= _ <-]].
      by destruct (RunOnce.StageApplication a mesos r); intros [= _ <-].
    + intros [= _ <-]. simpl. apply Hnew. intros id'. eapply Hadd, Hall, Hen.
  - intros e. pose proof (proj1 (ResourceOffers_cron offers w)) as Hc.
    rewrite Hrun /= in Hc. rewrite Hc. apply Hall.
  - intros e. pose proof (scheduler_StatusUpdate_cron status w) as Hc.
    rewrite Hrun /= in Hc. rewrite Hc. apply Hall.
Qed.

(** A staging is asked for, or due. *)
Lemma staged_why a ev l w w' : occurs ev l w w' → a ∈ l.*1 →
  asks_for a ev ∨ ∃ i spec, (i, spec, StageJob a) ∈ Entries (Cron w.1).
Proof.
  intros [o Hen _ _ -> _].
  assert (∀ b mesos, a ∈ (instances_of b mesos).*1 → a = b) as Hin.
  { intros b mesos. rewrite /instances_of. destruct (GetInstances b mesos); simpl;
      [by intros ?%list_elem_of_singleton|by intros ?%elem_of_nil..]. }
  destruct ev as [b mesos|id|i spec [b|? ?] mesos|offers|status]; simpl;
    try by intros ?%elem_of_nil.
  - destruct (MesosTaskRunners w.1 !! App.Typ b); [|by intros ?%elem_of_nil].
    destruct (is_scheduled b); [by intros ?%elem_of_nil|]. intros ->%Hin. left. by exists mesos.
  - intros ->%Hin. right. by exists i, spec.
Qed.

Definition unscheduled (a : Application) w : Prop := ∀ e, e ∈ Entries (Cron w.1) → job_app e.2 ≠ a.
Definition only_under (id : Z) (a : Application) w : Prop :=
  ∀ e, e ∈ Entries (Cron w.1) → job_app e.2 = a → e.1.1 = id ∧ e.2 = StageJob a.

Lemma unscheduled_happened a h l w w' :
  happened h l w w' → unscheduled a w → (∀ ev, ev ∈ h → ¬ asks_for a ev) →
  unscheduled a w' ∧ a ∉ l.*1.
Proof.
  induction 1 as [w|h l ev l' w0 w1 w2 Hh IH Ho]; intros Hu Hask; [by split; [|apply not_elem_of_nil]|].
  destruct IH as [Hu1 Hl]; [done|intros ev' Hev; apply Hask, elem_of_app; by left|].
  assert (¬ asks_for a ev) as Hev by (apply Hask, elem_of_app; right; left).
  split.
  - intros e He. eapply (occurs_entries (λ e, job_app e.2 ≠ a)); [exact Ho|exact Hu1| |done|exact He].
    intros b id Hb. rewrite /= job_app_scheduled. by intros ->.
  - rewrite fmap_app not_elem_of_app. split; [done|].
    intros [?|(i & spec & Hin)]%(staged_why a ev l' w1 w2 Ho); [done|]. by apply (Hu1 _ Hin).
Qed.
Lemma only_under_happened id a h l w w' :
  happened h l w w' → only_under id a w → (∀ ev, ev ∈ h → ¬ asks_for a ev) →
  only_under id a w'.
Proof.
  induction 1 as [w|h l ev l' w0 w1 w2 Hh IH Ho]; intros Hu Hask; [done|].
  assert (¬ asks_for a ev) as Hev by (apply Hask, elem_of_app; right; left).
  intros e He. eapply (occurs_entries (λ e, job_app e.2 = a → e.1.1 = id ∧ e.2 = StageJob a));
    [exact Ho| | | |exact He].
  - apply IH; [done|]. intros ev' Hev'. apply Hask, elem_of_app. by left.
  - intros b id'. rewrite /= job_app_scheduled. by intros Hb ->.
  - simpl. intros i spec spec' j id' Hj Hj'. by destruct (Hj Hj').
Qed.

(** Scheduling, and removing from the schedule. *)
Lemma asked_only_under a mesos l w w' id :
  unscheduled a w → is_scheduled a = true → App.StartTime a = "" ∨ App.TimeSchedule a = "" →
  occurs (Asked a mesos) l w w' →
  scheduledTasks w'.1 = scheduledTasks w.1 ++ [scheduled_task id a] → only_under id a w'.
Proof.
  intros Hu Hsch Hone [o _ Hrun _ _ _] Hid e He Ha. simpl in Hrun. revert Hrun.
  destruct (MesosTaskRunners w.1 !! App.Typ a) as [r|] eqn:Hr.
  2:{ rewrite /RunApplication Hr. intros [= _ <-]. simpl in He. by destruct (Hu e He). }
  assert (App.StartTime a ≠ "" ∨ App.TimeSchedule a ≠ "") as Hset.
  { revert Hsch. rewrite /is_scheduled. destruct (String.eqb_spec (App.StartTime a) ""); [|by left].
    destruct (String.eqb_spec (App.TimeSchedule a) ""); [done|by right]. }
  rewrite (RunApplication_scheduled w.1 a mesos r Hr Hset).
  pose proof (ScheduleApplication_run a (Cron w.1) Hset) as Hs.
  destruct (RunOnce.ScheduleApplication a (Cron w.1)) as [id' cron]. intros [= _ <-]. simpl in *.
  apply app_inv_head in Hid. injection Hid as ->.
  destruct (valid_spec (scheduled_spec a)); destruct Hs as [_ Hent]; rewrite Hent in He.
  - apply elem_of_app in He as [He| ->%list_elem_of_singleton]; [by destruct (Hu e He)|].
    split; [done|]. rewrite /= /scheduled_job. destruct Hone as [-> | ->]; [done|].
    by rewrite orb_true_r.
  - by destruct (Hu e He).
Qed.
Lemma cancelled_unscheduled id a l w w' :
  only_under id a w → occurs (Cancelled id) l w w' → unscheduled a w'.
Proof.
  intros Hu [o _ Hrun Hp _ _] e He Ha. simpl in Hrun. revert Hrun. rewrite /RemoveScheduled.
  destruct (MesosTaskRunners w.1 !! "run-once"); [|by intros [= <- _]; destruct (Hp nil_dereference)].
  assert (Entries (Cron w'.1) = filter (λ e, e.1.1 ≠ id) (Entries (Cron w.1)) → False) as Hno.
  { intros Hent. rewrite Hent in He. apply list_elem_of_filter in He as [Hid He].
    by destruct (Hu e He Ha). }
  destruct (remove_task id (scheduledTasks w.1)); intros [= _ Hw]; apply Hno; rewrite -Hw /=;
    apply DeleteJob_law.
Qed.
End cron.

(** ** The theorems *)
Section theorems.
Context `{ord : MapOrder} `{rx : Regexp} `{drv : Driver} {C T : Type}.
Context `{CronSchedulerLaws C} `{DocumentStorage T}.
Implicit Types (w : scheduler run_once C T * driver).

(** C20. Whatever is asked for, scheduled, removed, due, offered and reported, and
    in whatever order: the tasks launched for an application are never more
    than the instances it was staged with, over all its stagings. IDs are
    without a ["|"], which separates them from the rest of a task's ID. *)
Theorem tasks_within_budget h l w w' :
  happened h l w w' → one_runner NewRunOnceRunner w.1 → launches w.2 = [] → no_pipes l →
  ∀ id, (Z.of_nat (tasks_of id w'.2) ≤ staged_instances id l)%Z.
Proof.
  intros Hh Hr Hd Hl id.
  destruct (happened_keeps within_budget budget_stage budget_offer budget_update budget_call
    h l [] NewRunOnceRunner w w' Hh Hr) as (r & _ & g & Hok & Hb).
  - exists ∅. split; [by apply (runs_ok (λ _, True) _ _ []), runs_new|]. intros _. split; [done|].
    intros id'. by rewrite /tasks_of Hd.
  - destruct (Hb Hl) as [_ Hsum]. specialize (Hsum id). pose proof (left_to_run_pos g r id Hok).
    simpl in Hsum. lia.
Qed.

(** C26. An application that is scheduled with a start time or with a schedule, but
    not both, and removed under the identifier it was listed with is not
    staged any more, whatever happens, unless it is asked for again; and one
    that is in no entry is not staged without being asked for. *)
Theorem removed_stays_removed a w :
  unscheduled a w →
  (∀ h l w', happened h l w w' → (∀ ev, ev ∈ h → ¬ asks_for a ev) → a ∉ l.*1) ∧
  (∀ mesos l0 w1 id h1 l1 w2 l2 w3 h2 l3 w4,
     is_scheduled a = true → App.StartTime a = "" ∨ App.TimeSchedule a = "" →
     occurs (Asked a mesos) l0 w w1 →
     scheduledTasks w1.1 = scheduledTasks w.1 ++ [scheduled_task id a] →
     happened h1 l1 w1 w2 → (∀ ev, ev ∈ h1 → ¬ asks_for a ev) →
     occurs (Cancelled id) l2 w2 w3 →
     happened h2 l3 w3 w4 → (∀ ev, ev ∈ h2 → ¬ asks_for a ev) →
     a ∉ l3.*1).
Proof.
  intros Hu. split.
  - intros h l w' Hh Hask. by apply (unscheduled_happened a h l w w').
  - intros mesos l0 w1 id h1 l1 w2 l2 w3 h2 l3 w4 Hsch Hone Ho Hid Hh1 Hask1 Hc Hh2 Hask2.
    apply (unscheduled_happened a h2 l3 w3 w4 Hh2); [|done].
    apply (cancelled_unscheduled id a l2 w2 w3); [|done].
    apply (only_under_happened id a h1 l1 w1 w2 Hh1); [|done].
    by apply (asked_only_under a mesos l0 w w1 id).
Qed.
End theorems.

(** ** Two instances on three offers, and a report that is taken from the schedule *)
Section examples.
#[local] Existing Instance ex_driver.
#[local] Existing Instance ex_regexp.
#[local] Existing Instance ex_order.
#[local] Existing Instance ex_cron_ops.
#[local] Existing Instance ex_cron_laws.
#[local] Existing Instance ex_storage_ops.
Abbreviation world := (scheduler run_once ex_cron (option json) * driver)%type.

Definition ex_world : world := (ex_scheduler NewRunOnceRunner, []).
Definition ex_after (ev : event) (w : world) : world := (handle ev w).2.

Lemma happened_then (ev : event) l l' h (w0 w1 : world) o :
  happened h l w0 w1 → enabled ev w1.1 → (handle ev w1).1 = o → (∀ p, o ≠ Panic p) →
  l' = staged_by ev w1.1 → Forall (λ x, (0 ≤ x.2 ≤ max_int64)%Z) l' →
  happened (h ++ [ev]) (l ++ l') w0 (ex_after ev w1).
Proof.
  intros Hh Hen Ho Hp Hl Hr. eapply happened_snoc; [exact Hh|].
  apply (occurs_intro _ _ _ _ o); [done| |done..].
  rewrite /ex_after. destruct (handle ev w1) as [o' w']. by rewrite -Ho.
Qed.

Definition ex_asked : world := ex_after (Asked ex_job ex_mesos) ex_world.
Definition ex_three : event := OffersCame [ex_offer "h1"; ex_offer "h2"; ex_offer "h3"].
Lemma ex_happened :
  happened [Asked ex_job ex_mesos; ex_three] [(ex_job, 2%Z)] ex_world (ex_after ex_three ex_asked).
Proof.
  apply (happened_then ex_three [(ex_job, 2%Z)] [] [Asked ex_job ex_mesos] ex_world ex_asked (Ret tt));
    [|done|by vm_compute|done|done|constructor].
  apply (happened_then _ [] _ [] ex_world ex_world (Ret tt));
    [constructor|done|by vm_compute|done|by vm_compute|].
  constructor; [by vm_compute|constructor].
Qed.
Lemma ex_tasks : tasks_of "job" (ex_after ex_three ex_asked).2 = 2.
Proof. by vm_compute. Qed.
Lemma tasks_within_budget_witness :
  (2 ≤ staged_instances "job" [(ex_job, 2%Z)])%Z ∧ staged_instances "job" [(ex_job, 2%Z)] = 2%Z.
Proof.
  split; [|by vm_compute].
  pose proof (tasks_within_budget _ _ _ _ ex_happened eq_refl eq_refl
    ltac:(by constructor; [vm_compute|constructor]) "job") as Hb.
  rewrite ex_tasks in Hb. exact Hb.
Defined.

(** A report that is due every day: scheduled, due, removed; then an offer. *)
Definition ex_report : Application := ex_cron_job "" "@daily".
Definition ex_scheduled : world := ex_after (Asked ex_report ex_mesos) ex_world.
Definition ex_due : event := Due 1 "@daily" (StageJob ex_report) ex_mesos.
Definition ex_ran : world := ex_after ex_due ex_scheduled.
Definition ex_removed : world := ex_after (Cancelled 1) ex_ran.
Definition ex_later : world := ex_after ex_three ex_removed.

Lemma ex_scheduled_occurs : occurs (Asked ex_report ex_mesos) [] ex_world ex_scheduled.
Proof. by apply (occurs_intro _ _ _ _ (Ret tt)); [|vm_compute| | |constructor]. Qed.
Lemma ex_ran_happened : happened [ex_due] [(ex_report, 1%Z)] ex_scheduled ex_ran.
Proof.
  apply (happened_then ex_due [] _ [] ex_scheduled ex_scheduled (Ret tt));
    [constructor|left|by vm_compute|done|by vm_compute|].
  constructor; [by vm_compute|constructor].
Qed.
Lemma ex_removed_occurs : occurs (Cancelled 1) [] ex_ran ex_removed.
Proof. by apply (occurs_intro _ _ _ _ (Ret tt)); [|vm_compute| | |constructor]. Qed.
Lemma ex_later_happened : happened [ex_three] [] ex_removed ex_later.
Proof.
  by apply (happened_then ex_three [] [] [] ex_removed ex_removed (Ret tt));
    [constructor| |vm_compute| | |constructor].
Qed.
Lemma ex_not_asked ev : ev ∈ [ex_due] ∨ ev ∈ [ex_three] → ¬ asks_for ex_report ev.
Proof. by intros [->%list_elem_of_singleton| ->%list_elem_of_singleton] [mesos [=]]. Qed.
Lemma ex_unscheduled : unscheduled ex_report ex_world.
Proof. by intros e ?%elem_of_nil. Qed.

Lemma removed_stays_removed_witness :
  Entries (Cron ex_scheduled.1) = [(1%Z, "@daily", StageJob ex_report)] ∧
  Entries (Cron ex_later.1) = [] ∧
  ex_report ∉ ([] : list (Application * Z)).*1.
Proof.
  split_and!; [by vm_compute|by vm_compute|].
  apply (proj2 (removed_stays_removed ex_report ex_world ex_unscheduled) ex_mesos [] ex_scheduled 1%Z
    [ex_due] [(ex_report, 1%Z)] ex_ran [] ex_removed [ex_three] [] ex_later); try done.
  - by left.
  - exact ex_scheduled_occurs.
  - exact ex_ran_happened.
  - intros ev Hev. apply ex_not_asked. by left.
  - exact ex_removed_occurs.
  - exact ex_later_happened.
  - intros ev Hev. apply ex_not_asked. by right.
Defined.
End examples.
