(* ===== verification/Server.v ===== *)
(** The HTTP API of [framework/server.go]: its routes, the two middlewares, the
    handlers and [runStack]; and [Bootstrap] of [command/server.go].

    The server is proved against interfaces of the stores, of the scheduler and
    of the code it cannot see: decoding requests, printing answers. *)
From S2P Require Import Prelude GoStrings Errors Json Variables Data Constraints MesosState.
From S2P Require Import StateStorage UserStorage.
From stdpp Require Import sorting.
From Stdlib Require Import Lia.
Open Scope string_scope.
Open Scope list_scope.

(** ** Interfaces *)

(** [Storage], with a handle [P] for the pointers to stacks it deals in:
    [new_stack] is a freshly parsed stack, [set_layer_from] the two assignments
    of [CreateLayerHandler], [merge_stacks] the call [layers.Merge] and
    [contents] reads a stack. *)
Class Storage (S P : Type) := {
  GetAll : M S error (list P);
  GetStack : string → M S error P;
  GetStackRunner : string → M S error P;
  StoreStack : P → M S error unit;
  RemoveStack : string → bool → M S error unit;
  GetLayersStack : string → M S error P;
  new_stack : Stack → M S error P;
  merge_stacks : P → P → M S error unit;
  contents : P → M S error Stack
}.

(** [Scheduler], what the handlers use of it; [refresh] is the update of the
    state of Mesos. *)
Class Scheduler (C : Type) := {
  refresh : M C error unit;
  scheduled : C → string;
  RemoveScheduled : Z → M C error bool
}.

(** [Stack.Run]: its outcome, which also depends on Marathon and on the
    interleaving of its goroutines. A run that does not return, or takes the
    process down, is a panic here. The variables are those of its context. *)
Class StackRunner (SS C : Type) := {
  run_stack : Stack → RunRequest → M (SS * C * Variables) error unit
}.

(** Decoding request bodies: the value of the request variable afterwards,
    [None] for a nil pointer, and the error. *)
Class Codec := {
  decode_get : string → option GetStackRequest * option error;
  decode_run : string → option RunRequest * option error;
  decode_create : string → option CreateStackRequest * option error;
  decode_layer : string → option CreateLayerRequest * option error;
  decode_remove : string → option RemoveStackRequest * option error;
  parse_json : string → option json;
  decode_scheduled : string → RemoveScheduledRequest * option error;
  UnmarshalStack : string → result Stack;
  marshal_stack : Stack → result string;
  marshal_names : list string → result string
}.

(** ** Requests and responses *)
Record request : Type := MkRequest {
  rq_path : string;
  rq_user : string;
  rq_key : string;
  rq_body : string
}.
(** [http.ResponseWriter]: the first status written counts. *)
Record writer : Type := MkWriter { w_status : option Z; w_body : string }.
Definition WriteHeader (status : Z) (w : writer) : writer :=
  MkWriter (Some (default status (w_status w))) (w_body w).
Definition Write (text : string) (w : writer) : writer :=
  MkWriter (Some (default 200%Z (w_status w))) (w_body w +:+ text).
Definition http_Error (message : string) (status : Z) (w : writer) : writer :=
  Write (message +:+ String newline "") (WriteHeader status w).

Definition StatusOK : Z := 200.
Definition StatusCreated : Z := 201.
Definition StatusBadRequest : Z := 400.
Definition StatusForbidden : Z := 403.
Definition StatusNotFound : Z := 404.
Definition StatusInternalServerError : Z := 500.

Record server (S U SS C : Type) : Type := MkServer {
  sv_storage : S;
  sv_userStorage : U;
  sv_stateStorage : SS;
  sv_scheduler : C
}.
Arguments MkServer {S U SS C}.
Arguments sv_storage {S U SS C}.
Arguments sv_userStorage {S U SS C}.
Arguments sv_stateStorage {S U SS C}.
Arguments sv_scheduler {S U SS C}.

Definition layerToInt (layer : string) : result Z :=
  if String.eqb layer "zone" then Ret LayerZone
  else if String.eqb layer "cluster" then Ret LayerCluster
  else if String.eqb layer "datacenter" then Ret LayerDataCenter
  else Err (Errorf ("Invalid layer: " +:+ layer)).

(** [strings.Sort]. *)
Definition sort_strings : list string → list string :=
  @merge_sort string (λ a b, String.leb a b = true) (λ a b, decide (String.leb a b = true)).

Section server.
Context `{ord : MapOrder} `{Codec} {Sto P U SS C : Type} `{Storage Sto P} `{UserStorage U} `{StateStorage SS}
  `{Scheduler C} `{StackRunner SS C}.
(** The variables given to the server at its start. *)
Context (globalVariables : gmap string string).
Abbreviation state := (server Sto U SS C).
Abbreviation handler := (request → M (writer * state) error unit).

(** A call on one of the stores, its error in hand. *)
Definition on_storage {A} (m : M Sto error A) : M state error A := λ s,
  let '(r, x) := m (sv_storage s) in
  (r, MkServer x (sv_userStorage s) (sv_stateStorage s) (sv_scheduler s)).
Definition on_users {A} (m : M U error A) : M state error A := λ s,
  let '(r, x) := m (sv_userStorage s) in
  (r, MkServer (sv_storage s) x (sv_stateStorage s) (sv_scheduler s)).
Definition on_states {A} (m : M SS error A) : M state error A := λ s,
  let '(r, x) := m (sv_stateStorage s) in
  (r, MkServer (sv_storage s) (sv_userStorage s) x (sv_scheduler s)).
Definition on_scheduler {A} (m : M C error A) : M state error A := λ s,
  let '(r, x) := m (sv_scheduler s) in
  (r, MkServer (sv_storage s) (sv_userStorage s) (sv_stateStorage s) x).
Definition on_run {A} (variables : Variables) (m : M (SS * C * Variables) error A) :
    M state error A := λ s,
  let '(r, (x, y, _)) := m (sv_stateStorage s, sv_scheduler s, variables) in
  (r, MkServer (sv_storage s) (sv_userStorage s) x y).

(** Handler code: a call of the server, its error in hand; writing. *)
Definition try {A} (m : M state error A) : M (writer * state) error (error + A) := λ '(w, s),
  match m s with
  | (Ret a, s') => (Ret (inr a), (w, s'))
  | (Err e, s') => (Ret (inl e), (w, s'))
  | (Panic p, s') => (Panic p, (w, s'))
  end.
Definition respond (f : writer → writer) : M (writer * state) error unit := λ '(w, s),
  (Ret tt, (f w, s)).
Definition reject (message : string) (status : Z) : M (writer * state) error unit :=
  respond (http_Error message status).
(** Reading a field of a request that may be nil. *)
Definition non_nil {A} (r : option A) : M (writer * state) error A :=
  match r with Some a => mret a | None => panic nil_dereference end.

(** ** Middlewares *)
Definition Auth (h : handler) : handler := λ r,
  valid ← try (on_users (CheckKey (rq_user r) (rq_key r)));
  match valid with
  | inl e => reject (Error e) StatusInternalServerError
  | inr false => reject "Unauthorized" StatusForbidden
  | inr true => h r
  end.
Definition Admin (h : handler) : handler := λ r,
  admin ← try (on_users (IsAdmin (rq_user r)));
  match admin with
  | inl e => reject (Error e) StatusInternalServerError
  | inr false => reject ("User " +:+ rq_user r +:+ " is not an admin") StatusForbidden
  | inr true => h r
  end.

(** ** Running a stack *)
Definition layered_runner (rq : RunRequest) : M state error P :=
  runner ← on_storage (GetStackRunner (rr_Name rq));
  if negb (String.eqb (rr_Zone rq) "") then
    layers ← on_storage (GetLayersStack (rr_Zone rq));
    on_storage (merge_stacks layers runner) ;;
    mret layers
  else mret runner.
Definition runStack (rq : RunRequest) (variables : Variables) : M state error unit :=
  runner ← layered_runner rq;
  on_states (SaveStackStatus (rr_Name rq) (rr_Zone rq) StackStatusStaging) ;;
  stack ← on_storage (contents runner);
  err ← catch (on_run variables (run_stack stack rq));
  match err with
  | inl e =>
      catch (on_states (SaveStackStatus (rr_Name rq) (rr_Zone rq) StackStatusFailed)) ;;
      fail e
  | inr _ => on_states (SaveStackStatus (rr_Name rq) (rr_Zone rq) StackStatusRunning)
  end.

Definition request_variables (rq : RunRequest) : Variables :=
  set_all SetArbitraryVariable (range 1 (rr_Variables rq))
    (set_all SetGlobalVariable (range 0 globalVariables) NewVariables).

(** ** Handlers *)

(** Both errors of [ListHandler] are written without ending it. *)
Definition ListHandler : handler := λ r,
  stacks ← try (on_storage (GetAll ≫= (λ l, collect contents l)));
  let names := match stacks with inl _ => [] | inr l => Stk.Name <$> l end in
  match stacks with
  | inl e => reject (Error e) StatusInternalServerError
  | inr _ => mret tt
  end ;;
  yamlStacks ← try (lift (marshal_names (sort_strings names)));
  match yamlStacks with
  | inl e => reject (Error e) StatusInternalServerError
  | inr _ => mret tt
  end ;;
  respond (WriteHeader StatusOK) ;;
  respond (Write (match yamlStacks with inl _ => "" | inr y => y end)).

Definition GetStackHandler : handler := λ r,
  getRequest ← non_nil (decode_get (rq_body r)).1;
  if String.eqb (gs_Name getRequest) "" then reject "Stack name required" StatusBadRequest else
  stack ← try (on_storage (p ← GetStack (gs_Name getRequest); contents p));
  match stack with
  | inl e => reject (Error e) StatusNotFound
  | inr stack =>
      yamlStack ← try (lift (marshal_stack stack));
      match yamlStack with
      | inl e => reject (Error e) StatusInternalServerError
      | inr y => respond (WriteHeader StatusOK) ;; respond (Write y)
      end
  end.

Definition RunHandler : handler := λ r,
  runRequest ← non_nil (decode_run (rq_body r)).1;
  if String.eqb (rr_Name runRequest) "" then reject "Stack name required" StatusBadRequest else
  updated ← try (on_scheduler refresh);
  match updated with
  | inl e => reject (Error e) StatusNotFound
  | inr _ =>
      err ← try (runStack runRequest (request_variables runRequest));
      match err with
      | inl e => reject (Error e) StatusNotFound
      | inr _ => respond (WriteHeader StatusOK)
      end
  end.

Definition CreateStackHandler : handler := λ r,
  match decode_create (rq_body r) with
  | (_, Some e) => reject (Error e) StatusBadRequest
  | (rq, None) =>
      rq ← non_nil rq;
      stack ← try (lift (UnmarshalStack (cs_Stackfile rq)));
      match stack with
      | inl e => reject (Error e) StatusBadRequest
      | inr stack =>
          err ← try (on_storage (p ← new_stack stack; StoreStack p));
          match err with
          | inl e => reject (Error e) StatusBadRequest
          | inr _ => respond (WriteHeader StatusOK)
          end
      end
  end.

Definition as_layer (stack : Stack) (level : Z) (parent : string) : Stack :=
  Stk.MkStack (Stk.Namespace stack) (Stk.Name stack) parent (Stk.Applications stack) level.
Definition CreateLayerHandler : handler := λ r,
  match decode_layer (rq_body r) with
  | (_, Some e) => reject (Error e) StatusBadRequest
  | (rq, None) =>
      rq ← non_nil rq;
      stack ← try (lift (UnmarshalStack (cl_Stackfile rq)));
      match stack with
      | inl e => reject (Error e) StatusBadRequest
      | inr stack =>
          match layerToInt (cl_Layer rq) with
          | Ret level =>
              err ← try (on_storage (p ← new_stack (as_layer stack level (cl_Parent rq));
                                     StoreStack p));
              match err with
              | inl e => reject (Error e) StatusBadRequest
              | inr _ => respond (WriteHeader StatusOK)
              end
          | Err e => reject (Error e) StatusBadRequest
          | Panic p => panic p
          end
      end
  end.

Definition RemoveStackHandler : handler := λ r,
  removeRequest ← non_nil (decode_remove (rq_body r)).1;
  if String.eqb (rs_Name removeRequest) "" then reject "Stack name required" StatusBadRequest else
  err ← try (on_storage (RemoveStack (rs_Name removeRequest) (rs_Force removeRequest)));
  match err with
  | inl e => reject (Error e) StatusBadRequest
  | inr _ => respond (WriteHeader StatusOK)
  end.

(** The two handlers of users answer with the new key. *)
Definition user_handler (success : Z) (call : User → M U error string) : handler := λ r,
  match User_UnmarshalJSON (parse_json (rq_body r)) with
  | Err e => reject (Error e) StatusBadRequest
  | Panic p => panic p
  | Ret user =>
      key ← try (on_users (call user));
      match key with
      | inl e => reject (Error e) StatusBadRequest
      | inr key => respond (WriteHeader success) ;; respond (Write key)
      end
  end.
Definition CreateUserHandler : handler :=
  user_handler StatusCreated (λ user, CreateUser (u_Name user) (u_Role user)).
Definition RefreshTokenHandler : handler :=
  user_handler StatusOK (λ user, RefreshToken (u_Name user)).

Definition ScheduledHandler : handler := λ r '(w, s),
  respond (Write (scheduled (sv_scheduler s))) (WriteHeader StatusOK w, s).
Definition RemoveScheduledHandler : handler := λ r,
  match decode_scheduled (rq_body r) with
  | (_, Some e) => reject (Error e) StatusBadRequest
  | (rq, None) =>
      removed ← try (on_scheduler (RemoveScheduled (rsr_ID rq)));
      match removed with
      | inr true =>
          respond (WriteHeader StatusOK) ;; respond (Write (Itoa (rsr_ID rq) +:+ " deleted"))
      | inr false =>
          respond (WriteHeader StatusNotFound) ;;
          respond (Write ("Task " +:+ Itoa (rsr_ID rq) +:+ " not found"))
      | inl e => fail e
      end
  end.
Definition HealthHandler : handler := λ r, respond (WriteHeader StatusOK).

(** ** Routes

    [Start]; another path is answered by the multiplexer. *)
Definition routes : gmap string handler :=
  list_to_map
    [("/list", Auth ListHandler);
     ("/get", Auth GetStackHandler);
     ("/run", Auth RunHandler);
     ("/createstack", Auth CreateStackHandler);
     ("/removestack", Auth RemoveStackHandler);
     ("/scheduled", Auth ScheduledHandler);
     ("/scheduled/delete", Auth RemoveScheduledHandler);
     ("/health", HealthHandler);
     ("/createuser", Auth (Admin CreateUserHandler));
     ("/refreshtoken", Auth (Admin RefreshTokenHandler));
     ("/createlayer", Auth CreateLayerHandler)].
Definition serve (r : request) : M state error writer := λ s,
  let h := default (λ _, respond (http_Error "404 page not found" StatusNotFound))
             (routes !! rq_path r) in
  let '(o, (w, s')) := h r (MkWriter None "", s) in
  (match o with Ret _ => Ret w | Err e => Err e | Panic p => Panic p end, s').
End server.

(** ** Bootstrap ([command/server.go])

    The state storage of the run is a fresh one in memory. [down] recognises
    the message of Marathon's client that the cluster is down. *)
Section bootstrap.
Context {C : Type} `{StackRunner InMemoryStateStorage.states C} (down : string → bool).

Definition bootstrap_request : RunRequest :=
  {| rr_Name := ""; rr_Zone := ""; rr_MaxWait := 600; rr_Variables := ∅;
     rr_SkipApplications := [] |}.
Fixpoint bootstrap_loop (n : nat) (err : option error) (stack : Stack) :
    M (InMemoryStateStorage.states * C * Variables) error unit :=
  match n with
  | O => match err with None => mret tt | Some e => fail e end
  | Datatypes.S n' =>
      err ← catch (run_stack stack bootstrap_request);
      match err with
      | inr _ => mret tt
      | inl e => if down (Error e) then bootstrap_loop n' (Some e) stack else fail e
      end
  end.
(** [file]: what reading and unmarshalling the stack file gave. *)
Definition Bootstrap (file : result Stack) (retries : Z) (scheduler : C) : result Variables * C :=
  match file with
  | Ret stack =>
      let '(r, (_, scheduler, variables)) := bootstrap_loop (Z.to_nat retries) None stack
        (InMemoryStateStorage.NewInMemoryStateStorage, scheduler, NewVariables) in
      (match r with Ret _ => Ret variables | Err e => Err e | Panic p => Panic p end, scheduler)
  | Err e => (Err e, scheduler)
  | Panic p => (Panic p, scheduler)
  end.
End bootstrap.
