(* ===== verification/ServerFacts.v ===== *)
(** What the server guarantees: who may call what, what a successful run of a
    stack leaves behind, and why runs fail in development mode and at
    bootstrap. *)
From S2P Require Import Prelude GoStrings Errors Json Variables Data Constraints Application.
From S2P Require Import StateStorage UserStorage StackRun StackRunFacts Server.
From Stdlib Require Import Lia.
Open Scope string_scope.
Open Scope list_scope.
Open Scope nat_scope.

(** ** Access *)
Section access.
Context `{ord : MapOrder} `{Codec} {Sto P U SS C : Type} `{Storage Sto P} `{UserStorage U}
  `{StateStorage SS} `{Scheduler C} `{StackRunner SS C}.
Context (globalVariables : gmap string string).
Abbreviation server := (server Sto U SS C).
Implicit Types (s : server).

Definition with_users (u : U) s : server :=
  MkServer (sv_storage s) u (sv_stateStorage s) (sv_scheduler s).

(** The paths that need a key, and those that need an administrator. *)
Definition admin_paths : list string := ["/createuser"; "/refreshtoken"].
Definition key_paths : list string :=
  ["/list"; "/get"; "/run"; "/createstack"; "/removestack"; "/scheduled"; "/scheduled/delete";
   "/createlayer"] ++ admin_paths.

Lemma key_path_auth path :
  path ∈ key_paths → ∃ h, routes globalVariables !! path = Some (Auth h).
Proof.
  rewrite /key_paths /admin_paths /= !elem_of_cons elem_of_nil.
  intros Hp. repeat destruct Hp as [->|Hp]; [by eexists..|done].
Qed.

Lemma admin_path_auth path :
  path ∈ admin_paths → ∃ h, routes globalVariables !! path = Some (Auth (Admin h)).
Proof.
  rewrite /admin_paths !elem_of_cons elem_of_nil.
  intros Hp. repeat destruct Hp as [->|Hp]; [by eexists..|done].
Qed.

(** How a refusal is answered. *)
Definition refusal (answer : result bool) (message : string) : result writer :=
  match answer with
  | Err e => Ret (http_Error (Error e) StatusInternalServerError (MkWriter None ""))
  | Ret _ => Ret (http_Error message StatusForbidden (MkWriter None ""))
  | Panic p => Panic p
  end.

(** The answer of a handler that began with nothing written. *)
Definition answer (o : result unit * (writer * server)) : result writer * server :=
  let '(o, (w, s)) := o in
  (match o with Ret _ => Ret w | Err e => Err e | Panic p => Panic p end, s).

Lemma serve_Auth r s h :
  routes globalVariables !! rq_path r = Some (Auth h) →
  let '(valid, u) := CheckKey (rq_user r) (rq_key r) (sv_userStorage s) in
  serve globalVariables r s =
    match valid with
    | Ret true => answer (h r (MkWriter None "", with_users u s))
    | _ => (refusal valid "Unauthorized", with_users u s)
    end.
Proof.
  intros Hr. rewrite /serve Hr /= /Auth /mbind /M_mbind /try /on_users.
  by destruct (CheckKey (rq_user r) (rq_key r) (sv_userStorage s)) as [[[]|e|p] u].
Qed.

Lemma answer_Admin r s h :
  let '(admin, u) := IsAdmin (rq_user r) (sv_userStorage s) in
  answer (Admin h r (MkWriter None "", s)) =
    match admin with
    | Ret true => answer (h r (MkWriter None "", with_users u s))
    | _ => (refusal admin ("User " +:+ rq_user r +:+ " is not an admin"), with_users u s)
    end.
Proof.
  rewrite /Admin /mbind /M_mbind /try /on_users.
  by destruct (IsAdmin (rq_user r) (sv_userStorage s)) as [[[]|e|p] u].
Qed.

(** C13. Access control of the whole API, for any stores and any request: the
    health check is answered to everybody and changes nothing; every other
    path is served only after the key of the user was checked, and a request
    with an invalid key is answered 403 (500 if the check failed) with
    nothing but the user storage having been asked; users are created and
    tokens refreshed only for a user whose key is valid and who is an
    administrator. *)
Theorem access_control r s :
  (rq_path r = "/health" →
     serve globalVariables r s = (Ret (MkWriter (Some StatusOK) ""), s)) ∧
  (rq_path r ∈ key_paths →
     let '(valid, u) := CheckKey (rq_user r) (rq_key r) (sv_userStorage s) in
     valid ≠ Ret true →
     serve globalVariables r s = (refusal valid "Unauthorized", with_users u s)) ∧
  (rq_path r ∈ admin_paths →
     let '(valid, u) := CheckKey (rq_user r) (rq_key r) (sv_userStorage s) in
     let '(admin, u') := IsAdmin (rq_user r) u in
     valid = Ret true → admin ≠ Ret true →
     serve globalVariables r s =
       (refusal admin ("User " +:+ rq_user r +:+ " is not an admin"), with_users u' s)) ∧
  (rq_path r ∉ "/health" :: key_paths → ∃ w,
     serve globalVariables r s = (Ret w, s) ∧ w_status w = Some StatusNotFound).
Proof.
  split_and!.
  - intros Hp. by rewrite /serve Hp.
  - intros [h Hh]%key_path_auth. pose proof (serve_Auth r s h Hh) as Hs.
    destruct (CheckKey (rq_user r) (rq_key r) (sv_userStorage s)) as [[[]|e|p] u]; done.
  - intros [h Hh]%admin_path_auth. pose proof (serve_Auth r s _ Hh) as Hs.
    destruct (CheckKey (rq_user r) (rq_key r) (sv_userStorage s)) as [valid u].
    pose proof (answer_Admin r (with_users u s) h) as Ha. simpl in Ha.
    destruct (IsAdmin (rq_user r) u) as [admin u']. intros -> Hna. rewrite Hs Ha.
    by destruct admin as [[]|e|p].
  - intros Hp. rewrite /serve.
    assert (routes globalVariables !! rq_path r = None) as ->; [|by eexists].
    apply not_elem_of_list_to_map. intros Hin. apply Hp. simpl in Hin.
    rewrite /key_paths /admin_paths. set_solver.
Qed.
End access.

(** ** Runs *)
Section runs.
Context `{ord : MapOrder} `{rx : Regexp} `{rs : Runners} `{Codec} {Sto P U SS C : Type}
  `{Storage Sto P} `{UserStorage U} `{StateStorage SS} `{Scheduler C} `{StackRunner SS C}.
Abbreviation server := (server Sto U SS C).
Implicit Types (s : server).

(** [run_stack] is [Stack.Run]: a call that returns is a run of the model. *)
Definition runs_stacks (rq : RunRequest) : Prop := ∀ stack ss c v,
  let '(r, (ss', _, _)) := run_stack stack rq (ss, c, v) in
  (∀ p, r ≠ Panic p) →
  run_ends stack (rr_SkipApplications rq) (rr_Name rq) (rr_Zone rq) ss r ss'.

Lemma on_states_inv {A} (m : M SS error A) s r s' :
  on_states m s = (r, s') → m (sv_stateStorage s) = (r, sv_stateStorage s').
Proof. rewrite /on_states. destruct (m (sv_stateStorage s)) as [r0 x]. by intros [= <- <-]. Qed.

Lemma on_storage_inv {A} (m : M Sto error A) s r s' :
  on_storage m s = (r, s') →
  m (sv_storage s) = (r, sv_storage s') ∧ sv_stateStorage s' = sv_stateStorage s.
Proof. rewrite /on_storage. destruct (m (sv_storage s)) as [r0 x]. by intros [= <- <-]. Qed.

Lemma on_run_inv {A} (m : M (SS * C * Variables) error A) v s r s' :
  on_run v m s = (r, s') → ∃ v',
  m (sv_stateStorage s, sv_scheduler s, v) = (r, (sv_stateStorage s', sv_scheduler s', v')).
Proof.
  rewrite /on_run. destruct (m (sv_stateStorage s, sv_scheduler s, v)) as [r0 [[x y] v']].
  intros [= <- <-]. by exists v'.
Qed.

(** The stages of a run that succeeds: the stack that is run, and the state
    storage before, between and after. *)
Definition ran (rq : RunRequest) (s : server) (stack : Stack) : Prop :=
  ∃ p s1 x, layered_runner rq s = (Ret p, s1) ∧ contents p (sv_storage s1) = (Ret stack, x).
Definition staged (rq : RunRequest) (variables : Variables) (stack : Stack) (ss ss' : SS) : Prop :=
  ∃ ss1 c ss2 c2 v2,
    SaveStackStatus (rr_Name rq) (rr_Zone rq) StackStatusStaging ss = (Ret tt, ss1) ∧
    run_stack stack rq (ss1, c, variables) = (Ret tt, (ss2, c2, v2)) ∧
    SaveStackStatus (rr_Name rq) (rr_Zone rq) StackStatusRunning ss2 = (Ret tt, ss').

Lemma runStack_ok_inv rq variables s s' :
  runStack rq variables s = (Ret tt, s') →
  ∃ stack ss, ran rq s stack ∧ staged rq variables stack ss (sv_stateStorage s').
Proof.
  intros (p & s1 & Hp & Hrun)%M_bind_ret_inv.
  apply M_bind_ret_inv in Hrun as ([] & s2 & Hst & Hrun).
  assert (sv_storage s2 = sv_storage s1) as Hsto.
  { revert Hst. rewrite /on_states. destruct (SaveStackStatus _ _ _ _). by intros [= _ <-]. }
  apply on_states_inv in Hst. apply M_bind_ret_inv in Hrun as (stack & s3 & Hc & Hrun).
  apply on_storage_inv in Hc as [Hc Hss]. rewrite Hsto in Hc.
  apply M_bind_ret_inv in Hrun as ([e|[]] & s4 & Herr & Hrun).
  { by apply M_bind_ret_inv in Hrun as (? & ? & _ & ?). }
  apply catch_ret_inv, on_run_inv in Herr as [v' Herr]. apply on_states_inv in Hrun.
  exists stack, (sv_stateStorage s1). split; [by exists p, s1, (sv_storage s3)|].
  rewrite Hss in Herr. by eexists _, _, _, _, _.
Qed.

(** What a run that returned nil saved. *)
Lemma runStack_saved `{!StateStorageLaws SS} rq variables s s' :
  runs_stacks rq → runStack rq variables s = (Ret tt, s') →
  stack_status (sv_stateStorage s') (rr_Name rq) (rr_Zone rq) =
    Some (StackStatus_code StackStatusRunning) ∧
  ∃ stack, ran rq s stack ∧ ∀ k a, Stk.apps stack !! k = Some a →
    skipped stack (rr_SkipApplications rq) (App.ID a) ∨
    app_status (sv_stateStorage s') (rr_Name rq) (rr_Zone rq) (App.ID a) =
      Some (ApplicationStatus_code ApplicationStatusRunning).
Proof.
  intros Hruns (stack & ss & Hran & ss1 & c & ss2 & c2 & v2 & _ & Hrun & Hsave)%runStack_ok_inv.
  pose proof (save_stack_law (rr_Name rq) (rr_Zone rq) StackStatusRunning ss2) as Hlaw.
  rewrite Hsave in Hlaw. destruct Hlaw as (Hst & Happ & _).
  split; [by rewrite Hst decide_True|]. exists stack. split; [done|]. intros k a Hk. rewrite Happ.
  specialize (Hruns stack ss1 c variables). rewrite Hrun in Hruns.
  eapply run_ends_saved; [by apply Hruns|done].
Qed.

(** C14. A run that the server reports as a success has saved the stack as
    running, and every application of the stack that was run - the stack
    asked for, merged into the layers of its zone - was skipped on request or
    is saved as running. *)
Theorem runStack_success `{!StateStorageLaws SS} rq variables s s' :
  runs_stacks rq → runStack rq variables s = (Ret tt, s') →
  stack_status (sv_stateStorage s') (rr_Name rq) (rr_Zone rq) =
    Some (StackStatus_code StackStatusRunning) ∧
  ∃ stack, ran rq s stack ∧ ∀ k a, Stk.apps stack !! k = Some a →
    skipped stack (rr_SkipApplications rq) (App.ID a) ∨
    app_status (sv_stateStorage s') (rr_Name rq) (rr_Zone rq) (App.ID a) =
      Some (ApplicationStatus_code ApplicationStatusRunning).
Proof. apply runStack_saved. Qed.
End runs.

(** In development mode. *)
Section development.
Context `{ord : MapOrder} `{rx : Regexp} `{rs : Runners} `{Codec} {Sto P U C : Type}
  `{Storage Sto P} `{UserStorage U} `{Scheduler C}.
#[local] Existing Instance InMemoryStateStorage.ops.
#[local] Existing Instance InMemoryStateStorage.laws.
Context `{!StackRunner InMemoryStateStorage.states C}.
Implicit Types (s : server Sto U InMemoryStateStorage.states C).

Lemma saved_once n z v (ss ss' : InMemoryStateStorage.states) :
  SaveStackStatus n z v ss = (Ret tt, ss') → stack_status ss n z = None.
Proof.
  intros Hs. pose proof (InMemoryStateStorage.SaveStackStatus_spec n z v ss) as Hspec.
  simpl in Hs. rewrite Hs in Hspec. destruct Hspec as [Hr _]. simpl.
  rewrite /InMemoryStateStorage.stack_status_of.
  by destruct (InMemoryStateStorage.find_state ss n z).
Qed.

(** In development mode no run is ever reported as a success: the state
    storage in memory refuses to save a second status of a stack, so even
    after a run without an error the server answers with that refusal. *)
Theorem development_runs_fail rq variables s :
  runs_stacks (SS := InMemoryStateStorage.states) (C := C) rq →
  (runStack rq variables s).1 ≠ Ret tt.
Proof.
  intros Hruns Hok. destruct (runStack rq variables s) as [r s'] eqn:Hrun. simpl in Hok. subst r.
  apply runStack_ok_inv in Hrun as (stack & ss & _ & ss1 & c & ss2 & c2 & v2 & Hst & Hrun & Hsave).
  specialize (Hruns stack ss1 c variables). rewrite Hrun in Hruns.
  pose proof (run_ends_stack_status _ _ _ _ _ _ _ (rr_Name rq) (rr_Zone rq)
    (Hruns (λ p (Hp : Ret tt = Panic p), match Hp with end))) as Hkeep.
  pose proof (save_stack_law (rr_Name rq) (rr_Zone rq) StackStatusStaging ss) as Hlaw.
  rewrite Hst in Hlaw. destruct Hlaw as (Hsaved & _ & _).
  rewrite Hsaved decide_True // (saved_once _ _ _ _ _ Hsave) in Hkeep. done.
Qed.
End development.

(** ** Bootstrap *)
Section bootstrapping.
Context `{ord : MapOrder} `{rx : Regexp} `{rs : Runners} {C : Type}.
#[local] Existing Instance InMemoryStateStorage.ops.
#[local] Existing Instance InMemoryStateStorage.laws.
Context `{!StackRunner InMemoryStateStorage.states C} (down : string → bool).
Implicit Types (st : run_state InMemoryStateStorage.states).

Lemma empty_save n z a v :
  SaveApplicationStatus n z a v (∅ : InMemoryStateStorage.states) =
    (Err ErrStackStateDoesNotExist, ∅).
Proof.
  simpl. rewrite /InMemoryStateStorage.SaveApplicationStatus /InMemoryStateStorage.find_state.
  by rewrite lookup_empty.
Qed.

(** The storage a bootstrap runs with knows no stack, so the first application
    that is up ends the run. *)
Definition unsaved st : Prop :=
  storage st = ∅ ∧ closed st = false ∧ main st ≠ Some (Ret tt).

Lemma unsaved_step apps n z st st' : unsaved st → step apps n z st st' → unsaved st'.
Proof.
  intros (Hs & Hc & Hm) Hstep. destruct Hstep as [d v st st' Hrec|a r st st' _ Hfin].
  - revert Hrec. rewrite /receive Hs Hc. destruct (main st); [done|].
    destruct (statuses st) as [|[id [e|]] rest]; [done| |]; rewrite empty_save; by intros [= <-].
  - revert Hfin. rewrite /finish Hc. case_match; [|done]. by intros [= <-].
Qed.

Lemma run_ends_empty stack skip n z r (s' : InMemoryStateStorage.states) :
  run_ends stack skip n z ∅ r s' → r ≠ Ret tt ∧ s' = ∅.
Proof.
  intros (info & [[Hs ->]|(st0 & st & Hs & Hr & Hm & <-)]).
  { split; [|done]. intros ->. by apply start_not_ok in Hs. }
  apply start_looping in Hs as (running & sent & _ & _ & ->).
  assert (unsaved st) as (Hs & _ & Hne); [|split; [congruence|done]].
  assert (unsaved (begin (Stk.apps stack) running sent ∅)) as Hb.
  { rewrite /unsaved /begin. set (st0 := MkRun _ _ _ _ _ _ _ _).
    pose proof (runApplications_storage (Stk.apps stack) 0 st0) as ->.
    destruct (runApplications_keeps (Stk.apps stack) 0 st0) as [-> ->]. done. }
  induction Hr as [|st1 st2 st3 Hstep _ IH]; [done|]. by apply IH; [|eapply unsaved_step].
Qed.

Lemma bootstrap_loop_fails stack n : ∀ err c v,
  runs_stacks (SS := InMemoryStateStorage.states) (C := C) bootstrap_request →
  (n = 0 → err ≠ None) →
  (bootstrap_loop down n err stack (∅, c, v)).1 ≠ Ret tt.
Proof.
  induction n as [|n IH]; intros err c v Hruns Herr; simpl.
  { destruct err; [done|]. by destruct Herr. }
  rewrite /mbind /M_mbind /catch. pose proof (Hruns stack ∅ c v) as Hrun.
  destruct (run_stack stack bootstrap_request (∅, c, v)) as [[[]|e|p] [[ss' c'] v']]; [| |done].
  - by destruct (run_ends_empty _ _ _ _ _ _ (Hrun (λ p (Hp : Ret tt = Panic p), match Hp with end))).
  - destruct (run_ends_empty _ _ _ _ _ _ (Hrun (λ p (Hp : Err e = Panic p), match Hp with end)))
      as [_ ->].
    destruct (down (Error e)); [|done]. by apply IH.
Qed.

(** Starting the server with a stack to bootstrap from never succeeds,
    whatever the stack and however often it is tried: the run's state storage
    has no entry for the stack, so saving the status of its first
    application fails. Only with no attempts at all does it "succeed",
    without running anything. *)
Theorem Bootstrap_never_succeeds file retries scheduler :
  runs_stacks (SS := InMemoryStateStorage.states) (C := C) bootstrap_request →
  (∃ v, (Bootstrap down file retries scheduler).1 = Ret v) ↔
    (retries ≤ 0)%Z ∧ ∃ stack, file = Ret stack.
Proof.
  intros Hruns. rewrite /Bootstrap. destruct file as [stack|e|p]; [|naive_solver..].
  pose proof (bootstrap_loop_fails stack (Z.to_nat retries) None scheduler NewVariables Hruns) as Hf.
  destruct (Z.leb_spec retries 0) as [Hle|Hgt].
  - rewrite (_ : Z.to_nat retries = 0) /=; [|lia]. naive_solver.
  - specialize (Hf ltac:(lia)).
    destruct (bootstrap_loop down (Z.to_nat retries) None stack _) as [[[]|e|p] [[ss c] v]];
      [done|split; [by intros [v' ?]|lia]..].
Qed.
End bootstrapping.

(** ** A run without incidents

    Applications succeed in the order they were started; [None] if that leads
    nowhere within the fuel. *)
Section ideal.
Context `{ord : MapOrder} `{rx : Regexp} `{rs : Runners} {SS : Type} `{StateStorage SS}.

Fixpoint ideal (apps : gmap string Application) (name zone : string) (fuel : nat)
    (st : run_state SS) : option (result unit * SS) :=
  match main st, fuel with
  | Some r, _ => Some (r, storage st)
  | None, O => None
  | None, Datatypes.S fuel =>
      match goroutines st with
      | a :: _ => finish apps a None st ≫= ideal apps name zone fuel
      | [] => receive apps name zone 0 NewVariables st ≫= ideal apps name zone fuel
      end
  end.
Definition ideal_run (stack : Stack) (rq : RunRequest) (ss : SS) : result unit * SS :=
  match start stack (inr "master") (rr_SkipApplications rq) ss with
  | Returned r => (r, ss)
  | Blocked => (Panic "blocked", ss)
  | Looping st0 =>
      default (Panic "blocked", ss)
        (ideal (Stk.apps stack) (rr_Name rq) (rr_Zone rq) (4 * size (Stk.apps stack)) st0)
  end.

Lemma ideal_steps apps name zone fuel : ∀ st r ss,
  ideal apps name zone fuel st = Some (r, ss) →
  ∃ st', rtc (step apps name zone) st st' ∧ main st' = Some r ∧ storage st' = ss.
Proof.
  induction fuel as [|fuel IH]; intros st r ss; simpl.
  { destruct (main st) as [r'|] eqn:Hm; [|done]. intros [= <- <-]. by exists st. }
  destruct (main st) as [r'|] eqn:Hm; [intros [= <- <-]; by exists st|].
  destruct (goroutines st) as [|a l] eqn:Hg; intros (st1 & Hst1 & Hi)%bind_Some;
    destruct (IH _ _ _ Hi) as (st' & Hr & Hm' & Hs); exists st'; (split; [|done]).
  - eapply rtc_l; [by eapply step_receive|done].
  - eapply rtc_l; [|done]. eapply step_finish; [|done]. rewrite Hg. constructor.
Qed.

Lemma ideal_run_ends stack rq ss :
  let '(r, ss') := ideal_run stack rq ss in
  (∀ p, r ≠ Panic p) →
  run_ends stack (rr_SkipApplications rq) (rr_Name rq) (rr_Zone rq) ss r ss'.
Proof.
  rewrite /ideal_run.
  destruct (start stack (inr "master") (rr_SkipApplications rq) ss) as [r| |st0] eqn:Hs.
  - intros _. exists (inr "master"). by left.
  - intros Hp. by destruct (Hp "blocked").
  - destruct (ideal _ _ _ _ st0) as [[r ss']|] eqn:Hi; simpl; [|intros Hp; by destruct (Hp "blocked")].
    intros _. exists (inr "master"). right. destruct (ideal_steps _ _ _ _ _ _ _ Hi) as (st & ? & ? & ?).
    by exists st0, st.
Qed.

(** The same for any scheduler. *)
Definition ideal_runner (C : Type) : StackRunner SS C := {|
  run_stack stack rq := λ '(ss, c, v),
    let '(r, ss') := ideal_run stack rq ss in (r, (ss', c, v))
|}.
End ideal.

(** ** A concrete server *)
Section examples.
#[local] Existing Instance ex_regexp.
#[local] Existing Instance ex_runners.
#[local] Instance ex_order : MapOrder := canonical_order.

(** Stacks by name; a stack is read when it is used. *)
#[local] Instance ex_stacks : Storage (gmap string Stack) string := {
  GetAll := λ s, (Ret (map_to_list s).*1, s);
  GetStack n := mret n;
  GetStackRunner n := mret n;
  StoreStack _ := mret tt;
  RemoveStack n _ := λ s, (Ret tt, delete n s);
  GetLayersStack n := mret n;
  new_stack st := λ s, (Ret (Stk.Name st), <[Stk.Name st := st]> s);
  merge_stacks _ _ := mret tt;
  contents n := λ s,
    (match s !! n with Some st => Ret st | None => Err (Errorf "no such stack") end, s)
}.
#[local] Instance ex_scheduler_ops : Scheduler unit := {
  refresh := mret tt; scheduled _ := "[]"; RemoveScheduled _ := mret false
}.
#[local] Instance ex_codec : Codec := {|
  decode_get b := (Some {| gs_Name := b |}, None);
  decode_run b := (Some {| rr_Name := b; rr_Zone := ""; rr_MaxWait := 1; rr_Variables := ∅;
                           rr_SkipApplications := [] |}, None);
  decode_create b := (Some {| cs_Stackfile := b |}, None);
  decode_layer b := (None, Some (Errorf "EOF"));
  decode_remove b := (Some {| rs_Name := b; rs_Force := false |}, None);
  parse_json b := Some (JObj [("name", JStr b)]);
  decode_scheduled b := ({| rsr_ID := 0 |}, None);
  UnmarshalStack b := Err (Errorf "not a stack");
  marshal_stack st := Ret (Stk.Name st);
  marshal_names l := Ret (Join l ",")
|}.
Definition ex_request : RunRequest :=
  {| rr_Name := "dev"; rr_Zone := ""; rr_MaxWait := 1; rr_Variables := ∅;
     rr_SkipApplications := [] |}.

(** With Cassandra's state storage. *)
#[local] Existing Instance ConcreteTables.tables_ops.
#[local] Existing Instance ConcreteTables.tables_laws.
#[local] Existing Instance CassandraStateStorage.ops.
#[local] Existing Instance CassandraStateStorage.laws.
#[local] Existing Instance NoopUserStorage.ops.
Abbreviation tables := ConcreteTables.tables.
#[local] Instance ex_run_tables : StackRunner tables unit := ideal_runner unit.

Definition ex_server : Server.server (gmap string Stack) unit tables unit :=
  MkServer {["dev" := ex_stack]} tt (ConcreteTables.MkTables ∅ ∅ ∅) tt.

Lemma ex_run_ends : runs_stacks (SS := tables) (C := unit) ex_request.
Proof.
  intros stack ss c v. pose proof (ideal_run_ends stack ex_request ss) as Hi. simpl.
  by destruct (ideal_run stack ex_request ss) as [r ss'].
Qed.

Definition ex_after := (runStack ex_request NewVariables ex_server).2.
Lemma runStack_success_witness :
  stack_status (sv_stateStorage ex_after) "dev" "" = Some (StackStatus_code StackStatusRunning) ∧
  app_status (sv_stateStorage ex_after) "dev" "" "broker" = Some 1%Z.
Proof.
  split; [|by vm_compute].
  apply (runStack_success (U := unit) ex_request NewVariables ex_server ex_after ex_run_ends).
  by vm_compute.
Defined.

(** In memory. *)
Abbreviation states := InMemoryStateStorage.states.
Definition ex_run_memory : StackRunner states unit :=
  @ideal_runner _ _ _ states InMemoryStateStorage.ops unit.
Lemma ex_memory_run_ends rq :
  @runs_stacks _ _ _ states unit InMemoryStateStorage.ops ex_run_memory rq.
Proof.
  intros stack ss c v.
  pose proof (@ideal_run_ends _ _ _ states InMemoryStateStorage.ops stack rq ss) as Hi. simpl.
  by destruct (ideal_run stack rq ss) as [r ss'].
Qed.

Definition ex_dev_server : Server.server (gmap string Stack) unit states unit :=
  MkServer {["dev" := ex_stack]} tt ∅ tt.
Definition ex_dev_run :=
  @runStack _ _ unit _ _ _ InMemoryStateStorage.ops ex_run_memory ex_request NewVariables
    ex_dev_server.

Lemma development_runs_fail_witness :
  ex_dev_run.1 ≠ Ret tt ∧ ex_dev_run.1 = Err ErrStackStateExists.
Proof.
  split; [|by vm_compute].
  apply (development_runs_fail (StackRunner0 := ex_run_memory) ex_request NewVariables ex_dev_server
    (ex_memory_run_ends ex_request)).
Defined.

Lemma Bootstrap_never_succeeds_witness :
  ¬ (∃ v, (@Bootstrap unit ex_run_memory (λ _, false) (Ret ex_stack) 10 tt).1 = Ret v) ∧
  (@Bootstrap unit ex_run_memory (λ _, false) (Ret ex_stack) 10 tt).1 =
    Err ErrStackStateDoesNotExist.
Proof.
  split; [|by vm_compute]. intros Hv.
  apply (Bootstrap_never_succeeds (StackRunner0 := ex_run_memory) (λ _, false) (Ret ex_stack) 10 tt
    (ex_memory_run_ends bootstrap_request)) in Hv as [Hle _]. lia.
Defined.

(** An unknown user. *)
Definition ex_users_server : Server.server (gmap string Stack) ConcreteUsers.table tables unit :=
  MkServer ∅ ConcreteUsers.ex_users (ConcreteTables.MkTables ∅ ∅ ∅) tt.
#[local] Existing Instance ConcreteUsers.table_ops.
#[local] Existing Instance CassandraUserStorage.ops.
Lemma access_control_witness :
  let '(o, s) := serve (U := ConcreteUsers.table) ∅ (MkRequest "/run" "admin" "guess" "dev") ex_users_server in
  o = Ret (http_Error "Unauthorized" StatusForbidden (MkWriter None "")) ∧
  sv_stateStorage s = ConcreteTables.MkTables ∅ ∅ ∅.
Proof.
  destruct (access_control (U := ConcreteUsers.table) ∅ (MkRequest "/run" "admin" "guess" "dev") ex_users_server)
    as (_ & Hkey & _).
  specialize (Hkey ltac:(apply list_elem_of_lookup_2 with 2; reflexivity)).
  assert (CheckKey "admin" "guess" ConcreteUsers.ex_users = (Ret false, ConcreteUsers.ex_users)) as Hc
    by by vm_compute.
  simpl rq_user in Hkey. simpl rq_key in Hkey. simpl sv_userStorage in Hkey. rewrite Hc in Hkey.
  rewrite Hkey; [|discriminate]. split; reflexivity.
Defined.
End examples.
