(* ===== verification/ServerRuns.v ===== *)
(** Several stacks run at the same time: every request to run a stack is served
    by a goroutine of its own ([runStack] of [framework/server.go], from the
    saving of the first status on), and all of them, with the main loops of
    their stacks ([StackRun]), write to one state storage. *)
From S2P Require Import Prelude GoStrings Errors Variables Data Constraints Application.
From S2P Require Import StateStorage StackRun StackRunFacts.
From Stdlib Require Import Lia.
Open Scope string_scope.
Open Scope list_scope.
Open Scope nat_scope.

(** How far a request is. [Waits]: the stack is merged, nothing is saved yet.
    [Staged]: the first status is saved. [Runs]: [Stack.Run] is in its loop, or
    was, and then [answer] is what the handler returned - goroutines may be left.
    [Ended]: the handler returned without there having been a loop. The record
    of a run has the storage too, the common one is written into it before
    each of its steps. *)
Inductive phase (S : Type) : Type :=
| Waits
| Staged
| Runs (st : run_state S) (answer : option (result unit))
| Ended (answer : result unit).
Arguments Waits {S}.
Arguments Staged {S}.
Arguments Runs {S}.
Arguments Ended {S}.

Record serving (S : Type) : Type := MkServing {
  asked : RunRequest;
  merged : Stack;
  at_ : phase S
}.
Arguments MkServing {S}.
Arguments asked {S}.
Arguments merged {S}.
Arguments at_ {S}.

Definition with_storage {S} (s : S) (st : run_state S) : run_state S :=
  MkRun (runningApps st) (statuses st) (closed st) (goroutines st) (started st) s (main st)
    (crashed st).

Section server.
Context `{ord : MapOrder} `{rx : Regexp} `{rs : Runners} {S : Type} `{StateStorage S}.
Implicit Types (s : S) (h : serving S).

Definition key h : string * string := (rr_Name (asked h), rr_Zone (asked h)).
Definition answer_of h : option (result unit) :=
  match at_ h with Runs _ a => a | Ended r => Some r | _ => None end.

(** The end of [runStack]: [r] is what [Run] returned. *)
Definition report (name zone : string) (r : result unit) : M S error unit :=
  match r with
  | Ret _ => SaveStackStatus name zone StackStatusRunning
  | Err e => catch (SaveStackStatus name zone StackStatusFailed) ;; fail e
  | Panic p => panic p
  end.

(** What the goroutine of a request does next. *)
Inductive request_step (rq : RunRequest) (stack : Stack) : S → phase S → S → phase S → Prop :=
| request_staged s s' :
    SaveStackStatus (rr_Name rq) (rr_Zone rq) StackStatusStaging s = (Ret tt, s') →
    request_step rq stack s Waits s' Staged
| request_refused s s' r :
    SaveStackStatus (rr_Name rq) (rr_Zone rq) StackStatusStaging s = (r, s') → r ≠ Ret tt →
    request_step rq stack s Waits s' (Ended r)
| request_loops s info st :
    start stack info (rr_SkipApplications rq) s = Looping st →
    request_step rq stack s Staged s (Runs st None)
| request_returns s info r o s' :
    start stack info (rr_SkipApplications rq) s = Returned r →
    report (rr_Name rq) (rr_Zone rq) r s = (o, s') →
    request_step rq stack s Staged s' (Ended o)
| request_runs s st a st' :
    step (Stk.apps stack) (rr_Name rq) (rr_Zone rq) (with_storage s st) st' →
    request_step rq stack s (Runs st a) (storage st') (Runs st' a)
| request_reports s st r o s' :
    main st = Some r → report (rr_Name rq) (rr_Zone rq) r s = (o, s') →
    request_step rq stack s (Runs st None) s' (Runs st (Some o)).

(** A request arrives, or one of those that are being served goes on. *)
Inductive server_step : S * list (serving S) → S * list (serving S) → Prop :=
| server_request s hs rq stack :
    server_step (s, hs) (s, hs ++ [MkServing rq stack Waits])
| server_goes_on s hs i h s' p :
    hs !! i = Some h → request_step (asked h) (merged h) s (at_ h) s' p →
    server_step (s, hs) (s', <[i := MkServing (asked h) (merged h) p]> hs).

(** No other request is for the same stack in the same zone. *)
Definition only_one (hs : list (serving S)) (i : nat) : Prop :=
  ∀ j h h', j ≠ i → hs !! i = Some h → hs !! j = Some h' → key h' ≠ key h.

Lemma only_one_keys (hs : list (serving S)) i : NoDup (key <$> hs) → only_one hs i.
Proof.
  intros Hnd j h h' Hj Hi Hj' Hk. apply Hj. symmetry.
  eapply (NoDup_lookup (key <$> hs)); [done|by rewrite list_lookup_fmap Hi|].
  rewrite list_lookup_fmap Hj' /=. by rewrite Hk.
Qed.
End server.

(** ** What a request may write *)
Section facts.
Context `{ord : MapOrder} `{rx : Regexp} `{rs : Runners} {S : Type} `{StateStorageLaws S}.
Implicit Types (s : S) (h : serving S).

(** The statuses of every other stack and zone stay. *)
Definition frame (n z : string) s s' : Prop :=
  ∀ n' z', (n', z') ≠ (n, z) →
    stack_status s' n' z' = stack_status s n' z' ∧
    ∀ a, app_status s' n' z' a = app_status s n' z' a.
#[local] Instance frame_preorder n z : PreOrder (frame n z).
Proof.
  split; [by intros s n' z'|]. intros s1 s2 s3 H12 H23 n' z' Hne.
  destruct (H12 n' z' Hne) as [Ha Hb], (H23 n' z' Hne) as [Hc Hd].
  split; [congruence|]. intros a. by rewrite Hd.
Qed.

Lemma frame_stack n z v s : frame n z s (SaveStackStatus n z v s).2.
Proof.
  pose proof (save_stack_law n z v s) as Hs. destruct (SaveStackStatus n z v s) as [r s'].
  destruct Hs as (Hst & Happ & _). intros n' z' Hne. split; [|done].
  rewrite Hst decide_False //. by intros [_ ?].
Qed.
Lemma frame_app n z a v s : frame n z s (SaveApplicationStatus n z a v s).2.
Proof.
  pose proof (save_app_law n z a v s) as Hs. destruct (SaveApplicationStatus n z a v s) as [r s'].
  destruct Hs as (Happ & Hst & _). intros n' z' Hne. split; [done|]. intros a'.
  rewrite Happ decide_False //. intros [_ [= -> -> _]]. done.
Qed.
Lemma frame_vars n z v s : frame n z s (SaveStackVariables n z v s).2.
Proof.
  pose proof (save_vars_law n z v s) as Hs. destruct (SaveStackVariables n z v s) as [r s'].
  destruct Hs as (Happ & Hst & _). by intros n' z' _.
Qed.
Lemma frame_report n z r s : frame n z s (report n z r s).2.
Proof.
  destruct r as [[]|e|p]; [apply frame_stack| |done]. rewrite /report. run_m.
  pose proof (frame_stack n z StackStatusFailed s) as Hf.
  by destruct (SaveStackStatus n z StackStatusFailed s) as [[[]|e'|p] s'].
Qed.
Lemma frame_step apps n z st st' : step apps n z st st' → frame n z (storage st) (storage st').
Proof.
  intros Hs. destruct Hs as [d v st st' Hrec|a r st st' _ Hfin].
  - revert Hrec. rewrite /receive. destruct (main st); [done|].
    destruct (statuses st) as [|[id [e|]] rest]; [destruct (closed st); [by intros [= <-]|done]| |].
    + pose proof (frame_app n z id ApplicationStatusFailed (storage st)) as Hf.
      destruct (SaveApplicationStatus n z id ApplicationStatusFailed (storage st)).
      by intros [= <-].
    + pose proof (frame_app n z id ApplicationStatusRunning (storage st)) as Hf.
      destruct (SaveApplicationStatus n z id ApplicationStatusRunning (storage st)) as [[[]|e|p] s1];
        [|by intros [= <-]..].
      pose proof (frame_vars n z v s1) as Hv.
      destruct (SaveStackVariables n z v s1) as [[[]|e|p] s2]; simpl in Hf, Hv;
        assert (frame n z (storage st) s2) by (by etrans); [|by intros [= <-]..].
      destruct (allApplicationsRunning apps _); intros [= <-]; [done|].
      by rewrite runApplications_storage.
  - revert Hfin. rewrite /finish. destruct (closed st); [by intros [= <-]|].
    case_match; [by intros [= <-]|done].
Qed.
Lemma request_frame rq stack s p s' p' :
  request_step rq stack s p s' p' → frame (rr_Name rq) (rr_Zone rq) s s'.
Proof.
  intros Hs. destruct Hs as
    [s s' Hst|s s' r Hst|s info st|s info r o s' _ Hrep|s st a st' Hst|s st r o s' _ Hrep].
  - pose proof (frame_stack (rr_Name rq) (rr_Zone rq) StackStatusStaging s) as Hf. by rewrite Hst in Hf.
  - pose proof (frame_stack (rr_Name rq) (rr_Zone rq) StackStatusStaging s) as Hf. by rewrite Hst in Hf.
  - done.
  - pose proof (frame_report (rr_Name rq) (rr_Zone rq) r s) as Hf. by rewrite Hrep in Hf.
  - by apply frame_step in Hst.
  - pose proof (frame_report (rr_Name rq) (rr_Zone rq) r s) as Hf. by rewrite Hrep in Hf.
Qed.

(** ** A request with a stack and a zone of its own *)

(** What is known of it, by how far it is. *)
Definition request_ok (rq : RunRequest) (stack : Stack) (p : phase S) (s : S) : Prop :=
  match p with
  | Waits | Staged => True
  | Ended r => r ≠ Ret tt
  | Runs st a =>
      ∃ running sent,
        markSkippedApps (Stk.apps stack) (rr_SkipApplications rq) ∅ [] = Ret (Some (running, sent)) ∧
        good (Stk.apps stack) (rr_Name rq) (rr_Zone rq) running (with_storage s st) ∧
        (a = Some (Ret tt) → main st = Some (Ret tt) ∧
           stack_status s (rr_Name rq) (rr_Zone rq) = Some (StackStatus_code StackStatusRunning))
  end.

Lemma with_storage_same (st : run_state S) : with_storage (storage st) st = st.
Proof. by destruct st. Qed.
Lemma good_with_storage apps n z running s s' st :
  (∀ a, app_status s' n z a = app_status s n z a) →
  good apps n z running (with_storage s st) → good apps n z running (with_storage s' st).
Proof.
  intros Happ [Hi Hg]. split; [|exact Hg].
  pose proof (inv_saved _ _ _ _ _ Hi) as Hsaved. destruct Hi. split; try done.
  intros id Hm Hr. simpl. rewrite Happ. by apply Hsaved.
Qed.

(** Others that write elsewhere do not matter. *)
Lemma request_ok_frame rq stack p s s' n z :
  (rr_Name rq, rr_Zone rq) ≠ (n, z) → frame n z s s' →
  request_ok rq stack p s → request_ok rq stack p s'.
Proof.
  intros Hne Hf. destruct p as [| |st a|r]; try done. destruct (Hf _ _ Hne) as [Hst Happ].
  intros (running & sent & Hm & Hg & Ha). exists running, sent. split_and!; [done| |].
  - by eapply good_with_storage.
  - intros Hok. rewrite Hst. by apply Ha.
Qed.

Lemma step_returned apps n z st st' r : step apps n z st st' → main st = Some r → main st' = Some r.
Proof.
  intros Hs Hm. destruct Hs as [d v st st' Hrec|a r' st st' _ Hfin].
  - by rewrite /receive Hm in Hrec.
  - revert Hfin. rewrite /finish. destruct (closed st); [by intros [= <-]|].
    case_match; [by intros [= <-]|done].
Qed.

Lemma report_ok n z r s s' : report n z r s = (Ret tt, s') →
  r = Ret tt ∧ stack_status s' n z = Some (StackStatus_code StackStatusRunning) ∧
  ∀ a, app_status s' n z a = app_status s n z a.
Proof.
  destruct r as [[]|e|p]; simpl.
  - intros Hr. pose proof (save_stack_law n z StackStatusRunning s) as Hs. rewrite Hr in Hs.
    destruct Hs as (Hst & Happ & _). split_and!; [done|by rewrite Hst decide_True|done].
  - run_m. by destruct (SaveStackStatus n z StackStatusFailed s) as [[[]|e'|p] s1].
  - done.
Qed.
Lemma report_apps n z r s s' o : report n z r s = (o, s') →
  ∀ a, app_status s' n z a = app_status s n z a.
Proof.
  destruct r as [[]|e|p]; simpl.
  - intros Hr. pose proof (save_stack_law n z StackStatusRunning s) as Hs. rewrite Hr in Hs. apply Hs.
  - run_m. pose proof (save_stack_law n z StackStatusFailed s) as Hs.
    destruct (SaveStackStatus n z StackStatusFailed s) as [[[]|e'|p] s1]; intros [= _ <-]; apply Hs.
  - by intros [= _ <-].
Qed.

Lemma request_step_ok rq stack s p s' p' :
  request_ok rq stack p s → request_step rq stack s p s' p' → request_ok rq stack p' s'.
Proof.
  intros Hok Hs. destruct Hs as
    [s s' _|s s' r _ Hr|s info st Hst|s info r o s' Hst Hrep|s st a st' Hst|s st r o s' Hm Hrep];
    simpl in Hok |- *; try done.
  - apply start_looping in Hst as (running & sent & Hmark & Hsk & ->).
    exists running, sent. split_and!; [done| |done].
    pose proof (with_storage_same (begin (Stk.apps stack) running sent s)) as He.
    assert (storage (begin (Stk.apps stack) running sent s) = s) as Hst
      by apply runApplications_storage.
    rewrite Hst in He. rewrite He. by apply good_begin.
  - intros ->. apply report_ok in Hrep as [-> _]. by apply start_not_ok in Hst.
  - destruct Hok as (running & sent & Hmark & Hg & Ha). exists running, sent. split_and!; [done| |].
    + rewrite with_storage_same. by eapply good_step.
    + intros [Hm Hs]%Ha. split; [by eapply step_returned|].
      by rewrite (step_stack_status _ _ _ _ _ _ _ Hst).
  - destruct Hok as (running & sent & Hmark & Hg & _). exists running, sent. split_and!; [done| |].
    + eapply good_with_storage; [by eapply report_apps|done].
    + intros [= ->]. apply report_ok in Hrep as (-> & Hs & _). by rewrite Hm.
Qed.

(** All requests that are alone with their stack and zone. *)
Definition server_ok (e : S * list (serving S)) : Prop :=
  ∀ i h, e.2 !! i = Some h → only_one e.2 i → request_ok (asked h) (merged h) (at_ h) e.1.

Lemma server_step_ok e e' : server_ok e → server_step e e' → server_ok e'.
Proof.
  intros He Hs. destruct Hs as [s hs rq stack|s hs i h s' p Hi Hp]; intros j h' Hj Hone; simpl in *.
  - apply lookup_app_Some in Hj as [Hj|[Hlen Hj]].
    + apply (He j h' Hj). intros k h1 h2 Hk H1 H2. simpl in *.
      apply (Hone k h1 h2 Hk); by apply lookup_app_l_Some.
    + by apply list_lookup_singleton_Some in Hj as [_ <-].
  - pose proof (lookup_lt_Some _ _ _ Hi) as Hlt. destruct (decide (i = j)) as [<-|Hij].
    + rewrite list_lookup_insert_eq // in Hj. injection Hj as <-. simpl.
      eapply request_step_ok; [|exact Hp]. apply (He i h Hi). intros k h1 h2 Hk H1 H2. simpl in *.
      rewrite Hi in H1. injection H1 as <-.
      apply (Hone k (MkServing (asked h) (merged h) p) h2 Hk); [by rewrite list_lookup_insert_eq|].
      by rewrite list_lookup_insert_ne.
    + rewrite list_lookup_insert_ne // in Hj.
      eapply request_ok_frame; [|by eapply request_frame|].
      * apply not_eq_sym.
        apply (Hone i h' (MkServing (asked h) (merged h) p) Hij); [by rewrite list_lookup_insert_ne|].
        by rewrite list_lookup_insert_eq.
      * apply (He j h' Hj). intros k h1 h2 Hk H1 H2. simpl in *.
        assert (h1 = h') as -> by congruence.
        destruct (decide (k = i)) as [->|Hki].
        -- rewrite Hi in H2. injection H2 as <-.
           apply (Hone i h' (MkServing (asked h) (merged h) p) Hk); [by rewrite list_lookup_insert_ne|].
           by rewrite list_lookup_insert_eq.
        -- apply (Hone k h' h2 Hk); by rewrite list_lookup_insert_ne.
Qed.
Lemma server_ok_reached s e : rtc server_step (s, []) e → server_ok e.
Proof.
  apply (rtc_ind_r server_ok); [by intros i h|]. intros e1 e2 _ Hs He. by eapply server_step_ok.
Qed.
End facts.

(** ** The theorem *)
Section theorems.
Context `{ord : MapOrder} `{rx : Regexp} `{rs : Runners} {S : Type} `{StateStorageLaws S}.

(** C16. Several stacks run at the same time, in any interleaving of their main
    loops, their goroutines and the requests that arrive: as long as no two
    requests are for the same stack in the same zone, none sees the others. No
    goroutine sends on a closed channel and no application is started twice or
    before its dependencies run; and a request that was answered with a
    success has the stack and all its applications, but the skipped ones,
    saved as running, and they stay so. *)
Theorem runs_side_by_side s e i h :
  rtc server_step (s, []) e → e.2 !! i = Some h → only_one e.2 i →
  (∀ st a, at_ h = Runs st a → crashed st = false ∧ NoDup (App.ID <$> started st) ∧
     ∀ b d, b ∈ started st → d ∈ App.Dependencies b → is_running (runningApps st) d) ∧
  (answer_of h = Some (Ret tt) →
     stack_status e.1 (key h).1 (key h).2 = Some (StackStatus_code StackStatusRunning) ∧
     ∀ k b, Stk.apps (merged h) !! k = Some b →
       skipped (merged h) (rr_SkipApplications (asked h)) (App.ID b) ∨
       app_status e.1 (key h).1 (key h).2 (App.ID b) =
         Some (ApplicationStatus_code ApplicationStatusRunning)).
Proof.
  intros Hr Hi Hone. pose proof (server_ok_reached s e Hr i h Hi Hone) as Hok.
  rewrite /answer_of. destruct (at_ h) as [| |st a|r]; simpl in Hok;
    [by split..| |split; [done|congruence]].
  destruct Hok as (running & sent & Hmark & [Hinv _] & Ha). split.
  - intros st' a' [= <- <-]. split_and!; [apply Hinv|apply Hinv|]. intros b d Hb Hd.
    destruct (inv_started _ _ _ _ _ Hinv b Hb) as (_ & Hdeps & _). by apply Hdeps.
  - intros Hans. destruct (Ha Hans) as [Hm Hs]. split; [done|]. intros k b Hk.
    pose proof (proj1 (allApplicationsRunning_spec _ _) (inv_done _ _ _ _ _ Hinv Hm) k b Hk) as Hrun.
    destruct (inv_saved _ _ _ _ _ Hinv (App.ID b) (or_intror Hm) Hrun) as [Hs'|Hs']; [left|by right].
    by exists running, sent.
Qed.
End theorems.

(** ** Schedules *)
Inductive choice : Type :=
| Stage
| Loop (info : error + string)
| Receive
| Finish (k : nat) (r : option error)
| Report.

Section schedule.
Context `{ord : MapOrder} `{rx : Regexp} `{rs : Runners} {S : Type} `{StateStorage S}.
Implicit Types (s : S) (e : S * list (serving S)).

(** The step of a request that is chosen, if it has it. *)
Definition perform (rq : RunRequest) (stack : Stack) (c : choice) (s : S) (p : phase S) :
    option (S * phase S) :=
  match c, p with
  | Stage, Waits =>
      let '(r, s') := SaveStackStatus (rr_Name rq) (rr_Zone rq) StackStatusStaging s in
      Some (s', if decide (r = Ret tt) then Staged else Ended r)
  | Loop info, Staged =>
      match start stack info (rr_SkipApplications rq) s with
      | Looping st => Some (s, Runs st None)
      | Returned r => let '(o, s') := report (rr_Name rq) (rr_Zone rq) r s in Some (s', Ended o)
      | Blocked => None
      end
  | Receive, Runs st a =>
      st' ← receive (Stk.apps stack) (rr_Name rq) (rr_Zone rq) 0 NewVariables (with_storage s st);
      Some (storage st', Runs st' a)
  | Finish k r, Runs st a =>
      app ← goroutines st !! k;
      st' ← finish (Stk.apps stack) app r (with_storage s st);
      Some (storage st', Runs st' a)
  | Report, Runs st None =>
      r ← main st;
      let '(o, s') := report (rr_Name rq) (rr_Zone rq) r s in Some (s', Runs st (Some o))
  | _, _ => None
  end.
Lemma perform_sound rq stack c s p s' p' :
  perform rq stack c s p = Some (s', p') → request_step rq stack s p s' p'.
Proof.
  destruct c as [|info| |k r|], p as [| |st a|o]; simpl; try done.
  - destruct (SaveStackStatus _ _ _ s) as [r s1] eqn:Hs. intros [= -> <-].
    case_decide; [subst r; by apply request_staged|by apply request_refused].
  - destruct (start stack info _ s) as [r| |st] eqn:Hs; [|done|intros [= <- <-]; by eapply request_loops].
    destruct (report _ _ r s) as [o s1] eqn:Hr. intros [= <- <-]. by eapply request_returns.
  - intros (st' & Hr & [= <- <-])%bind_Some. eapply request_runs, step_receive, Hr.
  - intros (app & Ha & (st' & Hf & [= <- <-])%bind_Some)%bind_Some.
    eapply request_runs, step_finish; [|exact Hf]. by eapply list_elem_of_lookup_2.
  - destruct a; [done|]. intros (r & Hm & Hr)%bind_Some.
    destruct (report _ _ r s) as [o s1] eqn:Ho. injection Hr as <- <-. by eapply request_reports.
Qed.

(** Requests that are there, and who goes on with what; what is not possible is
    skipped. *)
Definition turn e (m : nat * choice) : S * list (serving S) :=
  match h ← e.2 !! m.1;
        '(s', p) ← perform (asked h) (merged h) m.2 e.1 (at_ h);
        Some (s', <[m.1 := MkServing (asked h) (merged h) p]> e.2)
  with Some e' => e' | None => e end.
Definition turns (ms : list (nat * choice)) e : S * list (serving S) := foldl turn e ms.
Definition arrived (l : list (RunRequest * Stack)) s : S * list (serving S) :=
  (s, (λ x, MkServing x.1 x.2 Waits) <$> l).

Lemma arrived_reached l s : rtc server_step (s, []) (arrived l s).
Proof.
  induction l as [|[rq stack] l IH] using rev_ind; [done|].
  eapply rtc_r; [exact IH|]. rewrite /arrived fmap_app. apply server_request.
Qed.
Lemma turns_reached ms e : rtc server_step e (turns ms e).
Proof.
  revert e. induction ms as [|[i c] ms IH]; intros e; [done|]. simpl.
  etrans; [|apply IH]. rewrite /turn /=.
  destruct (e.2 !! i) as [h|] eqn:Hi; simpl; [|done].
  destruct (perform (asked h) (merged h) c e.1 (at_ h)) as [[s' p]|] eqn:Hp; simpl; [|done].
  apply rtc_once. destruct e as [s hs]. by eapply server_goes_on, perform_sound, Hp.
Qed.
End schedule.

(** ** One stack in two zones, and twice in one *)
Section examples.
#[local] Existing Instance canonical_order.
#[local] Existing Instance ex_regexp.
#[local] Existing Instance ex_runners.
#[local] Existing Instance ConcreteTables.tables_ops.
#[local] Existing Instance ConcreteTables.tables_laws.
#[local] Existing Instance CassandraStateStorage.ops.
#[local] Existing Instance CassandraStateStorage.laws.
Abbreviation tables := ConcreteTables.tables.

Definition ex_rq (zone : string) : RunRequest :=
  {| rr_Name := "dev"; rr_Zone := zone; rr_MaxWait := 1; rr_Variables := ∅;
     rr_SkipApplications := [] |}.
Definition ex_empty : tables := ConcreteTables.MkTables ∅ ∅ ∅.
(** ZooKeeper comes up, then Kafka; the other request does the same one step
    behind. *)
Definition ex_turns : list (nat * choice) :=
  [(0, Stage); (1, Stage); (0, Loop (inr "master")); (1, Loop (inr "master"));
   (0, Finish 0 None); (1, Finish 0 None); (0, Receive); (1, Receive);
   (0, Finish 0 None); (1, Finish 0 None); (0, Receive); (0, Report)].
Definition ex_two_zones : tables * list (serving tables) :=
  turns ex_turns (arrived [(ex_rq "z1", ex_stack); (ex_rq "z2", ex_stack)] ex_empty).

Lemma ex_two_zones_reached : rtc server_step (ex_empty, []) ex_two_zones.
Proof. exact (transitivity (arrived_reached _ _) (turns_reached ex_turns _)). Qed.
Lemma ex_two_zones_alone : only_one ex_two_zones.2 0.
Proof. apply only_one_keys. by apply (bool_decide_unpack _); vm_compute. Qed.
Lemma ex_two_zones_answers :
  answer_of <$> ex_two_zones.2 !! 0 = Some (Some (Ret tt)) ∧
  answer_of <$> ex_two_zones.2 !! 1 = Some None.
Proof. split; by vm_compute. Qed.

Lemma runs_side_by_side_witness :
  ∃ h, ex_two_zones.2 !! 0 = Some h ∧ answer_of h = Some (Ret tt) ∧
    stack_status ex_two_zones.1 (key h).1 (key h).2 = Some (StackStatus_code StackStatusRunning).
Proof.
  destruct (proj1 (fmap_Some _ _ _) (proj1 ex_two_zones_answers)) as (h & Hh & Hans).
  exists h. split_and!; [exact Hh|exact (eq_sym Hans)|].
  apply (proj2 (runs_side_by_side ex_empty ex_two_zones 0 h ex_two_zones_reached Hh ex_two_zones_alone)).
  exact (eq_sym Hans).
Defined.

(** Nothing keeps a stack from being run twice at the same time in the same
    zone: the second run fails, and the first is answered with a success
    though the stack is saved as failed and its broker too. *)
Definition ex_twice : tables * list (serving tables) :=
  turns [(0, Stage); (0, Loop (inr "master")); (0, Finish 0 None); (0, Receive);
         (1, Stage); (1, Loop (inr "master")); (1, Finish 0 None); (1, Receive);
         (0, Finish 0 None); (0, Receive); (0, Report);
         (1, Finish 0 (Some (Errorf "no offers"))); (1, Receive); (1, Report)]
    (arrived [(ex_rq "z1", ex_stack); (ex_rq "z1", ex_stack)] ex_empty).
Lemma same_stack_twice :
  rtc server_step (ex_empty, []) ex_twice ∧
  answer_of <$> ex_twice.2 = [Some (Ret tt); Some (Err (Errorf "broker: no offers"))] ∧
  stack_status ex_twice.1 "dev" "z1" = Some (StackStatus_code StackStatusFailed) ∧
  app_status ex_twice.1 "dev" "z1" "broker" = Some (ApplicationStatus_code ApplicationStatusFailed).
Proof.
  split; [exact (transitivity (arrived_reached _ _) (turns_reached _ _))|]. by vm_compute.
Qed.
End examples.
