(* ===== verification/Client.v ===== *)
(** The client of the HTTP API ([framework/client.go]). *)
From S2P Require Import Prelude GoStrings Errors Json Variables Data Constraints MesosState.
From S2P Require Import StateStorage UserStorage Strconv Requests Scheduler Server.
From Stdlib Require Import Lia.
Open Scope string_scope.
Open Scope list_scope.

(** The texts of JSON and YAML documents, which are not modelled. *)
Class Texts := {
  print_json : json → string;
  parse_document : string → option json;
  (** [UnmarshalStack] and [yaml.Marshal] on the server's side *)
  parse_stack : string → result Stack;
  print_stack : Stack → result string;
  print_names : list string → result string;
  (** [yaml.Unmarshal] on the client's *)
  read_stack : string → result Stack;
  read_names : string → result (list string)
}.

(** The decoding of request bodies the server is given. *)
#[export] Instance json_codec `{Texts} : Codec := {|
  decode_get b := decode_get_request (parse_document b);
  decode_run b := decode_run_request (parse_document b);
  decode_create b := decode_create_request (parse_document b);
  decode_layer b := decode_layer_request (parse_document b);
  decode_remove b := decode_remove_request (parse_document b);
  parse_json := parse_document;
  decode_scheduled b := decode_scheduled_request (parse_document b);
  UnmarshalStack := parse_stack;
  marshal_stack := print_stack;
  marshal_names := print_names
|}.

Module Client.
Record Client : Type := MkClient { host : string; user : string; key : string }.

(** [NewClient]; [SD_USER] and [SD_KEY] are variables of the environment. *)
Definition NewClient (h SD_USER SD_KEY : string) : Client :=
  let h := if negb (HasPrefix h "http://") then "http://" +:+ h else h in
  let h := if HasSuffix h "/" then take_str (String.length h - 1) h else h in
  MkClient h SD_USER SD_KEY.

Section client.
Context `{Texts} {W : Type}.
(** [send host r]: the request reaches a server, or does not, and is answered. *)
Context (send : string → request → M W error writer) (c : Client).

Definition request (url : string) (data : json) : M W error string :=
  resp ← send (host c) (MkRequest url (user c) (key c) (print_json data));
  if negb (default StatusOK (w_status resp) =? StatusOK)%Z then fail (Errorf (w_body resp))
  else mret (w_body resp).

(** Without the line it prints, which is left to the command. *)
Definition Ping : M W error unit := request "/health" encode_nothing ;; mret tt.
Definition List_ : M W error (list string) :=
  content ← request "/list" encode_nothing; lift (read_names content).
Definition GetStack (data : GetStackRequest) : M W error Stack :=
  content ← request "/get" (encode_get data); lift (read_stack content).
Definition Run (data : RunRequest) : M W error unit :=
  request "/run" (encode_run data) ;; mret tt.
Definition CreateStack (data : CreateStackRequest) : M W error unit :=
  request "/createstack" (encode_create data) ;; mret tt.
Definition CreateLayer (data : CreateLayerRequest) : M W error unit :=
  request "/createlayer" (encode_layer data) ;; mret tt.
Definition RemoveStack (data : RemoveStackRequest) : M W error unit :=
  request "/removestack" (encode_remove data) ;; mret tt.
Definition CreateUser (data : CreateUserRequest) : M W error string :=
  request "/createuser" (encode_create_user data).
Definition RefreshToken (data : RefreshTokenRequest) : M W error string :=
  request "/refreshtoken" (encode_refresh data).
Definition decode_scheduled_task (fs : list (string * json)) : result ScheduledTask :=
  id ← decode_int (member_or_null "id" fs);
  name ← decode_string (member_or_null "name" fs);
  startTime ← decode_string (member_or_null "start_time" fs);
  timeSchedule ← decode_string (member_or_null "time_schedule" fs);
  Ret (MkScheduledTask id name startTime timeSchedule).
Definition Scheduled : M W error (list (option ScheduledTask)) :=
  resp ← request "/scheduled" encode_nothing;
  match parse_document resp with
  | None => fail (Errorf "invalid character")
  | Some j => lift (decode_list (decode_pointer decode_scheduled_task) j)
  end.
Definition RemoveScheduled (data : RemoveScheduledRequest) : M W error string :=
  request "/scheduled/delete" (encode_remove_scheduled data).
End client.
End Client.
