(* ===== verification/Commands.v ===== *)
(** The command line client ([command/]): each command parses its flags, finds
    the address of the server, makes one call of [Client] and turns its error
    into an exit status. *)
From S2P Require Import Prelude GoStrings Errors Json Variables Data Constraints.
From S2P Require Import Strconv Flags Requests Scheduler Server Client.
From Stdlib Require Import Ascii Lia.
Open Scope string_scope.
Open Scope list_scope.

(** The environment of the process, the files it can read, and how long its
    request takes, as it is printed. *)
Record environment : Type := MkEnvironment {
  SD_API : string;
  SD_USER : string;
  SD_KEY : string;
  ReadFile : string → option string;
  elapsed : string
}.

(** [resolveApi] of [api.go]. *)
Definition resolveApi (api : string) (env : environment) : result string :=
  if negb (String.eqb api "") then Ret api
  else if negb (String.eqb (SD_API env) "") then Ret (SD_API env)
  else Err (Errorf "Undefined API url. Please provide either a CLI --api option or SD_API env.").

(** [vars] and [skipApplications] of [run.go], values of repeated flags. *)
Definition vars_Set (value : string) (v : gmap string string) : option (gmap string string) :=
  match SplitN2 value "=" with
  | [k; x] => Some (<[k := x]> v)
  | _ => None
  end.
Definition vars_String `{MapOrder} (v : gmap string string) : string :=
  Join ((λ '(k, x), k +:+ "=" +:+ x) <$> range 0 v) ", ".
Definition skipApplications_Set `{Regexp} (value : string) (s : list string) : option (list string) :=
  match Compile value with
  | Ret _ => Some (s ++ [value])
  | _ => None
  end.
Definition skipApplications_String (s : list string) : string := Join s ", ".

Section commands.
Context `{rx : Regexp} `{Texts} {W : Type} (send : string → request → M W error writer).
Context (env : environment).

(** A command writes to standard output and ends with an exit status. *)
Abbreviation command := (M (string * W) error Z).
Definition newline_text : string := String newline "".
Definition puts (text : string) : M (string * W) error unit := λ '(out, w),
  (Ret tt, (out +:+ text, w)).
Definition Println (text : string) : M (string * W) error unit := puts (text +:+ newline_text).
(** A call of the client, its error in hand. *)
Definition call {A} (m : M W error A) : M (string * W) error (error + A) := λ '(out, w),
  match m w with
  | (Ret a, w') => (Ret (inr a), (out, w'))
  | (Err e, w') => (Ret (inl e), (out, w'))
  | (Panic p, w') => (Panic p, (out, w'))
  end.
Definition error_line (e : error) : string := "ERROR: " +:+ Error e.
(** Flags that do not parse end the process with status 2. *)
Definition with_flags {F} (flags : flag_set F) (args : list string) (defaults : F)
    (run : F → command) : command :=
  match Parse flags args defaults with
  | Some f => run f
  | None => mret 2%Z
  end.
Definition with_api (api : string) (message : error → string)
    (run : Client.Client → command) : command :=
  match resolveApi api env with
  | Ret a => run (Client.NewClient a (SD_USER env) (SD_KEY env))
  | Err e => Println (message e) ;; mret 1%Z
  | Panic p => panic p
  end.
(** The end of every command: an error is printed, a result goes on. *)
Definition finish {A} (message : error → string) (m : M W error A) (success : A → command) : command :=
  r ← call m;
  match r with
  | inl e => Println (message e) ;; mret 1%Z
  | inr a => success a
  end.
(** The first argument of three of the commands. *)
Definition with_name (args : list string) (missing : string)
    (run : string → list string → command) : command :=
  match args with
  | [] => Println missing ;; mret 1%Z
  | name :: args' => run name args'
  end.

(** [ping.go]; the answer is printed by [Client.Ping] in the source. *)
Definition PingCommand_Run (args : list string) : command :=
  with_flags [("api", StringFlag (λ v _, v))] args "" (λ api,
    with_api api error_line (λ client,
      finish error_line (Client.Ping send client) (λ _, Println "Pong" ;; mret 0%Z))).

(** [list.go] *)
Definition ListCommand_Run (args : list string) : command :=
  with_flags [("api", StringFlag (λ v _, v))] args "" (λ api,
    with_api api error_line (λ client,
      finish (λ e, "ERROR getting list: " +:+ Error e) (Client.List_ send client) (λ stacks,
        Println (Join stacks newline_text) ;; mret 0%Z))).

(** [show.go]; a stack prints as YAML. *)
Definition ShowCommand_Run (args : list string) : command :=
  with_name args "Stack name required to show" (λ name args,
    with_flags [("api", StringFlag (λ v _, v))] args "" (λ api,
      with_api api error_line (λ client,
        finish error_line (Client.GetStack send client {| gs_Name := name |}) (λ stack,
          match print_stack stack with
          | Ret text => Println text ;; mret 0%Z
          | Err e => panic (Error e)
          | Panic p => panic p
          end)))).

(** [run.go] *)
Record run_flags : Type := MkRunFlags {
  run_api : string; run_zone : string; run_maxWait : Z;
  run_variables : gmap string string; run_skip : list string }.
Definition defaultApplicationMaxWait : Z := 600.
Definition run_flag_set : flag_set run_flags :=
  [("api", StringFlag (λ v f,
      MkRunFlags v (run_zone f) (run_maxWait f) (run_variables f) (run_skip f)));
   ("zone", StringFlag (λ v f,
      MkRunFlags (run_api f) v (run_maxWait f) (run_variables f) (run_skip f)));
   ("max.wait", IntFlag (λ n f,
      MkRunFlags (run_api f) (run_zone f) n (run_variables f) (run_skip f)));
   ("var", ValueFlag (λ v f,
      (λ m, MkRunFlags (run_api f) (run_zone f) (run_maxWait f) m (run_skip f)) <$>
        vars_Set v (run_variables f)));
   ("skip", ValueFlag (λ v f,
      (λ l, MkRunFlags (run_api f) (run_zone f) (run_maxWait f) (run_variables f) l) <$>
        skipApplications_Set v (run_skip f)))].
Definition run_request (name : string) (f : run_flags) : RunRequest :=
  {| rr_Name := name; rr_Zone := run_zone f; rr_MaxWait := run_maxWait f;
     rr_Variables := run_variables f; rr_SkipApplications := run_skip f |}.
Definition RunCommand_Run (args : list string) : command :=
  with_name args "Stack name required to run" (λ name args,
    with_flags run_flag_set args (MkRunFlags "" "" defaultApplicationMaxWait ∅ []) (λ f,
      with_api (run_api f) (λ e, "ERROR resolving API: " +:+ Error e) (λ client,
        Println ("Running stack " +:+ name) ;;
        finish (λ e, "ERROR running client request: " +:+ Error e)
          (Client.Run send client (run_request name f))
          (λ _, Println ("Done in " +:+ elapsed env) ;; mret 0%Z)))).

(** [add.go] *)
Definition AddStackCommand_Run (args : list string) : command :=
  with_flags [("api", StringFlag (λ v f, (v, f.2))); ("file", StringFlag (λ v f, (f.1, v)))]
    args ("", "Stackfile") (λ '(api, stackFile),
    with_api api error_line (λ client,
      match ReadFile env stackFile with
      | None => Println ("Can't read file " +:+ stackFile) ;; mret 1%Z
      | Some stack =>
          finish error_line (Client.CreateStack send client {| cs_Stackfile := stack |}) (λ _,
            Println "Stack added" ;; mret 0%Z)
      end)).

(** [add_layer.go] *)
Record layer_flags : Type := MkLayerFlags {
  layer_api : string; layer_file : string; layer_level : string; layer_parent : string }.
Definition AddLayerCommand_Run (args : list string) : command :=
  with_flags
    [("api", StringFlag (λ v f, MkLayerFlags v (layer_file f) (layer_level f) (layer_parent f)));
     ("file", StringFlag (λ v f, MkLayerFlags (layer_api f) v (layer_level f) (layer_parent f)));
     ("level", StringFlag (λ v f, MkLayerFlags (layer_api f) (layer_file f) v (layer_parent f)));
     ("parent", StringFlag (λ v f, MkLayerFlags (layer_api f) (layer_file f) (layer_level f) v))]
    args (MkLayerFlags "" "Stackfile" "zone" "") (λ f,
    with_api (layer_api f) error_line (λ client,
      match ReadFile env (layer_file f) with
      | None => Println ("Can't read file " +:+ layer_file f) ;; mret 1%Z
      | Some stack =>
          finish error_line (Client.CreateLayer send client
            {| cl_Stackfile := stack; cl_Layer := layer_level f; cl_Parent := layer_parent f |}) (λ _,
            Println "Stack added" ;; mret 0%Z)
      end)).

(** [remove.go] *)
Definition RemoveStackCommand_Run (args : list string) : command :=
  with_name args "Stack name required to remove" (λ name args,
    with_flags [("api", StringFlag (λ v f, (v, f.2))); ("force", BoolFlag (λ b f, (f.1, b)))]
      args ("", false) (λ '(api, force),
      with_api api error_line (λ client,
        Println ("Removing stack " +:+ name) ;;
        finish error_line (Client.RemoveStack send client {| rs_Name := name; rs_Force := force |}) (λ _,
          Println "Stack removed" ;; mret 0%Z)))).

(** [adduser.go] *)
Definition AddUserCommand_Run (args : list string) : command :=
  with_flags
    [("api", StringFlag (λ v '(_, name, admin), (v, name, admin)));
     ("name", StringFlag (λ v '(api, _, admin), (api, v, admin)));
     ("admin", BoolFlag (λ b '(api, name, _), (api, name, b)))]
    args ("", "", false) (λ '(api, name, admin),
    with_api api error_line (λ client,
      let role := if (admin : bool) then "admin" else "regular" in
      finish error_line (Client.CreateUser send client {| cu_Name := name; cu_Role := role |}) (λ key,
        Println ("User added. Key: " +:+ key) ;; mret 0%Z))).

(** [refreshtoken.go] *)
Definition RefreshTokenCommand_Run (args : list string) : command :=
  with_flags [("api", StringFlag (λ v f, (v, f.2))); ("name", StringFlag (λ v f, (f.1, v)))]
    args ("", "") (λ '(api, name),
    with_api api error_line (λ client,
      finish error_line (Client.RefreshToken send client {| rt_Name := name |}) (λ key,
        Println ("New key generated: " +:+ key) ;; mret 0%Z))).

(** [scheduled.go] *)
Definition tab : string := String (ascii_of_nat 9) "".
Definition task_line (task : ScheduledTask) : string :=
  "[" +:+ Itoa (st_ID task) +:+ "] " +:+ st_Name task +:+ newline_text +:+
  tab +:+ "start: '" +:+ st_StartTime task +:+ "'" +:+ newline_text +:+
  tab +:+ "schedule: '" +:+ st_TimeSchedule task +:+ "'" +:+ newline_text.
Definition ScheduledCommand_Run (args : list string) : command :=
  with_flags [("api", StringFlag (λ v f, (v, f.2))); ("remove", IntFlag (λ n f, (f.1, n)))]
    args ("", (-1)%Z) (λ '(api, remove),
    with_api api error_line (λ client,
      if (remove =? -1)%Z then
        finish error_line (Client.Scheduled send client) (λ tasks,
          for_each (λ task, match task with
                            | Some task => puts (task_line task)
                            | None => panic nil_dereference
                            end) tasks ;;
          mret 0%Z)
      else
        finish error_line (Client.RemoveScheduled send client {| rsr_ID := remove |}) (λ resp,
          Println resp ;; mret 0%Z))).

(** The commands of [main.go], but for [server]. *)
Definition commands : gmap string (list string → command) := list_to_map
  [("ping", PingCommand_Run); ("list", ListCommand_Run); ("show", ShowCommand_Run);
   ("run", RunCommand_Run); ("add", AddStackCommand_Run); ("remove", RemoveStackCommand_Run);
   ("adduser", AddUserCommand_Run); ("refreshtoken", RefreshTokenCommand_Run);
   ("addlayer", AddLayerCommand_Run); ("scheduled", ScheduledCommand_Run)].
End commands.
