(* ===== verification/ClientFacts.v ===== *)
(** The client of [Client] talking to the server of [Server]. *)
From S2P Require Import Prelude GoStrings Errors Json Variables Data Constraints Application MesosState.
From S2P Require Import StateStorage UserStorage Strconv Requests StackRun StackRunFacts Scheduler Server ServerFacts Client.
From Stdlib Require Import Lia.
Open Scope string_scope.
Open Scope list_scope.
Open Scope nat_scope.

(** ** Requests *)



(** ** Calls *)
Section calls.
Context `{ord : MapOrder} `{Texts} {Sto P U SS C : Type} `{Storage Sto P} `{UserStorage U}
  `{StateStorage SS} `{Server.Scheduler C} `{StackRunner SS C}.
Context (globalVariables : gmap string string).
Abbreviation server := (server Sto U SS C).
Implicit Types (s : server).

(** The server is reached. When a handler panics the connection is closed
    without an answer. *)
Definition reach (host : string) (r : request) : M server error writer := λ s,
  match serve globalVariables r s with
  | (Ret w, s') => (Ret w, s')
  | (_, s') => (Err (Errorf "EOF"), s')
  end.

(** The document [j] survives being printed and parsed. *)
Definition reads_back (j : json) : Prop := parse_document (print_json j) = Some j.

Lemma request_served c url j s body s' :
  Client.request reach c url j s = (Ret body, s') →
  ∃ w, serve globalVariables (MkRequest url (Client.user c) (Client.key c) (print_json j)) s =
         (Ret w, s') ∧
       default StatusOK (w_status w) = StatusOK ∧ w_body w = body.
Proof.
  intros E. rewrite /Client.request in E. apply M_bind_ret_inv in E as (w & s1 & Ew & E).
  rewrite /reach in Ew. destruct (serve _ _ s) as [[w'|e|p] s2]; [|done..]. injection Ew as -> ->.
  destruct (default StatusOK (w_status w) =? StatusOK)%Z eqn:Hst; [|done].
  simpl in E. injection E as <- <-. exists w. split_and!; [done|by apply Z.eqb_eq|done].
Qed.

(** A path behind the check of the key. *)
Lemma served_by_Auth r h s w s' :
  routes globalVariables !! rq_path r = Some (Auth h) →
  serve globalVariables r s = (Ret w, s') → default StatusOK (w_status w) = StatusOK →
  ∃ u, CheckKey (rq_user r) (rq_key r) (sv_userStorage s) = (Ret true, u) ∧
       answer (h r (MkWriter None "", with_users u s)) = (Ret w, s').
Proof.
  intros Hr Hs Hst. pose proof (serve_Auth globalVariables r s h Hr) as Ha.
  destruct (CheckKey _ _ _) as [[[]|e|p] u]; rewrite Hs in Ha; [by exists u| | |];
    simplify_eq/=; done.
Qed.

(** What the handler of runs did when it answered 200. *)
Lemma RunHandler_ok rq body s w s' :
  decode_run body = (Some rq, None) →
  answer (RunHandler globalVariables (MkRequest "/run" "" "" body) (MkWriter None "", s)) = (Ret w, s') →
  default StatusOK (w_status w) = StatusOK →
  rr_Name rq ≠ "" ∧ ∃ s1, on_scheduler refresh s = (Ret tt, s1) ∧
    runStack rq (request_variables globalVariables rq) s1 = (Ret tt, s').
Proof.
  intros Hd Ha Hst. rewrite /RunHandler /mbind /M_mbind in Ha. simpl rq_body in Ha. rewrite Hd /= in Ha.
  destruct (String.eqb_spec (rr_Name rq) ""); [simpl in Ha; simplify_eq/=|]. split; [done|].
  rewrite /= /mbind /M_mbind /try in Ha.
  destruct (on_scheduler refresh s) as [[[]|e|p] s1] eqn:E1; [|simpl in Ha; simplify_eq/=..].
  exists s1. split; [done|].
  destruct (runStack rq _ s1) as [[[]|e|p] s2] eqn:E2; [|simpl in Ha; simplify_eq/=..].
  simpl in Ha. by simplify_eq.
Qed.

(** What a call to run a stack that returned nil says about the server: the key
    of the user was valid, and a run of exactly the requested stack, zone,
    variables and skipped applications has succeeded. *)
Lemma client_runs c rq s s' :
  in_int64 (rr_MaxWait rq) = true → reads_back (encode_run rq) →
  Client.Run reach c rq s = (Ret tt, s') →
  (∃ u, CheckKey (Client.user c) (Client.key c) (sv_userStorage s) = (Ret true, u)) ∧
  ∃ s1, runStack rq (request_variables globalVariables rq) s1 = (Ret tt, s').
Proof.
  intros Hm Hback E. rewrite /Client.Run in E. apply M_bind_ret_inv in E as (body & s2 & E & E2).
  injection E2 as ->. apply request_served in E as (w & Hs & Hst & _).
  apply (served_by_Auth _ (RunHandler globalVariables)) in Hs as (u & Hu & Ha); [|done..].
  split; [by exists u|]. simpl in Hu.
  destruct (RunHandler_ok rq (print_json (encode_run rq)) (with_users u s) w s') as (_ & s1 & _ & Hrun).
  - rewrite /= Hback. by apply decode_encode_run.
  - exact Ha.
  - done.
  - by exists s1.
Qed.

(** The client takes every answer but 200 for an error, and the server
    answers a request that created a user with 201: adding a user never
    reports a success. A user that was created exists all the same, and the
    text of the "error" is its key. *)
Theorem adding_a_user_reports_failure c data s :
  (∀ k, (Client.CreateUser reach c data s).1 ≠ Ret k) ∧
  ∀ u u' role k u'', reads_back (encode_create_user data) →
    CheckKey (Client.user c) (Client.key c) (sv_userStorage s) = (Ret true, u) →
    IsAdmin (Client.user c) u = (Ret true, u') →
    role = (if String.eqb (cu_Role data) "admin" then UserAdmin else UserRegular) →
    CreateUser (cu_Name data) role u' = (Ret k, u'') →
    Client.CreateUser reach c data s = (Err (Errorf k), with_users u'' s).
Proof.
  assert (routes globalVariables !! "/createuser" = Some (Auth (Admin CreateUserHandler))) as Hroute by done.
  split.
  - intros k Hk. destruct (Client.CreateUser reach c data s) as [r s'] eqn:E. simpl in Hk. subst r.
    rewrite /Client.CreateUser in E. apply request_served in E as (w & Hs & Hst & _).
    apply (served_by_Auth _ (Admin CreateUserHandler)) in Hs as (u & _ & Ha); [|done..].
    pose proof (answer_Admin (MkRequest "/createuser" (Client.user c) (Client.key c)
      (print_json (encode_create_user data))) (with_users u s) CreateUserHandler) as Hadm.
    rewrite Ha in Hadm. destruct (IsAdmin _ _) as [[[]|e|p] u']; [|simplify_eq/=; done..].
    rewrite /CreateUserHandler /user_handler in Hadm.
    destruct (User_UnmarshalJSON _) as [user|e|p]; [|by simplify_eq/=..].
    rewrite /= /mbind /M_mbind /try /on_users in Hadm.
    destruct (CreateUser _ _ _) as [[k'|e|p] u'']; by simplify_eq/=.
  - intros u u' role k u'' Hback Hkey Hadm -> Hcreate.
    rewrite /Client.CreateUser /Client.request {1}/mbind {1}/M_mbind.
    assert (serve globalVariables (MkRequest "/createuser" (Client.user c) (Client.key c)
      (print_json (encode_create_user data))) s = (Ret (MkWriter (Some StatusCreated) k), with_users u'' s))
      as Hserve.
    { pose proof (serve_Auth globalVariables (MkRequest "/createuser" (Client.user c) (Client.key c)
        (print_json (encode_create_user data))) s _ Hroute) as Ha. simpl rq_user in Ha. simpl rq_key in Ha.
      rewrite Hkey in Ha. rewrite Ha.
      pose proof (answer_Admin (MkRequest "/createuser" (Client.user c) (Client.key c)
        (print_json (encode_create_user data))) (with_users u s) CreateUserHandler) as Hd.
      simpl rq_user in Hd. simpl sv_userStorage in Hd. rewrite Hadm in Hd. rewrite Hd.
      rewrite /CreateUserHandler /user_handler. simpl rq_body. rewrite /= Hback.
      rewrite /= /mbind /M_mbind /try /on_users /=.
      assert (User_UnmarshalJSON (Some (encode_create_user data)) =
        Ret (MkUser (cu_Name data) "" (if String.eqb (cu_Role data) "admin" then UserAdmin else UserRegular)))
        as ->; [|simpl; by rewrite Hcreate].
      done. }
    by rewrite /reach Hserve.
Qed.
End calls.

(** ** Concrete calls *)
Section examples.
#[local] Existing Instance ex_regexp.
#[local] Existing Instance ex_runners.
#[local] Existing Instance canonical_order.
#[local] Existing Instance ex_stacks.
#[local] Existing Instance ex_scheduler_ops.
#[local] Existing Instance ConcreteTables.tables_ops.
#[local] Existing Instance ConcreteTables.tables_laws.
#[local] Existing Instance CassandraStateStorage.ops.
#[local] Existing Instance CassandraStateStorage.laws.
#[local] Existing Instance ex_run_tables.
#[local] Existing Instance NoopUserStorage.ops.

(** Texts for a conversation about one document. *)
Definition ex_texts (j : json) : Texts := {|
  print_json _ := "document";
  parse_document _ := Some j;
  parse_stack _ := Err (Errorf "not a stack");
  print_stack st := Ret (Stk.Name st);
  print_names l := Ret (Join l ",");
  read_stack _ := Err (Errorf "not a stack");
  read_names s := Ret [s]
|}.
Definition ex_client : Client.Client := Client.NewClient "localhost:4200/" "admin" "key-1".


#[local] Existing Instance ConcreteUsers.table_ops.
#[local] Existing Instance CassandraUserStorage.ops.
Definition ex_user : CreateUserRequest := {| cu_Name := "bob"; cu_Role := "regular" |}.
Definition ex_adduser :=
  Client.CreateUser (H := ex_texts (encode_create_user ex_user))
    (reach (H := ex_texts (encode_create_user ex_user)) (U := ConcreteUsers.table) ∅)
    ex_client ex_user ex_users_server.
Lemma adding_a_user_reports_failure_witness :
  ex_adduser.1 = Err (Errorf "key-2") ∧
  CheckKey "bob" "key-2" (sv_userStorage ex_adduser.2) =
    (Ret true, sv_userStorage ex_adduser.2).
Proof.
  destruct (CreateUser "bob" UserRegular ConcreteUsers.ex_users) as [r u] eqn:E.
  assert (r = Ret "key-2") as -> by (change r with (r, u).1; rewrite -E; by vm_compute).
  assert (ex_adduser = (Err (Errorf "key-2"), with_users u ex_users_server)) as ->.
  { eapply (adding_a_user_reports_failure (H := ex_texts (encode_create_user ex_user)) ∅ ex_client
      ex_user ex_users_server); [reflexivity| | |reflexivity|exact E]; by vm_compute. }
  split; [reflexivity|]. simpl. change u with (Ret (E := error) "key-2", u).2. rewrite -E. by vm_compute.
Defined.
End examples.
