(* ===== verification/CommandsFacts.v ===== *)
(** What the command line guarantees: flags mean what was written, and what an
    exit status of zero says about the server. *)
From S2P Require Import Prelude GoStrings Errors Json Variables Data Constraints Application MesosState.
From S2P Require Import StateStorage UserStorage Strconv Flags Requests StackRun StackRunFacts.
From S2P Require Import Scheduler Server ServerFacts Client Commands ClientFacts.
From Stdlib Require Import Ascii Lia.
Open Scope string_scope.
Open Scope list_scope.
Open Scope nat_scope.

(** ** Numbers *)
Lemma pretty_head (x : N) s : (0 < x)%N → ∃ c s', pretty_N_go x s = String c s' ∧
  c ≠ "0"%char ∧ c ≠ "-"%char ∧ c ≠ "+"%char.
Proof.
  revert s. induction (N.lt_wf_0 x) as [x _ IH]. intros s Hx.
  rewrite pretty_N_go_step //. destruct (decide (x / 10 = 0)%N) as [H0|H0].
  - rewrite H0 pretty_N_go_0. apply N.div_small_iff in H0; [|done].
    rewrite N.mod_small //. eexists _, _. split; [done|].
    destruct x as [|p]; [done|].
    do 4 (destruct p as [p|p|]; try (split_and!; by vm_compute)); exfalso; lia.
  - apply IH; [apply N.div_lt; lia|]. by apply N.neq_0_lt_0.
Qed.

Lemma parse_base10 s acc n : parse_digits s acc = Some n → parse_base 10 s acc = Some n.
Proof.
  revert acc. induction s as [|c s IH]; intros acc; [done|]. cbn [parse_digits parse_base].
  rewrite /hex_value. destruct (digit_value c) as [d|] eqn:Hd; [|done]. simpl.
  assert ((d <? 10)%Z = true) as ->; [|apply IH].
  revert Hd. rewrite /digit_value. case_match eqn:E; [|done]. intros [= <-].
  apply andb_true_iff in E as [_ E]. apply Z.leb_le in E. apply Z.ltb_lt. lia.
Qed.

Lemma parse_unsigned_pretty p : parse_unsigned (pretty (Npos p)) = Some (Zpos p).
Proof.
  destruct (pretty_unsigned (Npos p)) as (Hp & _).
  destruct (pretty_head (Npos p) "" ltac:(done)) as (c & s & Hgo & H0 & _).
  assert (pretty (Npos p) = String c s) as E by done. rewrite E in Hp |- *. rewrite /parse_unsigned.
  destruct (Ascii.eqb_spec c "0"); [done|]. by apply parse_base10.
Qed.

(** A flag of type [int] takes every number as it is printed. *)
Lemma ParseInt0_Itoa n : in_int64 n = true → ParseInt0 (Itoa n) = Some n.
Proof.
  intros Hn. rewrite /ParseInt0 /Itoa. destruct n as [|p|p]; [done| |].
  - change (pretty (Zpos p)) with (pretty (Npos p)).
    destruct (pretty_head (Npos p) "" ltac:(done)) as (c & s & Hgo & _ & Hm & Hplus).
    assert (pretty (Npos p) = String c s) as E by done.
    assert (split_sign (pretty (Npos p)) = (false, pretty (Npos p))) as ->.
    { rewrite E /split_sign. destruct (Ascii.eqb_spec c "-"); [done|]. by destruct (Ascii.eqb_spec c "+"). }
    by rewrite parse_unsigned_pretty /= Hn.
  - change (pretty (Zneg p)) with (String "-"%char (pretty (Npos p))).
    change (split_sign (String "-"%char (pretty (Npos p)))) with (true, pretty (Npos p)).
    cbv beta iota. by rewrite parse_unsigned_pretty /= Hn.
Qed.

(** ** Flags *)

(** [k=v] is split at the first equals sign. *)
Lemma Index_app k x : Contains k "=" = false → Index (k +:+ "=" +:+ x) "=" = Some (String.length k).
Proof.
  rewrite /Contains. induction k as [|c k IH]; intros Hk; [by destruct x|].
  change (String c k +:+ "=" +:+ x) with (String c (k +:+ "=" +:+ x)). cbn [Index] in Hk |- *.
  rewrite !str_prefix_cons in Hk |- *.
  assert (∀ s, String.prefix "" s = true) as Hnil by by intros [].
  rewrite !Hnil !andb_true_r in Hk |- *. destruct (Ascii.eqb "=" c); [done|].
  destruct (Index k "=") as [i|]; [done|]. by rewrite (IH eq_refl).
Qed.

Lemma vars_Set_ok k x m : Contains k "=" = false → vars_Set (k +:+ "=" +:+ x) m = Some (<[k := x]> m).
Proof.
  intros Hk. rewrite /vars_Set /SplitN2 Index_app // take_str_app.
  assert (String.length k + String.length "=" = String.length (k +:+ "=")) as -> by by rewrite str_length_app.
  by rewrite str_app_assoc drop_str_app.
Qed.

(** ** Exit statuses *)
Section exits.
Context `{rx : Regexp} `{Texts} {W : Type} (send : string → request → M W error writer).
Context (env : environment).
Abbreviation command := (M (string * W) error Z).

(** [m] sends one request, and returns a result only if it was answered 200. *)
Definition one_request {A} (m : M W error A) : Prop := ∀ w, ∃ h rq,
  (m w).2 = (send h rq w).2 ∧
  ∀ a, (m w).1 = Ret a → ∃ wr, (send h rq w).1 = Ret wr ∧ default StatusOK (w_status wr) = StatusOK.

Lemma request_one c url j : one_request (Client.request send c url j).
Proof.
  intros w. exists (Client.host c), (MkRequest url (Client.user c) (Client.key c) (print_json j)).
  rewrite /Client.request /mbind /M_mbind. destruct (send _ _ w) as [[wr|e|p] w1]; [|done..].
  destruct (default StatusOK (w_status wr) =? StatusOK)%Z eqn:E; [|done]. simpl. split; [done|].
  intros a _. exists wr. split; [done|]. by apply Z.eqb_eq.
Qed.
Lemma bind_one {A B} (m : M W error A) (f : A → M W error B) :
  one_request m → (∀ a w, (f a w).2 = w) → one_request (m ≫= f).
Proof.
  intros Hm Hf w. destruct (Hm w) as (h & rq & Hw & Ha). exists h, rq. rewrite /mbind /M_mbind.
  destruct (m w) as [[a|e|p] w1]; simpl in *; [|done..]. rewrite (Hf a w1). split; [done|].
  intros b _. by apply (Ha a).
Qed.

(** What a command may do to the outside, and with which status it may end. *)
Definition exits (cmd : command) : Prop := ∀ out w,
  let '(r, (out', w')) := cmd (out, w) in
  (w' = w ∧ (∀ code, r = Ret code → code = 1%Z ∨ code = 2%Z ∧ out' = out)) ∨
  (∃ h rq, w' = (send h rq w).2 ∧
     ∀ code, r = Ret code → code = 1%Z ∨ code = 0%Z ∧
       ∃ wr, (send h rq w).1 = Ret wr ∧ default StatusOK (w_status wr) = StatusOK).
(** Ends with status 0 and only prints. *)
Definition prints (cmd : command) : Prop := ∀ out w,
  (cmd (out, w)).2.2 = w ∧ ∀ code, (cmd (out, w)).1 = Ret code → code = 0%Z.
Lemma prints_puts text : prints (puts text ;; mret 0%Z).
Proof. intros out w. split; [done|]. by intros code [= <-]. Qed.

Lemma exits_finish {A} message (m : M W error A) success :
  one_request m → (∀ a, prints (success a)) → exits (finish message m success).
Proof.
  intros Hm Hs out w. destruct (Hm w) as (h & rq & Hw & Ha).
  rewrite /finish /call /mbind /M_mbind. destruct (m w) as [[a|e|p] w1]; simpl in *.
  - specialize (Hs a out w1). destruct (success a (out, w1)) as [r [out' w']]. simpl in Hs.
    destruct Hs as [-> Hs]. right. exists h, rq. split; [done|]. intros code Hr. right.
    split; [by apply Hs|by apply (Ha a)].
  - right. exists h, rq. split; [done|]. intros code [= <-]. by left.
  - right. exists h, rq. by split.
Qed.
Lemma exits_puts text cmd : (∀ out w, (cmd (out, w)).1 ≠ Ret 2%Z) → exits cmd → exits (puts text ;; cmd).
Proof.
  intros Hne Hc out w. specialize (Hc (out +:+ text) w). specialize (Hne (out +:+ text) w).
  rewrite /puts /mbind /M_mbind. destruct (cmd (out +:+ text, w)) as [r [out' w']]. simpl in Hne.
  destruct Hc as [[-> Hc]|Hc]; [left|by right]. split; [done|]. intros code Hr.
  destruct (Hc code Hr) as [|[-> _]]; [by left|done].
Qed.
Lemma finish_not_2 {A} message (m : M W error A) success out w :
  (∀ a, prints (success a)) → (finish message m success (out, w)).1 ≠ Ret 2%Z.
Proof.
  intros Hs. rewrite /finish /call /mbind /M_mbind. destruct (m w) as [[a|e|p] w1]; [|done..].
  intros Hr. specialize (Hs a out w1). destruct Hs as [_ Hs]. by specialize (Hs _ Hr).
Qed.
Lemma exits_fail text : exits (Println text ;; mret 1%Z).
Proof. intros out w. left. split; [done|]. intros code [= <-]. by left. Qed.
Lemma exits_with_flags {F} (flags : flag_set F) args defaults run :
  (∀ f, exits (run f)) → exits (with_flags flags args defaults run).
Proof.
  intros Hr. rewrite /with_flags. destruct (Parse _ _ _); [done|].
  intros out w. left. split; [done|]. intros code [= <-]. by right.
Qed.
Lemma exits_with_api api message run : (∀ c, exits (run c)) → exits (with_api env api message run).
Proof.
  intros Hr. rewrite /with_api. destruct (resolveApi api env); [done|apply exits_fail|].
  intros out w. by left.
Qed.
Lemma exits_with_name args missing run :
  (∀ name args, exits (run name args)) → exits (with_name args missing run).
Proof. intros Hr. destruct args; [apply exits_fail|apply Hr]. Qed.

Lemma prints_tasks tasks :
  prints (for_each (λ task, match task with
                            | Some task => puts (task_line task)
                            | None => panic nil_dereference
                            end) tasks ;; mret 0%Z).
Proof.
  induction tasks as [|[task|] tasks IH]; intros out w; [split; [done|by intros code [= <-]]| |by split].
  specialize (IH (out +:+ task_line task) w).
  rewrite /= /mbind /M_mbind /puts in IH |- *. exact IH.
Qed.

Lemma call_one {A} (m : M W error A) c url j (f : string → M W error A) :
  m = (Client.request send c url j ≫= f) → (∀ a w, (f a w).2 = w) → one_request m.
Proof. intros -> Hf. apply bind_one; [apply request_one|done]. Qed.

Lemma exits_announced {A} text message (m : M W error A) success :
  one_request m → (∀ a, prints (success a)) → exits (puts text ;; finish message m success).
Proof.
  intros Hm Hs. apply exits_puts; [|by apply exits_finish].
  intros out w. by apply finish_not_2.
Qed.

(** C25. Every command sends at most one request, and its exit status can be
    trusted: 0 only after the server was reached and answered 200; 2, for
    flags that do not parse, only when nothing was sent and nothing printed;
    1 in every other case. *)
Theorem commands_exit name cmd args :
  commands send env !! name = Some cmd → exits (cmd args).
Proof.
  intros Hcmd%elem_of_list_to_map_2.
  repeat (apply elem_of_cons in Hcmd as [[= -> ->]|Hcmd]); [..|by apply elem_of_nil in Hcmd].
  - apply exits_with_flags. intros api. apply exits_with_api. intros c.
    apply exits_finish; [by eapply call_one|intros _; apply prints_puts].
  - apply exits_with_flags. intros api. apply exits_with_api. intros c.
    apply exits_finish; [by eapply call_one|intros l; apply prints_puts].
  - apply exits_with_name. intros n l. apply exits_with_flags. intros api. apply exits_with_api.
    intros c. apply exits_finish; [by eapply call_one|]. intros st out w.
    destruct (print_stack st); [|done..]. apply prints_puts.
  - apply exits_with_name. intros n l. apply exits_with_flags. intros f. apply exits_with_api.
    intros c. apply exits_announced; [by eapply call_one|intros _; apply prints_puts].
  - apply exits_with_flags. intros [api file]. apply exits_with_api. intros c.
    destruct (ReadFile env file); [|apply exits_fail].
    apply exits_finish; [by eapply call_one|intros _; apply prints_puts].
  - apply exits_with_name. intros n l. apply exits_with_flags. intros [api force]. apply exits_with_api.
    intros c. apply exits_announced; [by eapply call_one|intros _; apply prints_puts].
  - apply exits_with_flags. intros [[api n] admin]. apply exits_with_api. intros c.
    apply exits_finish; [apply request_one|intros k; apply prints_puts].
  - apply exits_with_flags. intros [api n]. apply exits_with_api. intros c.
    apply exits_finish; [apply request_one|intros k; apply prints_puts].
  - apply exits_with_flags. intros f. apply exits_with_api. intros c.
    destruct (ReadFile env (layer_file f)); [|apply exits_fail].
    apply exits_finish; [by eapply call_one|intros _; apply prints_puts].
  - apply exits_with_flags. intros [api remove]. apply exits_with_api. intros c.
    destruct (remove =? -1)%Z.
    + apply exits_finish; [eapply call_one; [done|]|apply prints_tasks].
      intros a w. simpl. by destruct (parse_document a).
    + apply exits_finish; [apply request_one|intros k; apply prints_puts].
Qed.
End exits.

(** ** Running a stack from the command line *)
Section run.
Context `{rx : Regexp}.

(** A command line for [run]. *)
Definition run_line (api zone : string) (maxWait : Z) (variables : list (string * string))
    (skip : list string) : list string :=
  ["--api"; api; "--zone"; zone; "--max.wait"; Itoa maxWait] ++
  (variables ≫= λ '(k, x), ["--var"; k +:+ "=" +:+ x]) ++ (skip ≫= λ p, ["--skip"; p]).
(** What can be written on it. *)
Definition writable (maxWait : Z) (variables : list (string * string)) (skip : list string) : Prop :=
  in_int64 maxWait = true ∧ Forall (λ kx, Contains kx.1 "=" = false) variables ∧
  Forall (λ p, is_ret (Compile p) = true) skip.

Lemma parse_skips skip f :
  Forall (λ p, is_ret (Compile p) = true) skip →
  Parse run_flag_set (skip ≫= λ p, ["--skip"; p]) f =
    Some (MkRunFlags (run_api f) (run_zone f) (run_maxWait f) (run_variables f) (run_skip f ++ skip)).
Proof.
  intros Hs. revert f. induction Hs as [|p skip Hp _ IH]; intros f.
  { rewrite /= app_nil_r. by destruct f. }
  cbn [mbind list_bind app Parse]. change (read_argument "--skip") with (Flag "skip" None).
  cbn [run_flag_set lookup_flag String.eqb Ascii.eqb Bool.eqb]. rewrite /skipApplications_Set.
  destruct (Compile p); [|done..]. simpl. rewrite IH /=. by rewrite -app_assoc.
Qed.

Lemma parse_vars variables rest f :
  Forall (λ kx, Contains kx.1 "=" = false) variables →
  Parse run_flag_set ((variables ≫= λ '(k, x), ["--var"; k +:+ "=" +:+ x]) ++ rest) f =
    Parse run_flag_set rest (MkRunFlags (run_api f) (run_zone f) (run_maxWait f)
      (insert_all variables (run_variables f)) (run_skip f)).
Proof.
  intros Hv. revert f. induction Hv as [|[k x] l Hk _ IH]; intros f; [by destruct f|].
  cbn [mbind list_bind app Parse]. change (read_argument "--var") with (Flag "var" None).
  cbn [run_flag_set lookup_flag String.eqb Ascii.eqb Bool.eqb].
  rewrite vars_Set_ok //. simpl. by rewrite IH.
Qed.

Lemma parse_run_line api zone maxWait variables skip :
  writable maxWait variables skip →
  Parse run_flag_set (run_line api zone maxWait variables skip)
    (MkRunFlags "" "" defaultApplicationMaxWait ∅ []) =
  Some (MkRunFlags api zone maxWait (insert_all variables ∅) skip).
Proof.
  intros (Hm & Hv & Hs). rewrite /run_line. cbn [app Parse].
  change (read_argument "--api") with (Flag "api" None).
  change (read_argument "--zone") with (Flag "zone" None).
  change (read_argument "--max.wait") with (Flag "max.wait" None).
  cbn [run_flag_set lookup_flag String.eqb Ascii.eqb Bool.eqb StringFlag IntFlag].
  cbn [mbind option_bind]. rewrite ParseInt0_Itoa //. cbn [fmap option_fmap option_map].
  cbn [mbind option_bind run_api run_zone run_maxWait run_variables run_skip].
  rewrite parse_vars // parse_skips //.
Qed.
End run.

Section end_to_end.
Context `{ord : MapOrder} `{rx : Regexp} `{rs : Runners} `{Texts} {Sto P U SS C : Type}
  `{Storage Sto P} `{UserStorage U} `{StateStorage SS} `{Server.Scheduler C} `{StackRunner SS C}
  `{!StateStorageLaws SS}.
Context (globalVariables : gmap string string) (env : environment).
Implicit Types (s : server Sto U SS C).

Lemma with_api_given api message run :
  api ≠ "" → with_api (W := server Sto U SS C) env api message run =
    run (Client.NewClient api (SD_USER env) (SD_KEY env)).
Proof. intros Ha. rewrite /with_api /resolveApi. by destruct (String.eqb_spec api ""). Qed.

Lemma finish_zero {A} message (m : M (server Sto U SS C) error A) success out s r :
  finish message m success (out, s) = (Ret 0%Z, r) → ∃ a s', m s = (Ret a, s') ∧
    success a (out, s') = (Ret 0%Z, r).
Proof.
  rewrite /finish /call /mbind /M_mbind. destruct (m s) as [[a|e|p] s'] eqn:E; [|done..].
  intros Hs. by exists a, s'.
Qed.

(** The call of the server that a successful [run] made. *)
Lemma run_command_runs name api zone maxWait variables skip out s out' s' :
  let rq := {| rr_Name := name; rr_Zone := zone; rr_MaxWait := maxWait;
               rr_Variables := insert_all variables ∅; rr_SkipApplications := skip |} in
  api ≠ "" → writable maxWait variables skip → reads_back (encode_run rq) →
  RunCommand_Run (reach globalVariables) env (name :: run_line api zone maxWait variables skip) (out, s) =
    (Ret 0%Z, (out', s')) →
  (∃ u, CheckKey (SD_USER env) (SD_KEY env) (sv_userStorage s) = (Ret true, u)) ∧
  ∃ s1, runStack rq (request_variables globalVariables rq) s1 = (Ret tt, s').
Proof.
  intros rq Hapi Hw Hback. rewrite /RunCommand_Run /with_name /with_flags parse_run_line //.
  rewrite with_api_given //. rewrite /mbind /M_mbind /Println /puts.
  intros (a & s2 & Hrun & Hout)%finish_zero. simpl in Hout. injection Hout as _ <-. destruct a.
  by apply (client_runs globalVariables (Client.NewClient api (SD_USER env) (SD_KEY env)) rq s s2
    (proj1 Hw) Hback).
Qed.

(** From the command line to the state storage: whatever address, zone,
    waiting time, variables and patterns are given to [stack-deploy run] - the
    values of variables may contain equals signs, a variable given twice has
    the last value - the request is made of exactly these; and when the command
    ends with status 0, the key of its user was valid on the server, the stack
    is saved there as running, and so is every application of the stack that
    was run, but for those that match a pattern. *)
Theorem run_command name api zone maxWait variables skip out s out' s' :
  let rq := {| rr_Name := name; rr_Zone := zone; rr_MaxWait := maxWait;
               rr_Variables := insert_all variables ∅; rr_SkipApplications := skip |} in
  api ≠ "" → writable maxWait variables skip →
  runs_stacks (SS := SS) (C := C) rq → reads_back (encode_run rq) →
  RunCommand_Run (reach globalVariables) env (name :: run_line api zone maxWait variables skip) (out, s) =
    (Ret 0%Z, (out', s')) →
  (∃ u, CheckKey (SD_USER env) (SD_KEY env) (sv_userStorage s) = (Ret true, u)) ∧
  stack_status (sv_stateStorage s') name zone = Some (StackStatus_code StackStatusRunning) ∧
  ∃ s1 stack, ran (U := U) rq s1 stack ∧ ∀ k a, Stk.apps stack !! k = Some a →
    skipped stack skip (App.ID a) ∨
    app_status (sv_stateStorage s') name zone (App.ID a) =
      Some (ApplicationStatus_code ApplicationStatusRunning).
Proof.
  intros rq Hapi Hw Hruns Hback Hrun.
  destruct (run_command_runs _ _ _ _ _ _ _ _ _ _ Hapi Hw Hback Hrun) as (Hu & s1 & Hr).
  destruct (runStack_saved rq _ s1 s' Hruns Hr) as (Hsaved & stack & Hran & Happs).
  split_and!; [done|done|]. by exists s1, stack.
Qed.
End end_to_end.

(** ** Concrete commands *)
Section examples.
#[local] Existing Instance ex_regexp.
#[local] Existing Instance ex_runners.
#[local] Existing Instance canonical_order.
#[local] Existing Instance ex_stacks.
#[local] Existing Instance ex_scheduler_ops.
#[local] Existing Instance ConcreteTables.tables_ops.
#[local] Existing Instance ConcreteTables.tables_laws.
#[local] Existing Instance CassandraStateStorage.ops.
#[local] Existing Instance CassandraStateStorage.laws.
#[local] Existing Instance ex_run_tables.
#[local] Existing Instance NoopUserStorage.ops.

Definition ex_environment : environment := MkEnvironment "" "admin" "key-1" (λ _, None) "1s".
Definition ex_command_request : RunRequest :=
  {| rr_Name := "dev"; rr_Zone := ""; rr_MaxWait := 10; rr_Variables := {["a" := "b=c"]};
     rr_SkipApplications := [] |}.
#[local] Instance ex_command_texts : Texts := ex_texts (encode_run ex_command_request).
Definition ex_command :=
  RunCommand_Run (reach (U := unit) ∅) ex_environment
    ("dev" :: run_line "localhost:4200" "" 10 [("a", "b=c")] []) ("", ex_server).

Lemma ex_command_runs : runs_stacks (SS := ConcreteTables.tables) (C := unit) ex_command_request.
Proof.
  intros stack ss c v. pose proof (ideal_run_ends stack ex_command_request ss) as Hi. simpl.
  by destruct (ideal_run stack ex_command_request ss) as [r ss'].
Qed.

Lemma run_command_witness :
  ex_command.1 = Ret 0%Z ∧
  stack_status (sv_stateStorage ex_command.2.2) "dev" "" = Some (StackStatus_code StackStatusRunning).
Proof.
  assert (ex_command.1 = Ret 0%Z) as Hr by by vm_compute.
  split; [exact Hr|]. destruct ex_command as [r [out' s']] eqn:E. simpl in Hr. subst r.
  destruct (run_command ∅ ex_environment "dev" "localhost:4200" "" 10 [("a", "b=c")] [] "" ex_server out' s')
    as (_ & Hs & _); [done| |apply ex_command_runs|reflexivity|exact E|exact Hs].
  split_and!; [reflexivity|by repeat constructor|constructor].
Defined.

Lemma commands_exit_witness :
  (ScheduledCommand_Run (reach (U := unit) ∅) ex_environment ["--remove"; "soon"] ("", ex_server)).1 = Ret 2%Z ∧
  (ScheduledCommand_Run (reach (U := unit) ∅) ex_environment ["--remove"; "soon"] ("", ex_server)).2 =
    ("", ex_server).
Proof.
  assert ((ScheduledCommand_Run (reach (U := unit) ∅) ex_environment ["--remove"; "soon"] ("", ex_server)).1 =
    Ret 2%Z) as Hr by reflexivity.
  split; [exact Hr|].
  pose proof (commands_exit (reach (U := unit) ∅) ex_environment "scheduled"
    (ScheduledCommand_Run (reach (U := unit) ∅) ex_environment) ["--remove"; "soon"] eq_refl "" ex_server) as He.
  destruct (ScheduledCommand_Run _ _ _ _) as [r [out' w']]. simpl in Hr. subst r.
  destruct He as [[-> He]|(h & rq & _ & He)].
  - destruct (He 2%Z eq_refl) as [|[_ ->]]; [discriminate|reflexivity].
  - destruct (He 2%Z eq_refl) as [|[? _]]; discriminate.
Defined.
End examples.
