(* ===== verification/ServerStart.v ===== *)
(** Starting the server: [ServerCommand.Run] of [command/server.go], its flags
    included, up to where it serves requests; what bootstrapping a stack amounts
    to, and what a restarted server tells Mesos. *)
From S2P Require Import Prelude GoStrings Errors Json Variables Data Constraints Application.
From S2P Require Import Strconv Flags StateStorage FrameworkStorage StackRun StackRunFacts.
From S2P Require Import MesosState MesosRunner Scheduler SchedulerFacts Server ServerFacts Requests Client Commands.
From Stdlib Require Import Ascii Lia.
Open Scope string_scope.
Open Scope list_scope.

(** ** The command line

    Durations are in nanoseconds; the configuration of the scheduler is filled
    in by its own flags. *)
Record start_flags : Type := MkStart {
  marathonURL : string;
  persistentStorage : string;
  api : string;
  bootstrap : string;
  cassandra : string;
  keyspace : string;
  proto : Z;
  connectRetries : Z;
  connectBackoff : Z;
  debug : bool;
  dev : bool;
  variables : gmap string string;
  schedulerConfig : SchedulerConfig
}.
Definition default_flags : start_flags :=
  MkStart "http://127.0.0.1:8080" "" "0.0.0.0:4200" "" "127.0.0.1" "stack_deploy" 3 10 (10 * 10 ^ 9)
    false false ∅
    (MkConfig "127.0.0.1:5050" "" "stack-deploy" "*" (168 * 3600 * 10 ^ 9)).
(** A flag of the scheduler. *)
Definition configure {A} (set : A → SchedulerConfig → SchedulerConfig) (v : A)
    '(MkStart a b c d e f g h i j k l config) : start_flags :=
  MkStart a b c d e f g h i j k l (set v config).
Definition start_flag_set : flag_set start_flags :=
  [("marathon", StringFlag (λ v '(MkStart a b c d e f g h i j k l m),
      MkStart v b c d e f g h i j k l m));
   ("storage", StringFlag (λ v '(MkStart a b c d e f g h i j k l m),
      MkStart a v c d e f g h i j k l m));
   ("api", StringFlag (λ v '(MkStart a b c d e f g h i j k l m),
      MkStart a b v d e f g h i j k l m));
   ("bootstrap", StringFlag (λ v '(MkStart a b c d e f g h i j k l m),
      MkStart a b c v e f g h i j k l m));
   ("cassandra", StringFlag (λ v '(MkStart a b c d e f g h i j k l m),
      MkStart a b c d v f g h i j k l m));
   ("keyspace", StringFlag (λ v '(MkStart a b c d e f g h i j k l m),
      MkStart a b c d e v g h i j k l m));
   ("proto", IntFlag (λ n '(MkStart a b c d e f g h i j k l m),
      MkStart a b c d e f n h i j k l m));
   ("connect.retries", IntFlag (λ n '(MkStart a b c d e f g h i j k l m),
      MkStart a b c d e f g n i j k l m));
   ("connect.backoff", DurationFlag (λ n '(MkStart a b c d e f g h i j k l m),
      MkStart a b c d e f g h n j k l m));
   ("debug", BoolFlag (λ x '(MkStart a b c d e f g h i j k l m),
      MkStart a b c d e f g h i x k l m));
   ("dev", BoolFlag (λ x '(MkStart a b c d e f g h i j k l m),
      MkStart a b c d e f g h i j x l m));
   ("var", ValueFlag (λ v '(MkStart a b c d e f g h i j k l m),
      (λ l, MkStart a b c d e f g h i j k l m) <$> vars_Set v l));
   ("master", StringFlag (configure (λ v '(MkConfig _ u n r t), MkConfig v u n r t)));
   ("framework.user", StringFlag (configure (λ v '(MkConfig m _ n r t), MkConfig m v n r t)));
   ("framework.name", StringFlag (configure (λ v '(MkConfig m u _ r t), MkConfig m u v r t)));
   ("framework.role", StringFlag (configure (λ v '(MkConfig m u n _ t), MkConfig m u n v t)));
   ("failover.timeout", DurationFlag (configure (λ v '(MkConfig m u n r _), MkConfig m u n r v)))].

(** [strings.Split(s, ",")]. *)
Fixpoint split_from (s acc : string) : list string :=
  match s with
  | EmptyString => [acc]
  | String c s' =>
      if Ascii.eqb c "," then acc :: split_from s' "" else split_from s' (acc +:+ String c "")
  end.
Definition Split (s : string) : list string := split_from s "".

(** The stores the server works on: those of development mode, or Cassandra's,
    with the key of the administrator if it was just created. *)
Inductive stores : Type :=
| Development
| Production (addresses : list string) (key : string).

(** What a server that is up works with: its address, the client of Marathon,
    the global variables, and its scheduler, with the configuration, the
    storage and the view of the cluster it shares. *)
Record service (Marathon C : Type) : Type := MkService {
  svc_api : string;
  svc_marathon : option Marathon;
  svc_globals : gmap string string;
  svc_scheduler : C;
  svc_config : SchedulerConfig;
  svc_storage : FrameworkStorage;
  svc_stores : stores
}.
Arguments MkService {Marathon C}.
Arguments svc_api {Marathon C}.
Arguments svc_marathon {Marathon C}.
Arguments svc_globals {Marathon C}.
Arguments svc_scheduler {Marathon C}.
Arguments svc_config {Marathon C}.
Arguments svc_storage {Marathon C}.
Arguments svc_stores {Marathon C}.

(** How [Run] ends: with an exit status, with a panic, or serving requests
    until it is interrupted. *)
Inductive start_result (Marathon C : Type) : Type :=
| Exits (status : Z)
| Dies (message : string)
| Serves (s : service Marathon C).
Arguments Exits {Marathon C}.
Arguments Dies {Marathon C}.
Arguments Serves {Marathon C}.

(** [NewApiServer] drops the scheme of the address. *)
Definition NewApiServer {Marathon C} (address : string) (marathon : option Marathon)
    (globals : gmap string string) (scheduler : C) (config : SchedulerConfig)
    (storage : FrameworkStorage) (s : stores) : service Marathon C :=
  let address := if HasPrefix address "http://" then drop_str (String.length "http://") address
                 else address in
  MkService address marathon globals scheduler config storage s.
(** [StackDeployServer.Start], but for its routes ([Server.routes]): the
    scheduler is started, then requests are served; [listen] returns when it
    fails. *)
Definition api_Start {Marathon C} (svc : service Marathon C)
    (new_driver : FrameworkInfo → string → option error) (listen : string → option error) :
    result unit :=
  match Scheduler.Start (svc_config svc) (svc_storage svc) new_driver with
  | Ret _ => match listen (svc_api svc) with None => Ret tt | Some e => Panic (Error e) end
  | Err e => Panic (Error e)
  | Panic p => Panic p
  end.

Section start.
Context `{ord : MapOrder} `{DocumentStorage T} {C Marathon : Type}
  `{StackRunner InMemoryStateStorage.states C}.
(** The attempts to reach Marathon at an address; the answer of the Mesos
    master; a new scheduler; reading and parsing a stack file; which errors mean
    that Marathon is down. *)
Context (newMarathonClient : string → nat → error + Marathon)
  (http_get : string → result (option json))
  (NewScheduler : SchedulerConfig → FrameworkStorage → MesosClusterState → C)
  (stack_file : string → result Stack) (down : string → bool).
(** Connecting to a keyspace of Cassandra, with retries: a nil error with a
    session or, with no attempt at all, without one. Then the tables of users -
    a new key, or none - and of states are created. *)
Context (connect_cassandra : list string → string → Z → Z → result bool)
  (init_users : string → result string) (init_states : string → result unit).

Fixpoint connect_loop (url : string) (i n : nat) (err : option error) : result (option Marathon) :=
  match n with
  | O => match err with None => Ret None | Some e => Err e end
  | S n' =>
      match newMarathonClient url i with
      | inr client => Ret (Some client)
      | inl e => connect_loop url (S i) n' (Some e)
      end
  end.
Definition connectMarathon (url : string) (retries : Z) : result (option Marathon) :=
  connect_loop url 0 (Z.to_nat retries) None.

(** The storage a server falls back on in development mode. *)
Definition storage_of (f : start_flags) : option string :=
  if negb (String.eqb (persistentStorage f) "") then Some (persistentStorage f)
  else if negb (dev f) then None else Some "file:stack-deploy.json".

(** The context to go on with: the one in the persistent storage, unless it is
    empty, or that of a run of the stack. *)
Definition bootstrap_context (f : start_flags) (storage : FrameworkStorage) (scheduler : C) :
    result Variables * C :=
  match BootstrapContext storage with
  | Some v =>
      if (0 <? size (All v))%nat then (Ret v, scheduler)
      else Bootstrap down (stack_file (bootstrap f)) (connectRetries f) scheduler
  | None => Bootstrap down (stack_file (bootstrap f)) (connectRetries f) scheduler
  end.
(** [{name}] in the addresses of Cassandra stands for a variable. *)
Definition resolve_cassandra (v : Variables) (addresses : string) : string :=
  foldl (λ a '(k, x), Replace a ("{" +:+ k +:+ "}") x) addresses (range 0 (All v)).

Definition open_stores (f : start_flags) (addresses : string) : result stores :=
  if dev f then Ret Development
  else
    match connect_cassandra (Split addresses) (keyspace f) (connectRetries f) (proto f) with
    | Ret true =>
        match init_users (keyspace f) with
        | Ret key =>
            match init_states (keyspace f) with
            | Ret _ => Ret (Production (Split addresses) key)
            | Err e => Panic (Error e)
            | Panic p => Panic p
            end
        | Err e => Panic (Error e)
        | Panic p => Panic p
        end
    | Ret false => Panic nil_dereference
    | Err e => Panic (Error e)
    | Panic p => Panic p
    end.
(** In development mode the framework is not kept when the server goes away. *)
Definition final_config (f : start_flags) : SchedulerConfig :=
  if dev f then
    let config := schedulerConfig f in
    MkConfig (Master config) (cfg_User config) (FrameworkName config) (FrameworkRole config) 0
  else schedulerConfig f.
Definition serve_with (f : start_flags) (marathon : option Marathon) (scheduler : C)
    (storage : FrameworkStorage) (addresses : string) : start_result Marathon C :=
  match open_stores f addresses with
  | Ret s =>
      Serves (NewApiServer (api f) marathon (variables f) scheduler (final_config f) storage s)
  | Err e => Dies (Error e)
  | Panic p => Dies p
  end.

(** [Run] from the parsed flags on. *)
Definition start_server (f : start_flags) (t : T) : start_result Marathon C * T :=
  match connectMarathon (marathonURL f) (connectRetries f) with
  | Err _ => (Exits 1, t)
  | Panic p => (Dies p, t)
  | Ret marathon =>
      match storage_of f with
      | None => (Exits 1, t)
      | Some kind =>
          match NewStorage kind with
          | Err _ => (Exits 1, t)
          | Panic p => (Dies p, t)
          | Ret _ =>
              match Load NewFrameworkStorage t with
              | Err e => (Dies (Error e), t)
              | Panic p => (Dies p, t)
              | Ret storage =>
                  match Update http_get (NewMesosClusterState (Master (schedulerConfig f))) with
                  | Err _ => (Exits 1, t)
                  | Panic p => (Dies p, t)
                  | Ret mesos =>
                      let scheduler := NewScheduler (schedulerConfig f) storage mesos in
                      if String.eqb (bootstrap f) "" then
                        (serve_with f marathon scheduler storage (cassandra f), t)
                      else
                        let '(context, scheduler) := bootstrap_context f storage scheduler in
                        match context with
                        | Err _ => (Exits 1, t)
                        | Panic p => (Dies p, t)
                        | Ret context =>
                            let storage := MkFrameworkStorage (FrameworkID storage) (Some context) in
                            (serve_with f marathon scheduler storage
                               (resolve_cassandra context (cassandra f)), Save storage t)
                        end
                  end
              end
          end
      end
  end.
Definition Run (args : list string) (t : T) : start_result Marathon C * T :=
  match Parse start_flag_set args default_flags with
  | Some f => start_server f t
  | None => (Exits 2, t)
  end.
End start.

(** ** Starting with a stack to bootstrap from *)
Section started.
Context `{ord : MapOrder} `{rx : Regexp} `{rs : Runners} `{DocumentStorage T} {C Marathon : Type}.
#[local] Existing Instance InMemoryStateStorage.ops.
#[local] Existing Instance InMemoryStateStorage.laws.
Context `{!StackRunner InMemoryStateStorage.states C}.
Context (newMarathonClient : string → nat → error + Marathon)
  (http_get : string → result (option json))
  (NewScheduler : SchedulerConfig → FrameworkStorage → MesosClusterState → C)
  (stack_file : string → result Stack) (down : string → bool)
  (connect_cassandra : list string → string → Z → Z → result bool)
  (init_users : string → result string) (init_states : string → result unit).
Abbreviation run := (Run newMarathonClient http_get NewScheduler stack_file down connect_cassandra
  init_users init_states).
Abbreviation served_by := (start_server newMarathonClient http_get NewScheduler stack_file down
  connect_cassandra init_users init_states).
Abbreviation boot := (bootstrap_context stack_file down).

Lemma open_stores_inv f addresses s :
  open_stores connect_cassandra init_users init_states f addresses = Ret s →
  if dev f then s = Development
  else ∃ key, init_users (keyspace f) = Ret key ∧ s = Production (Split addresses) key.
Proof.
  rewrite /open_stores. destruct (dev f); [by intros [= <-]|].
  destruct (connect_cassandra _ _ _ _) as [[]|e|p]; [|done..].
  destruct (init_users _) as [key|e|p]; [|done..]. destruct (init_states _); [|done..].
  intros [= <-]. by exists key.
Qed.
Lemma serve_with_inv f marathon scheduler storage addresses svc :
  serve_with (Marathon := Marathon) (C := C) connect_cassandra init_users init_states
    f marathon scheduler storage addresses = Serves svc →
  ∃ s, open_stores connect_cassandra init_users init_states f addresses = Ret s ∧
    svc = NewApiServer (api f) marathon (variables f) scheduler (final_config f) storage s.
Proof.
  rewrite /serve_with. destruct (open_stores _ _ _ _ _) as [s|e|p]; [|done..].
  intros [= <-]. by exists s.
Qed.

(** What a server that serves went through. *)
Lemma served f t svc t' :
  served_by f t = (Serves svc, t') →
  ∃ marathon mesos loaded storage addresses s scheduler,
    connectMarathon newMarathonClient (marathonURL f) (connectRetries f) = Ret marathon ∧
    Update http_get (NewMesosClusterState (Master (schedulerConfig f))) = Ret mesos ∧
    Load NewFrameworkStorage t = Ret loaded ∧
    open_stores connect_cassandra init_users init_states f addresses = Ret s ∧
    svc = NewApiServer (api f) marathon (variables f) scheduler (final_config f) storage s ∧
    if String.eqb (bootstrap f) "" then storage = loaded ∧ addresses = cassandra f ∧ t' = t
    else ∃ v, (boot f loaded (NewScheduler (schedulerConfig f) loaded mesos)).1 = Ret v ∧
      storage = MkFrameworkStorage (FrameworkID loaded) (Some v) ∧
      addresses = resolve_cassandra v (cassandra f) ∧ t' = Save storage t.
Proof.
  rewrite /start_server.
  destruct (connectMarathon _ _ _) as [marathon|e|p]; [|done..].
  destruct (storage_of f) as [kind|]; [|done]. destruct (NewStorage kind); [|done..].
  destruct (Load NewFrameworkStorage t) as [loaded|e|p] eqn:El; [|done..].
  destruct (Update http_get _) as [mesos|e|p] eqn:Em; [|done..].
  exists marathon, mesos, loaded. revert H0. destruct (String.eqb (bootstrap f) "") eqn:Eb.
  - intros [= (s & Hs & ->)%serve_with_inv <-]. by eauto 20.
  - destruct (bootstrap_context _ _ f loaded _) as [[v|e|p] scheduler]; [|done..].
    intros [= (s & Hs & ->)%serve_with_inv <-]. by eauto 20.
Qed.

Lemma Bootstrap_fails file retries (scheduler : C) v :
  runs_stacks (SS := InMemoryStateStorage.states) (C := C) bootstrap_request →
  (0 < retries)%Z → (Bootstrap down file retries scheduler).1 ≠ Ret v.
Proof.
  intros Hruns Hr. rewrite /Bootstrap. destruct file as [stack|e|p]; [|done..].
  pose proof (bootstrap_loop_fails down stack (Z.to_nat retries) None scheduler NewVariables Hruns
    ltac:(lia)) as Hf. intros Hb.
  destruct (bootstrap_loop down (Z.to_nat retries) None stack _) as [[[]|e|p] [[ss c] v']]; done.
Qed.
Lemma bootstrap_context_restored f storage (scheduler : C) v :
  runs_stacks (SS := InMemoryStateStorage.states) (C := C) bootstrap_request →
  (0 < connectRetries f)%Z → (boot f storage scheduler).1 = Ret v →
  BootstrapContext storage = Some v ∧ All v ≠ ∅.
Proof.
  intros Hruns Hr. rewrite /bootstrap_context.
  destruct (BootstrapContext storage) as [v0|]; [|by intros Hv%Bootstrap_fails].
  destruct (0 <? size (All v0))%nat eqn:E; [|by intros Hv%Bootstrap_fails].
  intros [= <-]. split; [done|]. intros He. by rewrite He map_size_empty in E.
Qed.

(** C27. A server told to bootstrap from a stack, with at least one attempt,
    serves requests only if the context of an earlier bootstrap was read from
    its persistent storage: it never gets there by running the stack. It then
    goes on with exactly that context, which is saved again and whose variables
    are put into the addresses of Cassandra; in production it also has the
    key of the user storage. *)
Theorem bootstrapped_server args f t svc t' :
  runs_stacks (SS := InMemoryStateStorage.states) (C := C) bootstrap_request →
  Parse start_flag_set args default_flags = Some f →
  bootstrap f ≠ "" → (0 < connectRetries f)%Z →
  run args t = (Serves svc, t') →
  ∃ loaded v, Load NewFrameworkStorage t = Ret loaded ∧ BootstrapContext loaded = Some v ∧
    All v ≠ ∅ ∧ svc_storage svc = MkFrameworkStorage (FrameworkID loaded) (Some v) ∧
    t' = Save (svc_storage svc) t ∧
    if dev f then svc_stores svc = Development
    else ∃ key, init_users (keyspace f) = Ret key ∧
      svc_stores svc = Production (Split (resolve_cassandra v (cassandra f))) key.
Proof.
  intros Hruns Hp Hb Hr. rewrite /Run Hp.
  intros (marathon & mesos & loaded & storage & addresses & s & scheduler & _ & _ & Hl & Hs & -> &
    Hrest)%served.
  destruct (String.eqb_spec (bootstrap f) ""); [done|].
  destruct Hrest as (v & Hv & -> & -> & ->).
  apply bootstrap_context_restored in Hv as [Hv Hne]; [|done..].
  exists loaded, v. split_and!; [done..|]. by apply open_stores_inv in Hs.
Qed.

Lemma address_of_flag address (marathon : option Marathon) globals (scheduler : C) config storage s :
  let svc := NewApiServer address marathon globals scheduler config storage s in
  svc_api svc = address ∨ "http://" +:+ svc_api svc = address.
Proof.
  rewrite /NewApiServer. destruct (HasPrefix address "http://") eqn:E; [|by left].
  apply str_prefix_inv in E as [rest ->]. right. cbn [svc_api]. by rewrite drop_str_app.
Qed.

(** C29. A server that is started again, whatever its flags, with the storage
    that Mesos's registration of the framework was saved to: if it serves, it
    introduces itself to Mesos as the same framework, with the user, the name
    and the role of its flags; Mesos is told to keep the framework's tasks for
    the time of its flags, in whole seconds, but not at all in development
    mode. It listens at the address it was given, but for a scheme. *)
Theorem restarted_server {R C'} id (s : scheduler R C' T) args svc t' :
  let t := Scheduler.document (Registered id s) in
  get t = inr (Some (Some (encode_storage (Scheduler.Storage (Registered id s))))) →
  run args t = (Serves svc, t') →
  ∃ f, Parse start_flag_set args default_flags = Some f ∧
    svc_globals svc = variables f ∧
    (svc_api svc = api f ∨ "http://" +:+ svc_api svc = api f) ∧
    framework_info (svc_config svc) (svc_storage svc) =
      MkFrameworkInfo (cfg_User (schedulerConfig f)) (FrameworkName (schedulerConfig f))
        (FrameworkRole (schedulerConfig f))
        (if dev f then float_zero
         else float_of (Z.quot (FailoverTimeout (schedulerConfig f)) (10 ^ 9)) 0) true
        (if decide (id = "") then None else Some id).
Proof.
  intros t Hget. rewrite /Run.
  destruct (Parse start_flag_set args default_flags) as [f|] eqn:Hp; [|done].
  intros (marathon & mesos & loaded & storage & addresses & sts & scheduler & _ & _ & Hl & _ & -> &
    Hrest)%served.
  rewrite (Load_registered id s Hget) in Hl. injection Hl as <-.
  assert (FrameworkID storage = id) as Hid.
  { destruct (String.eqb (bootstrap f) ""); [by destruct Hrest as [-> _]|].
    by destruct Hrest as (v & _ & -> & _). }
  exists f. split_and!; [done|done|by apply address_of_flag|].
  rewrite /framework_info /= Hid /final_config.
  by destruct (dev f), (String.eqb_spec id ""); case_decide.
Qed.
End started.

(** ** A concrete start *)
Section examples.
#[local] Existing Instance ex_regexp.
#[local] Existing Instance ex_runners.
#[local] Existing Instance canonical_order.
#[local] Existing Instance ex_run_memory.

(** The persistent storage is a document, or nothing. *)
#[local] Instance ex_documents : DocumentStorage (option json) := {|
  put j _ := Some j;
  get t := inr (Some <$> t)
|}.
Definition ex_args : list string :=
  ["-storage"; "file:stack-deploy.json"; "--bootstrap=Stackfile"; "--cassandra";
   "{cassandra.host},10.0.0.2"; "--api"; "http://0.0.0.0:80"; "-failover.timeout"; "1h30m0.5s"].
Definition ex_flags : start_flags :=
  Eval vm_compute in default default_flags (Parse start_flag_set ex_args default_flags).
Lemma ex_parse : Parse start_flag_set ex_args default_flags = Some ex_flags.
Proof. by vm_compute. Qed.
Definition ex_context : Variables := SetStackVariable "cassandra.host" "10.0.0.1" NewVariables.
Definition ex_start (args : list string) (t : option json) :
    start_result unit unit * option json :=
  Run (λ _ _, inr tt) (λ _, Ret (Some (JObj []))) (λ _ _ _, tt) (λ _, Ret ex_stack)
    (λ _, false) (λ _ _ _ _, Ret true) (λ _, Ret "") (λ _, Ret tt) args t.

Definition ex_stored : FrameworkStorage := MkFrameworkStorage "id" (Some ex_context).
Definition ex_scheduler : scheduler unit unit (option json) :=
  MkScheduler ∅ tt [] (MkFrameworkStorage "" (Some ex_context)) None false.
Definition ex_document : option json := Scheduler.document (Registered "id" ex_scheduler).
Lemma ex_saved :
  get ex_document = inr (Some (Some (encode_storage (Scheduler.Storage (Registered "id" ex_scheduler))))).
Proof. reflexivity. Qed.
Definition serves (o : start_result unit unit) : option (service unit unit) :=
  match o with Serves s => Some s | _ => None end.
Definition ex_stores (o : start_result unit unit) : option stores := svc_stores <$> serves o.
Lemma ex_load : Load NewFrameworkStorage ex_document = Ret ex_stored.
Proof. by vm_compute. Qed.

Lemma ex_serves o t' :
  ex_start ex_args ex_document = (o, t') →
  ex_stores o = Some (Production ["10.0.0.1"; "10.0.0.2"] "").
Proof. intros E. apply (f_equal (λ x, ex_stores x.1)) in E. rewrite -E. by vm_compute. Qed.

Lemma bootstrapped_server_witness :
  (ex_start ex_args None).1 = Exits 1 ∧
  ∃ svc t', ex_start ex_args ex_document = (Serves svc, t') ∧
    svc_stores svc = Production ["10.0.0.1"; "10.0.0.2"] "" ∧
    BootstrapContext (svc_storage svc) = Some ex_context.
Proof.
  split; [by vm_compute|].
  destruct (ex_start ex_args ex_document) as [o t'] eqn:E.
  pose proof (ex_serves o t' E) as Hs.
  destruct o as [| |svc]; [done..|]. injection Hs as Hs. exists svc, t'.
  split_and!; [reflexivity|exact Hs|].
  destruct (bootstrapped_server (λ _ _, inr tt) (λ _, Ret (Some (JObj []))) (λ _ _ _, tt)
    (λ _, Ret ex_stack) (λ _, false) (λ _ _ _ _, Ret true) (λ _, Ret "") (λ _, Ret tt)
    ex_args ex_flags ex_document svc t' (ex_memory_run_ends bootstrap_request))
    as (loaded & v & Hl & Hv & _ & -> & _); [exact ex_parse|discriminate|reflexivity|exact E|].
  rewrite ex_load in Hl. injection Hl as <-. symmetry. exact Hv.
Defined.

Lemma restarted_server_witness :
  ∃ svc t', ex_start ex_args ex_document = (Serves svc, t') ∧
    framework_info (svc_config svc) (svc_storage svc) =
      MkFrameworkInfo "" "stack-deploy" "*" (float_of 5400 0) true (Some "id").
Proof.
  destruct (ex_start ex_args ex_document) as [o t'] eqn:E.
  pose proof (ex_serves o t' E) as Hs.
  destruct o as [| |svc]; [done..|]. exists svc, t'. split; [reflexivity|].
  destruct (restarted_server (λ _ _, inr tt) (λ _, Ret (Some (JObj []))) (λ _ _ _, tt)
    (λ _, Ret ex_stack) (λ _, false) (λ _ _ _ _, Ret true) (λ _, Ret "") (λ _, Ret tt)
    "id" ex_scheduler ex_args svc t' ex_saved) as (f & Hf & _ & _ & Hi); [exact E|].
  rewrite Hi. rewrite ex_parse in Hf. injection Hf as <-. by vm_compute.
Defined.
End examples.
